(* ===== verification/_CoqProject ===== *)
-Q . S2P
Prelude.v
OrderedMap.v
Scatter.v
Protocol.v
Formats.v
Stats.v
Config.v
ConfigReader.v
RamBuffer.v
ShmHolder.v
Chunker.v
Sockets.v
Hdf5.v
DetWriter.v
MetaWriter.v
DetDriver.v
Recording.v
DriverStates.v
GfGeometry.v
Assembly.v
UdpRecv.v
UdpRecvGf.v
UdpRecvEg.v
UdpRecvJf.v
ModuleSync.v
StreamSync.v
MetadataSync.v
MetadataLoop.v
StreamForward.v
DelayFilter.v
Publishers.v
FileStore.v
BufferReader.v
ReplayStore.v
BufferDriver.v
ReplayThreads.v
Session.v
UdpTools.v
Ingest.v
Wiring.v
Bitshuffle.v
Wire.v
Simd.v
SimdRows.v
BigEndian.v
Bslz4.v
IoChain.v
H5Bitshuffle.v
Zstd.v
H5Blosc2.v
Compress.v
Arguments.v
ConvertLoop.v
ConvertGf.v
ConvertEg.v
ConvertJf.v
