(* ===== verification/Prelude.v ===== *)
(** * std_detector_buffer: a verification library

    The program is a set of processes on one or several hosts that take the UDP packets of a
    detector, assemble images in shared memory, and forward, filter, stream or store them.
    All sources are C++ and C below [src/source].  The processes of one detector are connected as
    follows; every arrow is a ZeroMQ stream of metadata, the pixels are in rings of shared
    memory that producer and consumer open under the same name.

    [std-udp-recv (one per module) -> std-data-convert (one per module) ->
     std-data-sync-module -> image stream]

    The image stream feeds [std-stream-send] / [std-stream-receive] / [std-data-sync-stream]
    (images over the network in parts), [std-delay-filter], [std-gf-filter],
    [std-live-stream], [std-metadata-stream], [std-data-compress] (a second ring with compressed
    images), [std-buffer-writer] and, to replay what it stored, [std-buffer-driver] with
    [std-buffer-reader], and the detector writers.  [std-array10-recv] and [std-bsread-recv]
    feed the image stream from other sources than detectors.  [std-udp-tools] records the packets of
    a detector and sends them again.

    ** Files, and what they model

    - [Prelude]: outcomes of C++ code ([Ret], [Throw], [Undef] for undefined behaviour),
      fixed-width integers, blocks of memory, little-endian integers; the notation [let!],
      the tactic [width], the rewrite base [width], the lemmas all files share.
    - [OrderedMap]: [std::map] with integer keys.  [Scatter]: loops that store cells or copy
      blocks, described cell by cell.
    - [Formats]: the packed structs of [core-buffer] and [detectors] with their bytes (class
      [Packed]; class [DetFrame] for the 64-byte detector frames).  [Protocol]: the protobuf
      messages; [Wire]: their fields on the wire, against the interface [Protobuf], and the buffers of the receivers.
    - [Stats]: the statistics collectors of [utils/stats] and of the services, with
      [print_stats].  [Config]: the geometry of [detector_config.cpp], [image_size_calc.cpp],
      [get_metadata_dtype.hpp].  [ConfigReader]: reading the configuration, against the interface
      [Json] of the JSON library, with [std::stoi].
    - [RamBuffer]: [ram_buffer.cpp] and [communicator.cpp]; POSIX shared memory is a table of
      named objects, a socket the list of messages sent.  [Sockets]: [buffer_utils.cpp] and
      the publishers' sockets.  [ShmHolder]: [shm-holder] and [std-chunk-sender].  [Chunker]:
      [std-data-chunker], over the results of the UCX calls.
    - [GfGeometry]: packet and frame sizes of the GigaFRoST.  [Assembly]: the abstract machine
      of frame assembly, and the interface (class [FrameReceiver]) the receivers implement.
      [UdpRecv], [UdpRecvGf], [UdpRecvEg], [UdpRecvJf]: the three receivers of [std-udp-recv].
    - [ModuleSync], [StreamSync], [MetadataSync]: the synchronizers of [std-data-sync];
      [MetadataLoop]: the threads of [std-data-sync-metadata].
    - [StreamForward]: [std-stream-send] and [std-stream-receive].  [DelayFilter]:
      [std-delay-filter].  [Publishers]: [std-live-stream], [std-gf-filter],
      [std-metadata-stream] and the stream headers.
    - [FileStore]: [FileHandler], [RedisHandler], the buffer writer, and the loader's part of
      the buffer reader.  [BufferReader]: the loader and the request thread of
      [std-buffer-reader] in every interleaving, against the interface [ImageStore];
      [ReplayStore]: [FileStore] implements it.  [BufferDriver]: the threads of a replay of
      [std-buffer-driver], with the reader, as a step relation; [ReplayThreads]: its process with any number of
      sessions and replays.  [Session]: a client's session with
      one of the two drivers ([socket_session.cpp], [process_api_message.cpp]), against the
      interface [Service].
    - [UdpTools]: [std-udp-tools] and [packet_udp_receiver.cpp].  [Ingest]: [std-array10-recv]
      and [std-bsread-recv].  [Wiring]: which rings and sockets the [main] functions of all
      services open.  [Arguments]: the arguments of all programs, against the interface [Argparse], and the level of the logger.
    - [Bitshuffle]: the portable routines of [external/bitshuffle/bitshuffle_core.c] and the
      interface [BitTransposer] they implement; [Simd], [SimdRows]: its routines for SSE2, NEON and
      AVX2, over the interface [VectorUnit], and the choice between them; [BigEndian]: the portable routines on a machine of either byte
      order; [Bslz4]: the chain of
      pointers, the division into blocks and the compression of blocks, against [BitTransposer] and
      the interface [Lz4]; [IoChain]: the chain with its locks and any number of threads; [H5Bitshuffle]: the HDF5 filter;
      [Zstd]: blocks and filter of a build with ZSTD, against the interface [Zstd]; [H5Blosc2]: that
      of [external/hdf5-blosc2]; [Compress]: the two services of
      [std-data-compress].
    - [Hdf5]: what the detector writers use of HDF5, as the interface [HDF5] with its laws
      [HDF5Laws].  [DetWriter], [MetaWriter]: [std-det-writer] and [std-det-meta-writer-gf].
      [DetDriver]: a run of [std-det-driver]; [Recording]: driver and writers together;
      [DriverStates]: the threads of the driver as a step relation.
    - [ConvertLoop]: the loop of the three converter services, proved against the interface
      [ImageConverter]; [ConvertGf], [ConvertEg], [ConvertJf]: the converters, which provide it.

    ** Correspondence

    Definitions keep the names of the code, with a prefix where several services use the same
    name ([gf_], [eg_], [jf_], or a Module per statistics collector).  A class becomes a
    record of its members, a constructor [X_new], a method a function from the record to the
    new record.  The body of a service's endless loop is one definition ([..._step]), what
    [main] does in front of it another one ([..._main]).  Clock readings, incoming messages,
    results of system and library calls are arguments.  Integers are [Z]: unsigned arithmetic
    is reduced ([u32], [u64]), signed arithmetic outside [int], division by zero, access
    outside a block, and dereferencing [end()] are [Undef].  A theorem that ends in [Ret _]
    therefore also says that the code stays inside the language and does not throw.

    ** What the theorems show

    The conditions of a theorem are in the comment in front of it, with the lemma that shows what the
    code does without them where there is one.

    - Receivers: over a stream of packet bursts in which a frame's last packet is not overtaken,
      exactly one message per frame, with the number of packets not received; a complete frame is delivered
      once, with its image in the slot of its id ([gf_receiver_stream], [gf_complete_frame_delivered], for modules
      of a multiple of 48 pixels, and [eg_receiver_stream], [jf_receiver_stream]).  The proofs are refinements of [Assembly]'s machine.
    - Geometry and sizes: packet payloads fit ([gf_packet_bounds], a lemma), receiver and converter
      agree on frame sizes ([gf_frame_sizes_agree], a lemma), slot size and announced pixel type agree
      ([converted_size_matches_dtype], a lemma).
    - Configuration: which configuration is read from which document ([describes]), that its fields fit their types, and
      which documents are undefined behaviour ([read_config_typed]); the sizes of its rings do not wrap
      ([ring_size_fits]), the holder of the shared memory maps the ring that the services open
      ([holder_keeps_ring]), and services that share a ring agree on its geometry, but for those of [own_geometry]
      ([services_agree_on_rings]); every socket that connects is served ([sockets_served]).  Every program but one takes its
      arguments at the types at which they are stored ([arguments_well_typed]; [udp_replay_never_starts] is about the other one), and
      what the services send to each other is found again ([image_received]) and, with texts of up to 384 bytes, fits the buffers of the
      receivers ([messages_fit_buffers]).
    - Synchronizers: safety (an image is handed out only when all its parts arrived), and, as long as the queue does
      not overflow, that every complete image is handed out once ([module_sync_safe],
      [module_sync_complete], [stream_sync_refines], [stream_sync_fifo_complete],
      [metadata_sync_complete], and the lemma [metadata_sync_safe] for any input).  The threads of the metadata synchronizer are
      interleaved access by access under its two mutexes; its one unlocked read is a data race when it overlaps with a writer,
      which the theorem excludes ([race_free]) and the lemma [overlapping_read_races] exhibits.
    - Converters: every pixel of a module at its place and nothing else written
      ([gf_convert_correct], [eg_convert_correct], [jf_raw_convert_correct],
      [jf_gain_convert_correct]; some are lemmas), the eight GigaFRoST modules tile the image
      ([gf_image_assembled]), and one iteration of the service on its rings (the lemma [gf_service_step]).
    - Shared memory: slots are in bounds and disjoint, a slot shows the last image written to
      it, an image stays readable while fewer than [n_slots] newer ones arrive, and producer
      and consumer of a stream see the same frames ([get_data_in_bounds],
      [ram_buffer_refines_slots], and the lemmas [ram_buffer_window] and [communicator_roundtrip]).
    - Forwarding: parts sent by all senders and received in any order restore an image whose size the number of
      parts divides ([stream_parts_reassemble], [full_images_round_robin]); the delay filter is a bounded
      queue ([delay_filter_fifo]); the live stream's selection of images
      (the lemmas [live_stream_periodic], [live_stream_batch]).
    - Store and replay: what the writer stores, with increasing ids into an empty store, is read back unchanged once its
      file is closed ([store_roundtrip]), and
      the search for the first file finds the least one ([first_matching_file_least]).  For every
      interleaving of the threads the reader returns recorded images ([replay_returns_recorded]),
      its waiting ends ([get_image_wait_ends]), and the driver forwards a part of the
      recording, in order and with its pixels ([replay_forwards_recording]); that nothing is missed takes full files and a
      start at the first image of one; a replay that is
      acknowledged beyond its end hangs (the lemma [replay_past_end_hangs]).
    - Compression: the portable bit transposition is the transposition of a matrix of bits, and is
      undone ([bitshuffle_block_transposes]); the vector routines, whichever are compiled in, compute the
      same ([vector_routines_equal_portable]), and so do big-endian machines (the lemma [byte_order_irrelevant]); with any number of threads the chain of pointers
      processes the blocks as one thread does when no block fails ([parallel_blocks_sequential],
      [parallel_loop_refines_wrap]; [failed_block_deadlocks] is about one that does); the HDF5 filter restores what it wrote, within
      the size it computed ([h5_filter_roundtrip], and [h5_zstd_roundtrip], a lemma, for a build with ZSTD); an image that a compression service
      published is decoded by that filter ([compressed_image_decodes]).
    - Other sources and tools: a round of the array-1.0 receiver with well-formed messages announces its images in order, with
      their bytes in their slots ([array10_round]); a dump of packets is sent again as it was received
      (the lemma [udp_dump_replay]).
    - Recording: what the driver tells the writers in a run ([driver_run]), what the writers
      have in their closed files ([writer_file_contents], [meta_writer_file_contents]), both
      together, from the stream of images to the rows of the files ([recording_end_to_end]),
      and what happens when files cannot be created ([writer_create_failure]: the file of a request that is answered
      with FAILURE is on disk, created or emptied; [driver_creation_error]).
    - Driver threads: for every interleaving with one client that waits for the end of a run before it starts the
      next one ([client_reachable]), there is at most one run and the state of the driver is its
      phase ([driver_state_reflects_run]); an unconfirmed run is a dead end
      (the lemma [unconfirmed_driver_stuck]); the process of the replay driver has at most one replay alive, when its clients come one
      at a time and do not stop replays ([replays_one_at_a_time]); a session with well-formed requests never throws and leaves
      no thread behind ([session_ends_clean]).

    Some lemmas record behaviour that is probably not intended: [gf_do_not_store_bit],
    [gf_frame_sizes_disagree], [eg_last_packet_first],
    [missing_packets_of_later_modules_hidden], [corrupted_without_drop],
    [stream_sync_zero_buffer], [metadata_sync_image_first], [overlapping_read_races],
    [gf_reordered_frame_sent_twice], [unflushed_image_unreadable], [eg_edge_module_accepted],
    [indivisible_image_truncated], [reopened_file_offset], [uncompressed_image_unreadable],
    [stop_while_creating_lost], [stop_before_first_image_lost], [stale_response_accepted],
    [two_runs_at_once], [failed_create_keeps_user], [single_image_not_trimmed],
    [meta_create_failure_fatal], [stop_leaves_finishing], [replay_inside_file],
    [replay_short_file], [array10_bad_header_overwrites], [array10_large_image_overruns],
    [bsread_size_wraps], [compressed_image_overruns], [one_thread_refused], [blosc2_chunk_size_wraps],
    [failed_block_deadlocks], [short_live_stream_undefined], [negative_module_key], [chunk_sender_counts_nothing],
    [chunk_sender_not_served], [failed_exchange_keeps_client], [pending_receive_is_zero], [bad_checksum_accepted],
    [failed_handshake_ends_driver], [invalid_start_ends_driver], [mistyped_request_ends_driver],
    [buffer_writer_ring_differs], [stop_wedges_driver], [stopped_replay_ends_next], [two_sessions_two_replays],
    [udp_replay_never_starts], [threads_not_a_number], [listening_port_wraps], [long_path_undefined], [last_request_empty],
    [module_sync_other_type], [zstd_build_level_out_of_bounds].

    ** Bounds and recursion

    One definition of a loop uses fuel, [broadcast_loop], which starts with as much as there are clients
    ([broadcast_spec] shows that it is enough); the sizes of integers in [Wire] are counted over ten groups of seven bits, which is
    enough for 64 bits ([varint_roundtrip]).  Otherwise a loop of the code runs over a list or a range known when it
    starts, and is a fold over it ([foldO]), or it reacts to a sequence of events, which is its
    argument ([record_loop], and the runs of the services).  Size hypotheses of the
    theorems are those of the machine types the code uses (offsets below 2^31 where the code
    computes them in [int], totals below 2^64).  The scores of the ids in the database are doubles
    ([to_double]), exact below 2^53; the theorems about replays assume of a recording ids below 2^53 - 1000; that its records have not
    expired is part of the same assumption ([recording]).

    ** Not modelled

    System calls and libraries themselves (UDP sockets, ZeroMQ transport, HDF5, LZ4, ZSTD, blosc2, MD5, JSON, UCX,
    Boost, the encoding of protobuf, argparse, spdlog), which are parameters where a theorem depends on them; when a file stream hands its buffer to the
    operating system (a reader may see any part of what the stream has not yet flushed, [visible]); subscriptions that lose messages;
    accesses to memory without a lock, but for those of the metadata synchronizer; the texts of log messages and the formatting of printed numbers. *)

From Stdlib Require Export ZArith Lia.
From stdpp Require Export base option list gmap strings numbers.

Open Scope Z_scope.

(** ** Outcomes of C++ code

    A C++ function returns, throws, or has undefined behaviour.  The last case is
    kept apart from exceptions: a theorem that ends in [Ret _] says that the code
    neither throws nor leaves the defined part of the language. *)

Inductive exn : Type :=
| runtime_error
| invalid_argument
| json_error
| logic_error
| bad_any_cast
| out_of_range.

Inductive ub : Type :=
| div_by_zero
| signed_overflow
| out_of_bounds
| end_deref
| null_deref
| float_cast_range
| uninitialised
| lock_not_owned
| data_race.

Inductive outcome (A : Type) : Type :=
| Ret (a : A)
| Throw (e : exn)
| Undef (u : ub).

Arguments Ret {A} a.
Arguments Throw {A} e.
Arguments Undef {A} u.

#[global] Instance exn_eq_dec : EqDecision exn.
Proof. solve_decision. Defined.
#[global] Instance ub_eq_dec : EqDecision ub.
Proof. solve_decision. Defined.
#[global] Instance outcome_eq_dec `{EqDecision A} : EqDecision (outcome A).
Proof. solve_decision. Defined.

Definition obind {A B} (c : outcome A) (k : A -> outcome B) : outcome B :=
  match c with
  | Ret a => k a
  | Throw e => Throw e
  | Undef u => Undef u
  end.

Definition omap_out {A B} (f : A -> B) (c : outcome A) : outcome B :=
  obind c (fun a => Ret (f a)).

(** [defined c]: the call stays inside the defined part of C++ (it may throw). *)
Definition defined {A} (c : outcome A) : Prop :=
  match c with Undef _ => False | _ => True end.

Declare Scope outcome_scope.
Delimit Scope outcome_scope with outcome.
Open Scope outcome_scope.

Notation "'let!' x := c 'in' k" := (obind c (fun x => k))
  (at level 10, x name, c at level 100, k at level 200) : outcome_scope.
Notation "'let!' ' p := c 'in' k" := (obind c (fun x => match x with p => k end))
  (at level 10, p pattern, c at level 100, k at level 200) : outcome_scope.

(** [throw_if c e k]: the C++ idiom [if (c) throw e;] in front of [k]. *)
Definition throw_if {A} (c : bool) (e : exn) (k : outcome A) : outcome A :=
  if c then Throw e else k.

Lemma obind_Ret_iff {A B} (c : outcome A) (k : A -> outcome B) b :
  obind c k = Ret b <-> exists a, c = Ret a /\ k a = Ret b.
Proof. destruct c; simpl; naive_solver. Qed.

Lemma obind_Undef_iff {A B} (c : outcome A) (k : A -> outcome B) u :
  obind c k = Undef u <-> c = Undef u \/ exists a, c = Ret a /\ k a = Undef u.
Proof. destruct c; simpl; naive_solver. Qed.

Lemma obind_assoc {A B C} (c : outcome A) (f : A -> outcome B) (g : B -> outcome C) :
  obind (obind c f) g = obind c (fun a => obind (f a) g).
Proof. by destruct c. Qed.

Lemma obind_Ret_r {A} (c : outcome A) : obind c Ret = c.
Proof. by destruct c. Qed.

(** [foldO f l s]: a C++ range [for] whose body may throw. *)
Fixpoint foldO {S A} (f : S -> A -> outcome S) (l : list A) (s : S) : outcome S :=
  match l with
  | [] => Ret s
  | a :: l' => obind (f s a) (foldO f l')
  end.

Lemma foldO_app {S A} (f : S -> A -> outcome S) l1 l2 s :
  foldO f (l1 ++ l2) s = obind (foldO f l1 s) (foldO f l2).
Proof.
  revert s. induction l1 as [|a l1 IH]; intros s; simpl; [done|].
  destruct (f s a); simpl; auto.
Qed.

(** Invariant rule of the loop: what every iteration preserves holds at the end,
    and a body that is defined under the invariant makes the loop return. *)
Lemma foldO_ind {S A} (I : S -> Prop) (f : S -> A -> outcome S) l s s' :
  I s -> (forall x a y, a ∈ l -> I x -> f x a = Ret y -> I y) ->
  foldO f l s = Ret s' -> I s'.
Proof.
  revert s. induction l as [|a l IH]; intros s Hs Hf; simpl; [naive_solver|].
  rewrite obind_Ret_iff. intros (y & Hy & Hr). eapply (IH y); [|set_solver|done].
  eapply Hf; [|exact Hs|exact Hy]. set_solver.
Qed.

Lemma foldO_Undef {S A} (f : S -> A -> outcome S) l s u :
  foldO f l s = Undef u -> exists s' a, a ∈ l /\ f s' a = Undef u.
Proof.
  revert s. induction l as [|a l IH]; intros s; [done|]. cbn [foldO]. intros [E|(s' & _ & E)]%obind_Undef_iff.
  - exists s, a. split; [constructor|done].
  - destruct (IH s' E) as (s2 & a2 & Ha & E2). exists s2, a2. split; [by constructor|done].
Qed.

Lemma foldO_total {S A} (I : S -> Prop) (f : S -> A -> outcome S) l s :
  I s -> (forall x a, a ∈ l -> I x -> exists y, f x a = Ret y /\ I y) ->
  exists s', foldO f l s = Ret s' /\ I s'.
Proof.
  revert s. induction l as [|a l IH]; intros s Hs Hf; simpl; [eauto|].
  destruct (Hf s a) as (y & -> & Hy); [set_solver|done|]. simpl.
  apply IH; [done|]. intros x b Hb. apply Hf. set_solver.
Qed.

(** ** Machine integers

    Unsigned C++ arithmetic wraps; signed [int] arithmetic is undefined outside
    the range of the type; [/] on [int] truncates towards zero. *)

Definition wrap (w x : Z) : Z := x mod 2 ^ w.
Definition u8 (x : Z) : Z := wrap 8 x.
Definition u16 (x : Z) : Z := wrap 16 x.
Definition u32 (x : Z) : Z := wrap 32 x.
Definition u64 (x : Z) : Z := wrap 64 x.

(** Conversion to a signed type of [w] bits (two's complement). *)
Definition swrap (w x : Z) : Z := (x + 2 ^ (w - 1)) mod 2 ^ w - 2 ^ (w - 1).
Definition to_i32 (x : Z) : Z := swrap 32 x.
Definition to_i64 (x : Z) : Z := swrap 64 x.

Definition in_u (w x : Z) : Prop := 0 <= x < 2 ^ w.
Definition in_i32 (x : Z) : Prop := - 2 ^ 31 <= x < 2 ^ 31.

#[global] Instance in_u_dec w x : Decision (in_u w x).
Proof. unfold in_u. apply _. Defined.
#[global] Instance in_i32_dec x : Decision (in_i32 x).
Proof. unfold in_i32. apply _. Defined.

(** The result of an [int] operation whose exact value is [x]. *)
Definition i32 (x : Z) : outcome Z :=
  if (- 2 ^ 31 <=? x) && (x <? 2 ^ 31) then Ret x else Undef signed_overflow.

(** Unsigned division and remainder; the divisor 0 is undefined. *)
Definition udiv (x y : Z) : outcome Z :=
  if y =? 0 then Undef div_by_zero else Ret (x / y).
Definition umod (x y : Z) : outcome Z :=
  if y =? 0 then Undef div_by_zero else Ret (x mod y).

Lemma wrap_range w x : 0 <= w -> 0 <= wrap w x < 2 ^ w.
Proof. intros. apply Z.mod_pos_bound. by apply Z.pow_pos_nonneg. Qed.

Lemma wrap_small w x : 0 <= x < 2 ^ w -> wrap w x = x.
Proof. apply Z.mod_small. Qed.

Lemma u8_small x : 0 <= x < 2 ^ 8 -> u8 x = x.
Proof. apply wrap_small. Qed.
Lemma u16_small x : 0 <= x < 2 ^ 16 -> u16 x = x.
Proof. apply wrap_small. Qed.
Lemma u32_small x : 0 <= x < 2 ^ 32 -> u32 x = x.
Proof. apply wrap_small. Qed.
Lemma u64_small x : 0 <= x < 2 ^ 64 -> u64 x = x.
Proof. apply wrap_small. Qed.
Lemma u32_range x : 0 <= u32 x < 2 ^ 32.
Proof. by apply wrap_range. Qed.
Lemma u64_range x : 0 <= u64 x < 2 ^ 64.
Proof. by apply wrap_range. Qed.

Lemma swrap_small w x : 0 < w -> - 2 ^ (w - 1) <= x < 2 ^ (w - 1) -> swrap w x = x.
Proof.
  intros Hw Hx. unfold swrap. rewrite Z.mod_small; [lia|].
  replace w with (Z.succ (w - 1)) at 3 by lia. rewrite Z.pow_succ_r by lia. lia.
Qed.

Lemma to_i64_small x : - 2 ^ 63 <= x < 2 ^ 63 -> to_i64 x = x.
Proof. intros H. by apply (swrap_small 64). Qed.

(** A sum formed modulo [2^64] and read back as a signed 64-bit value is the exact
    sum when that fits. *)
Lemma to_i64_u64 x : - 2 ^ 63 <= x < 2 ^ 63 -> to_i64 (u64 x) = x.
Proof.
  intros Hx. unfold to_i64, swrap, u64, wrap. rewrite Zplus_mod_idemp_l.
  rewrite Z.mod_small by lia. lia.
Qed.

Lemma i32_ret x : in_i32 x -> i32 x = Ret x.
Proof.
  unfold i32, in_i32. intros [H1 H2].
  apply Z.leb_le in H1 as ->. by apply Z.ltb_lt in H2 as ->.
Qed.

Lemma i32_inv x y : i32 x = Ret y -> y = x /\ in_i32 x.
Proof.
  unfold i32, in_i32.
  destruct (Z.leb_spec (- 2 ^ 31) x), (Z.ltb_spec x (2 ^ 31)); simpl; naive_solver.
Qed.

Lemma udiv_ret x y : y <> 0 -> udiv x y = Ret (x / y).
Proof. intros H. unfold udiv. by apply Z.eqb_neq in H as ->. Qed.

Lemma umod_ret x y : y <> 0 -> umod x y = Ret (x mod y).
Proof. intros H. unfold umod. by apply Z.eqb_neq in H as ->. Qed.

Create Rewrite HintDb width.
#[export] Hint Rewrite u8_small u16_small u32_small u64_small i32_ret udiv_ret umod_ret
  using (unfold in_i32; lia) : width.

(** Evaluate the width operations of the goal whose operands are in range. *)
Ltac width := autorewrite with width; simpl.

(** Quotient and remainder are determined. *)
Lemma euclid_unique n q r q' r' :
  0 <= r < n -> 0 <= r' < n -> q * n + r = q' * n + r' -> q = q' /\ r = r'.
Proof. intros. apply (Z.div_mod_unique n); lia. Qed.

(** ** Memory

    A block of memory is the list of its cells.  [mem_read] and [mem_write] model an
    access of [len] cells at an offset; an access that leaves the block is undefined. *)

Definition zlen {A} (l : list A) : Z := Z.of_nat (length l).

Definition in_block (size off len : Z) : bool :=
  (0 <=? off) && (0 <=? len) && (off + len <=? size).

Definition mem_read {A} (m : list A) (off len : Z) : outcome (list A) :=
  if in_block (zlen m) off len
  then Ret (take (Z.to_nat len) (drop (Z.to_nat off) m)) else Undef out_of_bounds.

Definition mem_write {A} (m : list A) (off : Z) (d : list A) : outcome (list A) :=
  if in_block (zlen m) off (zlen d)
  then Ret (list_inserts (Z.to_nat off) d m) else Undef out_of_bounds.

(** [memcpy (dst + doff) (src + soff) len]. *)
Definition memcpy {A} (dst : list A) (doff : Z) (src : list A) (soff len : Z) :
  outcome (list A) :=
  let! d := mem_read src soff len in mem_write dst doff d.

Lemma zlen_app {A} (l k : list A) : zlen (l ++ k) = zlen l + zlen k.
Proof. unfold zlen. rewrite length_app. lia. Qed.

Lemma zlen_cons {A} (x : A) l : zlen (x :: l) = 1 + zlen l.
Proof. unfold zlen. simpl. lia. Qed.

Lemma zlen_nonneg {A} (l : list A) : 0 <= zlen l.
Proof. unfold zlen. lia. Qed.

Lemma zlen_replicate {A} n (x : A) : zlen (replicate n x) = Z.of_nat n.
Proof. unfold zlen. by rewrite length_replicate. Qed.

Lemma zlen_omap {A B} (f : A -> option B) (l : list A) : zlen (omap f l) <= zlen l.
Proof.
  induction l as [|a l IH]; [done|]. rewrite zlen_cons.
  change (omap f (a :: l)) with (match f a with Some b => b :: omap f l | None => omap f l end).
  destruct (f a); rewrite ?zlen_cons; lia.
Qed.

Lemma omap_cons_eq {A B} (f : A -> option B) a l :
  omap f (a :: l) = match f a with Some b => b :: omap f l | None => omap f l end.
Proof. done. Qed.

Lemma omap_nil_inv {A B} (f : A -> option B) l : omap f l = [] -> Forall (fun a => f a = None) l.
Proof.
  induction l as [|a l IH]; [done|]. rewrite omap_cons_eq. destruct (f a) eqn:E; [done|]. auto.
Qed.

(** An element of [omap f l] comes from an element of [l], and splits it. *)
Lemma omap_split {A B} (f : A -> option B) l xs y ys :
  omap f l = xs ++ y :: ys ->
  exists l1 a l2, l = l1 ++ a :: l2 /\ omap f l1 = xs /\ f a = Some y /\ omap f l2 = ys.
Proof.
  revert xs. induction l as [|a l IH]; intros xs E; [by destruct xs|]. rewrite omap_cons_eq in E.
  destruct (f a) as [b|] eqn:Ea.
  - destruct xs as [|x xs]; injection E as -> E.
    + by exists [], a, l.
    + destruct (IH xs E) as (l1 & c & l2 & -> & E1 & Ec & E2). exists (a :: l1), c, l2.
      rewrite omap_cons_eq, Ea, E1. done.
  - destruct (IH xs E) as (l1 & c & l2 & -> & E1 & Ec & E2). exists (a :: l1), c, l2.
    rewrite omap_cons_eq, Ea. done.
Qed.

Lemma in_block_true size off len :
  in_block size off len = true <-> 0 <= off /\ 0 <= len /\ off + len <= size.
Proof. unfold in_block. rewrite !andb_true_iff, !Z.leb_le. tauto. Qed.

Lemma mem_read_ret {A} (m : list A) off len :
  0 <= off -> 0 <= len -> off + len <= zlen m ->
  mem_read m off len = Ret (take (Z.to_nat len) (drop (Z.to_nat off) m)).
Proof. intros. unfold mem_read. by rewrite (proj2 (in_block_true _ _ _)). Qed.

Lemma mem_read_inv {A} (m d : list A) off len :
  mem_read m off len = Ret d ->
  0 <= off /\ 0 <= len /\ off + len <= zlen m /\
  d = take (Z.to_nat len) (drop (Z.to_nat off) m).
Proof.
  unfold mem_read. destruct (in_block _ _ _) eqn:E; [|done].
  apply in_block_true in E. naive_solver.
Qed.

Lemma mem_write_ret {A} (m d : list A) off :
  0 <= off -> off + zlen d <= zlen m ->
  mem_write m off d = Ret (list_inserts (Z.to_nat off) d m).
Proof.
  intros. unfold mem_write. rewrite (proj2 (in_block_true _ _ _)); [done|].
  pose proof (zlen_nonneg d). lia.
Qed.

Lemma mem_write_inv {A} (m d m' : list A) off :
  mem_write m off d = Ret m' ->
  0 <= off /\ off + zlen d <= zlen m /\ m' = list_inserts (Z.to_nat off) d m.
Proof.
  unfold mem_write. destruct (in_block _ _ _) eqn:E; [|done].
  apply in_block_true in E. naive_solver.
Qed.

Lemma mem_write_zlen {A} (m d m' : list A) off :
  mem_write m off d = Ret m' -> zlen m' = zlen m.
Proof. intros (_ & _ & ->)%mem_write_inv. unfold zlen. by rewrite length_inserts. Qed.

Lemma mem_read_zlen {A} (m d : list A) off len :
  mem_read m off len = Ret d -> zlen d = len.
Proof.
  intros (? & ? & ? & ->)%mem_read_inv. unfold zlen in *.
  rewrite length_take, length_drop. lia.
Qed.

Lemma mem_read_full {A} (m : list A) len : len = zlen m -> mem_read m 0 len = Ret m.
Proof.
  intros ->. rewrite mem_read_ret by (pose proof (zlen_nonneg m); lia).
  f_equal. rewrite drop_0. apply take_ge. unfold zlen. lia.
Qed.

(** The cells of a block after a write. *)
Lemma mem_write_lookup {A} (m d m' : list A) off (i : nat) :
  mem_write m off d = Ret m' ->
  m' !! i = if decide (off <= Z.of_nat i < off + zlen d)
            then d !! Z.to_nat (Z.of_nat i - off) else m !! i.
Proof.
  intros (Ho & Hl & ->)%mem_write_inv. unfold zlen in *. case_decide as Hi.
  - rewrite list_lookup_inserts by lia. f_equal. lia.
  - destruct (decide (Z.of_nat i < off)).
    + apply list_lookup_inserts_lt. lia.
    + apply list_lookup_inserts_ge. lia.
Qed.

Lemma mem_read_lookup {A} (m d : list A) off len (i : nat) :
  mem_read m off len = Ret d -> Z.of_nat i < len -> d !! i = m !! (Z.to_nat off + i)%nat.
Proof.
  intros (? & ? & ? & ->)%mem_read_inv ?. rewrite lookup_take_lt by lia. apply lookup_drop.
Qed.

(** Two reads that see the same cells return the same data. *)
Lemma mem_read_ext {A} (m m' : list A) off off' len :
  zlen m = zlen m' -> off = off' ->
  (forall i : nat, off <= Z.of_nat i < off + len -> m !! i = m' !! i) ->
  mem_read m off len = mem_read m' off' len.
Proof.
  intros Hl <- Hi. unfold mem_read. rewrite Hl. destruct (in_block _ _ _) eqn:E; [|done].
  apply in_block_true in E as (?&?&?). f_equal. apply list_eq. intros i.
  destruct (decide (Z.of_nat i < len)).
  - rewrite !lookup_take_lt, !lookup_drop by lia. apply Hi. lia.
  - rewrite !lookup_take_ge by lia. done.
Qed.

Lemma mem_read_write_same {A} (m d m' : list A) off len :
  mem_write m off d = Ret m' -> len = zlen d -> mem_read m' off len = Ret d.
Proof.
  intros Hw ->. pose proof (mem_write_zlen _ _ _ _ Hw) as Hl.
  pose proof Hw as (?&?&_)%mem_write_inv. pose proof (zlen_nonneg d).
  rewrite mem_read_ret by lia. f_equal. apply list_eq. intros i.
  destruct (decide (Z.of_nat i < zlen d)).
  - rewrite lookup_take_lt, lookup_drop by lia. rewrite (mem_write_lookup _ _ _ _ _ Hw).
    rewrite decide_True by lia. f_equal. lia.
  - rewrite lookup_take_ge by lia. symmetry. apply lookup_ge_None. unfold zlen in *. lia.
Qed.

Lemma mem_read_write_disjoint {A} (m d m' : list A) off off' len :
  mem_write m off d = Ret m' -> off' + len <= off \/ off + zlen d <= off' ->
  mem_read m' off' len = mem_read m off' len.
Proof.
  intros Hw Hd. apply mem_read_ext; [by eapply mem_write_zlen|done|].
  intros i Hi. rewrite (mem_write_lookup _ _ _ _ _ Hw). rewrite decide_False by lia. done.
Qed.

Lemma mem_read_replicate {A} (x : A) n off len :
  0 <= off -> 0 <= len -> off + len <= Z.of_nat n ->
  mem_read (replicate n x) off len = Ret (replicate (Z.to_nat len) x).
Proof.
  intros. rewrite mem_read_ret by (rewrite ?zlen_replicate; lia).
  rewrite drop_replicate, take_replicate. do 2 f_equal. lia.
Qed.

(** ** Little-endian integers, as every struct of the program is stored *)

Fixpoint le_encode (n : nat) (z : Z) : list Z :=
  match n with
  | O => []
  | S n' => z mod 256 :: le_encode n' (z / 256)
  end.

Fixpoint le_decode (bs : list Z) : Z :=
  match bs with
  | [] => 0
  | b :: bs' => b + 256 * le_decode bs'
  end.

Lemma length_le_encode n z : length (le_encode n z) = n.
Proof. revert z. induction n; intros; simpl; auto. Qed.

Lemma le_decode_encode n z : 0 <= z < 2 ^ (8 * Z.of_nat n) -> le_decode (le_encode n z) = z.
Proof.
  revert z. induction n as [|n IH]; intros z Hz; simpl.
  - change (2 ^ (8 * Z.of_nat 0)) with 1 in Hz. lia.
  - replace (8 * Z.of_nat (S n)) with (8 + 8 * Z.of_nat n) in Hz by lia.
    rewrite Z.pow_add_r in Hz by lia. change (2 ^ 8) with 256 in Hz.
    rewrite IH; [rewrite (Z.div_mod z 256) at 3; lia|].
    split; [apply Z.div_pos; lia|apply Z.div_lt_upper_bound; lia].
Qed.
