(* ===== verification/OrderedMap.v ===== *)
(** * [std::map] with integer keys

    The synchronizers and the storage services use [std::map] for its order: they erase or
    inspect [begin()], the entry with the smallest key, and use [lower_bound].  A map is the
    list of its entries in key order. *)

From Stdlib Require Import Sorted.
From S2P Require Import Prelude.

Notation omap_t V := (list (Z * V)).

Section OrderedMap.
Context {V : Type}.
Implicit Types m : omap_t V.

Definition keys m : list Z := fst <$> m.

Definition sorted m : Prop := StronglySorted Z.lt (keys m).

(** [find(k)]. *)
Fixpoint om_find (k : Z) m : option V :=
  match m with
  | [] => None
  | (k', v) :: m' => if k =? k' then Some v else om_find k m'
  end.

(** [m[k] = v]. *)
Fixpoint om_put (k : Z) (v : V) m : omap_t V :=
  match m with
  | [] => [(k, v)]
  | (k', v') :: m' =>
      if k <? k' then (k, v) :: (k', v') :: m'
      else if k =? k' then (k, v) :: m'
      else (k', v') :: om_put k v m'
  end.

(** [emplace(k, v)] leaves an existing entry alone. *)
Definition om_emplace (k : Z) (v : V) m : omap_t V :=
  match om_find k m with Some _ => m | None => om_put k v m end.

(** [erase(k)]. *)
Fixpoint om_erase (k : Z) m : omap_t V :=
  match m with
  | [] => []
  | (k', v) :: m' => if k =? k' then m' else (k', v) :: om_erase k m'
  end.

(** [erase(begin(), lower_bound(k))]. *)
Definition om_erase_below (k : Z) m : omap_t V := filter (fun kv => k <= fst kv) m.

(** The entries from [lower_bound(k)] on. *)
Definition om_from (k : Z) m : omap_t V := filter (fun kv => k <= fst kv) m.

Definition om_size m : Z := zlen m.

Lemma sorted_cons k v m :
  sorted ((k, v) :: m) <-> sorted m /\ forall k', k' ∈ keys m -> k < k'.
Proof.
  unfold sorted. simpl. split.
  - intros [Hs Hf]%StronglySorted_inv. rewrite list.Forall_forall in Hf. done.
  - intros [Hs Hf]. constructor; [done|]. apply list.Forall_forall. done.
Qed.

Lemma sorted_tail kv m : sorted (kv :: m) -> sorted m.
Proof. destruct kv. rewrite sorted_cons. tauto. Qed.

Lemma om_find_keys k m : om_find k m = None <-> k ∉ keys m.
Proof.
  induction m as [|[k' v] m IH]; simpl; [set_solver|].
  destruct (Z.eqb_spec k k'); set_solver.
Qed.

Lemma om_find_Some_keys k v m : om_find k m = Some v -> k ∈ keys m.
Proof. intros H. destruct (decide (k ∈ keys m)) as [|Hn]; [done|]. apply om_find_keys in Hn. congruence. Qed.

Lemma om_find_elem k v m : sorted m -> (k, v) ∈ m -> om_find k m = Some v.
Proof.
  induction m as [|[j w] m IH]; intros Hs Hin; [by apply elem_of_nil in Hin|].
  apply sorted_cons in Hs as [Hs Hj]. simpl. apply elem_of_cons in Hin as [[= <- <-]|Hin]; [by rewrite Z.eqb_refl|].
  assert (j < k) by (apply Hj, list_elem_of_fmap; by exists (k, v)).
  rewrite (proj2 (Z.eqb_neq _ _)) by lia. auto.
Qed.

Lemma om_find_put k k' v m :
  om_find k (om_put k' v m) = if decide (k = k') then Some v else om_find k m.
Proof.
  induction m as [|[j w] m IH]; simpl.
  - case_decide; destruct (Z.eqb_spec k k'); done.
  - destruct (Z.ltb_spec k' j); simpl; [|destruct (Z.eqb_spec k' j); simpl];
      rewrite ?IH; repeat case_decide; destruct (Z.eqb_spec k k'), (Z.eqb_spec k j);
      subst; done || lia.
Qed.

Lemma keys_put k v m x : x ∈ keys (om_put k v m) <-> x = k \/ x ∈ keys m.
Proof.
  induction m as [|[j w] m IH]; simpl; [set_solver|].
  destruct (Z.ltb_spec k j); [set_solver|]. destruct (Z.eqb_spec k j); set_solver.
Qed.

Lemma sorted_put k v m : sorted m -> sorted (om_put k v m).
Proof.
  induction m as [|[j w] m IH]; intros Hs.
  - apply sorted_cons. split; [done|]. set_solver.
  - pose proof Hs as [Hs' Hj]%sorted_cons. simpl.
    destruct (Z.ltb_spec k j).
    + apply sorted_cons. split; [done|]. simpl. intros x [->|Hx]%elem_of_cons; [done|].
      apply Hj in Hx. lia.
    + destruct (Z.eqb_spec k j) as [->|].
      * apply sorted_cons. done.
      * apply sorted_cons. split; [by apply IH|]. intros x [->|Hx]%keys_put; [lia|by apply Hj].
Qed.

Lemma om_size_put k v m :
  sorted m -> om_size (om_put k v m) = om_size m + (if om_find k m then 0 else 1).
Proof.
  unfold om_size. induction m as [|[j w] m IH]; intros Hs; simpl; [done|].
  pose proof Hs as [Hs' Hj]%sorted_cons.
  destruct (Z.ltb_spec k j).
  - rewrite !zlen_cons. destruct (Z.eqb_spec k j); [lia|].
    assert (Hn : om_find k m = None) by (apply om_find_keys; intros Hx%Hj; lia).
    rewrite Hn. lia.
  - destruct (Z.eqb_spec k j); rewrite !zlen_cons; [lia|]. rewrite IH by done. lia.
Qed.

Lemma keys_erase k m x : sorted m -> x ∈ keys (om_erase k m) <-> x ∈ keys m /\ x <> k.
Proof.
  induction m as [|[j w] m IH]; intros Hs; simpl; [set_solver|].
  pose proof Hs as [Hs' Hj]%sorted_cons. destruct (Z.eqb_spec k j) as [->|].
  - split; [|set_solver]. intros Hx. split; [set_solver|]. apply Hj in Hx. lia.
  - simpl. set_solver.
Qed.

Lemma sorted_erase k m : sorted m -> sorted (om_erase k m).
Proof.
  induction m as [|[j w] m IH]; intros Hs; simpl; [done|].
  pose proof Hs as [Hs' Hj]%sorted_cons. destruct (Z.eqb_spec k j); [done|].
  apply sorted_cons. split; [by apply IH|]. intros x [Hx _]%keys_erase; auto.
Qed.

Lemma om_find_erase k k' m :
  sorted m -> om_find k (om_erase k' m) = if decide (k = k') then None else om_find k m.
Proof.
  intros Hs. case_decide as E.
  - subst. apply om_find_keys. rewrite keys_erase by done. tauto.
  - clear Hs. induction m as [|[j w] m IH]; simpl; [done|].
    destruct (Z.eqb_spec k' j) as [->|]; simpl; destruct (Z.eqb_spec k j); done || lia.
Qed.

Lemma om_size_erase k m : om_size (om_erase k m) <= om_size m.
Proof.
  unfold om_size. induction m as [|[j w] m IH]; simpl; [done|].
  destruct (Z.eqb_spec k j); rewrite ?zlen_cons; lia.
Qed.

Lemma om_find_head k v m : om_find k ((k, v) :: m) = Some v.
Proof. simpl. by rewrite Z.eqb_refl. Qed.

(** Sorted maps with the same lookups are equal. *)
Lemma om_ext m1 m2 :
  sorted m1 -> sorted m2 -> (forall k, om_find k m1 = om_find k m2) -> m1 = m2.
Proof.
  revert m2. induction m1 as [|[k1 v1] m1 IH]; intros [|[k2 v2] m2] H1 H2 Hf.
  - done.
  - specialize (Hf k2). simpl in Hf. by rewrite Z.eqb_refl in Hf.
  - specialize (Hf k1). simpl in Hf. by rewrite Z.eqb_refl in Hf.
  - pose proof H1 as [H1' Hlt1]%sorted_cons. pose proof H2 as [H2' Hlt2]%sorted_cons.
    assert (Hk : k1 = k2).
    { assert (Ha : k1 ∈ keys ((k2, v2) :: m2)).
      { eapply om_find_Some_keys. rewrite <- Hf. apply om_find_head. }
      assert (Hb : k2 ∈ keys ((k1, v1) :: m1)).
      { eapply om_find_Some_keys. rewrite Hf. apply om_find_head. }
      simpl in Ha, Hb. apply elem_of_cons in Ha as [|Ha%Hlt2]; [done|].
      apply elem_of_cons in Hb as [|Hb%Hlt1]; [done|]. lia. }
    subst k2. pose proof (Hf k1) as Hv. rewrite !om_find_head in Hv. simplify_eq. f_equal.
    apply IH; [done..|]. intros k. specialize (Hf k). simpl in Hf.
    destruct (Z.eqb_spec k k1) as [Ek|Ek]; [|exact Hf]. rewrite Ek.
    assert (N1 : om_find k1 m1 = None) by (apply om_find_keys; intros Hx%Hlt1; lia).
    assert (N2 : om_find k1 m2 = None) by (apply om_find_keys; intros Hx%Hlt2; lia).
    congruence.
Qed.

Lemma om_erase_below_keys k m x :
  x ∈ keys (om_erase_below k m) <-> x ∈ keys m /\ k <= x.
Proof.
  unfold om_erase_below, keys. rewrite !list_elem_of_fmap. split.
  - intros (kv & -> & [Hk Hin]%list_elem_of_filter). eauto.
  - intros [(kv & -> & Hin) Hk]. exists kv. split; [done|]. by apply list_elem_of_filter.
Qed.

Lemma sorted_filter (P : Z * V -> Prop) `{!forall x, Decision (P x)} m :
  sorted m -> sorted (filter P m).
Proof.
  induction m as [|[j w] m IH]; intros Hs; [done|].
  pose proof Hs as [Hs' Hj]%sorted_cons. rewrite filter_cons. case_decide; [|by apply IH].
  apply sorted_cons. split; [by apply IH|]. intros x Hx. apply Hj.
  unfold keys in *. rewrite list_elem_of_fmap in *. destruct Hx as (kv & -> & [_ Hin]%list_elem_of_filter).
  eauto.
Qed.
End OrderedMap.

Create HintDb omap.
#[export] Hint Resolve sorted_put sorted_erase sorted_tail sorted_filter : omap.
