(* ===== verification/Scatter.v ===== *)
(** * Loops that store single cells

    The converters write an image pixel by pixel.  [scatter] is such a loop; its result is
    described cell by cell. *)

From S2P Require Import Prelude.

Section Scatter.
Context {A : Type}.
Implicit Types (m : list A).

(** [for (p : ps) out[loc(p)] = val(p)]. *)
Definition scatter (loc : Z -> Z) (val : Z -> A) (ps : list Z) m : outcome (list A) :=
  foldO (fun out p => mem_write out (loc p) [val p]) ps m.

Lemma scatter_app loc val ps qs m :
  scatter loc val (ps ++ qs) m = obind (scatter loc val ps m) (scatter loc val qs).
Proof. apply foldO_app. Qed.

Lemma mem_write_one m j (v : A) :
  0 <= j < zlen m -> mem_write m j [v] = Ret (<[Z.to_nat j := v]> m).
Proof.
  intros Hj. rewrite mem_write_ret; [done|lia|].
  change (zlen [v]) with 1. lia.
Qed.

(** In-bounds stores at pairwise different places: each place holds its value, every other
    cell is unchanged. *)
Lemma scatter_spec loc val ps m :
  (forall p, p ∈ ps -> 0 <= loc p < zlen m) ->
  (forall p q, p ∈ ps -> q ∈ ps -> loc p = loc q -> p = q) ->
  exists m', scatter loc val ps m = Ret m' /\ zlen m' = zlen m /\
    (forall p, p ∈ ps -> m' !! Z.to_nat (loc p) = Some (val p)) /\
    (forall i : nat, (forall p, p ∈ ps -> loc p <> Z.of_nat i) -> m' !! i = m !! i).
Proof.
  revert m. induction ps as [|p ps IH] using rev_ind; intros m Hb Hinj.
  - exists m. split_and!; try done. set_solver.
  - destruct (IH m) as (m1 & Hm1 & Hl1 & Hv1 & Hf1); [set_solver|set_solver|].
    rewrite scatter_app, Hm1. cbn [obind]. unfold scatter. cbn [foldO].
    assert (Hp : 0 <= loc p < zlen m) by (apply Hb; set_solver).
    rewrite mem_write_one by lia. cbn [obind].
    eexists. split; [done|]. split; [unfold zlen in *; by rewrite length_insert|]. split.
    + intros q [Hq|Hq]%elem_of_app.
      * destruct (decide (q = p)) as [E|E].
        -- rewrite E. rewrite list_lookup_insert_eq by (unfold zlen in *; lia). done.
        -- rewrite list_lookup_insert_ne; [by apply Hv1|]. intros El. apply E.
           apply Hinj; [set_solver|set_solver|]. assert (0 <= loc q < zlen m) by (apply Hb; set_solver).
           lia.
      * apply list_elem_of_singleton in Hq. rewrite Hq.
        rewrite list_lookup_insert_eq by (unfold zlen in *; lia). done.
    + intros i Hi. rewrite list_lookup_insert_ne; [apply Hf1; set_solver|].
      intros El. apply (Hi p); [set_solver|]. lia.
Qed.

Lemma scatter_ext loc val loc' val' ps m :
  (forall p, p ∈ ps -> loc p = loc' p /\ val p = val' p) ->
  scatter loc val ps m = scatter loc' val' ps m.
Proof.
  revert m. unfold scatter. induction ps as [|p ps IH]; intros m H; simpl; [done|].
  destruct (H p) as [-> ->]; [set_solver|].
  destruct (mem_write m (loc' p) [val' p]); simpl; [|done..]. apply IH. set_solver.
Qed.

Lemma scatter_zlen loc val ps m o : scatter loc val ps m = Ret o -> zlen o = zlen m.
Proof.
  intros Ho. apply (foldO_ind (fun x => zlen x = zlen m)) in Ho; [done|done|].
  intros x a y _ Hx Hy. by rewrite (mem_write_zlen _ _ _ _ Hy).
Qed.

(** A loop whose body stores one cell. *)
Lemma scatter_loop loc val (body : list A -> Z -> outcome (list A)) (n : nat) k m :
  (forall j out, 0 <= j < Z.of_nat n -> zlen out = zlen m ->
     body out j = mem_write out (loc (k + j)) [val (k + j)]) ->
  foldO body (seqZ 0 (Z.of_nat n)) m = scatter loc val (seqZ k (Z.of_nat n)) m.
Proof.
  induction n as [|n IH]; intros Hbody; [done|].
  replace (Z.of_nat (S n)) with (Z.of_nat n + 1) in * by lia.
  rewrite !seqZ_app, foldO_app, scatter_app, IH by (lia || (intros; apply Hbody; lia)).
  destruct (scatter _ _ _ m) as [o|?|?] eqn:E; cbn [obind]; [|done..]. apply scatter_zlen in E.
  change (seqZ (0 + Z.of_nat n) 1) with [0 + Z.of_nat n].
  change (seqZ (k + Z.of_nat n) 1) with [0 + (k + Z.of_nat n)].
  unfold scatter. cbn [foldO]. rewrite !Z.add_0_l. by rewrite Hbody by lia.
Qed.

(** Two nested loops over rows and columns, as one loop over the cells. *)
Lemma scatter_nested loc val (body : Z -> list A -> Z -> outcome (list A)) (n rows : nat) m :
  (forall i j out, 0 <= i < Z.of_nat rows -> 0 <= j < Z.of_nat n -> zlen out = zlen m ->
     body i out j = mem_write out (loc (i * Z.of_nat n + j)) [val (i * Z.of_nat n + j)]) ->
  foldO (fun out i => foldO (body i) (seqZ 0 (Z.of_nat n)) out) (seqZ 0 (Z.of_nat rows)) m =
    scatter loc val (seqZ 0 (Z.of_nat rows * Z.of_nat n)) m.
Proof.
  induction rows as [|R IH]; intros Hbody; [done|].
  replace (Z.of_nat (S R)) with (Z.of_nat R + 1) in * by lia.
  rewrite seqZ_app, foldO_app, IH by (lia || (intros; apply Hbody; lia)).
  replace ((Z.of_nat R + 1) * Z.of_nat n) with (Z.of_nat R * Z.of_nat n + Z.of_nat n) by lia.
  rewrite seqZ_app, scatter_app by lia.
  destruct (scatter _ _ (seqZ 0 _) m) as [o|?|?] eqn:E; cbn [obind]; [|done..]. apply scatter_zlen in E.
  change (seqZ (0 + Z.of_nat R) 1) with [0 + Z.of_nat R]. cbn [foldO].
  rewrite !Z.add_0_l, obind_Ret_r. apply scatter_loop. intros. apply Hbody; lia.
Qed.
End Scatter.

(** ** Loops that copy blocks *)

Section Copies.
Context {A : Type}.
Implicit Types (m src : list A).

(** A [memcpy] of [len] cells from [soff] to [doff]. *)
Record block : Type := { doff : Z; soff : Z; len : Z }.

Definition copy_blocks src (bs : list block) m : outcome (list A) :=
  foldO (fun out b => memcpy out (doff b) src (soff b) (len b)) bs m.

Lemma copy_blocks_app src bs bs' m :
  copy_blocks src (bs ++ bs') m = obind (copy_blocks src bs m) (copy_blocks src bs').
Proof. apply foldO_app. Qed.

Lemma memcpy_spec m src b :
  0 <= soff b -> 0 <= len b -> soff b + len b <= zlen src ->
  0 <= doff b -> doff b + len b <= zlen m ->
  exists m', memcpy m (doff b) src (soff b) (len b) = Ret m' /\ zlen m' = zlen m /\
    forall i : nat, m' !! i =
      if decide (doff b <= Z.of_nat i < doff b + len b)
      then src !! Z.to_nat (Z.of_nat i - doff b + soff b) else m !! i.
Proof.
  intros. unfold memcpy. destruct (mem_read src (soff b) (len b)) as [d|?|?] eqn:E;
    [|rewrite mem_read_ret in E by lia; done..].
  cbn [obind]. pose proof (mem_read_zlen _ _ _ _ E) as Hd.
  destruct (mem_write m (doff b) d) as [m'|?|?] eqn:W; [|rewrite mem_write_ret in W by lia; done..].
  exists m'. split; [done|]. split; [by eapply mem_write_zlen|]. intros i.
  rewrite (mem_write_lookup _ _ _ _ _ W), Hd. case_decide; [|done].
  rewrite (mem_read_lookup _ _ _ _ _ E) by lia. f_equal. lia.
Qed.

(** In-bounds copies; where two of them write the same cell they write the same value. *)
Lemma copy_blocks_spec src bs m :
  (forall b, b ∈ bs -> 0 <= soff b /\ 0 <= len b /\ soff b + len b <= zlen src /\
                       0 <= doff b /\ doff b + len b <= zlen m) ->
  (forall b b' j j', b ∈ bs -> b' ∈ bs -> 0 <= j < len b -> 0 <= j' < len b' ->
     doff b + j = doff b' + j' -> soff b + j = soff b' + j') ->
  exists m', copy_blocks src bs m = Ret m' /\ zlen m' = zlen m /\
    (forall b j, b ∈ bs -> 0 <= j < len b ->
       m' !! Z.to_nat (doff b + j) = src !! Z.to_nat (soff b + j)) /\
    (forall i : nat, (forall b, b ∈ bs -> ~ doff b <= Z.of_nat i < doff b + len b) ->
       m' !! i = m !! i).
Proof.
  induction bs as [|b bs IH] using rev_ind; intros Hb Hagree.
  - exists m. split_and!; try done. set_solver.
  - destruct IH as (m1 & Hm1 & Hl1 & Hv1 & Hf1).
    { intros b' Hb'. apply Hb. set_solver. }
    { intros b1 b2 j j' H1 H2. apply Hagree; set_solver. }
    destruct (Hb b) as (?&?&?&?&?); [set_solver|].
    destruct (memcpy_spec m1 src b) as (m2 & Hm2 & Hl2 & Hv2); [lia..|].
    exists m2. rewrite copy_blocks_app, Hm1. cbn [obind]. unfold copy_blocks. cbn [foldO].
    rewrite Hm2. cbn [obind]. split; [done|]. split; [lia|]. split.
    + intros b' j Hb' Hj. rewrite Hv2. destruct (Hb b' Hb') as (?&?&?&?&?). case_decide.
      * f_equal. rewrite Z2Nat.id in * by lia.
        pose proof (Hagree b' b j (doff b' + j - doff b) Hb') as Ha.
        rewrite Ha; [f_equal; lia|set_solver|lia|lia|lia].
      * apply elem_of_app in Hb' as [Hb'|Hb'%list_elem_of_singleton]; [by apply Hv1|].
        subst b'. lia.
    + intros i Hi. rewrite Hv2. rewrite decide_False by (apply Hi; set_solver).
      apply Hf1. intros b' Hb'. apply Hi. set_solver.
Qed.
End Copies.
