(* ===== verification/Protocol.v ===== *)
(** * Protobuf messages exchanged by the services

    [src/source/interface/std_buffer/*.proto].  A message is a record, a [oneof] an
    inductive type with a case for "not set".  The wire encoding is protobuf's:
    services are modelled on the parsed messages, and [Wire] shows that what they send is found again and fits
    the buffers of the receivers. *)

From S2P Require Import Prelude.

(** ** image_metadata.proto *)

Inductive pb_dtype : Type :=
| dt_unknown | dt_uint8 | dt_uint16 | dt_uint32 | dt_uint64
| dt_int8 | dt_int16 | dt_int32 | dt_int64
| dt_float16 | dt_float32 | dt_float64.

Inductive pb_status : Type := st_undefined | st_good_image | st_missing_packets | st_id_missmatch.

Inductive pb_compression : Type := cp_none | cp_h5bitshuffle_lz4 | cp_blosc2.

Record GFImageMetadata : Type := {
  gf_scan_id : Z;
  gf_scan_time : Z;
  gf_sync_time : Z;
  gf_frame_timestamp : Z;
  gf_exposure_time : Z;
  gf_store_image : bool
}.

Record PcoImageMetadata : Type := {
  pco_global_timestamp_sec : Z;
  pco_global_timestamp_ns : Z;
  pco_bsread_name : string
}.

Inductive pb_detector_metadata : Type :=
| dm_not_set
| dm_gf (m : GFImageMetadata)
| dm_jf (daq_rec : Z)
| dm_eg (exptime : Z)
| dm_pco (m : PcoImageMetadata).

(** [std_daq_protocol::ImageMetadata]. *)
Record pb_image : Type := {
  pb_image_id : Z;
  pb_height : Z;
  pb_width : Z;
  pb_size : Z;
  pb_dt : pb_dtype;
  pb_st : pb_status;
  pb_cp : pb_compression;
  pb_det : pb_detector_metadata
}.

(** The default instance every setter sequence starts from. *)
Definition pb_image_default : pb_image :=
  {| pb_image_id := 0; pb_height := 0; pb_width := 0; pb_size := 0; pb_dt := dt_unknown;
     pb_st := st_undefined; pb_cp := cp_none; pb_det := dm_not_set |}.

Definition gf_default : GFImageMetadata :=
  {| gf_scan_id := 0; gf_scan_time := 0; gf_sync_time := 0; gf_frame_timestamp := 0;
     gf_exposure_time := 0; gf_store_image := false |}.

(** ** writer_action.proto *)

(** [std_daq_protocol::WriterAction], its [oneof]. *)
Inductive writer_action : Type :=
| action_not_set
| create_file_cmd (path : string) (writer_id : Z)
| record_image (image_metadata : pb_image)
| close_file
| confirm_last_image.

(** [std_daq_protocol::WriterResponse]: the code; the text of the reason is not kept. *)
Inductive response_code : Type := UNKNOWN | SUCCESS | FAILURE.

(** ** image_buffer.proto *)

Record request_next_image : Type := { rq_image_id : Z; rq_new_request : bool }.

(** [std_daq_protocol::NextImageResponse], its [oneof]. *)
Inductive next_image_response : Type :=
| response_not_set
| no_image
| ack (image_id : Z).

#[global] Instance pb_dtype_eq_dec : EqDecision pb_dtype.
Proof. solve_decision. Defined.
#[global] Instance pb_status_eq_dec : EqDecision pb_status.
Proof. solve_decision. Defined.
#[global] Instance pb_compression_eq_dec : EqDecision pb_compression.
Proof. solve_decision. Defined.
#[global] Instance GFImageMetadata_eq_dec : EqDecision GFImageMetadata.
Proof. solve_decision. Defined.
#[global] Instance PcoImageMetadata_eq_dec : EqDecision PcoImageMetadata.
Proof. solve_decision. Defined.
#[global] Instance pb_detector_metadata_eq_dec : EqDecision pb_detector_metadata.
Proof. solve_decision. Defined.
#[global] Instance pb_image_eq_dec : EqDecision pb_image.
Proof. solve_decision. Defined.
#[global] Instance writer_action_eq_dec : EqDecision writer_action.
Proof. solve_decision. Defined.
#[global] Instance response_code_eq_dec : EqDecision response_code.
Proof. solve_decision. Defined.
