(* ===== verification/Formats.v ===== *)
(** * Packed structs of the wire and shared-memory formats

    [src/source/core-buffer/include/core_buffer/formats.hpp] and
    [src/source/detectors/include/detectors/*.hpp].  Every struct there is packed, so
    its bytes are its scalar members in order, each little-endian, followed by at most
    one [char] array (payload or padding).  [Packed] states that; [DetFrame] adds the
    convention all services rely on: a detector frame is 64 bytes long and starts with
    a [CommonFrame]. *)

From S2P Require Import Prelude.

(** ** The interface *)

Class Packed (T : Type) : Type := {
  layout : list nat;
  tail_len : nat;
  to_fields : T -> list Z;
  to_tail : T -> list Z;
  of_parts : list Z -> list Z -> option T;
  of_parts_to : forall x, of_parts (to_fields x) (to_tail x) = Some x;
  to_fields_length : forall x, length (to_fields x) = length layout
}.
Arguments layout T {_}.
Arguments tail_len T {_}.

Definition sizeof (T : Type) `{Packed T} : Z :=
  Z.of_nat (foldr Nat.add 0%nat (layout T)) + Z.of_nat (tail_len T).

(** Every member holds a value of its C++ type. *)
Definition wf_packed `{Packed T} (x : T) : Prop :=
  Forall2 (fun w v => 0 <= v < 2 ^ (8 * Z.of_nat w)) (layout T) (to_fields x) /\
  length (to_tail x) = tail_len T.

Fixpoint encode_fields (ws : list nat) (vs : list Z) : list Z :=
  match ws, vs with
  | w :: ws', v :: vs' => le_encode w v ++ encode_fields ws' vs'
  | _, _ => []
  end.

Fixpoint decode_fields (ws : list nat) (bs : list Z) : list Z * list Z :=
  match ws with
  | [] => ([], bs)
  | w :: ws' => let (vs, rest) := decode_fields ws' (drop w bs) in
                (le_decode (take w bs) :: vs, rest)
  end.

(** [encode x] is [(char* )&x] over [sizeof(x)] bytes; [decode] is the cast back. *)
Definition encode `{Packed T} (x : T) : list Z :=
  encode_fields (layout T) (to_fields x) ++ to_tail x.

Definition decode (T : Type) `{Packed T} (bs : list Z) : option T :=
  if zlen bs =? sizeof T
  then let (vs, rest) := decode_fields (layout T) bs in of_parts vs rest
  else None.

Lemma decode_fields_encode ws vs rest :
  Forall2 (fun w v => 0 <= v < 2 ^ (8 * Z.of_nat w)) ws vs ->
  decode_fields ws (encode_fields ws vs ++ rest) = (vs, rest).
Proof.
  induction 1 as [|w v ws vs Hv _ IH]; simpl; [done|].
  rewrite <- (app_assoc (le_encode w v)).
  rewrite drop_app_length', take_app_length' by (by rewrite length_le_encode).
  rewrite IH. by rewrite le_decode_encode.
Qed.

Lemma length_encode_fields ws vs :
  length ws = length vs -> length (encode_fields ws vs) = foldr Nat.add 0%nat ws.
Proof.
  revert vs. induction ws as [|w ws IH]; intros [|v vs]; simpl; try done.
  intros [= Hl]. rewrite length_app, length_le_encode. by rewrite IH.
Qed.

Lemma encode_zlen `{Packed T} (x : T) : wf_packed x -> zlen (encode x) = sizeof T.
Proof.
  intros [Hf Ht]. unfold encode, sizeof. rewrite zlen_app. unfold zlen.
  rewrite length_encode_fields by (by rewrite to_fields_length). lia.
Qed.

(** Writing a struct to a message and casting the bytes back is the identity. *)
Lemma decode_encode `{Packed T} (x : T) : wf_packed x -> decode T (encode x) = Some x.
Proof.
  intros Hwf. unfold decode. rewrite encode_zlen, Z.eqb_refl by done.
  unfold encode. rewrite decode_fields_encode by apply Hwf. apply of_parts_to.
Qed.

(** ** common.hpp *)

Definition DET_FRAME_STRUCT_BYTES : Z := 64.
Definition INVALID_IMAGE_ID : Z := u64 (-1).

Record CommonFrame : Type := {
  image_id : Z;
  n_missing_packets : Z;
  module_id : Z
}.

#[global] Instance CommonFrame_packed : Packed CommonFrame.
Proof.
  refine {| layout := [8; 8; 2]%nat; tail_len := 0;
    to_fields c := [image_id c; n_missing_packets c; module_id c];
    to_tail _ := [];
    of_parts vs _ := match vs with
      | [a; b; c] => Some {| image_id := a; n_missing_packets := b; module_id := c |}
      | _ => None end |}.
  - by intros [].
  - done.
Defined.

(** A detector frame: its first 18 bytes are a [CommonFrame]. *)
Class DetFrame (T : Type) `{Packed T} : Type := {
  common : T -> CommonFrame;
  layout_common : exists ws, layout T = layout CommonFrame ++ ws;
  fields_common : forall x, exists vs, to_fields x = to_fields (common x) ++ vs;
  frame_size : sizeof T = DET_FRAME_STRUCT_BYTES
}.

(** What [reinterpret_cast<CommonFrame*>(meta)->image_id] reads. *)
Definition cast_image_id (bs : list Z) : Z := le_decode (take 8 bs).

Lemma cast_image_id_encode `{DetFrame T} (x : T) :
  wf_packed x -> cast_image_id (encode x) = image_id (common x).
Proof.
  intros [Hf _]. unfold cast_image_id, encode.
  destruct layout_common as [ws Hl], (fields_common x) as [vs Hv].
  rewrite Hl, Hv in *. simpl in Hf. apply Forall2_cons_1 in Hf as [Hid _].
  exact (le_decode_encode 8 (image_id (common x)) Hid).
Qed.

(** ** formats.hpp *)

Record ModuleFrame : Type := {
  mf_id : Z;
  mf_pulse_id : Z;
  mf_frame_index : Z;
  mf_daq_rec : Z;
  mf_n_recv_packets : Z;
  mf_module_id : Z;
  mf_bit_depth : Z;
  mf_pos_y : Z;
  mf_pos_x : Z
}.

Record ImageMetadata : Type := {
  im_id : Z;
  im_height : Z;
  im_width : Z;
  im_dtype : Z;
  im_status : Z;
  im_source_id : Z
}.

(** The enumerators carry the numbers of the header. *)
Inductive ImageMetadataDtype : Type :=
| uint8_t | uint16_t | uint32_t | uint64_t
| int8_t | int16_t | int32_t | int64_t
| float16_t | float32_t | float64_t.

Definition dtype_code (d : ImageMetadataDtype) : Z :=
  match d with
  | uint8_t => 1 | uint16_t => 2 | uint32_t => 4 | uint64_t => 8
  | int8_t => 11 | int16_t => 12 | int32_t => 14 | int64_t => 18
  | float16_t => 22 | float32_t => 24 | float64_t => 28
  end.

Inductive ImageMetadataStatus : Type := good_image | missing_packets | id_missmatch.

Definition status_code (s : ImageMetadataStatus) : Z :=
  match s with good_image => 0 | missing_packets => 1 | id_missmatch => 2 end.

Definition get_meta_data_status (missing : Z) : ImageMetadataStatus :=
  if missing =? 0 then good_image else missing_packets.

#[global] Instance ModuleFrame_packed : Packed ModuleFrame.
Proof.
  refine {| layout := [8; 8; 8; 8; 8; 8; 2; 2; 2]%nat; tail_len := 0;
    to_fields m := [mf_id m; mf_pulse_id m; mf_frame_index m; mf_daq_rec m;
                    mf_n_recv_packets m; mf_module_id m; mf_bit_depth m; mf_pos_y m; mf_pos_x m];
    to_tail _ := [];
    of_parts vs _ := match vs with
      | [a; b; c; d; e; f; g; h; i] =>
          Some (Build_ModuleFrame a b c d e f g h i)
      | _ => None end |}.
  - by intros [].
  - done.
Defined.

#[global] Instance ImageMetadata_packed : Packed ImageMetadata.
Proof.
  refine {| layout := [8; 8; 8; 2; 2; 2]%nat; tail_len := 0;
    to_fields m := [im_id m; im_height m; im_width m; im_dtype m; im_status m; im_source_id m];
    to_tail _ := [];
    of_parts vs _ := match vs with
      | [a; b; c; d; e; f] => Some (Build_ImageMetadata a b c d e f)
      | _ => None end |}.
  - by intros [].
  - done.
Defined.

(** ** eiger.hpp *)

Module eg.

Definition N_MODULES : Z := 1.
Definition BYTES_PER_PACKET : Z := 4144.
Definition DATA_BYTES_PER_PACKET : Z := 4096.
Definition MODULE_X_SIZE : Z := 512.
Definition MODULE_Y_SIZE : Z := 256.
Definition MODULE_N_PIXELS : Z := 131072.
Definition PIXEL_N_BYTES : Z := 2.

Record EGFrame : Type := {
  eg_common : CommonFrame;
  bit_depth : Z;
  pos_y : Z;
  pos_x : Z
}.

Record EGUdpPacket : Type := {
  frame_num : Z;
  exp_length : Z;
  packet_number : Z;
  detSpec1 : Z;
  timestamp : Z;
  udp_module_id : Z;
  row : Z;
  column : Z;
  detSpec2 : Z;
  detSpec3 : Z;
  round_robin : Z;
  detector_type : Z;
  header_version : Z;
  data : list Z
}.

End eg.

#[global] Instance EGFrame_packed : Packed eg.EGFrame.
Proof.
  refine {| layout := [8; 8; 2; 2; 2; 2]%nat; tail_len := 64 - 18 - 6;
    to_fields m := to_fields (eg.eg_common m) ++ [eg.bit_depth m; eg.pos_y m; eg.pos_x m];
    to_tail _ := replicate (64 - 18 - 6) 0;
    of_parts vs _ := match vs with
      | [a; b; c; d; e; f] => Some (eg.Build_EGFrame (Build_CommonFrame a b c) d e f)
      | _ => None end |}.
  - by intros [[] ???].
  - done.
Defined.

#[global] Instance EGFrame_frame : DetFrame eg.EGFrame.
Proof.
  refine {| common := eg.eg_common |}.
  - by eexists.
  - intros x. by eexists.
  - done.
Defined.

#[global] Instance EGUdpPacket_packed : Packed eg.EGUdpPacket.
Proof.
  refine {| layout := [8; 4; 4; 8; 8; 2; 2; 2; 2; 4; 2; 1; 1]%nat; tail_len := Z.to_nat 4096;
    to_fields p := [eg.frame_num p; eg.exp_length p; eg.packet_number p; eg.detSpec1 p;
                    eg.timestamp p; eg.udp_module_id p; eg.row p; eg.column p; eg.detSpec2 p;
                    eg.detSpec3 p; eg.round_robin p; eg.detector_type p; eg.header_version p];
    to_tail := eg.data;
    of_parts vs d := match vs with
      | [a; b; c; e; f; g; h; i; j; k; l; m; n] =>
          Some (eg.Build_EGUdpPacket a b c e f g h i j k l m n d)
      | _ => None end |}.
  - by intros [].
  - done.
Defined.

(** ** jungfrau.hpp *)

Module jf.

Definition BYTES_PER_PACKET : Z := 8240.
Definition DATA_BYTES_PER_PACKET : Z := 8192.
Definition MODULE_X_SIZE : Z := 1024.
Definition MODULE_Y_SIZE : Z := 512.
Definition MODULE_N_PIXELS : Z := MODULE_Y_SIZE * MODULE_X_SIZE.
Definition PIXEL_N_BYTES : Z := 2.
Definition MODULE_N_BYTES : Z := PIXEL_N_BYTES * MODULE_N_PIXELS.
Definition N_PACKETS_PER_FRAME : Z := 128.

Record JFFrame : Type := {
  jf_common : CommonFrame;
  id : Z;
  frame_index : Z;
  daq_rec : Z;
  jf_module_id : Z
}.

(** [bunchid] is a [double]; it is kept as its 64-bit pattern. *)
Record JFUdpPacket : Type := {
  framenum : Z;
  exptime : Z;
  packetnum : Z;
  bunchid : Z;
  timestamp : Z;
  moduleID : Z;
  row : Z;
  column : Z;
  zCoord : Z;
  debug : Z;
  roundRobin : Z;
  detectortype : Z;
  headerVersion : Z;
  data : list Z
}.

End jf.

#[global] Instance JFFrame_packed : Packed jf.JFFrame.
Proof.
  refine {| layout := [8; 8; 2; 8; 8; 8; 8]%nat; tail_len := 64 - 18 - 32;
    to_fields m := to_fields (jf.jf_common m) ++
      [jf.id m; jf.frame_index m; jf.daq_rec m; jf.jf_module_id m];
    to_tail _ := replicate (64 - 18 - 32) 0;
    of_parts vs _ := match vs with
      | [a; b; c; d; e; f; g] => Some (jf.Build_JFFrame (Build_CommonFrame a b c) d e f g)
      | _ => None end |}.
  - by intros [[] ????].
  - done.
Defined.

#[global] Instance JFFrame_frame : DetFrame jf.JFFrame.
Proof.
  refine {| common := jf.jf_common |}.
  - by eexists.
  - intros x. by eexists.
  - done.
Defined.

#[global] Instance JFUdpPacket_packed : Packed jf.JFUdpPacket.
Proof.
  refine {| layout := [8; 4; 4; 8; 8; 2; 2; 2; 2; 4; 2; 1; 1]%nat; tail_len := Z.to_nat 8192;
    to_fields p := [jf.framenum p; jf.exptime p; jf.packetnum p; jf.bunchid p; jf.timestamp p;
                    jf.moduleID p; jf.row p; jf.column p; jf.zCoord p; jf.debug p;
                    jf.roundRobin p; jf.detectortype p; jf.headerVersion p];
    to_tail := jf.data;
    of_parts vs d := match vs with
      | [a; b; c; e; f; g; h; i; j; k; l; m; n] =>
          Some (jf.Build_JFUdpPacket a b c e f g h i j k l m n d)
      | _ => None end |}.
  - by intros [].
  - done.
Defined.

(** ** gigafrost.hpp: packet and frame *)

Module gf.

Definition PACKET_N_DATA_BYTES_MAX : Z := 7400.
Definition BYTES_PER_PACKET : Z := PACKET_N_DATA_BYTES_MAX + 32.

Record GFUdpPacket : Type := {
  protocol_id : Z;
  quadrant_row_length_in_blocks : Z;
  quadrant_rows : Z;
  status_flags : Z;
  udp_scan_id : Z;
  frame_index : Z;
  image_status_flags : Z;
  packet_starting_row : Z;
  image_timing : Z;
  udp_sync_time : Z;
  udp_scan_time : Z;
  data : list Z
}.

Record GFFrame : Type := {
  gf_common : CommonFrame;
  swapped_rows : Z;
  link_id : Z;
  corr_mode : Z;
  frame_quadrant_id : Z;
  rpf : Z;
  do_not_store : Z;
  scan_id : Z;
  size_x : Z;
  size_y : Z;
  scan_time : Z;
  sync_time : Z;
  frame_timestamp : Z;
  exposure_time : Z
}.

Inductive quadrant_id : Type := SW | SE | NW | NE.

Definition quadrant_index (q : quadrant_id) : Z :=
  match q with SW => 0 | SE => 1 | NW => 2 | NE => 3 end.

End gf.

#[global] Instance quadrant_id_eq_dec : EqDecision gf.quadrant_id.
Proof. solve_decision. Defined.

#[global] Instance GFUdpPacket_packed : Packed gf.GFUdpPacket.
Proof.
  refine {| layout := [1; 1; 1; 1; 4; 4; 2; 2; 8; 4; 4]%nat; tail_len := Z.to_nat 7400;
    to_fields p := [gf.protocol_id p; gf.quadrant_row_length_in_blocks p; gf.quadrant_rows p;
                    gf.status_flags p; gf.udp_scan_id p; gf.frame_index p;
                    gf.image_status_flags p; gf.packet_starting_row p; gf.image_timing p;
                    gf.udp_sync_time p; gf.udp_scan_time p];
    to_tail := gf.data;
    of_parts vs d := match vs with
      | [a; b; c; e; f; g; h; i; j; k; l] => Some (gf.Build_GFUdpPacket a b c e f g h i j k l d)
      | _ => None end |}.
  - by intros [].
  - done.
Defined.

#[global] Instance GFFrame_packed : Packed gf.GFFrame.
Proof.
  refine {| layout := [8; 8; 2; 1; 1; 1; 1; 1; 1; 4; 4; 4; 4; 4; 8; 8]%nat;
    tail_len := 64 - 18 - 6 - 12 - 24;
    to_fields m := to_fields (gf.gf_common m) ++
      [gf.swapped_rows m; gf.link_id m; gf.corr_mode m; gf.frame_quadrant_id m; gf.rpf m;
       gf.do_not_store m; gf.scan_id m; gf.size_x m; gf.size_y m; gf.scan_time m;
       gf.sync_time m; gf.frame_timestamp m; gf.exposure_time m];
    to_tail _ := replicate (64 - 18 - 6 - 12 - 24) 0;
    of_parts vs _ := match vs with
      | [a; b; c; d; e; f; g; h; i; j; k; l; m; n; o; p] =>
          Some (gf.Build_GFFrame (Build_CommonFrame a b c) d e f g h i j k l m n o p)
      | _ => None end |}.
  - by intros [[] ?????????????].
  - done.
Defined.

#[global] Instance GFFrame_frame : DetFrame gf.GFFrame.
Proof.
  refine {| common := gf.gf_common |}.
  - by eexists.
  - intros x. by eexists.
  - done.
Defined.

(** ** Layout facts *)

(** The static assertions of the headers. *)
Lemma static_asserts :
  sizeof eg.EGUdpPacket = eg.BYTES_PER_PACKET /\ sizeof jf.JFUdpPacket = jf.BYTES_PER_PACKET /\
  sizeof gf.GFUdpPacket = gf.BYTES_PER_PACKET /\ sizeof eg.EGFrame = DET_FRAME_STRUCT_BYTES /\
  sizeof jf.JFFrame = DET_FRAME_STRUCT_BYTES /\ sizeof gf.GFFrame = DET_FRAME_STRUCT_BYTES.
Proof. repeat split; vm_compute; reflexivity. Qed.
