(* ===== verification/Stats.v ===== *)
(** * Statistics collectors

    [src/source/utils/stats/include/utils/stats/*.hpp] and the collectors of the single
    services.  A collector counts events and, when its period has passed, prints its
    counters and clears them.  The text of the log line is kept as the list of its
    [key=value] fields; the formatting of the numbers is not modelled, and the repetition
    rate is kept as the quotient it is computed from.  Times are nanoseconds of the steady
    clock; every reading of the clock is an argument. *)

From S2P Require Import Prelude.

Inductive stat : Type :=
| SText (key value : string)
| SNum (key : string) (value : Z)
| SQuot (key : string) (num den : Z).

(** ** stats_collector.hpp and timed_stats_collector.hpp *)

Record TimedStatsCollector : Type := {
  detector_name : string;
  period : Z;
  last_update_time : Z;
  source_suffix : string;
  processed_times : Z;
  previous : Z
}.

Definition TimedStatsCollector_new (name : string) (period_s : Z) (suffix : string) (now : Z) :
  TimedStatsCollector :=
  {| detector_name := name; period := period_s * 10 ^ 9; last_update_time := now;
     source_suffix := suffix; processed_times := 0; previous := now |}.

Definition timed_process (t : TimedStatsCollector) : TimedStatsCollector :=
  {| detector_name := detector_name t; period := period t; last_update_time := last_update_time t;
     source_suffix := source_suffix t; processed_times := u32 (processed_times t + 1);
     previous := previous t |}.

(** [TimedStatsCollector::additional_message] with the clock reading of
    [calculate_repetition_rate]. *)
Definition timed_message (now : Z) (t : TimedStatsCollector) : list stat * TimedStatsCollector :=
  let ms := Z.quot (now - previous t) (10 ^ 6) in
  ((if decide (source_suffix t = ""%string) then [] else [SText "source" (source_suffix t)]) ++
   [SNum "processed_times" (processed_times t);
    SQuot "repetition_rate_hz" (processed_times t * 1000) ms],
   {| detector_name := detector_name t; period := period t; last_update_time := last_update_time t;
      source_suffix := source_suffix t; processed_times := 0; previous := now |}).

Definition timed_set_update (now : Z) (t : TimedStatsCollector) : TimedStatsCollector :=
  {| detector_name := detector_name t; period := period t; last_update_time := now;
     source_suffix := source_suffix t; processed_times := processed_times t;
     previous := previous t |}.

(** The virtual functions a collector provides to [print_stats]. *)
Class Collector (S : Type) : Type := {
  timed : S -> TimedStatsCollector;
  set_timed : TimedStatsCollector -> S -> S;
  additional_message : Z -> S -> list stat * S
}.

(** [print_stats]: the fields printed, if any. *)
Definition print_stats {S : Type} `{Collector S} (now now_rate : Z) (s : S) : option (list stat) * S :=
  if period (timed s) <? now - last_update_time (timed s) then
    let (m, s') := additional_message now_rate s in
    (Some (SText "detector" (detector_name (timed s)) :: m),
     set_timed (timed_set_update now (timed s')) s')
  else (None, s).

#[global] Instance Timed_collector : Collector TimedStatsCollector := {|
  timed t := t;
  set_timed t _ := t;
  additional_message := timed_message
|}.

(** ** The collectors *)

Module FrameStats.
Record FrameStatsCollector : Type := {
  module : TimedStatsCollector;
  module_id : Z;
  frames_counter : Z;
  n_missed_packets : Z;
  n_corrupted_frames : Z
}.

Definition new (name : string) (period_s module_id now : Z) : FrameStatsCollector :=
  Build_FrameStatsCollector (TimedStatsCollector_new name period_s "" now) module_id 0 0 0.

Definition process (s : FrameStatsCollector) (n_missing_packets : Z) : FrameStatsCollector :=
  let corrupted := 0 <? n_missing_packets in
  {| module := timed_process (module s); module_id := module_id s;
     frames_counter := u64 (frames_counter s + 1);
     n_missed_packets := if corrupted then u64 (n_missed_packets s + n_missing_packets)
                         else n_missed_packets s;
     n_corrupted_frames := if corrupted then u64 (n_corrupted_frames s + 1)
                           else n_corrupted_frames s |}.

Definition message (now : Z) (s : FrameStatsCollector) : list stat * FrameStatsCollector :=
  let (m, t) := timed_message now (module s) in
  (SNum "module_id" (module_id s) :: m ++
   [SNum "frames_counter" (frames_counter s); SNum "n_corrupted_frames" (n_corrupted_frames s);
    SNum "n_missed_packets" (n_missed_packets s)],
   Build_FrameStatsCollector t (module_id s) 0 0 0).
End FrameStats.

#[global] Instance FrameStats_collector : Collector FrameStats.FrameStatsCollector := {|
  timed := FrameStats.module;
  set_timed t s := FrameStats.Build_FrameStatsCollector t (FrameStats.module_id s)
    (FrameStats.frames_counter s) (FrameStats.n_missed_packets s) (FrameStats.n_corrupted_frames s);
  additional_message := FrameStats.message
|}.

Module SyncStats.
Record SyncStatsCollector : Type := { base : TimedStatsCollector; n_corrupted_images : Z }.

Definition process (s : SyncStatsCollector) (n_corrupted : Z) : SyncStatsCollector :=
  {| base := timed_process (base s);
     n_corrupted_images := u64 (n_corrupted_images s + n_corrupted) |}.

Definition message (now : Z) (s : SyncStatsCollector) : list stat * SyncStatsCollector :=
  let (m, t) := timed_message now (base s) in
  (m ++ [SNum "n_corrupted_images" (n_corrupted_images s)], Build_SyncStatsCollector t 0).
End SyncStats.

#[global] Instance SyncStats_collector : Collector SyncStats.SyncStatsCollector := {|
  timed := SyncStats.base;
  set_timed t s := SyncStats.Build_SyncStatsCollector t (SyncStats.n_corrupted_images s);
  additional_message := SyncStats.message
|}.

Module QueueStats.
Record QueueStatsCollector : Type := { sync : SyncStats.SyncStatsCollector; queue : Z }.

Definition process (s : QueueStatsCollector) (n_corrupted : Z) : QueueStatsCollector :=
  {| sync := SyncStats.process (sync s) n_corrupted; queue := queue s |}.

Definition update_queue_length (s : QueueStatsCollector) (queue_len : Z) : QueueStatsCollector :=
  {| sync := sync s; queue := Z.max (queue s) queue_len |}.

Definition message (now : Z) (s : QueueStatsCollector) : list stat * QueueStatsCollector :=
  let (m, p) := SyncStats.message now (sync s) in
  (m ++ [SNum "queue" (queue s)], Build_QueueStatsCollector p 0).
End QueueStats.

#[global] Instance QueueStats_collector : Collector QueueStats.QueueStatsCollector := {|
  timed s := SyncStats.base (QueueStats.sync s);
  set_timed t s := QueueStats.Build_QueueStatsCollector
    (SyncStats.Build_SyncStatsCollector t (SyncStats.n_corrupted_images (QueueStats.sync s)))
    (QueueStats.queue s);
  additional_message := QueueStats.message
|}.

Module CompressionStats.
Record CompressionStatsCollector : Type := {
  base : TimedStatsCollector;
  image_size : Z;
  compressed_images : Z;
  compressed_size : Z
}.

Definition process (s : CompressionStatsCollector) (compressed : Z) : CompressionStatsCollector :=
  if 0 <? compressed then
    {| base := timed_process (base s); image_size := image_size s;
       compressed_images := u64 (compressed_images s + 1);
       compressed_size := u64 (compressed_size s + compressed) |}
  else
    {| base := timed_process (base s); image_size := image_size s;
       compressed_images := compressed_images s; compressed_size := compressed_size s |}.

(** [calculate_ratio] as numerator and denominator, [0 / 1] without images. *)
Definition calculate_ratio (s : CompressionStatsCollector) : Z * Z :=
  if 0 <? compressed_images s then (compressed_size s, compressed_images s * image_size s)
  else (0, 1).

Definition message (now : Z) (s : CompressionStatsCollector) :
  list stat * CompressionStatsCollector :=
  let (n, d) := calculate_ratio s in
  let (m, t) := timed_message now (base s) in
  (m ++ [SNum "compressed_images" (compressed_images s); SQuot "ratio" n d],
   Build_CompressionStatsCollector t (image_size s) 0 0).
End CompressionStats.

#[global] Instance CompressionStats_collector :
  Collector CompressionStats.CompressionStatsCollector := {|
  timed := CompressionStats.base;
  set_timed t s := CompressionStats.Build_CompressionStatsCollector t
    (CompressionStats.image_size s) (CompressionStats.compressed_images s)
    (CompressionStats.compressed_size s);
  additional_message := CompressionStats.message
|}.

Module ModuleStats.
Record ModuleStatsCollector : Type := { base : TimedStatsCollector; module_id : Z }.

Definition new (name : string) (period_s module_id now : Z) : ModuleStatsCollector :=
  {| base := TimedStatsCollector_new name period_s "" now; module_id := module_id |}.

Definition process (s : ModuleStatsCollector) : ModuleStatsCollector :=
  {| base := timed_process (base s); module_id := module_id s |}.

Definition message (now : Z) (s : ModuleStatsCollector) : list stat * ModuleStatsCollector :=
  let (m, t) := timed_message now (base s) in
  (SNum "module_id" (module_id s) :: m, Build_ModuleStatsCollector t (module_id s)).
End ModuleStats.

#[global] Instance ModuleStats_collector : Collector ModuleStats.ModuleStatsCollector := {|
  timed := ModuleStats.base;
  set_timed t s := ModuleStats.Build_ModuleStatsCollector t (ModuleStats.module_id s);
  additional_message := ModuleStats.message
|}.

Module SessionStats.
Record ActiveSessionStatsCollector : Type := { base : TimedStatsCollector; n_active_connections : Z }.

Definition update_stats (s : ActiveSessionStatsCollector) (active_connections : Z) :
  ActiveSessionStatsCollector :=
  {| base := base s; n_active_connections := active_connections |}.

Definition message (now : Z) (s : ActiveSessionStatsCollector) :
  list stat * ActiveSessionStatsCollector :=
  let (m, t) := timed_message now (base s) in
  (m ++ [SNum "n_active_connections" (n_active_connections s)],
   Build_ActiveSessionStatsCollector t (n_active_connections s)).
End SessionStats.

#[global] Instance SessionStats_collector : Collector SessionStats.ActiveSessionStatsCollector := {|
  timed := SessionStats.base;
  set_timed t s := SessionStats.Build_ActiveSessionStatsCollector t (SessionStats.n_active_connections s);
  additional_message := SessionStats.message
|}.

Module SenderStats.
Record SenderStatsCollector : Type := {
  base : TimedStatsCollector;
  image_part : Z;
  zmq_fails : Z
}.

Definition process (s : SenderStatsCollector) (send_fails : Z) : SenderStatsCollector :=
  {| base := timed_process (base s); image_part := image_part s;
     zmq_fails := u64 (zmq_fails s + send_fails) |}.

Definition message (now : Z) (s : SenderStatsCollector) : list stat * SenderStatsCollector :=
  let (m, t) := timed_message now (base s) in
  (SNum "image_part" (image_part s) :: m ++ [SNum "zmq_fails" (zmq_fails s)],
   Build_SenderStatsCollector t (image_part s) 0).
End SenderStats.

#[global] Instance SenderStats_collector : Collector SenderStats.SenderStatsCollector := {|
  timed := SenderStats.base;
  set_timed t s := SenderStats.Build_SenderStatsCollector t (SenderStats.image_part s)
                     (SenderStats.zmq_fails s);
  additional_message := SenderStats.message
|}.

Module ReceiverStats.
Record ReceiverStatsCollector : Type := {
  base : TimedStatsCollector;
  image_part : Z;
  zmq_fails : Z;
  prev_image_id : Z;
  images_missed : Z
}.

Definition process (s : ReceiverStatsCollector) (receive_fails id : Z) : ReceiverStatsCollector :=
  {| base := timed_process (base s); image_part := image_part s;
     zmq_fails := u64 (zmq_fails s + receive_fails);
     prev_image_id := if 0 <? id then id else prev_image_id s;
     images_missed := if u64 (prev_image_id s + 1) =? id then images_missed s
                      else u64 (images_missed s + 1) |}.

Definition message (now : Z) (s : ReceiverStatsCollector) : list stat * ReceiverStatsCollector :=
  let (m, t) := timed_message now (base s) in
  (SNum "image_part" (image_part s) :: m ++
   [SNum "zmq_receive_fails" (zmq_fails s); SNum "images_missed" (images_missed s)],
   Build_ReceiverStatsCollector t (image_part s) 0 (prev_image_id s) 0).
End ReceiverStats.

#[global] Instance ReceiverStats_collector : Collector ReceiverStats.ReceiverStatsCollector := {|
  timed := ReceiverStats.base;
  set_timed t s := ReceiverStats.Build_ReceiverStatsCollector t (ReceiverStats.image_part s)
    (ReceiverStats.zmq_fails s) (ReceiverStats.prev_image_id s) (ReceiverStats.images_missed s);
  additional_message := ReceiverStats.message
|}.

Module FilterStats.
Record FilterStatsCollector : Type := { base : TimedStatsCollector; forwarded_images : Z }.

Definition process (s : FilterStatsCollector) : FilterStatsCollector :=
  {| base := timed_process (base s); forwarded_images := forwarded_images s |}.

Definition forward (s : FilterStatsCollector) : FilterStatsCollector :=
  {| base := base s; forwarded_images := u32 (forwarded_images s + 1) |}.

Definition message (now : Z) (s : FilterStatsCollector) : list stat * FilterStatsCollector :=
  let (m, t) := timed_message now (base s) in
  (m ++ [SNum "forwarded_images" (forwarded_images s)], Build_FilterStatsCollector t 0).
End FilterStats.

#[global] Instance FilterStats_collector : Collector FilterStats.FilterStatsCollector := {|
  timed := FilterStats.base;
  set_timed t s := FilterStats.Build_FilterStatsCollector t (FilterStats.forwarded_images s);
  additional_message := FilterStats.message
|}.

(** ** What a counter promises

    [Counter S E key w]: the events of type [E] add their weight to a [w]-bit counter,
    and a report prints the counter under [key] and clears it. *)

Definition reported (key : string) (m : list stat) : Z :=
  foldr (fun f acc => match f with
                      | SNum k v => if decide (k = key) then v + acc else acc
                      | _ => acc end) 0 m.

Class Counter (S E : Type) `{Collector S} (key : string) (w : Z) : Type := {
  counter : S -> Z;
  weight : E -> Z;
  event : S -> E -> S;
  event_counter : forall s e, wrap w (counter (event s e)) = wrap w (counter s + weight e);
  message_counter : forall now s, reported key (fst (additional_message now s)) = counter s;
  message_clears : forall now s, counter (snd (additional_message now s)) = 0;
  set_timed_counter : forall t s, counter (set_timed t s) = counter s
}.

(** A run of a service as its collector sees it. *)
Inductive stats_step (E : Type) : Type :=
| Event (e : E)
| Print (now now_rate : Z).
Arguments Event {E} e.
Arguments Print {E} now now_rate.

(** The events of a run. *)
Definition events {E : Type} (xs : list (stats_step E)) : list E :=
  omap (fun x => match x with Event e => Some e | _ => None end) xs.

Section Conservation.
Context {S E : Type} `{Collector S} {key : string} {w : Z} `{!Counter S E key w}.

Definition stats_run1 (st : S * Z) (x : stats_step E) : S * Z :=
  let (s, total) := st in
  match x with
  | Event e => (event s e, total)
  | Print now now_rate =>
      let (m, s') := print_stats now now_rate s in
      (s', total + reported key (default [] m))
  end.

(** The final collector and the sum of all values printed under [key]. *)
Definition stats_run (xs : list (stats_step E)) (s : S) : S * Z :=
  fold_left stats_run1 xs (s, 0).

Definition total_weight (xs : list (stats_step E)) : Z :=
  foldr (fun x acc => match x with Event e => weight e + acc | _ => acc end) 0 xs.

Lemma print_stats_counter now now_rate s :
  key <> "detector"%string ->
  reported key (default [] (fst (print_stats now now_rate s)))
    + counter (snd (print_stats now now_rate s)) = counter s.
Proof.
  intros Hk. unfold print_stats. destruct (_ <? _); simpl; [|lia].
  pose proof (message_counter now_rate s) as Hm. pose proof (message_clears now_rate s) as Hc.
  destruct (additional_message now_rate s) as [m s'] eqn:E1. simpl in *.
  rewrite set_timed_counter. lia.
Qed.

Lemma wrap_add_idemp x y : wrap w (x + wrap w y) = wrap w (x + y).
Proof. unfold wrap. apply Zplus_mod_idemp_r. Qed.

Lemma stats_run_from xs s total :
  key <> "detector"%string ->
  let (s', t') := fold_left stats_run1 xs (s, total) in
  wrap w (t' + counter s') = wrap w (total + counter s + total_weight xs).
Proof.
  intros Hk. revert s total. induction xs as [|[e|now now_rate] xs IH]; intros s total; simpl.
  - f_equal. lia.
  - specialize (IH (event s e) total). destruct (fold_left _ _ _) as [s' t'].
    rewrite IH. rewrite <- Z.add_assoc, (Z.add_comm (counter _)), Z.add_assoc.
    rewrite <- wrap_add_idemp, event_counter, wrap_add_idemp. f_equal. lia.
  - pose proof (print_stats_counter now now_rate s Hk) as Hp.
    destruct (print_stats now now_rate s) as [m s1]. simpl in Hp.
    specialize (IH s1 (total + reported key (default [] m))).
    destruct (fold_left _ _ _) as [s' t']. rewrite IH. f_equal. lia.
Qed.
End Conservation.

Lemma timed_message_num key now t :
  key <> "processed_times"%string -> reported key (fst (timed_message now t)) = 0.
Proof.
  intros. unfold timed_message. simpl.
  case_decide; simpl; by rewrite decide_False by congruence.
Qed.

Lemma reported_app key m1 m2 : reported key (m1 ++ m2) = reported key m1 + reported key m2.
Proof.
  induction m1 as [|[]m1 IH]; simpl; [lia|exact IH| |exact IH]. case_decide; rewrite IH; lia.
Qed.

Lemma wrap_idemp w x : wrap w (wrap w x) = wrap w x.
Proof. unfold wrap. apply Zmod_mod. Qed.

(** Discharge the laws of a counter that a collector prints behind [timed_message]. *)
Ltac solve_counter :=
  simpl; intros;
  repeat match goal with |- context [if ?b then _ else _] => destruct b eqn:? end;
  simpl; rewrite ?wrap_idemp;
  first [ done | f_equal; lia
        | match goal with |- context [timed_message ?now ?t] =>
            let Ht := fresh in
            pose proof (fun k => timed_message_num k now t) as Ht; destruct (timed_message now t);
            simpl in *; first [done | rewrite reported_app, Ht by done; simpl; lia]
          end ].

#[global] Instance frames_counter_counter : Counter FrameStats.FrameStatsCollector Z "frames_counter" 64.
Proof.
  refine {| counter := FrameStats.frames_counter; weight e := 1; event := FrameStats.process |};
    unfold FrameStats.process; simpl; unfold FrameStats.message; solve_counter.
Defined.

#[global] Instance n_missed_packets_counter : Counter FrameStats.FrameStatsCollector Z "n_missed_packets" 64.
Proof.
  refine {| counter := FrameStats.n_missed_packets; weight e := Z.max 0 e; event := FrameStats.process |};
    unfold FrameStats.process; simpl; unfold FrameStats.message; solve_counter.
Defined.

#[global] Instance n_corrupted_images_counter : Counter SyncStats.SyncStatsCollector Z "n_corrupted_images" 64.
Proof.
  refine {| counter := SyncStats.n_corrupted_images; weight e := e; event := SyncStats.process |};
    unfold SyncStats.process; simpl; unfold SyncStats.message; solve_counter.
Defined.

#[global] Instance zmq_fails_counter : Counter SenderStats.SenderStatsCollector Z "zmq_fails" 64.
Proof.
  refine {| counter := SenderStats.zmq_fails; weight e := e; event := SenderStats.process |};
    unfold SenderStats.process; simpl; unfold SenderStats.message; solve_counter.
Defined.

#[global] Instance compressed_images_counter : Counter CompressionStats.CompressionStatsCollector Z "compressed_images" 64.
Proof.
  refine {| counter := CompressionStats.compressed_images; weight e := if 0 <? e then 1 else 0; event := CompressionStats.process |};
    unfold CompressionStats.process; simpl; unfold CompressionStats.message, CompressionStats.calculate_ratio; solve_counter.
Defined.

(** The log of a receiver accounts for every frame: whatever the order of processed
    frames and reports, the reported frame counts and missed-packet counts plus the pending
    ones are the number of frames and the sum of their missing packets (as 64-bit counters). *)
Lemma frame_stats_conservation (xs : list (stats_step Z)) (s : FrameStats.FrameStatsCollector) :
  let (s1, frames) := stats_run (key := "frames_counter") (w := 64) xs s in
  let (s2, missed) := stats_run (key := "n_missed_packets") (w := 64) xs s in
  u64 (frames + FrameStats.frames_counter s1) =
    u64 (FrameStats.frames_counter s + zlen (events xs)) /\
  u64 (missed + FrameStats.n_missed_packets s2) =
    u64 (FrameStats.n_missed_packets s + foldr (fun n acc => Z.max 0 n + acc) 0 (events xs)).
Proof.
  pose proof (stats_run_from (key := "frames_counter") (w := 64) xs s 0) as H1.
  pose proof (stats_run_from (key := "n_missed_packets") (w := 64) xs s 0) as H2.
  unfold stats_run.
  destruct (fold_left (stats_run1 (key := "frames_counter") (w := 64)) xs (s, 0)) as [s1 frames].
  destruct (fold_left (stats_run1 (key := "n_missed_packets") (w := 64)) xs (s, 0)) as [s2 missed].
  unfold u64. simpl in *. rewrite H1, H2 by done.
  split; do 2 f_equal; clear; induction xs as [|[e|? ?] xs IH]; simpl in *; try done;
    rewrite ?zlen_cons; unfold total_weight in *; simpl in *; lia.
Qed.
