(* ===== verification/Config.v ===== *)
(** * Detector configuration and image sizes

    [src/source/utils/include/utils/detector_config.hpp],
    [src/source/utils/src/detector_config.cpp] (module geometry),
    [src/source/utils/include/utils/get_metadata_dtype.hpp] and
    [src/source/utils/src/image_size_calc.cpp].  Reading the
    configuration from JSON is the subject of [ConfigReader]. *)

From S2P Require Import Prelude Protocol.

(** ** detector_config.hpp *)

Record Point : Type := { px : Z; py : Z }.

Inductive live_stream_type : Type := forward | periodic | batch.

Record live_stream_config : Type := {
  ls_type : live_stream_type;
  ls_value : Z * Z
}.

Record DetectorConfig : Type := {
  detector_name : string;
  detector_type : string;
  n_modules : Z;
  bit_depth : Z;
  image_pixel_height : Z;
  image_pixel_width : Z;
  start_udp_port : Z;
  log_level : string;
  stats_collection_period : Z;
  max_number_of_forwarders_spawned : Z;
  use_all_forwarders : bool;
  gpfs_block_size : Z;
  sender_sends_full_images : bool;
  module_sync_queue_size : Z;
  number_of_writers : Z;
  ram_buffer_gb : Z;
  delay_filter_timeout : Z;
  switch_user_active : bool;
  ls_configs : gmap string live_stream_config;
  modules : gmap Z (Point * Point)
}.

(** ** std::bitset<128>

    A bitset is the integer with those bits; an index of 128 or more throws. *)

Definition mask_bits : Z := 128.

Definition mask_set (m pos : Z) : outcome Z :=
  if pos <? mask_bits then Ret (Z.setbit m pos) else Throw out_of_range.
Definition mask_reset (m pos : Z) : outcome Z :=
  if pos <? mask_bits then Ret (Z.clearbit m pos) else Throw out_of_range.
Definition mask_test (m pos : Z) : outcome bool :=
  if pos <? mask_bits then Ret (Z.testbit m pos) else Throw out_of_range.

(** ** detector_config.cpp: module geometry *)

(** [config.modules.at(id)]; an [int] argument is converted to [std::size_t]. *)
Definition modules_at (config : DetectorConfig) (id : Z) : outcome (Point * Point) :=
  match modules config !! u64 id with
  | Some p => Ret p
  | None => Throw out_of_range
  end.

Definition get_module_start_position (config : DetectorConfig) (id : Z) : outcome Point :=
  omap_out fst (modules_at config id).

Definition get_module_end_position (config : DetectorConfig) (id : Z) : outcome Point :=
  omap_out snd (modules_at config id).

Definition get_modules_mask (config : DetectorConfig) : outcome Z :=
  foldO (fun m kv =>
           let! p := umod (fst kv) (u64 (n_modules config)) in
           mask_set m p)
        (map_to_list (modules config)) 0.

Definition test_if_module_is_inside_image (config : DetectorConfig) (module_id : Z) :
  outcome unit :=
  let! module_end := get_module_end_position config module_id in
  let! module_start := get_module_start_position config module_id in
  throw_if ((image_pixel_width config <? px module_start)
            || (image_pixel_height config <? py module_start)) runtime_error
    (throw_if ((image_pixel_width config <? px module_end)
               || (image_pixel_height config <? py module_end)) runtime_error
       (Ret tt)).

(** ** get_metadata_dtype.hpp *)

Definition get_metadata_dtype (config : DetectorConfig) : outcome pb_dtype :=
  if bool_decide (detector_type config = "jungfrau-converted"%string) then Ret dt_float32
  else if bit_depth config =? 8 then Ret dt_uint8
  else if bit_depth config =? 16 then Ret dt_uint16
  else if bit_depth config =? 32 then Ret dt_uint32
  else Throw runtime_error.

Definition get_bytes_from_metadata_dtype (t : pb_dtype) : outcome Z :=
  match t with
  | dt_float32 => Ret 4
  | dt_uint8 => Ret 1
  | dt_uint16 => Ret 2
  | dt_uint32 => Ret 4
  | _ => Throw runtime_error
  end.

(** ** image_size_calc.cpp *)

Definition is_type (config : DetectorConfig) (s : string) : bool :=
  bool_decide (detector_type config = s).

Definition converted_image_n_bytes (config : DetectorConfig) : outcome Z :=
  let h := image_pixel_height config in
  let w := image_pixel_width config in
  if is_type config "gigafrost" then
    let! a := i32 (h * w) in let! b := i32 (a * 2) in Ret (u64 b)
  else if is_type config "eiger" || is_type config "pco" || is_type config "jungfrau-raw" then
    let! a := i32 (w * h) in
    let! b := i32 (a * bit_depth config) in Ret (u64 (Z.quot b 8))
  else if is_type config "jungfrau-converted" then
    let! a := i32 (w * h) in Ret (u64 (u64 a * 4))
  else Throw runtime_error.

Definition max_converted_image_byte_size (config : DetectorConfig) : outcome Z :=
  if is_type config "gigafrost" then Ret (2016 * 2016 * 2)
  else if is_type config "eiger" then Ret (3106 * 3264 * 4)
  else if is_type config "jungfrau-raw" then Ret (1024 * 512 * 32 * 2)
  else if is_type config "jungfrau-converted" then Ret (1024 * 512 * 32 * 4)
  else Throw runtime_error.

Definition MIN_RAM_BUFFER_N_SLOTS : Z := 10 * 100.

Definition slots_number (config : DetectorConfig) : outcome Z :=
  let! bytes := converted_image_n_bytes config in
  let! slots := udiv (u64 (u64 (u64 (ram_buffer_gb config * 1024) * 1024) * 1024)) bytes in
  Ret (Z.max slots MIN_RAM_BUFFER_N_SLOTS).

Definition forwarders (config : DetectorConfig) : Z :=
  u64 (max_number_of_forwarders_spawned config).

Definition calculate_image_offset (config : DetectorConfig) (image_part : Z) : outcome Z :=
  if sender_sends_full_images config then Ret 0
  else if use_all_forwarders config then
    let! b := converted_image_n_bytes config in udiv (u64 (image_part * b)) (forwarders config)
  else
    let! b := max_converted_image_byte_size config in
    udiv (u64 (image_part * b)) (forwarders config).

Definition max_single_sender_size (config : DetectorConfig) : outcome Z :=
  if sender_sends_full_images config then converted_image_n_bytes config
  else if use_all_forwarders config then
    let! b := converted_image_n_bytes config in udiv b (forwarders config)
  else
    let! b := max_converted_image_byte_size config in udiv b (forwarders config).

Definition calculate_image_bytes_sent (config : DetectorConfig) (image_part : Z) : outcome Z :=
  let! converted_bytes := converted_image_n_bytes config in
  let! start_index := calculate_image_offset config image_part in
  let! single := max_single_sender_size config in
  Ret (Z.min (u64 (converted_bytes - start_index)) single).

Definition number_of_senders (config : DetectorConfig) : outcome Z :=
  if sender_sends_full_images config then Ret 1
  else if use_all_forwarders config then Ret (forwarders config)
  else
    let! b := converted_image_n_bytes config in
    let! m := max_single_sender_size config in
    udiv (u64 (u64 (b + m) - 1)) m.

(** ** Lemmas *)

Lemma mask_set_ret m pos : pos < mask_bits -> mask_set m pos = Ret (Z.setbit m pos).
Proof. intros H%Z.ltb_lt. unfold mask_set. by rewrite H. Qed.
Lemma mask_reset_ret m pos : pos < mask_bits -> mask_reset m pos = Ret (Z.clearbit m pos).
Proof. intros H%Z.ltb_lt. unfold mask_reset. by rewrite H. Qed.
Lemma mask_test_ret m pos : pos < mask_bits -> mask_test m pos = Ret (Z.testbit m pos).
Proof. intros H%Z.ltb_lt. unfold mask_test. by rewrite H. Qed.

Lemma slots_number_min config n : slots_number config = Ret n -> MIN_RAM_BUFFER_N_SLOTS <= n.
Proof.
  unfold slots_number. intros (b & _ & (s & _ & [= <-])%obind_Ret_iff)%obind_Ret_iff. lia.
Qed.

Lemma converted_image_n_bytes_range config b :
  converted_image_n_bytes config = Ret b -> 0 <= b < 2 ^ 64.
Proof.
  unfold converted_image_n_bytes.
  assert (H : forall x, 0 <= u64 x < 2 ^ 64) by apply u64_range.
  repeat case_match; intros He; repeat (apply obind_Ret_iff in He as (? & _ & He));
    simplify_eq; apply H.
Qed.

Lemma slots_number_range config n : slots_number config = Ret n -> 0 <= n < 2 ^ 64.
Proof.
  unfold slots_number. intros (b & Hb & (s & Hs & [= <-])%obind_Ret_iff)%obind_Ret_iff.
  apply converted_image_n_bytes_range in Hb. unfold udiv in Hs.
  destruct (Z.eqb_spec b 0); [done|]. injection Hs as <-.
  pose proof (u64_range (u64 (u64 (ram_buffer_gb config * 1024) * 1024) * 1024)) as Hr.
  split; [unfold MIN_RAM_BUFFER_N_SLOTS; lia|]. apply Z.max_lub_lt; [|done].
  eapply Z.le_lt_trans; [apply Z.div_le_upper_bound|apply Hr]; [lia|]. nia.
Qed.

(** Setting the bits of a list of module ids sets exactly those bits. *)
Lemma set_module_bits n (l : list (Z * (Point * Point))) m0 :
  0 < n <= mask_bits ->
  exists m, foldO (fun m kv => let! p := umod (fst kv) n in mask_set m p) l m0 = Ret m /\
    forall i, 0 <= i -> (Z.testbit m i = true <->
      Z.testbit m0 i = true \/ exists kv, kv ∈ l /\ fst kv mod n = i).
Proof.
  intros Hn. revert m0. induction l as [|kv l IH]; intros m0; simpl.
  - exists m0. split; [done|]. set_solver.
  - pose proof (Z.mod_pos_bound (fst kv) n ltac:(lia)) as Hk.
    rewrite umod_ret by lia. simpl. rewrite mask_set_ret by lia. simpl.
    destruct (IH (Z.setbit m0 (fst kv mod n))) as (m & -> & Hm).
    exists m. split; [done|]. intros i Hi. rewrite Hm, Z.setbit_iff by lia. set_solver.
Qed.

(** The mask the module synchronizer starts a new image with has the bit of every
    configured module, and no other bit. *)
Lemma get_modules_mask_bits config :
  0 < n_modules config <= mask_bits ->
  exists m, get_modules_mask config = Ret m /\
    forall i, 0 <= i ->
      (Z.testbit m i = true <->
       exists k, k ∈ dom (modules config) /\ k mod n_modules config = i).
Proof.
  intros Hn. unfold get_modules_mask. rewrite u64_small by (unfold mask_bits in *; lia).
  destruct (set_module_bits _ (map_to_list (modules config)) 0 Hn) as (m & -> & Hm).
  exists m. split; [done|]. intros i Hi. rewrite Hm, Z.bits_0 by done. split.
  - intros [|([k v] & Hin%elem_of_map_to_list & <-)]; [done|].
    exists k. split; [by eapply elem_of_dom_2|done].
  - intros (k & [v Hv]%elem_of_dom & <-). right. exists (k, v).
    by rewrite elem_of_map_to_list.
Qed.

(** ** Splitting an image over the forwarders *)

(** The size the forwarders share: the image, or the largest image of the detector. *)
Definition split_base (config : DetectorConfig) : outcome Z :=
  if use_all_forwarders config then converted_image_n_bytes config
  else max_converted_image_byte_size config.

Section Split.
Context (config : DetectorConfig) (B S k : Z).
Context (Hparts : sender_sends_full_images config = false).
Context (HB : converted_image_n_bytes config = Ret B).
Context (HS : split_base config = Ret S).
Context (Hk : 0 < k) (HSk : S = k * forwarders config) (Hf : 0 < forwarders config).

Lemma split_offset p :
  0 <= p -> p * S < 2 ^ 64 -> calculate_image_offset config p = Ret (p * k).
Proof using All.
  intros Hp HpS. unfold calculate_image_offset. unfold split_base in HS. rewrite Hparts.
  assert (Hd : udiv (u64 (p * S)) (forwarders config) = Ret (p * k)).
  { rewrite u64_small by nia. rewrite udiv_ret by lia. f_equal. rewrite HSk, Z.mul_assoc.
    by rewrite Z.div_mul by lia. }
  destruct (use_all_forwarders config); rewrite HS; simpl; exact Hd.
Qed.

Lemma split_single : max_single_sender_size config = Ret k.
Proof using All.
  unfold max_single_sender_size. unfold split_base in HS. rewrite Hparts.
  destruct (use_all_forwarders config); rewrite HS; simpl;
    rewrite udiv_ret, HSk, Z.div_mul by lia; done.
Qed.

Lemma split_bytes p :
  0 <= p -> p * S < 2 ^ 64 -> p * k < B ->
  calculate_image_bytes_sent config p = Ret (Z.min (B - p * k) k).
Proof using All.
  intros Hp HpS Hlt. unfold calculate_image_bytes_sent.
  pose proof (converted_image_n_bytes_range _ _ HB).
  rewrite HB. simpl. rewrite split_offset, split_single by done. simpl.
  rewrite u64_small by nia. done.
Qed.

Lemma split_senders :
  use_all_forwarders config = false -> 0 < B -> B + k < 2 ^ 64 ->
  number_of_senders config = Ret ((B + k - 1) / k).
Proof using All.
  intros Hu HB0 Hov. unfold number_of_senders. rewrite Hparts, Hu, HB. simpl.
  rewrite split_single. simpl. rewrite (u64_small (B + k)) by lia. rewrite u64_small by lia.
  by rewrite udiv_ret by lia.
Qed.

End Split.

(** ** Pixel type and image size *)

Lemma is_type_true config s : is_type config s = true <-> detector_type config = s.
Proof. apply bool_decide_eq_true. Qed.

(** The types for which the configured [bit_depth] is the pixel size of the image. *)
Definition raw_type (config : DetectorConfig) : Prop :=
  detector_type config = "eiger"%string \/ detector_type config = "pco"%string \/
  detector_type config = "jungfrau-raw"%string \/
  (detector_type config = "gigafrost"%string /\ bit_depth config = 16).

Lemma dtype_bytes config t :
  get_metadata_dtype config = Ret t ->
  detector_type config <> "jungfrau-converted"%string ->
  exists k, get_bytes_from_metadata_dtype t = Ret k /\ bit_depth config = 8 * k.
Proof.
  unfold get_metadata_dtype. intros H Hne. rewrite bool_decide_eq_false_2 in H by done.
  repeat case_match; simplify_eq; simpl; eexists; (split; [done|]); lia.
Qed.

Lemma converted_bytes_raw config b :
  raw_type config -> 0 <= image_pixel_width config -> 0 <= image_pixel_height config ->
  0 <= bit_depth config ->
  converted_image_n_bytes config = Ret b ->
  b = image_pixel_width config * image_pixel_height config * bit_depth config / 8.
Proof.
  intros Hr Hw Hh Hd. unfold converted_image_n_bytes, is_type.
  assert (Hq : forall x y, i32 x = Ret y -> 0 <= x -> y = x /\ u64 (Z.quot y 8) = x / 8).
  { intros x y [-> Hx]%i32_inv ?. split; [done|]. rewrite Z.quot_div_nonneg by lia.
    apply u64_small. unfold in_i32 in Hx. split; [apply Z.div_pos; lia|].
    apply Z.div_lt_upper_bound; lia. }
  destruct Hr as [->|[->|[->|[-> Hbd]]]]; simpl;
    intros (a & [-> Ha]%i32_inv & (c & Hc & [= <-])%obind_Ret_iff)%obind_Ret_iff.
  1-3: by apply Hq in Hc as [_ ->]; [|nia].
  apply i32_inv in Hc as [-> Hc]. rewrite u64_small by (unfold in_i32 in Hc; nia).
  rewrite Hbd. replace (image_pixel_width config * image_pixel_height config * 16)
    with (image_pixel_height config * image_pixel_width config * 2 * 8) by lia.
  by rewrite Z.div_mul by lia.
Qed.

(** For every supported detector type the size of a RAM-buffer slot
    ([converted_image_n_bytes]) is width * height * the byte size of the dtype that the
    image metadata carries, which is the size the buffer writer and reader recompute
    from the metadata. *)
Lemma converted_size_matches_dtype config t b :
  raw_type config \/ detector_type config = "jungfrau-converted"%string ->
  0 <= image_pixel_width config -> 0 <= image_pixel_height config ->
  get_metadata_dtype config = Ret t ->
  converted_image_n_bytes config = Ret b ->
  exists k, get_bytes_from_metadata_dtype t = Ret k /\
            b = image_pixel_width config * image_pixel_height config * k.
Proof.
  intros [Hr|Hj] Hw Hh Ht Hb.
  - destruct (dtype_bytes _ _ Ht) as (k & Hk & Hbd).
    { by destruct Hr as [->|[->|[->|[-> _]]]]. }
    exists k. split; [done|]. rewrite (converted_bytes_raw _ _ Hr Hw Hh) with (2 := Hb).
    + rewrite Hbd. replace (image_pixel_width config * image_pixel_height config * (8 * k))
        with (image_pixel_width config * image_pixel_height config * k * 8) by lia.
      apply Z.div_mul. lia.
    + destruct t; simplify_eq/=; lia.
  - unfold get_metadata_dtype in Ht. unfold converted_image_n_bytes, is_type in Hb.
    rewrite Hj in Ht, Hb. simpl in *. simplify_eq. exists 4. split; [done|].
    apply obind_Ret_iff in Hb as (a & [-> Ha]%i32_inv & [= <-]). unfold in_i32 in Ha.
    rewrite (u64_small (image_pixel_width config * image_pixel_height config)) by nia.
    by rewrite u64_small by nia.
Qed.

(** A 16-bit Eiger image of 4 x 2 pixels. *)
Definition small_eiger : DetectorConfig :=
  {| detector_name := "EG"; detector_type := "eiger"; n_modules := 2; bit_depth := 16;
     image_pixel_height := 2; image_pixel_width := 4; start_udp_port := 50000;
     log_level := "info"; stats_collection_period := 10;
     max_number_of_forwarders_spawned := 8; use_all_forwarders := true;
     gpfs_block_size := 16777216; sender_sends_full_images := false;
     module_sync_queue_size := 50; number_of_writers := 0; ram_buffer_gb := 0;
     delay_filter_timeout := 10; switch_user_active := false; ls_configs := ∅;
     modules := ∅ |}.

Lemma converted_size_matches_dtype_witness :
  exists k, get_bytes_from_metadata_dtype dt_uint16 = Ret k /\ 16 = 4 * 2 * k.
Proof.
  apply (converted_size_matches_dtype small_eiger dt_uint16 16).
  - left. left. reflexivity.
  - vm_compute. discriminate.
  - vm_compute. discriminate.
  - reflexivity.
  - vm_compute. reflexivity.
Defined.
