(* ===== verification/ConfigReader.v ===== *)
(** * Reading the configuration

    [src/source/utils/src/detector_config.cpp]: [read_config] and its callers.  The JSON library is a parameter,
    the class [Json] with what it documents; [std::stoi] is modelled.  [read_config] is described by the relation
    [describes] between documents and configurations, and what it returns fits the types of its fields, which
    is what the sizes of the RAM buffer rely on ([ring_size_fits]). *)

From Stdlib Require Import Ascii.
From stdpp Require Import pretty.
From S2P Require Import Prelude Protocol Config.

(** ** std::stoi *)

Definition code (c : ascii) : Z := Z.of_N (N_of_ascii c).

(** [isspace] in the C locale. *)
Definition is_space (c : ascii) : bool := (code c =? 32) || ((9 <=? code c) && (code c <=? 13)).

Definition digit_of (c : ascii) : option Z :=
  if (48 <=? code c) && (code c <=? 57) then Some (code c - 48) else None.

Fixpoint skip_space (s : string) : string :=
  match s with String c s' => if is_space c then skip_space s' else s | EmptyString => s end.

(** The longest prefix of digits. *)
Fixpoint digits (acc : Z) (s : string) : Z :=
  match s with
  | String c s' => match digit_of c with Some d => digits (10 * acc + d) s' | None => acc end
  | EmptyString => acc
  end.

Definition unsigned_part (negative : bool) (s : string) : outcome Z :=
  match s with
  | String c _ =>
      match digit_of c with
      | Some _ =>
          let v := if negative then - digits 0 s else digits 0 s in
          if bool_decide (in_i32 v) then Ret v else Throw out_of_range
      | None => Throw invalid_argument
      end
  | EmptyString => Throw invalid_argument
  end.

Definition stoi (s : string) : outcome Z :=
  match skip_space s with
  | String c s' => if code c =? 45 then unsigned_part true s' else if code c =? 43 then unsigned_part false s' else unsigned_part false (String c s')
  | EmptyString => Throw invalid_argument
  end.

(** ** The JSON library *)

(** The C++ types that values are converted to. *)
Inductive cpp_type := TInt | TUnsigned | TU16 | TSize | TBool | TString.

Definition denote (t : cpp_type) : Type :=
  match t with TBool => bool | TString => string | _ => Z end.

Definition typed (t : cpp_type) : denote t -> Prop :=
  match t with
  | TInt => in_i32
  | TUnsigned => in_u 32
  | TU16 => in_u 16
  | TSize => in_u 64
  | TBool | TString => fun _ => True
  end.

(** [json_field], [json_at] and [json_elem] are [operator[](key)], [at(key)] and [operator[](index)] of a constant value,
    [json_get] is [get<T>()] and [json_value] is [value(key, default)].  A value that contains a key is an object.
    [at], [get] and [value] throw where they cannot answer; an element of a constant array has no bounds check. *)
Class Json (json : Type) := {
  json_parse : string -> outcome json;
  json_contains : json -> string -> bool;
  json_field : json -> string -> outcome json;
  json_at : json -> string -> outcome json;
  json_items : json -> list (string * json);
  json_size : json -> Z;
  json_elem : json -> Z -> outcome json;
  json_get : forall t, json -> outcome (denote t);
  json_value : forall t, json -> string -> denote t -> outcome (denote t);
  json_parse_law : json_parse EmptyString = Throw json_error;
  json_contains_law : forall j k, json_contains j k = true -> exists v, json_field j k = Ret v /\ json_at j k = Ret v;
  json_get_law : forall t j x, json_get t j = Ret x -> typed t x;
  json_value_law : forall t j k k' d, json_contains j k' = true ->
    json_value t j k d = if json_contains j k then let! v := json_at j k in json_get t v else Ret d;
  json_at_defined : forall j k u, json_at j k <> Undef u;
  json_get_defined : forall t j u, json_get t j <> Undef u;
  json_elem_defined : forall j i u, 0 <= i < json_size j -> json_elem j i <> Undef u }.

(** ** detector_config.cpp *)

Definition to_type (type_str : string) : outcome live_stream_type :=
  if bool_decide (type_str = "forward") then Ret forward
  else if bool_decide (type_str = "periodic") then Ret periodic
  else if bool_decide (type_str = "batch") then Ret batch
  else Throw invalid_argument.

Definition required_parameters : list string :=
  ["detector_name"; "detector_type"; "n_modules"; "bit_depth"; "image_pixel_height"; "image_pixel_width"; "start_udp_port"; "module_positions"].

Section Reader.
Context `{Json json}.

Definition get_elem (t : cpp_type) (value : json) (i : Z) : outcome (denote t) :=
  let! v := json_elem value i in json_get t v.

Definition get_field (t : cpp_type) (doc : json) (key : string) : outcome (denote t) :=
  let! v := json_field doc key in json_get t v.

(** The right-hand side of an assignment is evaluated first. *)
Definition read_module (modules : gmap Z (Point * Point)) (item : string * json) : outcome (gmap Z (Point * Point)) :=
  let '(key, value) := item in
  throw_if (negb (json_size value =? 4)) runtime_error (
    let! x0 := get_elem TInt value 0 in
    let! y0 := get_elem TInt value 1 in
    let! x1 := get_elem TInt value 2 in
    let! y1 := get_elem TInt value 3 in
    let! id := stoi key in
    Ret (<[u64 id := ({| px := x0; py := y0 |}, {| px := x1; py := y1 |})]> modules)).

Definition read_live_stream (ls_configs : gmap string live_stream_config) (item : string * json) :
    outcome (gmap string live_stream_config) :=
  let '(key, value) := item in
  throw_if (negb (json_contains value "type")) invalid_argument (
    let! v := json_at value "type" in
    let! type_str := json_get TString v in
    if bool_decide (type_str = "forward") then
      let! ty := to_type type_str in
      Ret (<[key := {| ls_type := ty; ls_value := (0, 0) |}]> ls_configs)
    else
      let! ty := to_type type_str in
      let! config := json_at value "config" in
      let! a := get_elem TSize config 0 in
      let! config := json_at value "config" in
      let! b := get_elem TSize config 1 in
      Ret (<[key := {| ls_type := ty; ls_value := (a, b) |}]> ls_configs)).

Definition read_live_streams (doc : json) : outcome (gmap string live_stream_config) :=
  if json_contains doc "live_stream_configs" then
    let! v := json_field doc "live_stream_configs" in foldO read_live_stream (json_items v) ∅
  else Ret ∅.

Definition check_parameters (doc : json) : outcome unit :=
  foldO (fun _ s => throw_if (negb (json_contains doc s)) runtime_error (Ret tt)) required_parameters tt.

Definition read_config (doc : json) : outcome DetectorConfig :=
  let! _ := check_parameters doc in
  let! positions := json_field doc "module_positions" in
  let! modules := foldO read_module (json_items positions) ∅ in
  let! ls_configs := read_live_streams doc in
  let! name := get_field TString doc "detector_name" in
  let! type := get_field TString doc "detector_type" in
  let! n_modules := get_field TInt doc "n_modules" in
  let! depth := get_field TInt doc "bit_depth" in
  let! height := get_field TInt doc "image_pixel_height" in
  let! width := get_field TInt doc "image_pixel_width" in
  let! port := get_field TU16 doc "start_udp_port" in
  let! level := json_value TString doc "log_level" "info"%string in
  let! period := json_value TInt doc "stats_collection_period" 10 in
  let! forwarders := json_value TInt doc "max_number_of_forwarders_spawned" 8 in
  let! all := json_value TBool doc "use_all_forwarders" false in
  let! block := json_value TInt doc "gpfs_block_size" 16777216 in
  let! full := json_value TBool doc "sender_sends_full_images" false in
  let! queue := json_value TInt doc "module_sync_queue_size" 50 in
  let! writers := json_value TInt doc "number_of_writers" 0 in
  let! gb := json_value TUnsigned doc "ram_buffer_gb" 0 in
  let! timeout := json_value TInt doc "delay_filter_timeout" 10 in
  let! switch := json_value TBool doc "switch_user_active" false in
  Ret {| detector_name := name; detector_type := type; Config.n_modules := n_modules; bit_depth := depth;
         image_pixel_height := height; image_pixel_width := width; start_udp_port := port; log_level := level;
         stats_collection_period := period; max_number_of_forwarders_spawned := forwarders; use_all_forwarders := all;
         gpfs_block_size := block; sender_sends_full_images := full; module_sync_queue_size := queue;
         number_of_writers := writers; ram_buffer_gb := gb; delay_filter_timeout := timeout;
         switch_user_active := switch; Config.ls_configs := ls_configs; Config.modules := modules |}.

Definition read_config_from_json_string (data : string) : outcome DetectorConfig :=
  let! doc := json_parse data in read_config doc.

(** A file that cannot be opened is an empty stream. *)
Definition read_config_from_json_file (files : gmap string string) (filename : string) : outcome DetectorConfig :=
  let! doc := json_parse (default EmptyString (files !! filename)) in read_config doc.
End Reader.

(** ** A printed number is read back *)

Lemma digit_of_char n : (n < 10)%N -> digit_of (pretty_N_char n) = Some (Z.of_N n).
Proof.
  intros Hn. assert (Hall : Forall (fun k => digit_of (pretty_N_char (N.of_nat k)) = Some (Z.of_nat k)) (seq 0 10)) by repeat constructor.
  rewrite list.Forall_forall in Hall. specialize (Hall (N.to_nat n)). rewrite N2Nat.id, N_nat_Z in Hall. apply Hall, elem_of_seq. lia.
Qed.

Lemma digits_go x : forall s, digits 0 (pretty_N_go x s) = digits (Z.of_N x) s.
Proof.
  induction (N.lt_wf_0 x) as [x _ IH]; intros s. assert (x = 0 \/ 0 < x)%N as [->|Hx] by lia; [by rewrite pretty_N_go_0|].
  rewrite pretty_N_go_step by done. rewrite IH by (by apply N.div_lt). cbn [digits].
  rewrite digit_of_char by (by apply N.mod_lt). f_equal.
  rewrite N2Z.inj_div, N2Z.inj_mod. symmetry. apply Z.div_mod. done.
Qed.

Lemma go_head x : (0 < x)%N -> forall s, exists c s' d, pretty_N_go x s = String c s' /\ digit_of c = Some d.
Proof.
  induction (N.lt_wf_0 x) as [x _ IH]; intros Hx s. rewrite pretty_N_go_step by done.
  destruct (N.eq_0_gt_0_cases (x `div` 10)) as [->|Hd].
  - rewrite pretty_N_go_0. do 3 eexists. split; [done|]. by apply digit_of_char, N.mod_lt.
  - apply IH; [by apply N.div_lt|done].
Qed.

Lemma digit_code c d : digit_of c = Some d -> 48 <= code c <= 57.
Proof. unfold digit_of. case_match eqn:E; [|done]. intros _. lia. Qed.

Lemma unsigned_part_pretty (b : bool) x : (0 < x)%N -> in_i32 (if b then - Z.of_N x else Z.of_N x) ->
  unsigned_part b (pretty_N_go x "") = Ret (if b then - Z.of_N x else Z.of_N x).
Proof.
  intros Hx Hr. unfold unsigned_part. pose proof (digits_go x "") as Hd. destruct (go_head x Hx "") as (c & s' & d & E & Hc).
  rewrite E in *. rewrite Hc, Hd. cbn [digits]. by rewrite bool_decide_eq_true_2.
Qed.

Lemma stoi_pretty z : in_i32 z -> stoi (pretty z) = Ret z.
Proof.
  intros Hz. destruct z as [|p|p]; [done|..].
  - change (pretty (Z.pos p)) with (pretty_N_go (N.pos p) ""). unfold stoi.
    pose proof (unsigned_part_pretty false (N.pos p) ltac:(done) Hz) as Hu.
    destruct (go_head (N.pos p) ltac:(done) "") as (c & s' & d & E & Hc). rewrite E in *. pose proof (digit_code c d Hc).
    cbn [skip_space]. unfold is_space. rewrite (proj2 (Z.eqb_neq _ _)), (proj2 (Z.leb_gt (code c) 13)), andb_false_r by lia. cbn [orb].
    rewrite !(proj2 (Z.eqb_neq _ _)) by lia. exact Hu.
  - change (pretty (Z.neg p)) with (String "-" (pretty_N_go (N.pos p) "")). exact (unsigned_part_pretty true (N.pos p) ltac:(done) Hz).
Qed.

(** ** What a document describes *)

Section Description.
Context `{Json json}.

(** A parameter that may be left out, with its default. *)
Definition option_is (t : cpp_type) (doc : json) (key : string) (d x : denote t) : Prop :=
  if json_contains doc key then (let! v := json_at doc key in json_get t v) = Ret x else x = d.

(** An item of the module positions with the module it stands for: four numbers, the corners, under a key that is an
    [int]. *)
Definition module_item (item : string * json) (m : Z * (Point * Point)) : Prop :=
  let '(key, value) := item in let '(id, (p, q)) := m in
  json_size value = 4 /\
  get_elem TInt value 0 = Ret (px p) /\ get_elem TInt value 1 = Ret (py p) /\
  get_elem TInt value 2 = Ret (px q) /\ get_elem TInt value 3 = Ret (py q) /\
  exists n, stoi key = Ret n /\ id = u64 n.

Definition type_name (t : live_stream_type) : string :=
  match t with forward => "forward" | periodic => "periodic" | batch => "batch" end.

(** An item of the live streams: its key is the address; the type is one of the three names; the two numbers are read
    for the types other than forward. *)
Definition live_stream_item (item : string * json) (ls : string * live_stream_config) : Prop :=
  let '(key, value) := item in let '(address, config) := ls in
  address = key /\ json_contains value "type" = true /\
  (let! v := json_at value "type" in json_get TString v) = Ret (type_name (ls_type config)) /\
  match ls_type config with
  | forward => ls_value config = (0, 0)
  | _ => (let! v := json_at value "config" in get_elem TSize v 0) = Ret (fst (ls_value config)) /\
         (let! v := json_at value "config" in get_elem TSize v 1) = Ret (snd (ls_value config))
  end.

(** The map of a list of entries; a later entry replaces an earlier one with the same key. *)
Definition entries {K V} `{Countable K} (l : list (K * V)) : gmap K V :=
  foldl (fun m kv => <[fst kv := snd kv]> m) ∅ l.

Record describes (doc : json) (c : DetectorConfig) : Prop := {
  d_required : Forall (fun p => json_contains doc p = true) required_parameters;
  d_modules : exists v l, json_field doc "module_positions" = Ret v /\ Forall2 module_item (json_items v) l /\
    modules c = entries l;
  d_live_streams : if json_contains doc "live_stream_configs"
    then exists v l, json_field doc "live_stream_configs" = Ret v /\ Forall2 live_stream_item (json_items v) l /\
      ls_configs c = entries l
    else ls_configs c = ∅;
  d_name : get_field TString doc "detector_name" = Ret (detector_name c);
  d_type : get_field TString doc "detector_type" = Ret (detector_type c);
  d_n_modules : get_field TInt doc "n_modules" = Ret (n_modules c);
  d_depth : get_field TInt doc "bit_depth" = Ret (bit_depth c);
  d_height : get_field TInt doc "image_pixel_height" = Ret (image_pixel_height c);
  d_width : get_field TInt doc "image_pixel_width" = Ret (image_pixel_width c);
  d_port : get_field TU16 doc "start_udp_port" = Ret (start_udp_port c);
  d_level : option_is TString doc "log_level" "info"%string (log_level c);
  d_period : option_is TInt doc "stats_collection_period" 10 (stats_collection_period c);
  d_forwarders : option_is TInt doc "max_number_of_forwarders_spawned" 8 (max_number_of_forwarders_spawned c);
  d_all : option_is TBool doc "use_all_forwarders" false (use_all_forwarders c);
  d_block : option_is TInt doc "gpfs_block_size" 16777216 (gpfs_block_size c);
  d_full : option_is TBool doc "sender_sends_full_images" false (sender_sends_full_images c);
  d_queue : option_is TInt doc "module_sync_queue_size" 50 (module_sync_queue_size c);
  d_writers : option_is TInt doc "number_of_writers" 0 (number_of_writers c);
  d_gb : option_is TUnsigned doc "ram_buffer_gb" 0 (ram_buffer_gb c);
  d_timeout : option_is TInt doc "delay_filter_timeout" 10 (delay_filter_timeout c);
  d_switch : option_is TBool doc "switch_user_active" false (switch_user_active c) }.

Lemma check_spec doc :
  check_parameters doc = if forallb (json_contains doc) required_parameters then Ret tt else Throw runtime_error.
Proof using Type.
  unfold check_parameters. induction required_parameters as [|p l IH]; [done|]. cbn [foldO forallb].
  unfold throw_if. by destruct (json_contains doc p).
Qed.

Lemma checked doc : check_parameters doc = Ret tt <-> Forall (fun p => json_contains doc p = true) required_parameters.
Proof using Type.
  rewrite check_spec, list.Forall_forall. destruct forallb eqn:E.
  - rewrite forallb_forall in E. split; [|done]. intros _ p Hp. apply E. by apply list_elem_of_In.
  - split; [done|]. intros Hall. assert (forallb (json_contains doc) required_parameters = true); [|congruence].
    apply forallb_forall. intros p Hp. apply Hall. by apply list_elem_of_In.
Qed.

(** A document that lacks a required parameter is refused, whatever else it holds. *)
Lemma missing_parameter doc p : p ∈ required_parameters -> json_contains doc p = false -> read_config doc = Throw runtime_error.
Proof using Type.
  intros Hp Hc. unfold read_config. rewrite check_spec. destruct forallb eqn:E; [|done].
  rewrite forallb_forall in E. rewrite E in Hc; [done|]. by apply list_elem_of_In.
Qed.

Lemma option_value t doc k d x : json_contains doc "detector_name" = true ->
  json_value t doc k d = Ret x <-> option_is t doc k d x.
Proof using Type.
  intros Hn. rewrite (json_value_law t doc k _ d Hn). unfold option_is. destruct (json_contains doc k); [reflexivity|].
  split; [by intros [= ->]|by intros ->].
Qed.

Lemma foldO_entries {I K V} `{Countable K} (f : gmap K V -> I -> outcome (gmap K V)) (R : I -> K * V -> Prop) l :
  (forall m it m', f m it = Ret m' <-> exists kv, R it kv /\ m' = <[fst kv := snd kv]> m) ->
  forall m m', foldO f l m = Ret m' <->
    exists kvs, Forall2 R l kvs /\ m' = foldl (fun m kv => <[fst kv := snd kv]> m) m kvs.
Proof using Type.
  intros Hf. induction l as [|it l IH]; intros m m'; cbn [foldO].
  - split; [intros [= <-]; exists []; by split|]. intros (kvs & Hk & ->). by inversion Hk.
  - rewrite obind_Ret_iff. split.
    + intros (m1 & (kv & Hkv & ->)%Hf & (kvs & Hk & ->)%IH). exists (kv :: kvs). split; [by constructor|done].
    + intros (kvs & Hk & ->). inversion Hk as [|? kv ? kvs' Hkv Hk']; subst. eexists. split; [apply Hf; eauto|].
      apply IH. eauto.
Qed.

Lemma read_module_iff m item m' :
  read_module m item = Ret m' <-> exists kv, module_item item kv /\ m' = <[fst kv := snd kv]> m.
Proof using Type.
  destruct item as [key value]. unfold read_module, throw_if, module_item. destruct (Z.eqb_spec (json_size value) 4) as [Hs|Hs]; cbn [negb].
  - split.
    + intros E. apply obind_Ret_iff in E as (x0 & E0 & E). apply obind_Ret_iff in E as (y0 & E1 & E).
      apply obind_Ret_iff in E as (x1 & E2 & E). apply obind_Ret_iff in E as (y1 & E3 & E).
      apply obind_Ret_iff in E as (n & Ek & E). injection E as <-.
      exists (u64 n, ({| px := x0; py := y0 |}, {| px := x1; py := y1 |})). cbn. split; [|done]. split_and!; eauto.
    + intros ([id [[a b] [c d]]] & (_ & E0 & E1 & E2 & E3 & n & Ek & ->) & ->). cbn in *.
      by rewrite E0, E1, E2, E3, Ek.
  - split; [done|]. intros ([id [p q]] & (? & _) & _). done.
Qed.

Lemma to_type_iff s t : to_type s = Ret t <-> s = type_name t.
Proof using Type.
  unfold to_type. split.
  - repeat case_bool_decide; intros [= <-]; done.
  - intros ->. by destruct t.
Qed.

Lemma read_live_stream_iff m item m' :
  read_live_stream m item = Ret m' <-> exists kv, live_stream_item item kv /\ m' = <[fst kv := snd kv]> m.
Proof using Type.
  destruct item as [key value]. unfold read_live_stream, throw_if, live_stream_item.
  destruct (json_contains value "type") eqn:Ht; cbn [negb]; [|split; [done|]; intros ([a c] & (_ & ? & _) & _); done]. split.
  - intros E. apply obind_Ret_iff in E as (v & Ev & E). apply obind_Ret_iff in E as (s & Es & E).
    case_bool_decide as Hs; apply obind_Ret_iff in E as (ty & Hty & E); apply to_type_iff in Hty as ->.
    + injection E as <-. destruct ty; try done. eexists (key, {| ls_type := forward; ls_value := (0, 0) |}). cbn.
      rewrite Ev. cbn. by split_and!.
    + apply obind_Ret_iff in E as (c1 & Ec & E). apply obind_Ret_iff in E as (a & Ea & E).
      rewrite Ec in E. cbn [obind] in E. apply obind_Ret_iff in E as (b & Eb & E). injection E as <-.
      exists (key, {| ls_type := ty; ls_value := (a, b) |}). cbn. rewrite Ev, Ec. cbn.
      destruct ty; [done|split_and!; done..].
  - intros ([a [ty [x y]]] & (-> & _ & Es & Hv) & ->). cbn in *. apply obind_Ret_iff in Es as (v & Ev & Es). rewrite Ev. cbn [obind]. rewrite Es. cbn [obind].
    destruct ty; cbn in *; [by injection Hv as -> ->| |];
      (destruct Hv as [Ha Hb]; apply obind_Ret_iff in Ha as (c & Hc & Ha); rewrite Hc in *; cbn [obind] in *; by rewrite Ha, Hb).
Qed.

Lemma modules_iff doc ms :
  (let! v := json_field doc "module_positions" in foldO read_module (json_items v) ∅) = Ret ms <->
  exists v l, json_field doc "module_positions" = Ret v /\ Forall2 module_item (json_items v) l /\ ms = entries l.
Proof using Type.
  rewrite obind_Ret_iff. setoid_rewrite (foldO_entries _ _ _ read_module_iff). unfold entries. naive_solver.
Qed.

Lemma live_streams_iff doc ls :
  read_live_streams doc = Ret ls <->
  if json_contains doc "live_stream_configs"
  then exists v l, json_field doc "live_stream_configs" = Ret v /\ Forall2 live_stream_item (json_items v) l /\ ls = entries l
  else ls = ∅.
Proof using Type.
  unfold read_live_streams. destruct (json_contains doc "live_stream_configs"); [|split; [by intros [= <-]|by intros ->]].
  rewrite obind_Ret_iff. setoid_rewrite (foldO_entries _ _ _ read_live_stream_iff). unfold entries. naive_solver.
Qed.

(** [read_config] returns exactly the configuration that the document describes. *)
Lemma read_config_iff doc c : read_config doc = Ret c <-> describes doc c.
Proof using Type.
  split.
  - unfold read_config. rewrite obind_Ret_iff. intros ([] & Hc & E). apply checked in Hc as Hr.
    assert (Hn : json_contains doc "detector_name" = true) by (by inversion Hr).
    apply obind_Ret_iff in E as (v & Ev & E). apply obind_Ret_iff in E as (ms & Ems & E).
    repeat (apply obind_Ret_iff in E as (? & ? & E)). injection E as <-.
    split; cbn; try (apply option_value; [exact Hn|]); try assumption; [|by apply live_streams_iff].
    apply modules_iff. by rewrite Ev.
  - intros [Hr Hm Hl H1 H2 H3 H4 H5 H6 H7 O1 O2 O3 O4 O5 O6 O7 O8 O9 O10 O11].
    assert (Hn : json_contains doc "detector_name" = true) by (by inversion Hr).
    unfold read_config. rewrite (proj2 (checked doc) Hr). cbn [obind].
    apply modules_iff in Hm. apply live_streams_iff in Hl.
    apply obind_Ret_iff in Hm as (v & -> & Hm). cbn [obind]. rewrite Hm, Hl, H1, H2, H3, H4, H5, H6, H7. cbn [obind].
    apply option_value in O1, O2, O3, O4, O5, O6, O7, O8, O9, O10, O11; try exact Hn.
    rewrite O1, O2, O3, O4, O5, O6, O7, O8, O9, O10, O11. cbn [obind]. by destruct c.
Qed.
End Description.

(** ** Types of the fields *)

Definition point_typed (p : Point) : Prop := in_i32 (px p) /\ in_i32 (py p).

(** The key of a module is an [int] that was converted to [std::size_t]. *)
Definition module_typed (id : Z) (pos : Point * Point) : Prop :=
  (0 <= id < 2 ^ 31 \/ 2 ^ 64 - 2 ^ 31 <= id < 2 ^ 64) /\ point_typed (fst pos) /\ point_typed (snd pos).

Definition live_stream_typed (ls : live_stream_config) : Prop :=
  in_u 64 (fst (ls_value ls)) /\ in_u 64 (snd (ls_value ls)) /\ (ls_type ls = forward -> ls_value ls = (0, 0)).

Record config_typed (c : DetectorConfig) : Prop := {
  ty_n_modules : in_i32 (n_modules c);
  ty_depth : in_i32 (bit_depth c);
  ty_height : in_i32 (image_pixel_height c);
  ty_width : in_i32 (image_pixel_width c);
  ty_port : in_u 16 (start_udp_port c);
  ty_period : in_i32 (stats_collection_period c);
  ty_forwarders : in_i32 (max_number_of_forwarders_spawned c);
  ty_block : in_i32 (gpfs_block_size c);
  ty_queue : in_i32 (module_sync_queue_size c);
  ty_writers : in_i32 (number_of_writers c);
  ty_gb : in_u 32 (ram_buffer_gb c);
  ty_timeout : in_i32 (delay_filter_timeout c);
  ty_modules : map_Forall module_typed (modules c);
  ty_live_streams : map_Forall (fun _ => live_stream_typed) (ls_configs c) }.

Lemma stoi_range s z : stoi s = Ret z -> in_i32 z.
Proof.
  assert (Hu : forall b t, unsigned_part b t = Ret z -> in_i32 z).
  { intros b t. unfold unsigned_part. repeat case_match; try done; try (case_bool_decide; [by intros [= <-]|done]). }
  unfold stoi. repeat case_match; try done; apply Hu.
Qed.

Lemma u64_of_int z : in_i32 z -> 0 <= u64 z < 2 ^ 31 \/ 2 ^ 64 - 2 ^ 31 <= u64 z < 2 ^ 64.
Proof.
  intros Hz. unfold in_i32 in Hz. destruct (Z.neg_nonneg_cases z) as [Hn|Hp].
  - right. replace (u64 z) with (z + 2 ^ 64); [lia|]. unfold u64, wrap. rewrite <- (Z.mod_add z 1) by lia. rewrite Z.mod_small; lia.
  - left. rewrite u64_small; lia.
Qed.

Section Types.
Context `{Json json}.

Lemma elem_typed t (v : json) i x : get_elem t v i = Ret x -> typed t x.
Proof using Type. intros (? & _ & E)%obind_Ret_iff. by apply json_get_law in E. Qed.

Lemma field_typed t (doc : json) k x : get_field t doc k = Ret x -> typed t x.
Proof using Type. intros (? & _ & E)%obind_Ret_iff. by apply json_get_law in E. Qed.

Lemma option_typed t (doc : json) k d x : typed t d -> option_is t doc k d x -> typed t x.
Proof using Type.
  intros Hd. unfold option_is. destruct (json_contains doc k); [|by intros ->].
  intros (? & _ & E)%obind_Ret_iff. by apply json_get_law in E.
Qed.

Lemma read_module_typed m (item : string * json) m' :
  map_Forall module_typed m -> read_module m item = Ret m' -> map_Forall module_typed m'.
Proof using Type.
  intros Hm. destruct item as [key value]. unfold read_module, throw_if. case_match; [done|].
  intros E. repeat (apply obind_Ret_iff in E as (? & ?E & E)). injection E as <-.
  apply map_Forall_insert_2; [|done]. repeat match goal with E : get_elem _ _ _ = Ret _ |- _ => apply elem_typed in E end.
  split; [|by split]. by eapply u64_of_int, stoi_range.
Qed.

Lemma read_live_stream_typed m (item : string * json) m' : map_Forall (fun _ => live_stream_typed) m ->
  read_live_stream m item = Ret m' -> map_Forall (fun _ => live_stream_typed) m'.
Proof using Type.
  intros Hm. destruct item as [key value]. unfold read_live_stream, throw_if. case_match; [done|].
  intros E. apply obind_Ret_iff in E as (v & _ & E). apply obind_Ret_iff in E as (s & _ & E). case_bool_decide as Hs.
  - apply obind_Ret_iff in E as (ty & _ & [= <-]). by apply map_Forall_insert_2.
  - repeat (apply obind_Ret_iff in E as (? & ?E & E)). injection E as <-. apply map_Forall_insert_2; [|done].
    repeat match goal with E : get_elem _ _ _ = Ret _ |- _ => apply elem_typed in E end. split_and!; [done..|].
    cbn. intros ->. unfold to_type in *. by repeat case_bool_decide.
Qed.

Lemma read_live_streams_typed (doc : json) m : read_live_streams doc = Ret m -> map_Forall (fun _ => live_stream_typed) m.
Proof using Type.
  unfold read_live_streams. case_match.
  - intros (v & _ & E)%obind_Ret_iff. revert E. apply foldO_ind; [apply map_Forall_empty|]. intros m0 it m1 _. apply read_live_stream_typed.
  - intros [= <-]. apply map_Forall_empty.
Qed.

Lemma describes_typed (doc : json) c : describes doc c -> config_typed c.
Proof using Type.
  intros [Hr Hm Hl H1 H2 H3 H4 H5 H6 H7 O1 O2 O3 O4 O5 O6 O7 O8 O9 O10 O11].
  apply field_typed in H3, H4, H5, H6, H7. apply option_typed in O2, O3, O5, O7, O8, O9, O10; try done.
  split; try assumption; [|by eapply read_live_streams_typed, live_streams_iff]. apply modules_iff in Hm.
  apply obind_Ret_iff in Hm as (v & _ & E). revert E. apply foldO_ind; [apply map_Forall_empty|].
  intros m0 it m1 _. apply read_module_typed.
Qed.

(** *** Undefined behaviour *)

(** A live stream of a type other than forward whose list has fewer than two numbers. *)
Definition short_live_stream (doc : json) : Prop :=
  exists v key value s config, json_field doc "live_stream_configs" = Ret v /\ (key, value) ∈ json_items v /\
    (let! v := json_at value "type" in json_get TString v) = Ret s /\ s <> "forward"%string /\
    json_at value "config" = Ret config /\ json_size config < 2.

Lemma stoi_defined s u : stoi s <> Undef u.
Proof using Type. unfold stoi, unsigned_part. by repeat case_match. Qed.

Lemma elem_defined t (v : json) i u : 0 <= i < json_size v -> get_elem t v i <> Undef u.
Proof using Type.
  intros Hi. unfold get_elem. intros [E|(x & _ & E)]%obind_Undef_iff; [by eapply json_elem_defined|by eapply json_get_defined].
Qed.

Lemma at_get_defined t (j : json) k u : (let! v := json_at j k in json_get t v) <> Undef u.
Proof using Type. intros [E|(x & _ & E)]%obind_Undef_iff; [by eapply json_at_defined|by eapply json_get_defined]. Qed.

Lemma field_defined t (doc : json) k u : json_contains doc k = true -> get_field t doc k <> Undef u.
Proof using Type.
  intros (v & Hv & _)%json_contains_law. unfold get_field. rewrite Hv. cbn [obind]. apply json_get_defined.
Qed.

Lemma value_defined t (doc : json) k d u : json_contains doc "detector_name" = true -> json_value t doc k d <> Undef u.
Proof using Type.
  intros Hn. rewrite (json_value_law t doc k _ d Hn). case_match; [apply at_get_defined|done].
Qed.

Lemma read_module_defined m (item : string * json) u : read_module m item <> Undef u.
Proof using Type.
  destruct item as [key value]. unfold read_module, throw_if. destruct (Z.eqb_spec (json_size value) 4) as [Hs|Hs]; [|done].
  cbn [negb]. intros E. do 4 (apply obind_Undef_iff in E as [E|(? & _ & E)]; [by eapply elem_defined; [|exact E]; lia|]).
  apply obind_Undef_iff in E as [E|(? & _ & E)]; [by eapply stoi_defined|done].
Qed.

Lemma read_live_streams_Undef (doc : json) u : read_live_streams doc = Undef u -> short_live_stream doc.
Proof using Type.
  unfold read_live_streams. destruct (json_contains doc "live_stream_configs") eqn:Hc; [|done].
  destruct (json_contains_law _ _ Hc) as (v & Hv & _). rewrite Hv. cbn [obind].
  intros (m & [key value] & Hin & E)%foldO_Undef. unfold read_live_stream, throw_if in E. case_match; [done|].
  apply obind_Undef_iff in E as [E|(t & Ht & E)]; [by apply json_at_defined in E|].
  apply obind_Undef_iff in E as [E|(s & Hs & E)]; [by apply json_get_defined in E|].
  assert (Hty : forall x, to_type s <> Undef x) by (intros x; unfold to_type; by repeat case_bool_decide).
  case_bool_decide as Hf; (apply obind_Undef_iff in E as [E|(ty & _ & E)]; [by apply Hty in E|]); [done|].
  apply obind_Undef_iff in E as [E|(c & Hcfg & E)]; [by apply json_at_defined in E|]. rewrite Hcfg in E. cbn [obind] in E.
  exists v, key, value, s, c. split_and!; try done; [by rewrite Ht|]. destruct (Z.lt_ge_cases (json_size c) 2) as [|Hge]; [done|].
  do 2 (apply obind_Undef_iff in E as [E|(? & _ & E)]; [exfalso; by eapply elem_defined; [|exact E]; lia|]). done.
Qed.

Lemma read_config_Undef (doc : json) u : read_config doc = Undef u -> short_live_stream doc.
Proof using Type.
  unfold read_config. intros [E|([] & Hck%checked & E)]%obind_Undef_iff; [rewrite check_spec in E; by case_match|].
  assert (Hr : forall p, p ∈ required_parameters -> json_contains doc p = true) by (by apply list.Forall_forall).
  destruct (json_contains_law doc "module_positions") as (v & Hv & _); [apply Hr; set_solver|]. rewrite Hv in E. cbn [obind] in E.
  apply obind_Undef_iff in E as [(m & it & _ & E)%foldO_Undef|(ms & _ & E)]; [by apply read_module_defined in E|].
  apply obind_Undef_iff in E as [E|(ls & _ & E)]; [by eapply read_live_streams_Undef|]. exfalso.
  do 7 (apply obind_Undef_iff in E as [E|(? & _ & E)]; [eapply field_defined, E; apply Hr; set_solver|]).
  do 11 (apply obind_Undef_iff in E as [E|(? & _ & E)]; [eapply value_defined, E; apply Hr; set_solver|]). done.
Qed.


(** A file that does not exist, and a text that is not JSON. *)
Lemma missing_file files name : files !! name = None -> read_config_from_json_file (json := json) files name = Throw json_error.
Proof using Type. intros Hn. unfold read_config_from_json_file. rewrite Hn. cbn. by rewrite json_parse_law. Qed.
End Types.

(** ** The RAM buffer of a configuration *)

(** The bytes of all slots fit [std::size_t], with room to round them up, for every configuration that was read and
    has images of less than 8 GB. *)
Lemma ring_size_fits c b n : config_typed c -> converted_image_n_bytes c = Ret b -> slots_number c = Ret n -> b < 2 ^ 33 ->
  0 < b /\ 1000 <= n /\ b * n < 2 ^ 63.
Proof.
  intros Hc Hb Hn Hlt. unfold slots_number in Hn. rewrite Hb in Hn. cbn [obind] in Hn.
  assert (0 <= b).
  { revert Hb. unfold converted_image_n_bytes. repeat case_match; try done; intros E;
      repeat (apply obind_Ret_iff in E as (? & _ & E)); injection E as <-; apply u64_range. }
  unfold udiv in Hn. destruct (Z.eqb_spec b 0) as [->|Hz]; [done|]. cbn [obind] in Hn. injection Hn as <-.
  pose proof (ty_gb c Hc) as Hg. unfold in_u in Hg.
  rewrite (u64_small (ram_buffer_gb c * 1024)), (u64_small (_ * 1024 * 1024)), u64_small by lia. unfold MIN_RAM_BUFFER_N_SLOTS.
  set (g := ram_buffer_gb c * 1024 * 1024 * 1024). pose proof (Z.mul_div_le g b ltac:(lia)). split; [lia|]. split; [lia|].
  destruct (Z.max_spec (g / b) (10 * 100)) as [[? ->]|[? ->]]; lia.
Qed.

(** ** Documents as trees *)

#[local] Unset Elimination Schemes.
Inductive tree := Null | Bool (b : bool) | Num (z : Z) | Str (s : string) | Arr (l : list tree) | Obj (l : list (string * tree)).
#[local] Set Elimination Schemes.

Definition find_key (l : list (string * tree)) (k : string) : option tree := snd ∘ snd <$> list_find (fun kv => fst kv = k) l.

Definition tree_member (t : tree) (k : string) : option tree := match t with Obj l => find_key l k | _ => None end.

Definition tree_at (t : tree) (k : string) : outcome tree := match tree_member t k with Some v => Ret v | None => Throw json_error end.

(** A constant array has no bounds check. *)
Definition tree_elem (t : tree) (i : Z) : outcome tree :=
  match t with Arr l => match l !! Z.to_nat i with Some v => Ret v | None => Undef out_of_bounds end | _ => Throw json_error end.

Definition tree_get (ty : cpp_type) (t : tree) : outcome (denote ty) :=
  match ty, t with
  | TInt, Num z => Ret (to_i32 z)
  | TUnsigned, Num z => Ret (u32 z)
  | TU16, Num z => Ret (u16 z)
  | TSize, Num z => Ret (u64 z)
  | TBool, Bool b => Ret b
  | TString, Str s => Ret s
  | _, _ => Throw json_error
  end.

Definition tree_items (t : tree) : list (string * tree) :=
  match t with Obj l => l | Arr l => imap (fun i v => (pretty (Z.of_nat i), v)) l | Null => [] | t => [(EmptyString, t)] end.

Definition tree_size (t : tree) : Z :=
  match t with Obj l => zlen l | Arr l => zlen l | Null => 0 | _ => 1 end.

Definition tree_value (ty : cpp_type) (t : tree) (k : string) (d : denote ty) : outcome (denote ty) :=
  match t with Obj l => match find_key l k with Some v => tree_get ty v | None => Ret d end | _ => Throw json_error end.

Lemma swrap_range x : in_i32 (to_i32 x).
Proof. unfold to_i32, swrap, in_i32. pose proof (Z.mod_pos_bound (x + 2 ^ (32 - 1)) (2 ^ 32) ltac:(lia)). lia. Qed.

#[local, program] Instance tree_json (texts : gmap string tree) : Json tree := {|
  json_parse s := if bool_decide (s = EmptyString) then Throw json_error else match texts !! s with Some t => Ret t | None => Throw json_error end;
  json_contains t k := bool_decide (is_Some (tree_member t k));
  json_field := tree_at; json_at := tree_at; json_items := tree_items; json_size := tree_size;
  json_elem := tree_elem; json_get := tree_get; json_value := tree_value |}.
Next Obligation. done. Qed.
Next Obligation. intros _ t k [v Hv]%bool_decide_eq_true. exists v. unfold tree_at. by rewrite Hv. Qed.
Next Obligation.
  intros _ t j x. destruct t, j; cbn; try done; intros [= <-]; [apply swrap_range|by apply wrap_range..].
Qed.
Next Obligation.
  intros _ t j k k' d [v Hv]%bool_decide_eq_true. destruct j as [| | | | |l]; try done. cbn. unfold tree_at. cbn.
  destruct (find_key l k); [by rewrite bool_decide_eq_true_2 by eauto|]. by rewrite bool_decide_eq_false_2 by (by intros [? ?]).
Qed.
Next Obligation. intros _ t k u. unfold tree_at. by case_match. Qed.
Next Obligation. intros _ ty t u. by destruct ty, t. Qed.
Next Obligation.
  intros _ t i u Hi. destruct t as [| | | |l|]; try done. cbn in *. unfold zlen in Hi.
  destruct (lookup_lt_is_Some_2 l (Z.to_nat i)) as [v ->]; [lia|done].
Qed.

Definition point_array (a b c d : Z) : tree := Arr [Num a; Num b; Num c; Num d].

Definition demo_document (streams : tree) : tree := Obj [
  ("detector_name", Str "EG"); ("detector_type", Str "eiger"); ("n_modules", Num 2); ("bit_depth", Num 16);
  ("image_pixel_height", Num 2); ("image_pixel_width", Num 4); ("start_udp_port", Num 50000); ("log_level", Str "debug");
  ("module_positions", Obj [("0", point_array 0 0 2 2); ("1", point_array 2 0 4 2)]); ("live_stream_configs", streams)]%string.

Definition demo_streams : tree := Obj [
  ("tcp://127.0.0.1:20000", Obj [("type", Str "batch"); ("config", Arr [Num 2; Num 555])]);
  ("tcp://127.0.0.1:20001", Obj [("type", Str "forward"); ("config", Arr [])])]%string.


(** A live stream of the type batch whose list has one number is read behind the end of the list. *)
Lemma short_live_stream_undefined : let reader := tree_json ∅ in
  read_config (demo_document (Obj [("tcp://127.0.0.1:20000", Obj [("type", Str "batch"); ("config", Arr [Num 2])])]%string)) = Undef out_of_bounds.
Proof. vm_compute. reflexivity. Qed.

(** Negative keys are accepted and become large ones. *)
Lemma negative_module_key : let reader := tree_json ∅ in
  read_module ∅ ("-1"%string, point_array 0 0 2 2) = Ret {[2 ^ 64 - 1 := ({| px := 0; py := 0 |}, {| px := 2; py := 2 |})]}.
Proof. vm_compute. reflexivity. Qed.
