(* ===== verification/RamBuffer.v ===== *)
(** * Shared-memory ring of image slots and the communicator on top of it

    [src/source/core-buffer]: [ram_buffer.cpp], [communicator.cpp] and the
    configuration headers.  POSIX shared memory is a table from names to objects and
    from objects to their bytes: [shm_open] finds or creates the object of a name,
    [ftruncate] sets its size, [shm_unlink] removes the name and keeps the object for
    the processes that mapped it.  Whether a system call succeeds is an argument. *)

From S2P Require Import Prelude Formats.

(** ** buffer_config.hpp *)

Definition BUFFER_UDP_RCVBUF_N_SLOTS : Z := 100.
Definition BUFFER_UDP_RCVBUF_BYTES : Z := 128 * BUFFER_UDP_RCVBUF_N_SLOTS * 8246.
Definition BUFFER_UDP_US_TIMEOUT : Z := 2 * 1000.
Definition BUFFER_ZMQ_SNDHWM : Z := 50000.
Definition BUFFER_ZMQ_RCVHWM : Z := 50000.
Definition IPC_URL_BASE : string := "ipc:///tmp/".
Definition RECEIVER_RAM_BUFFER_N_SLOTS : Z := 10 * 100.

(** ** Shared memory *)

Record shm : Type := {
  shm_names : gmap string Z;
  shm_objects : gmap Z (list Z);
  shm_next : Z
}.

Record syscalls : Type := { shm_open_ok : bool; ftruncate_ok : bool; mmap_ok : bool }.

(** The contents of an object after [ftruncate]: cut, or extended with zeros. *)
Definition resize (m : list Z) (n : Z) : list Z :=
  take (Z.to_nat n) m ++ replicate (Z.to_nat n - length m) 0.

(** [shm_open(name, O_RDWR | O_CREAT)]: the object's number and the new table. *)
Definition shm_open (s : shm) (name : string) : Z * shm :=
  match shm_names s !! name with
  | Some ino => (ino, s)
  | None => (shm_next s,
             {| shm_names := <[name := shm_next s]> (shm_names s);
                shm_objects := <[shm_next s := []]> (shm_objects s);
                shm_next := shm_next s + 1 |})
  end.

Definition shm_set (s : shm) (ino : Z) (m : list Z) : shm :=
  {| shm_names := shm_names s; shm_objects := <[ino := m]> (shm_objects s);
     shm_next := shm_next s |}.

Definition shm_bytes (s : shm) (ino : Z) : list Z := default [] (shm_objects s !! ino).

(** ** ram_buffer.cpp *)

Record RamBuffer : Type := {
  buffer_name_ : string;
  n_slots_ : Z;
  data_bytes_ : Z;
  buffer_bytes_ : Z;
  shm_fd_ : Z
}.

Definition align_to_2mb (size : Z) : Z :=
  let alignment := 2 * 1024 * 1024 in
  u64 (u64 (u64 (size + alignment) - 1) / alignment * alignment).

Definition RamBuffer_new (os : syscalls) (channel_name : string) (data_n_bytes n_slots : Z)
  (s : shm) : outcome (RamBuffer * shm) :=
  let buffer_bytes := align_to_2mb (u64 (data_n_bytes * n_slots)) in
  if shm_open_ok os then
    let (ino, s1) := shm_open s channel_name in
    if ftruncate_ok os then
      let s2 := shm_set s1 ino (resize (shm_bytes s1 ino) buffer_bytes) in
      if mmap_ok os then
        Ret ({| buffer_name_ := channel_name; n_slots_ := n_slots; data_bytes_ := data_n_bytes;
                buffer_bytes_ := buffer_bytes; shm_fd_ := ino |}, s2)
      else Throw runtime_error
    else Throw runtime_error
  else Throw runtime_error.

Definition RamBuffer_delete (rb : RamBuffer) (s : shm) : shm :=
  {| shm_names := delete (buffer_name_ rb) (shm_names s); shm_objects := shm_objects s;
     shm_next := shm_next s |}.

(** The slot of an id, as an offset from [buffer_]. *)
Definition get_data (rb : RamBuffer) (id : Z) : outcome Z :=
  let! slot_id := umod id (n_slots_ rb) in
  Ret (u64 (slot_id * data_bytes_ rb)).

(** [write] on the bytes of the mapping; [None] is a null source pointer. *)
Definition write_block (rb : RamBuffer) (m : list Z) (id : Z) (src_data : option (list Z)) :
  outcome (list Z) :=
  match src_data with
  | None => Ret m
  | Some src => let! off := get_data rb id in memcpy m off src 0 (data_bytes_ rb)
  end.

Definition write (rb : RamBuffer) (s : shm) (id : Z) (src_data : option (list Z)) : outcome shm :=
  let! m := write_block rb (shm_bytes s (shm_fd_ rb)) id src_data in
  Ret (shm_set s (shm_fd_ rb) m).

(** What a consumer sees through [get_data(id)]: the [data_bytes_] bytes of the slot. *)
Definition slot_data (rb : RamBuffer) (m : list Z) (id : Z) : outcome (list Z) :=
  let! off := get_data rb id in mem_read m off (data_bytes_ rb).

(** ** communicator.cpp *)

Inductive connection_type : Type := CONN_TYPE_BIND | CONN_TYPE_CONNECT.

Record RamBufferConfig : Type := {
  rbc_buffer_name : string;
  rbc_n_bytes_data : Z;
  rbc_n_buffer_slots : Z
}.

Record CommunicatorConfig : Type := {
  stream_name : string;
  conn_type : connection_type
}.

(** The socket is its address and the messages passed to [zmq_send] so far. *)
Record Communicator : Type := {
  buffer : RamBuffer;
  socket_address : string;
  socket_bound : bool;
  sent : list (list Z)
}.

Definition Communicator_new (os : syscalls) (ram_config : RamBufferConfig)
  (comm_cfg : CommunicatorConfig) (s : shm) : outcome (Communicator * shm) :=
  let! '(rb, s') := RamBuffer_new os (rbc_buffer_name ram_config) (rbc_n_bytes_data ram_config)
                      (rbc_n_buffer_slots ram_config) s in
  Ret ({| buffer := rb;
          socket_address := String.append IPC_URL_BASE (stream_name comm_cfg);
          socket_bound := match conn_type comm_cfg with
                          | CONN_TYPE_BIND => true | CONN_TYPE_CONNECT => false end;
          sent := [] |}, s').

Definition zmq_send (c : Communicator) (msg : list Z) : Communicator :=
  {| buffer := buffer c; socket_address := socket_address c; socket_bound := socket_bound c;
     sent := sent c ++ [msg] |}.

Definition send (c : Communicator) (s : shm) (id : Z) (meta : list Z) (data : option (list Z)) :
  outcome (Communicator * shm) :=
  let! s' := write (buffer c) s id data in
  Ret (zmq_send c meta, s').

(** [zmq_recv] into a buffer: the message is cut at the buffer's length, and the part of
    the buffer behind a short message keeps its old bytes. *)
Definition recv_into (buf msg : list Z) : list Z :=
  take (length buf) msg ++ drop (length msg) buf.

(** [receive]: the incoming message is an argument, [None] when [zmq_recv] fails.  The
    result is the caller's [meta] afterwards, the id, and the offset of its slot. *)
Definition receive (c : Communicator) (meta : list Z) (msg : option (list Z)) :
  outcome (list Z * Z * option Z) :=
  match msg with
  | None => Ret (meta, INVALID_IMAGE_ID, None)
  | Some bytes =>
      let meta' := recv_into meta bytes in
      let id := cast_image_id meta' in
      let! off := get_data (buffer c) id in
      Ret (meta', id, Some off)
  end.

(** [receive_meta]: the caller's buffer afterwards and the returned byte count. *)
Definition receive_meta (meta : list Z) (msg : option (list Z)) : list Z * Z :=
  match msg with
  | None => (meta, -1)
  | Some bytes => (recv_into meta bytes, zlen bytes)
  end.

(** ** Slot arithmetic *)

(** A ring whose size does not wrap, as the constructor builds it. *)
Definition wf_ram (rb : RamBuffer) : Prop :=
  0 < n_slots_ rb /\ 0 <= data_bytes_ rb /\
  data_bytes_ rb * n_slots_ rb + 2 * 1024 * 1024 <= 2 ^ 64 /\
  buffer_bytes_ rb = align_to_2mb (u64 (data_bytes_ rb * n_slots_ rb)).

Lemma align_to_2mb_spec size :
  0 <= size -> size + 2 * 1024 * 1024 <= 2 ^ 64 ->
  size <= align_to_2mb size < size + 2 * 1024 * 1024 /\
  align_to_2mb size mod (2 * 1024 * 1024) = 0.
Proof.
  intros H0 H1. unfold align_to_2mb. set (a := 2 * 1024 * 1024) in *. change a with 2097152 in *.
  clear a. destruct (decide (size + 2097152 = 2 ^ 64)) as [He|].
  - replace size with (2 ^ 64 - 2097152) by lia. vm_compute. repeat split; discriminate || done.
  - rewrite (u64_small (size + 2097152)) by lia. rewrite (u64_small (_ - 1)) by lia.
    pose proof (Z.div_mod (size + 2097152 - 1) 2097152 ltac:(lia)) as Hd.
    pose proof (Z.mod_pos_bound (size + 2097152 - 1) 2097152 ltac:(lia)).
    rewrite u64_small by lia. split; [lia|]. apply Z.mod_mul. lia.
Qed.

Lemma slot_offset rb id :
  wf_ram rb ->
  get_data rb id = Ret (id mod n_slots_ rb * data_bytes_ rb) /\
  0 <= id mod n_slots_ rb * data_bytes_ rb /\
  id mod n_slots_ rb * data_bytes_ rb + data_bytes_ rb <= data_bytes_ rb * n_slots_ rb.
Proof.
  intros (Hn & Hd & Hov & _). pose proof (Z.mod_pos_bound id (n_slots_ rb) Hn).
  assert (0 <= id mod n_slots_ rb * data_bytes_ rb) by nia.
  assert (id mod n_slots_ rb * data_bytes_ rb + data_bytes_ rb <= data_bytes_ rb * n_slots_ rb)
    by nia.
  split; [|done]. unfold get_data. rewrite umod_ret by lia. simpl.
  by rewrite u64_small by lia.
Qed.

Lemma ring_fits rb : wf_ram rb -> data_bytes_ rb * n_slots_ rb <= buffer_bytes_ rb.
Proof.
  intros (Hn & Hd & Hov & ->). rewrite u64_small by nia.
  pose proof (align_to_2mb_spec (data_bytes_ rb * n_slots_ rb)). nia.
Qed.

(** Distinct slots do not overlap. *)
Lemma slots_disjoint (d i j : Z) :
  0 <= d -> i <> j -> i * d + d <= j * d \/ j * d + d <= i * d.
Proof. intros Hd Hne. destruct (decide (i < j)); [left|right]; nia. Qed.

(** ** The ring as a map from slots to images *)

Lemma write_block_spec rb m id src :
  wf_ram rb -> zlen m = buffer_bytes_ rb -> data_bytes_ rb <= zlen src ->
  exists m', write_block rb m id (Some src) = Ret m' /\ zlen m' = zlen m /\
    forall id', slot_data rb m' id' =
      if decide (id' mod n_slots_ rb = id mod n_slots_ rb)
      then Ret (take (Z.to_nat (data_bytes_ rb)) src) else slot_data rb m id'.
Proof.
  intros Hwf Hm Hs. pose proof (ring_fits _ Hwf) as Hfit. pose proof Hwf as (Hn & Hd & _).
  destruct (slot_offset rb id Hwf) as (Hoff & Ho0 & Ho1).
  assert (Hlen : zlen (take (Z.to_nat (data_bytes_ rb)) src) = data_bytes_ rb)
    by (unfold zlen in *; rewrite length_take; lia).
  unfold write_block, memcpy. rewrite Hoff. simpl.
  rewrite mem_read_ret by lia. simpl. rewrite drop_0.
  destruct (mem_write m (id mod n_slots_ rb * data_bytes_ rb)
              (take (Z.to_nat (data_bytes_ rb)) src)) as [m'|?|?] eqn:Hw;
    rewrite mem_write_ret in Hw by lia; try done.
  exists m'. split; [done|]. assert (Hw' := Hw). rewrite <- mem_write_ret in Hw' by lia.
  split; [by eapply mem_write_zlen|]. intros id'. unfold slot_data.
  destruct (slot_offset rb id' Hwf) as (-> & Ho0' & Ho1'). simpl. case_decide as Heq.
  - rewrite Heq. by eapply mem_read_write_same.
  - eapply mem_read_write_disjoint; [done|]. rewrite Hlen.
    by apply slots_disjoint.
Qed.

(** The abstract ring: the last image written to the slot of [id], if any. *)
Fixpoint last_in_slot (n : Z) (ws : list (Z * list Z)) (id : Z) : option (list Z) :=
  match ws with
  | [] => None
  | (id', d) :: ws' =>
      match last_in_slot n ws' id with
      | Some d' => Some d'
      | None => if decide (id mod n = id' mod n) then Some d else None
      end
  end.

Definition write_all (rb : RamBuffer) (ws : list (Z * list Z)) (m : list Z) : outcome (list Z) :=
  foldO (fun m w => write_block rb m (fst w) (Some (snd w))) ws m.

Lemma write_all_spec rb ws m :
  wf_ram rb -> zlen m = buffer_bytes_ rb -> Forall (fun w => data_bytes_ rb <= zlen (snd w)) ws ->
  exists m', write_all rb ws m = Ret m' /\ zlen m' = buffer_bytes_ rb /\
    forall id, slot_data rb m' id =
      match last_in_slot (n_slots_ rb) ws id with
      | Some d => Ret (take (Z.to_nat (data_bytes_ rb)) d)
      | None => slot_data rb m id
      end.
Proof.
  intros Hwf. revert m. induction ws as [|[id d] ws IH]; intros m Hm Hws; simpl.
  - exists m. done.
  - apply Forall_cons_1 in Hws as [Hd Hws]. simpl in Hd.
    destruct (write_block_spec rb m id d Hwf Hm Hd) as (m1 & Hw & Hl & Hs).
    unfold write_all in *. simpl in *. rewrite Hw. simpl.
    destruct (IH m1) as (m' & -> & Hl' & Hs'); [lia|done|]. exists m'.
    split; [done|]. split; [done|]. intros id'. rewrite Hs', Hs.
    destruct (last_in_slot _ ws id'); [done|]. by case_decide.
Qed.

(** The image written last is the one its slot shows. *)
Lemma write_all_last rb ws id d m m' :
  wf_ram rb -> zlen m = buffer_bytes_ rb ->
  Forall (fun w => data_bytes_ rb <= zlen (snd w)) ws -> zlen d = data_bytes_ rb ->
  write_all rb (ws ++ [(id, d)]) m = Ret m' -> slot_data rb m' id = Ret d.
Proof.
  intros Hwf Hm Hws Hd Hw.
  destruct (write_all_spec rb (ws ++ [(id, d)]) m Hwf Hm) as (m1 & Hw1 & _ & Hs).
  { apply Forall_app. split; [done|]. repeat constructor. simpl. lia. }
  rewrite Hw in Hw1. injection Hw1 as <-. rewrite Hs.
  assert (Hl : last_in_slot (n_slots_ rb) (ws ++ [(id, d)]) id = Some d).
  { clear. induction ws as [|[i x] ws IH]; simpl; [by rewrite decide_True|by rewrite IH]. }
  rewrite Hl. f_equal. apply take_ge. unfold zlen in Hd. lia.
Qed.

(** C35: for every id the slot that [get_data] returns lies inside the mapped region
    and its start is a multiple of the slot size. *)
Theorem get_data_in_bounds rb id :
  wf_ram rb ->
  exists off, get_data rb id = Ret off /\ off = id mod n_slots_ rb * data_bytes_ rb /\
    in_block (buffer_bytes_ rb) off (data_bytes_ rb) = true.
Proof.
  intros Hwf. destruct (slot_offset rb id Hwf) as (Hoff & H0 & H1).
  pose proof (ring_fits _ Hwf). pose proof Hwf as (_ & Hd & _).
  eexists. split; [done|]. split; [done|]. apply in_block_true. lia.
Qed.

Definition demo_ring : RamBuffer :=
  {| buffer_name_ := "EG-0"; n_slots_ := 3; data_bytes_ := 2; buffer_bytes_ := 2097152;
     shm_fd_ := 0 |}.

Lemma demo_ring_wf : wf_ram demo_ring.
Proof. repeat split; vm_compute; discriminate || reflexivity. Qed.

Lemma get_data_in_bounds_witness :
  exists off, get_data demo_ring 7 = Ret off /\ off = 7 mod 3 * 2 /\
    in_block 2097152 off 2 = true.
Proof. apply (get_data_in_bounds demo_ring 7). apply demo_ring_wf. Defined.

(** C30: refinement of the ring to its abstract state: after any sequence of writes,
    the bytes seen through [get_data(id)] are those of the last image written to the
    slot of [id], and the old contents when there is none; no write is undefined. *)
Theorem ram_buffer_refines_slots rb ws m :
  wf_ram rb -> zlen m = buffer_bytes_ rb ->
  Forall (fun w => zlen (snd w) = data_bytes_ rb) ws ->
  exists m', write_all rb ws m = Ret m' /\
    forall id, slot_data rb m' id =
      match last_in_slot (n_slots_ rb) ws id with
      | Some d => Ret d
      | None => slot_data rb m id
      end.
Proof.
  intros Hwf Hm Hws. destruct (write_all_spec rb ws m Hwf Hm) as (m' & Hw & _ & Hs).
  { eapply Forall_impl; [|exact Hws]. simpl. intros; lia. }
  exists m'. split; [done|]. intros id. rewrite Hs.
  destruct (last_in_slot _ ws id) as [d|] eqn:E; [|done]. f_equal.
  assert (Hd : zlen d = data_bytes_ rb).
  { clear -Hws E. induction ws as [|[i x] ws IH]; simpl in E; [done|].
    apply Forall_cons_1 in Hws as [Hx Hws]. destruct (last_in_slot _ ws id); [naive_solver|].
    case_decide; naive_solver. }
  apply take_ge. unfold zlen in Hd. lia.
Qed.

Lemma ram_buffer_refines_slots_witness :
  exists m', write_all demo_ring [(0, [1; 2]); (3, [5; 6])] (replicate (Z.to_nat 2097152) 0) = Ret m' /\
    forall id, slot_data demo_ring m' id =
      match last_in_slot 3 [(0, [1; 2]); (3, [5; 6])] id with
      | Some d => Ret d
      | None => slot_data demo_ring (replicate (Z.to_nat 2097152) 0) id
      end.
Proof.
  apply (ram_buffer_refines_slots demo_ring).
  - apply demo_ring_wf.
  - rewrite zlen_replicate. apply Z2Nat.id. done.
  - repeat constructor.
Defined.

(** ** How long an image stays readable *)

Lemma last_in_slot_app n ws1 ws2 id :
  last_in_slot n (ws1 ++ ws2) id =
  match last_in_slot n ws2 id with Some d => Some d | None => last_in_slot n ws1 id end.
Proof.
  induction ws1 as [|[i d] ws1 IH]; simpl; [by destruct (last_in_slot n ws2 id)|].
  rewrite IH. by destruct (last_in_slot n ws2 id).
Qed.

Lemma last_in_slot_None n ws id :
  (forall w, w ∈ ws -> id mod n <> fst w mod n) -> last_in_slot n ws id = None.
Proof.
  induction ws as [|[i d] ws IH]; intros Hne; simpl; [done|].
  rewrite IH by set_solver. apply decide_False. apply (Hne (i, d)). set_solver.
Qed.

(** Consecutive images, as a detector numbers them. *)
Fixpoint numbered (start : Z) (ds : list (list Z)) : list (Z * list Z) :=
  match ds with
  | [] => []
  | d :: ds' => (start, d) :: numbered (start + 1) ds'
  end.

Lemma numbered_app start ds1 ds2 :
  numbered start (ds1 ++ ds2) = numbered start ds1 ++ numbered (start + zlen ds1) ds2.
Proof.
  revert start. induction ds1 as [|d ds1 IH]; intros start; simpl.
  - f_equal. unfold zlen. simpl. lia.
  - rewrite IH. do 2 f_equal. rewrite zlen_cons. f_equal. lia.
Qed.

Lemma numbered_elem start ds w :
  w ∈ numbered start ds -> start <= fst w < start + zlen ds /\ snd w ∈ ds.
Proof.
  revert start. induction ds as [|d ds IH]; intros start; simpl; [set_solver|].
  rewrite zlen_cons. intros [->|Hw]%elem_of_cons; simpl.
  - pose proof (zlen_nonneg ds). split; [lia|set_solver].
  - apply IH in Hw as [? ?]. split; [lia|set_solver].
Qed.

(** Ids closer than [n] to each other have different slots. *)
Lemma near_ids_differ n i j : 0 < n -> i < j < i + n -> i mod n <> j mod n.
Proof.
  intros Hn Hij Heq. assert (Hd : (j - i) mod n = 0).
  { rewrite Zminus_mod, Heq, Z.sub_diag. apply Z.mod_0_l. lia. }
  rewrite Z.mod_small in Hd by lia. lia.
Qed.

(** An image stays readable, unchanged, until [n_slots_] newer images have been
    written: after writing consecutive images, each of the last [n_slots_] of them is
    what [get_data] of its id shows. *)
Lemma ram_buffer_window rb start ds m (i : nat) d :
  wf_ram rb -> zlen m = buffer_bytes_ rb ->
  Forall (fun x => zlen x = data_bytes_ rb) ds ->
  ds !! i = Some d -> zlen ds <= Z.of_nat i + n_slots_ rb ->
  exists m', write_all rb (numbered start ds) m = Ret m' /\
             slot_data rb m' (start + Z.of_nat i) = Ret d.
Proof.
  intros Hwf Hm Hds Hi Hw. pose proof Hwf as (Hn & _).
  destruct (write_all_spec rb (numbered start ds) m Hwf Hm) as (m' & Hwr & _ & Hs).
  { apply list.Forall_forall. intros w [_ Hin]%numbered_elem.
    rewrite list.Forall_forall in Hds. rewrite (Hds _ Hin). done. }
  exists m'. split; [done|]. rewrite Hs.
  assert (Hd : zlen d = data_bytes_ rb).
  { rewrite list.Forall_forall in Hds. apply Hds. by eapply list_elem_of_lookup_2. }
  assert (Hlen := lookup_lt_Some _ _ _ Hi).
  rewrite <- (take_drop_middle ds i d Hi) in Hw |- *.
  assert (Hti : zlen (take i ds) = Z.of_nat i) by (unfold zlen; rewrite length_take; lia).
  rewrite numbered_app, last_in_slot_app, Hti. rewrite zlen_app, Hti, zlen_cons in Hw. simpl.
  rewrite last_in_slot_None.
  - rewrite decide_True by done. f_equal. apply take_ge. unfold zlen in Hd. lia.
  - intros w [Hid _]%numbered_elem. apply near_ids_differ; lia.
Qed.

Lemma ram_buffer_window_witness :
  exists m', write_all demo_ring (numbered 10 [[1; 1]; [2; 2]; [3; 3]; [4; 4]])
               (replicate (Z.to_nat 2097152) 0) = Ret m' /\
             slot_data demo_ring m' (10 + Z.of_nat 1) = Ret [2; 2].
Proof.
  apply (ram_buffer_window demo_ring 10 [[1; 1]; [2; 2]; [3; 3]; [4; 4]] _ 1).
  - apply demo_ring_wf.
  - rewrite zlen_replicate. apply Z2Nat.id. done.
  - repeat constructor.
  - reflexivity.
  - vm_compute. discriminate.
Defined.

(** ** Two processes on one ring *)

Lemma resize_same m n : n = zlen m -> resize m n = m.
Proof.
  intros ->. unfold resize, zlen. rewrite Nat2Z.id, Nat.sub_diag. simpl.
  rewrite app_nil_r. by apply take_ge.
Qed.

Lemma zlen_resize m n : 0 <= n -> zlen (resize m n) = n.
Proof. intros. unfold resize, zlen. rewrite length_app, length_take, length_replicate. lia. Qed.

Lemma align_to_2mb_nonneg size : 0 <= align_to_2mb size.
Proof. apply u64_range. Qed.

Lemma RamBuffer_new_inv os name b n s rb s' :
  RamBuffer_new os name b n s = Ret (rb, s') ->
  buffer_name_ rb = name /\ n_slots_ rb = n /\ data_bytes_ rb = b /\
  buffer_bytes_ rb = align_to_2mb (u64 (b * n)) /\
  shm_names s' !! name = Some (shm_fd_ rb) /\
  zlen (shm_bytes s' (shm_fd_ rb)) = buffer_bytes_ rb.
Proof.
  unfold RamBuffer_new, shm_open. repeat case_match; intros; simplify_eq; simpl;
    (split_and!; [done..|by simplify_map_eq|]);
    unfold shm_bytes; simpl; rewrite lookup_insert_eq; simpl;
    apply zlen_resize, align_to_2mb_nonneg.
Qed.

(** Opening a ring that exists with the same geometry finds the same object and leaves
    its bytes alone. *)
Lemma RamBuffer_reopen os name b n s ino rb s' :
  shm_names s !! name = Some ino ->
  zlen (shm_bytes s ino) = align_to_2mb (u64 (b * n)) ->
  RamBuffer_new os name b n s = Ret (rb, s') ->
  shm_fd_ rb = ino /\ shm_names s' = shm_names s /\ shm_bytes s' ino = shm_bytes s ino.
Proof.
  intros Hn Hl. unfold RamBuffer_new, shm_open. rewrite Hn.
  repeat case_match; intros; simplify_eq; simpl.
  split_and!; [done..|]. unfold shm_bytes at 1. simpl. rewrite lookup_insert_eq. simpl.
  by apply resize_same.
Qed.

Lemma shm_bytes_set_eq s ino m : shm_bytes (shm_set s ino m) ino = m.
Proof. unfold shm_bytes. simpl. by rewrite lookup_insert_eq. Qed.

Lemma shm_bytes_set_ne s ino ino' m : ino <> ino' -> shm_bytes (shm_set s ino m) ino' = shm_bytes s ino'.
Proof. intros. unfold shm_bytes. simpl. by rewrite lookup_insert_ne. Qed.

Lemma slot_data_len rb m id :
  wf_ram rb -> zlen m = buffer_bytes_ rb ->
  exists d, slot_data rb m id = Ret d /\ zlen d = data_bytes_ rb /\
    mem_read m (id mod n_slots_ rb * data_bytes_ rb) (data_bytes_ rb) = Ret d.
Proof.
  intros Hwf Hm. pose proof (ring_fits _ Hwf). pose proof Hwf as (_ & Hd & _).
  destruct (slot_offset rb id Hwf) as (Ho & ? & ?). unfold slot_data. rewrite Ho. cbn [obind].
  destruct (mem_read m (id mod n_slots_ rb * data_bytes_ rb) (data_bytes_ rb)) as [d|?|?] eqn:E.
  - exists d. split_and!; [done| |done]. by apply mem_read_zlen in E.
  - rewrite mem_read_ret in E by lia. done.
  - rewrite mem_read_ret in E by lia. done.
Qed.

Lemma write_spec rb s id src :
  wf_ram rb -> zlen (shm_bytes s (shm_fd_ rb)) = buffer_bytes_ rb -> zlen src = data_bytes_ rb ->
  exists s', write rb s id (Some src) = Ret s' /\
    slot_data rb (shm_bytes s' (shm_fd_ rb)) id = Ret src.
Proof.
  intros Hwf Hl Hs. destruct (write_block_spec rb _ id src Hwf Hl) as (m' & Hw & _ & Hsd); [lia|].
  unfold write. rewrite Hw. simpl. eexists. split; [done|]. unfold shm_bytes. simpl.
  rewrite lookup_insert_eq. simpl. rewrite Hsd, decide_True by done. f_equal.
  apply take_ge. unfold zlen in Hs. lia.
Qed.

Lemma recv_into_full buf msg : length buf = length msg -> recv_into buf msg = msg.
Proof.
  intros Hl. unfold recv_into. rewrite take_ge, drop_ge by lia. apply app_nil_r.
Qed.

(** A producer and a consumer that open the same stream with the same slot size
    and slot count share the frames: what the producer sends for a frame, the consumer
    receives as the same metadata, with the frame's image id, and a slot that holds the
    image bytes. *)
Lemma communicator_roundtrip `{DetFrame T} os1 os2 rc sc1 sc2 s0 p s1 c s2 (x : T) data buf :
  Communicator_new os1 rc sc1 s0 = Ret (p, s1) ->
  Communicator_new os2 rc sc2 s1 = Ret (c, s2) ->
  0 < rbc_n_buffer_slots rc -> 0 <= rbc_n_bytes_data rc ->
  rbc_n_bytes_data rc * rbc_n_buffer_slots rc + 2 * 1024 * 1024 <= 2 ^ 64 ->
  wf_packed x -> zlen data = rbc_n_bytes_data rc -> zlen buf = DET_FRAME_STRUCT_BYTES ->
  exists p' s3 off,
    send p s2 (image_id (common x)) (encode x) (Some data) = Ret (p', s3) /\
    sent p' = [encode x] /\
    receive c buf (Some (encode x)) = Ret (encode x, image_id (common x), Some off) /\
    decode T (encode x) = Some x /\
    mem_read (shm_bytes s3 (shm_fd_ (buffer c))) off (rbc_n_bytes_data rc) = Ret data.
Proof.
  intros ([rb1 s1'] & Hp & Ep)%obind_Ret_iff ([rb2 s2'] & Hc & Ec)%obind_Ret_iff.
  simplify_eq/=. intros Hn Hb Hov Hx Hd Hbuf.
  apply RamBuffer_new_inv in Hp as (Hnm & Hns & Hdb & Hbb & Hnames & Hlen).
  pose proof Hc as (_ & Hns2 & Hdb2 & Hbb2 & _ & Hlen2)%RamBuffer_new_inv.
  apply (RamBuffer_reopen _ _ _ _ _ _ _ _ Hnames) in Hc as (Hfd & _ & _); [|congruence].
  assert (Hwf : wf_ram rb1). { unfold wf_ram. rewrite Hns, Hdb. done. }
  assert (Hwf2 : wf_ram rb2). { unfold wf_ram. rewrite Hns2, Hdb2. done. }
  destruct (write_spec rb1 s2 (image_id (common x)) data Hwf) as (s3 & Hw & Hs3);
    [congruence..|].
  destruct (slot_offset rb2 (image_id (common x)) Hwf2) as (Hoff & _).
  exists (zmq_send {| buffer := rb1; socket_address := String.append IPC_URL_BASE (stream_name sc1);
    socket_bound := match conn_type sc1 with CONN_TYPE_BIND => true | _ => false end;
    sent := [] |} (encode x)), s3, (image_id (common x) mod n_slots_ rb2 * data_bytes_ rb2).
  unfold send. simpl. rewrite Hw. simpl. split; [done|]. split; [done|]. split.
  - unfold receive. simpl. rewrite recv_into_full, cast_image_id_encode by
      (done || (pose proof (encode_zlen x Hx); rewrite frame_size in *; unfold zlen in *; lia)).
    by rewrite Hoff.
  - split; [by apply decode_encode|]. rewrite Hfd. unfold slot_data in Hs3.
    destruct (slot_offset rb1 (image_id (common x)) Hwf) as (Hoff1 & _).
    rewrite Hoff1 in Hs3. simpl in Hs3. rewrite Hns, Hdb in Hs3. by rewrite Hns2, Hdb2.
Qed.

Definition demo_shm : shm := {| shm_names := ∅; shm_objects := ∅; shm_next := 0 |}.
Definition all_ok : syscalls := {| shm_open_ok := true; ftruncate_ok := true; mmap_ok := true |}.
Definition demo_ram_config : RamBufferConfig :=
  {| rbc_buffer_name := "EG-0"; rbc_n_bytes_data := 2; rbc_n_buffer_slots := 3 |}.
Definition demo_comm_config (t : connection_type) : CommunicatorConfig :=
  {| stream_name := "EG-0"; conn_type := t |}.
Definition demo_frame : eg.EGFrame :=
  {| eg.eg_common := {| image_id := 7; n_missing_packets := 0; module_id := 1 |};
     eg.bit_depth := 16; eg.pos_y := 0; eg.pos_x := 0 |}.
Lemma demo_frame_wf : wf_packed demo_frame.
Proof.
  split; [|reflexivity].
  repeat first [apply Forall2_cons_2; [vm_compute; split; discriminate || reflexivity|]
               |apply Forall2_nil_2].
Qed.

Lemma Communicator_new_ok rc sc s :
  exists c s', Communicator_new all_ok rc sc s = Ret (c, s').
Proof.
  unfold Communicator_new, RamBuffer_new. simpl.
  destruct (shm_open s (rbc_buffer_name rc)). simpl. eauto.
Qed.

Lemma communicator_roundtrip_witness :
  exists p s1 c s2,
    Communicator_new all_ok demo_ram_config (demo_comm_config CONN_TYPE_BIND) demo_shm
      = Ret (p, s1) /\
    Communicator_new all_ok demo_ram_config (demo_comm_config CONN_TYPE_CONNECT) s1
      = Ret (c, s2) /\
    exists p' s3 off,
    send p s2 7 (encode demo_frame) (Some [8; 9]) = Ret (p', s3) /\
    sent p' = [encode demo_frame] /\
    receive c (replicate 64 0) (Some (encode demo_frame)) = Ret (encode demo_frame, 7, Some off) /\
    decode eg.EGFrame (encode demo_frame) = Some demo_frame /\
    mem_read (shm_bytes s3 (shm_fd_ (buffer c))) off 2 = Ret [8; 9].
Proof.
  destruct (Communicator_new_ok demo_ram_config (demo_comm_config CONN_TYPE_BIND) demo_shm)
    as (p & s1 & H1).
  destruct (Communicator_new_ok demo_ram_config (demo_comm_config CONN_TYPE_CONNECT) s1)
    as (c & s2 & H2).
  exists p, s1, c, s2. split; [exact H1|]. split; [exact H2|].
  refine (communicator_roundtrip (T := eg.EGFrame) all_ok all_ok demo_ram_config _ _ _ p s1 c s2
           demo_frame
           [8; 9] (replicate 64 0) H1 H2 _ _ _ _ _ _).
  - reflexivity.
  - vm_compute; discriminate.
  - vm_compute; discriminate.
  - apply demo_frame_wf.
  - reflexivity.
  - reflexivity.
Defined.
