(* ===== verification/ShmHolder.v ===== *)
(** * Holding the image buffer, counting images

    [src/source/shm-holder/src/main.cpp] creates the shared memory of the assembled images with the size that every
    service computes from the configuration, and maps it in chunks of 10 GB so that it stays in memory;
    [src/source/std-chunk-sender/src/main.cpp] opens that buffer and prints how many announcements arrive.  The address
    that is passed to [mmap] is a hint, an offset from the null pointer. *)

From S2P Require Import Prelude Formats Protocol Config Stats RamBuffer ConfigReader.

(** ** shm-holder *)

Definition MAP_SHARED : Z := 0x01.
Definition MAP_LOCKED : Z := 0x2000.

Definition configure_mmap_flags : Z := Z.lor MAP_SHARED MAP_LOCKED.

Record mapping : Type := { mp_hint : Z; mp_length : Z; mp_flags : Z; mp_fd : Z; mp_offset : Z }.

(** [mmap_ok] says which mappings the system grants. *)
Definition mmap_chunk (mmap_ok : mapping -> bool) (buffer_base shm_fd offset chunk_size mmap_flags : Z) : outcome mapping :=
  let chunk := {| mp_hint := u64 (buffer_base + offset); mp_length := chunk_size; mp_flags := mmap_flags; mp_fd := shm_fd; mp_offset := offset |} in
  if mmap_ok chunk then Ret chunk else Throw runtime_error.

Definition min_chunk_size : Z := 10 * 1024 * 1024 * 1024.

(** The offset and the size of every chunk. *)
Definition chunks (buffer_size : Z) : list (Z * Z) :=
  let num_chunks := u64 (u64 (buffer_size + min_chunk_size) - 1) / min_chunk_size in
  (fun i => let offset := u64 (i * min_chunk_size) in (offset, Z.min min_chunk_size (u64 (buffer_size - offset)))) <$> seqZ 0 num_chunks.

(** The threads map one chunk each; an exception that leaves a thread ends the program. *)
Inductive holder : Type :=
| Holding (held : list mapping) (s : shm)
| Terminated.

Definition map_chunks (mmap_ok : mapping -> bool) (shm_fd buffer_size : Z) : list (outcome mapping) :=
  (fun '(offset, size) => mmap_chunk mmap_ok 0 shm_fd offset size configure_mmap_flags) <$> chunks buffer_size.

Definition joined (threads : list (outcome mapping)) : option (list mapping) :=
  mapM (fun t => match t with Ret m => Some m | _ => None end) threads.

Definition holder_main (os : syscalls) (mmap_ok : mapping -> bool) (config : DetectorConfig) (s : shm) : outcome holder :=
  let source_name := (Config.detector_name config +:+ "-image")%string in
  let! bytes := converted_image_n_bytes config in
  let! slots := slots_number config in
  let buffer_size := align_to_2mb (u64 (bytes * slots)) in
  if shm_open_ok os then
    let (ino, s) := shm_open s source_name in
    if ftruncate_ok os then
      let s := shm_set s ino (resize (shm_bytes s ino) buffer_size) in
      Ret (match joined (map_chunks mmap_ok ino buffer_size) with Some held => Holding held s | None => Terminated end)
    else Throw runtime_error
  else Throw runtime_error.

(** ** std-chunk-sender *)

Record chunk_sender : Type := {
  cs_receiver : Communicator;
  cs_buffer : list Z;
  cs_stats : TimedStatsCollector;
  cs_printed : list (list stat)
}.

Definition chunk_sender_main (os : syscalls) (config : DetectorConfig) (now : Z) (stack : list Z) (s : shm) : outcome (chunk_sender * shm) :=
  let stats := TimedStatsCollector_new (Config.detector_name config) (stats_collection_period config) "" now in
  let source_name := (Config.detector_name config +:+ "-image")%string in
  let! bytes := converted_image_n_bytes config in
  let! slots := slots_number config in
  let! '(receiver, s) := Communicator_new os
    {| rbc_buffer_name := source_name; rbc_n_bytes_data := bytes; rbc_n_buffer_slots := slots |}
    {| stream_name := source_name; conn_type := CONN_TYPE_CONNECT |} s in
  Ret ({| cs_receiver := receiver; cs_buffer := stack; cs_stats := stats; cs_printed := [] |}, s).

(** One iteration of the loop; [msg] is the announcement, if one came in time. *)
Definition chunk_sender_step (now now_rate : Z) (msg : option (list Z)) (st : chunk_sender) : chunk_sender :=
  let (buffer, n_bytes) := receive_meta (cs_buffer st) msg in
  let (printed, stats) := if 0 <? n_bytes then print_stats now now_rate (cs_stats st) else (None, cs_stats st) in
  {| cs_receiver := cs_receiver st; cs_buffer := buffer; cs_stats := stats; cs_printed := cs_printed st ++ option_list printed |}.

(** ** The chunks tile the buffer *)

(** [tiles o l n]: the chunks lie one behind the other from [o] and end at [n]. *)
Fixpoint tiles (o : Z) (l : list (Z * Z)) (n : Z) : Prop :=
  match l with
  | [] => o = n
  | (offset, size) :: l' => offset = o /\ 0 < size <= min_chunk_size /\ tiles (o + size) l' n
  end.

Lemma num_chunks_spec B : 0 <= B < 2 ^ 63 + 2 ^ 21 ->
  let k := u64 (u64 (B + min_chunk_size) - 1) / min_chunk_size in
  0 <= k /\ B <= k * min_chunk_size < B + min_chunk_size /\ k * min_chunk_size < 2 ^ 64.
Proof.
  intros HB k. unfold k, min_chunk_size. rewrite (u64_small (B + _)), u64_small by lia.
  set (M := 10 * 1024 * 1024 * 1024). pose proof (Z.div_mod (B + M - 1) M ltac:(lia)).
  pose proof (Z.mod_pos_bound (B + M - 1) M ltac:(lia)). split; [apply Z.div_pos; lia|]. lia.
Qed.

(** The last [k] of [K] chunks. *)
Lemma last_chunks_tile B K (k : nat) : 0 <= B -> B <= K * min_chunk_size < B + min_chunk_size -> K * min_chunk_size < 2 ^ 64 ->
  Z.of_nat k <= K ->
  tiles (Z.min ((K - Z.of_nat k) * min_chunk_size) B)
    ((fun i => let offset := u64 (i * min_chunk_size) in (offset, Z.min min_chunk_size (u64 (B - offset)))) <$> seqZ (K - Z.of_nat k) (Z.of_nat k)) B.
Proof.
  intros HB HK H64. unfold min_chunk_size in *. induction k as [|k IH]; intros Hk.
  - rewrite seqZ_nil by lia. cbn. lia.
  - rewrite seqZ_cons by lia. replace (Z.succ (K - Z.of_nat (S k))) with (K - Z.of_nat k) by lia.
    replace (Z.pred (Z.of_nat (S k))) with (Z.of_nat k) by lia. specialize (IH ltac:(lia)).
    rewrite fmap_cons. cbn [tiles]. rewrite (u64_small (_ * _)), (u64_small (B - _)) by lia. split; [lia|]. unfold min_chunk_size. split; [lia|].
    match goal with |- tiles ?o _ _ => replace o with (Z.min ((K - Z.of_nat k) * (10 * 1024 * 1024 * 1024)) B) by lia end. exact IH.
Qed.

Lemma chunks_tile B : 0 <= B < 2 ^ 63 + 2 ^ 21 -> tiles 0 (chunks B) B.
Proof.
  intros HB. destruct (num_chunks_spec B HB) as (H0 & H1 & H2). unfold chunks. set (K := _ / _) in *.
  pose proof (last_chunks_tile B K (Z.to_nat K) ltac:(lia) H1 H2 ltac:(lia)) as Ht. rewrite Z2Nat.id, Z.sub_diag in Ht by done.
  replace (Z.min (0 * min_chunk_size) B) with 0 in Ht by lia. exact Ht.
Qed.

(** The offsets are multiples of the size of a page. *)
Lemma chunks_aligned B : 0 <= B < 2 ^ 63 + 2 ^ 21 -> Forall (fun c => fst c mod 4096 = 0) (chunks B).
Proof.
  intros HB. destruct (num_chunks_spec B HB) as (H0 & H1 & H2). unfold chunks. set (K := _ / _) in *.
  apply list.Forall_forall. intros c (i & -> & Hi%elem_of_seqZ)%list_elem_of_fmap. cbn. unfold min_chunk_size in *.
  rewrite u64_small by nia. replace (i * (10 * 1024 * 1024 * 1024)) with (i * (10 * 1024 * 256) * 4096) by lia. apply Z_mod_mult.
Qed.

Lemma joined_all mmap_ok fd B : (forall m, mmap_ok m = true) ->
  joined (map_chunks mmap_ok fd B) = Some ((fun '(offset, size) =>
    {| mp_hint := u64 offset; mp_length := size; mp_flags := configure_mmap_flags; mp_fd := fd; mp_offset := offset |}) <$> chunks B).
Proof.
  intros Hok. unfold joined, map_chunks, mmap_chunk. induction (chunks B) as [|[o z] l IH]; [done|].
  rewrite !fmap_cons. cbn [mapM]. rewrite Hok, IH. done.
Qed.

Lemma joined_refused (threads : list (outcome mapping)) e : Throw e ∈ threads -> joined threads = None.
Proof.
  intros Hin. unfold joined. destruct mapM as [held|] eqn:E; [|done]. apply mapM_Some_1 in E.
  apply list_elem_of_lookup_1 in Hin as [i Hi]. by destruct (Forall2_lookup_l _ _ _ _ _ E Hi) as (m & _ & Hm).
Qed.

(** A mapping that the system refuses ends the program. *)
Lemma refused_chunk_terminates os mmap_ok config s b n o z : shm_open_ok os = true -> ftruncate_ok os = true ->
  converted_image_n_bytes config = Ret b -> slots_number config = Ret n -> (o, z) ∈ chunks (align_to_2mb (u64 (b * n))) ->
  (forall m, mp_offset m = o -> mmap_ok m = false) -> holder_main os mmap_ok config s = Ret Terminated.
Proof.
  intros Ho Hf Hb Hn. unfold holder_main. rewrite Hb, Hn. cbn [obind]. rewrite Ho. destruct shm_open as [ino s']. rewrite Hf.
  generalize (align_to_2mb (u64 (b * n))). intros B Hin Hbad. rewrite (joined_refused _ runtime_error); [done|].
  unfold map_chunks. apply list_elem_of_fmap. exists (o, z). split; [|done]. unfold mmap_chunk. by rewrite Hbad.
Qed.

(** C34: the shared memory of the holder is the ring of the services.  For every configuration that was read, with images of
    less than 8 GB, the holder maps the whole object in chunks that lie one behind the other, at offsets that are multiples
    of a page; a service that opens the ring for the same configuration finds that object, of exactly that size, without
    changing a byte, and its ring is well formed. *)
Theorem holder_keeps_ring os mmap_ok config b n s :
  config_typed config -> converted_image_n_bytes config = Ret b -> slots_number config = Ret n -> b < 2 ^ 33 ->
  shm_open_ok os = true -> ftruncate_ok os = true -> (forall m, mmap_ok m = true) ->
  let name := (Config.detector_name config +:+ "-image")%string in
  exists held s' ino, holder_main os mmap_ok config s = Ret (Holding held s') /\ shm_names s' !! name = Some ino /\
    tiles 0 ((fun m => (mp_offset m, mp_length m)) <$> held) (zlen (shm_bytes s' ino)) /\
    Forall (fun m => mp_fd m = ino /\ mp_offset m mod 4096 = 0) held /\
    forall os' rb s'', RamBuffer_new os' name b n s' = Ret (rb, s'') ->
      wf_ram rb /\ shm_fd_ rb = ino /\ buffer_bytes_ rb = zlen (shm_bytes s' ino) /\ shm_bytes s'' ino = shm_bytes s' ino.
Proof.
  intros Hc Hb Hn Hlt Ho Hf Hm name. destruct (ring_size_fits config b n Hc Hb Hn Hlt) as (Hb0 & Hn0 & H63).
  destruct (align_to_2mb_spec (b * n)) as [Hal _]; [nia|lia|]. set (B := align_to_2mb (u64 (b * n))).
  assert (EB : B = align_to_2mb (b * n)) by (unfold B; rewrite u64_small by nia; done).
  unfold holder_main. rewrite Hb, Hn. cbn [obind]. rewrite Ho. fold name B. destruct (shm_open s name) as [ino s1] eqn:Eo. rewrite Hf, joined_all by done.
  set (s' := shm_set _ _ _). assert (Hnm : shm_names s' !! name = Some ino).
  { unfold shm_open in Eo. cbn. repeat case_match; simplify_eq; cbn; [done|by simplify_map_eq]. }
  assert (Hz : zlen (shm_bytes s' ino) = B) by (unfold s'; rewrite shm_bytes_set_eq; apply zlen_resize; lia).
  do 2 eexists. exists ino. split; [reflexivity|]. rewrite Hz. split_and!; [done| | |].
  - rewrite <- list_fmap_compose. rewrite (list_fmap_ext _ id (chunks B)) by (by intros ? [o z] ?).
    rewrite list_fmap_id. apply chunks_tile. lia.
  - apply Forall_fmap. eapply Forall_impl; [|apply (chunks_aligned B); lia]. by intros [o z].
  - intros os' rb s'' E. destruct (RamBuffer_reopen os' name b n s' ino rb s'' Hnm ltac:(done) E) as (Hfd & _ & Hby).
    apply RamBuffer_new_inv in E as (_ & En & Ed & Eb & _). rewrite Eb. fold B. split_and!; [|done..].
    unfold wf_ram. rewrite En, Ed, Eb. split_and!; [lia..|done].
Qed.

Lemma holder_keeps_ring_witness : config_typed small_eiger /\
  exists held s' ino, holder_main all_ok (fun _ => true) small_eiger demo_shm = Ret (Holding held s') /\
    shm_names s' !! "EG-image"%string = Some ino /\ tiles 0 ((fun m => (mp_offset m, mp_length m)) <$> held) (zlen (shm_bytes s' ino)).
Proof.
  assert (Hc : config_typed small_eiger) by (split; [unfold in_i32, in_u; cbn; lia..|apply map_Forall_empty|apply map_Forall_empty]).
  split; [exact Hc|].
  destruct (holder_keeps_ring all_ok (fun _ => true) small_eiger 16 1000 demo_shm Hc eq_refl eq_refl eq_refl eq_refl eq_refl (fun _ => eq_refl))
    as (held & s' & ino & E & Hn & Ht & _).
  exists held, s', ino. split; [exact E|]. split; [exact Hn|exact Ht].
Defined.

(** The chunk sender never counts what it receives: whatever comes, it reports 0 images. *)
Lemma chunk_sender_counts_nothing turns st : processed_times (cs_stats st) = 0 ->
  Forall (fun m => SNum "processed_times" 0 ∈ m) (cs_printed st) ->
  let st' := foldl (fun st '(now, rate, msg) => chunk_sender_step now rate msg st) st turns in
  Forall (fun m => SNum "processed_times" 0 ∈ m) (cs_printed st').
Proof.
  revert st. induction turns as [|[[now rate] msg] turns IH]; intros st Hz Hp; [done|]. cbn [foldl].
  assert (Hs : forall x, receive_meta (cs_buffer st) msg = x -> let st' := chunk_sender_step now rate msg st in
    processed_times (cs_stats st') = 0 /\ Forall (fun m => SNum "processed_times" 0 ∈ m) (cs_printed st')).
  { intros [buf n] E. unfold chunk_sender_step. rewrite E. destruct (0 <? n); [|cbn; by rewrite app_nil_r].
    unfold print_stats. destruct (period _ <? _); [|cbn; by rewrite app_nil_r]. cbn. split; [done|]. apply Forall_app. split; [done|].
    constructor; [|constructor]. rewrite Hz. rewrite elem_of_cons, elem_of_app, elem_of_cons. tauto. }
  destruct (Hs _ eq_refl). by apply IH.
Qed.
