(* ===== verification/Chunker.v ===== *)
(** * The UCX server

    [src/source/std-data-chunker/src/main.cpp]: a server that exchanges tags with the clients that connect, a routine
    that sends a message to all of them, and the loop that drives the UCX library.  UCX is a parameter: what its calls
    return is given by the arguments, and the calls that are made are recorded in a trace.  Texts that are printed are left out. *)

From S2P Require Import Prelude Formats.

(** ** Peer information *)

Record peer_info_t : Type := { msg_tag : Z; ctrl_tag : Z; checksum : Z }.

#[global] Instance peer_info_packed : Packed peer_info_t.
Proof.
  refine {| layout := [8; 8; 8]%nat; tail_len := 0;
    to_fields p := [msg_tag p; ctrl_tag p; checksum p]; to_tail _ := [];
    of_parts vs _ := match vs with [a; b; c] => Some {| msg_tag := a; ctrl_tag := b; checksum := c |} | _ => None end |}.
  - by intros [].
  - done.
Defined.

Definition hash64bits (a b : Z) : Z :=
  Z.lxor a (u64 (u64 (u64 (b + 0x9e3779b97f4a7c15) + u64 (Z.shiftl a 6)) + Z.shiftr a 2)).

(** ** Calls of the library *)

(** A request is refused, completed at once, or pending. *)
Inductive status_ptr := PtrErr | PtrOk | PtrPending.

Inductive ucp_call :=
| ucp_ep_create
| ucp_stream_send_nbx (ep : Z) (data : list Z)
| ucp_stream_recv_nbx (ep : Z) (length : Z)
| ucp_tag_send_nbx (ep : Z) (data : list Z) (tag : Z)
| ucp_worker_wait
| ucp_worker_progress
| ucp_request_free
| ucp_ep_close_nb (ep : Z).

Record server : Type := { connected_clients : list Z; calls : list ucp_call }.

Definition call (c : ucp_call) (s : server) : server :=
  {| connected_clients := connected_clients s; calls := calls s ++ [c] |}.

Definition stream_send (request : status_ptr) (ep : Z) (buffer : list Z) (s : server) : outcome unit * server :=
  let s := call (ucp_stream_send_nbx ep buffer) s in
  match request with
  | PtrErr => (Throw runtime_error, s)
  | PtrOk => (Ret tt, s)
  | PtrPending => (Ret tt, call ucp_request_free (call ucp_worker_wait s))
  end.

(** [arrived] are the bytes that the library stored by the time the call, or the wait, returns. *)
Definition stream_recv (request : status_ptr) (arrived : list Z) (ep : Z) (buffer : list Z) (s : server) : outcome (list Z) * server :=
  let s := call (ucp_stream_recv_nbx ep (zlen buffer)) s in
  let filled := take (length buffer) arrived ++ drop (length arrived) buffer in
  match request with
  | PtrErr => (Throw runtime_error, s)
  | PtrOk => (Ret filled, s)
  | PtrPending => (Ret filled, call ucp_request_free (call ucp_worker_wait s))
  end.

(** ** A client connects *)

(** What the library does during a connection: the endpoint, if it is created, and the two requests. *)
Record connection : Type := { cn_ep : option Z; cn_send : status_ptr; cn_recv : status_ptr; cn_arrived : list Z }.

Definition my_info (tag1 tag2 : Z) : peer_info_t :=
  {| msg_tag := tag1; ctrl_tag := tag2; checksum := hash64bits tag1 tag2 |}.

(** [tag1] and [tag2] are the values of [generate_tag].  The result is the peer's information where the exchange succeeds. *)
Definition connection_handler (c : connection) (tag1 tag2 : Z) (s : server) : option peer_info_t * server :=
  let s := call ucp_ep_create s in
  match cn_ep c with
  | None => (None, s)
  | Some ep =>
      let s := {| connected_clients := connected_clients s ++ [ep]; calls := calls s |} in
      let my_info_buf := encode (my_info tag1 tag2) in
      let peer_info_buf := replicate 24 0 in
      match stream_send (cn_send c) ep my_info_buf s with
      | (Ret _, s) =>
          match stream_recv (cn_recv c) (cn_arrived c) ep peer_info_buf s with
          | (Ret peer_info_buf, s) => (decode peer_info_t peer_info_buf, s)
          | (_, s) => (None, call (ucp_ep_close_nb ep) s)
          end
      | (_, s) => (None, call (ucp_ep_close_nb ep) s)
      end
  end.

(** ** Sending to all clients *)

(** A tagged send is refused, completed, or pending for a number of polls. *)
Inductive send_request := SendErr | SendOk | SendPending (polls : nat).

Definition blocking_send (request : send_request) (ep : Z) (buffer : list Z) (s : server) : outcome unit * server :=
  let s := call (ucp_tag_send_nbx ep buffer 0) s in
  match request with
  | SendErr => (Throw runtime_error, s)
  | SendOk => (Ret tt, s)
  | SendPending polls => (Ret tt, call ucp_request_free (Nat.iter polls (call ucp_worker_progress) s))
  end.

Definition erase (it : nat) (l : list Z) : list Z := take it l ++ drop (S it) l.

(** The loop with its iterator, an index; [fuel] bounds the iterations. *)
Fixpoint broadcast_loop (request : Z -> send_request) (msg : list Z) (fuel it : nat) (s : server) : option server :=
  match connected_clients s !! it with
  | None => Some s
  | Some ep =>
      match fuel with
      | O => None
      | S fuel =>
          match blocking_send (request ep) ep msg s with
          | (Ret _, s) => broadcast_loop request msg fuel (S it) s
          | (_, s) =>
              let s := call (ucp_ep_close_nb ep) s in
              broadcast_loop request msg fuel it {| connected_clients := erase it (connected_clients s); calls := calls s |}
          end
      end
  end.

(** The greeting with its terminating zero, then zeros. *)
Definition broadcast_text : list Z := [104; 101; 108; 108; 111; 44; 32; 119; 111; 114; 108; 100; 0] ++ replicate 1011 0.

Definition broadcast_message (request : Z -> send_request) (s : server) : option server :=
  broadcast_loop request broadcast_text (length (connected_clients s)) 0 s.

(** ** main *)

Inductive setup_call := ucp_config_read | ucp_init | ucp_config_release | ucp_worker_create | ucp_data_worker_create | ucp_listener_create
  | ucp_worker_destroy | ucp_cleanup.

(** The calls of the start; [None] where the program ends with an error. *)
Definition server_setup (ok : setup_call -> bool) : list setup_call * option server :=
  let running := {| connected_clients := []; calls := [] |} in
  if negb (ok ucp_config_read) then ([ucp_config_read], None)
  else if negb (ok ucp_init) then ([ucp_config_read; ucp_init; ucp_config_release], None)
  else if negb (ok ucp_worker_create) then ([ucp_config_read; ucp_init; ucp_config_release; ucp_worker_create; ucp_cleanup], None)
  else if negb (ok ucp_data_worker_create) then
    ([ucp_config_read; ucp_init; ucp_config_release; ucp_worker_create; ucp_data_worker_create; ucp_cleanup], None)
  else if negb (ok ucp_listener_create) then
    ([ucp_config_read; ucp_init; ucp_config_release; ucp_worker_create; ucp_data_worker_create; ucp_listener_create; ucp_worker_destroy; ucp_cleanup], None)
  else ([ucp_config_read; ucp_init; ucp_config_release; ucp_worker_create; ucp_data_worker_create; ucp_listener_create], Some running).

Record server_loop : Type := { sl_server : server; next_broadcast : Z }.

Definition second : Z := 10 ^ 9.

Definition loop_start (s : server) (now : Z) : server_loop := {| sl_server := s; next_broadcast := now + second |}.

(** One iteration of the loop at the clock reading [now], in nanoseconds. *)
Definition loop_step (st : server_loop) (now : Z) : server_loop :=
  if next_broadcast st <=? now
  then {| sl_server := call ucp_worker_progress (sl_server st); next_broadcast := next_broadcast st + second |}
  else st.

(** ** The exchange of the tags *)

Lemma lxor_range w a b : 0 <= w -> 0 <= a < 2 ^ w -> 0 <= b < 2 ^ w -> 0 <= Z.lxor a b < 2 ^ w.
Proof.
  intros Hw Ha Hb. rewrite <- (Z.mod_small a (2 ^ w) Ha), <- (Z.mod_small b (2 ^ w) Hb), <- !Z.land_ones by done.
  replace (Z.lxor (Z.land a (Z.ones w)) (Z.land b (Z.ones w))) with (Z.land (Z.lxor a b) (Z.ones w)).
  - rewrite Z.land_ones by done. by apply Z.mod_pos_bound, Z.pow_pos_nonneg.
  - apply Z.bits_inj'. intros n _. rewrite !Z.lxor_spec, !Z.land_spec, !Z.lxor_spec. by destruct (Z.testbit a n), (Z.testbit b n), (Z.testbit (Z.ones w) n).
Qed.

Lemma hash64bits_range a b : 0 <= a < 2 ^ 64 -> 0 <= hash64bits a b < 2 ^ 64.
Proof. intros Ha. apply lxor_range; [done|done|apply u64_range]. Qed.

Lemma my_info_wf t1 t2 : 0 <= t1 < 2 ^ 64 -> 0 <= t2 < 2 ^ 64 -> wf_packed (my_info t1 t2).
Proof. intros H1 H2. split; [|done]. repeat constructor; cbn; try lia; by apply hash64bits_range. Qed.

(** What the client receives are the tags of the server with their checksum. *)
Lemma sent_info_valid t1 t2 : 0 <= t1 < 2 ^ 64 -> 0 <= t2 < 2 ^ 64 ->
  zlen (encode (my_info t1 t2)) = 24 /\
  exists info, decode peer_info_t (encode (my_info t1 t2)) = Some info /\ msg_tag info = t1 /\ ctrl_tag info = t2 /\
    checksum info = hash64bits (msg_tag info) (ctrl_tag info).
Proof.
  intros H1 H2. pose proof (my_info_wf t1 t2 H1 H2) as Hw. split; [by rewrite encode_zlen|].
  exists (my_info t1 t2). by rewrite decode_encode.
Qed.

(** The handler on every branch: without an endpoint nothing changes; otherwise the client is listed, whether or not the
    exchange succeeds, and it succeeds with what the client sent when both requests are accepted and all its bytes are there. *)
Lemma connection_exchanged c ep t1 t2 s info : cn_ep c = Some ep -> cn_send c <> PtrErr -> cn_recv c <> PtrErr ->
  wf_packed info -> cn_arrived c = encode info ->
  exists s', connection_handler c t1 t2 s = (Some info, s') /\ connected_clients s' = connected_clients s ++ [ep] /\
    ucp_stream_send_nbx ep (encode (my_info t1 t2)) ∈ calls s' /\ (ucp_ep_close_nb ep ∈ calls s' -> ucp_ep_close_nb ep ∈ calls s).
Proof.
  intros He Hs Hr Hw Ha. unfold connection_handler. rewrite He, Ha.
  assert (Hl : length (encode info) = 24%nat) by (pose proof (encode_zlen info Hw) as Hz; unfold zlen in Hz; change (sizeof peer_info_t) with 24 in Hz; lia).
  assert (Hf : take (length (replicate 24 0)) (encode info) ++ drop (length (encode info)) (replicate 24 0) = encode info).
  { by rewrite length_replicate, Hl, <- Hl, take_ge, Hl, drop_replicate, app_nil_r. }
  unfold stream_send, stream_recv. rewrite Hf. clear Ha.
  destruct (cn_send c), (cn_recv c); try done; rewrite decode_encode by done; eexists; (split; [done|]); cbn; (split; [done|]); split; set_solver.
Qed.

(** A failed exchange closes the endpoint and leaves it in the list of the clients. *)
Lemma failed_exchange_keeps_client c ep t1 t2 s : cn_ep c = Some ep -> cn_send c = PtrErr \/ cn_recv c = PtrErr ->
  exists s', connection_handler c t1 t2 s = (None, s') /\ ep ∈ connected_clients s' /\ list.last (calls s') = Some (ucp_ep_close_nb ep).
Proof.
  intros He Hf. unfold connection_handler, stream_send, stream_recv. rewrite He.
  destruct (cn_send c); destruct (cn_recv c); destruct Hf as [?|?]; try done; eexists; (split; [done|]); cbn;
    (split; [set_solver|by rewrite last_snoc]).
Qed.

(** The checksum of the client is not compared. *)
Lemma bad_checksum_accepted :
  exists s', connection_handler {| cn_ep := Some 1; cn_send := PtrOk; cn_recv := PtrOk; cn_arrived := encode {| msg_tag := 5; ctrl_tag := 6; checksum := 0 |} |}
    3 4 {| connected_clients := []; calls := [] |} = (Some {| msg_tag := 5; ctrl_tag := 6; checksum := 0 |}, s') /\ hash64bits 5 6 <> 0.
Proof. eexists. split; [reflexivity|]. by vm_compute. Qed.

(** A receive that is pending when the wait returns leaves zeros. *)
Lemma pending_receive_is_zero t1 t2 s :
  fst (connection_handler {| cn_ep := Some 1; cn_send := PtrOk; cn_recv := PtrPending; cn_arrived := [] |} t1 t2 s) =
    Some {| msg_tag := 0; ctrl_tag := 0; checksum := 0 |}.
Proof. reflexivity. Qed.

(** ** The broadcast *)

Definition accepted (r : send_request) : bool := match r with SendErr => false | _ => true end.

(** The calls for one client. *)
Definition client_calls (request : Z -> send_request) (msg : list Z) (ep : Z) : list ucp_call :=
  ucp_tag_send_nbx ep msg 0 ::
  match request ep with
  | SendErr => [ucp_ep_close_nb ep]
  | SendOk => []
  | SendPending polls => replicate polls ucp_worker_progress ++ [ucp_request_free]
  end.

Lemma iter_call n c s : Nat.iter n (call c) s = {| connected_clients := connected_clients s; calls := calls s ++ replicate n c |}.
Proof.
  induction n as [|n IH]; [cbn; rewrite app_nil_r; by destruct s|]. cbn [Nat.iter nat_rect]. unfold Nat.iter in IH. rewrite IH. unfold call. cbn.
  f_equal. by rewrite <- app_assoc, <- replicate_cons_app.
Qed.

(** In front of the iterator are the clients that were kept. *)
Lemma broadcast_loop_spec request msg kept rest cs :
  broadcast_loop request msg (length rest) (length kept) {| connected_clients := kept ++ rest; calls := cs |} =
    Some {| connected_clients := kept ++ base.filter (fun ep => accepted (request ep) = true) rest;
            calls := cs ++ flat_map (client_calls request msg) rest |}.
Proof.
  revert kept cs. induction rest as [|ep rest IH]; intros kept cs.
  - cbn. rewrite !app_nil_r. by rewrite lookup_ge_None_2 by lia.
  - cbn [length broadcast_loop connected_clients]. rewrite list_lookup_middle by done. rewrite filter_cons. cbn [flat_map].
    unfold client_calls at 1. unfold blocking_send. destruct (request ep) as [| |polls] eqn:E; cbn [accepted].
    + rewrite decide_False by done. cbn. unfold erase. rewrite take_app_length, <- app_assoc.
      replace (drop (S (length kept)) (kept ++ ep :: rest)) with rest
        by (rewrite drop_app_ge, Nat.sub_succ_l, Nat.sub_diag by lia; done).
      rewrite IH. by rewrite <- !app_assoc.
    + rewrite decide_True by done. unfold call. cbn.
      specialize (IH (kept ++ [ep]) (cs ++ [ucp_tag_send_nbx ep msg 0])). rewrite length_app, Nat.add_1_r, <- !app_assoc in IH. exact IH.
    + rewrite decide_True by done. rewrite iter_call. unfold call. cbn.
      specialize (IH (kept ++ [ep]) (cs ++ client_calls request msg ep)). rewrite length_app, Nat.add_1_r, <- !app_assoc in IH.
      replace (client_calls request msg ep) with ([ucp_tag_send_nbx ep msg 0] ++ replicate polls ucp_worker_progress ++ [ucp_request_free]) in IH
        by (unfold client_calls; by rewrite E).
      rewrite <- !app_assoc in IH. rewrite <- !app_assoc. exact IH.
Qed.

(** Every client that was connected is sent the message once, in the order of the list; those that refuse it, and no
    others, are closed and removed, and the loop ends. *)
Lemma broadcast_spec request s : broadcast_message request s =
  Some {| connected_clients := base.filter (fun ep => accepted (request ep) = true) (connected_clients s);
          calls := calls s ++ flat_map (client_calls request broadcast_text) (connected_clients s) |}.
Proof. unfold broadcast_message. destruct s as [cl cs]. exact (broadcast_loop_spec request broadcast_text [] cl cs). Qed.

Lemma broadcast_text_length : zlen broadcast_text = 1024.
Proof. reflexivity. Qed.

(** ** The loop *)

(** The library makes progress at most once in an iteration and at most once for every second since the start: a client that
    connects, or a request that is pending, waits for the next full second. *)
Lemma loop_progress s t0 T nows : t0 <= T -> Forall (fun now => now <= T) nows ->
  exists k, foldl loop_step (loop_start s t0) nows =
      {| sl_server := {| connected_clients := connected_clients s; calls := calls s ++ replicate k ucp_worker_progress |};
         next_broadcast := t0 + (Z.of_nat k + 1) * second |} /\
    (k <= length nows)%nat /\ Z.of_nat k * second <= T - t0.
Proof.
  intros Ht. induction nows as [|now nows IH] using rev_ind; intros Hn.
  - exists 0%nat. cbn. split; [|lia]. unfold loop_start. rewrite app_nil_r. destruct s. f_equal.
  - apply Forall_app in Hn as [Hn Hnow]. inversion Hnow as [|? ? Hle' _]; subst. destruct (IH Hn) as (k & E & Hk & Hle).
    rewrite foldl_app, E, length_app. cbn [foldl length]. unfold loop_step. cbn [next_broadcast sl_server]. unfold second in *.
    destruct (Z.leb_spec (t0 + (Z.of_nat k + 1) * 10 ^ 9) now).
    + exists (S k). split; [|split; lia]. unfold call. cbn [connected_clients calls]. f_equal; [|lia].
      f_equal. by rewrite <- app_assoc, <- replicate_cons_app.
    + exists k. split; [done|]. split; [lia|done].
Qed.
