(* ===== verification/Sockets.v ===== *)
(** * ZeroMQ sockets

    [src/source/core-buffer/src/buffer_utils.cpp] and the three [bind_sender_socket]
    functions of the publishing services.  A socket is the options that were set on it and
    the addresses it is bound or connected to; whether a library call succeeds is decided
    by the argument [ok]. *)

From S2P Require Import Prelude RamBuffer.

Inductive zmq_socket_type : Type := ZMQ_PUB | ZMQ_SUB | ZMQ_PUSH | ZMQ_PULL | ZMQ_REQ | ZMQ_REP.

Inductive zmq_option : Type :=
| ZMQ_SUBSCRIBE (prefix : string)
| ZMQ_RCVHWM (n : Z)
| ZMQ_SNDHWM (n : Z)
| ZMQ_RCVTIMEO (ms : Z)
| ZMQ_LINGER (ms : Z).

Inductive zmq_call : Type :=
| zmq_socket_call (t : zmq_socket_type)
| zmq_setsockopt (o : zmq_option)
| zmq_bind (address : string)
| zmq_connect (address : string).

Record zmq_sock : Type := {
  sock_type : zmq_socket_type;
  sock_options : list zmq_option;
  sock_bound : list string;
  sock_connected : list string
}.

#[global] Instance zmq_socket_type_eq_dec : EqDecision zmq_socket_type.
Proof. solve_decision. Defined.
#[global] Instance zmq_option_eq_dec : EqDecision zmq_option.
Proof. solve_decision. Defined.

Section Calls.
Variable (ok : zmq_call -> bool).

(** [if (call != 0) throw std::runtime_error(...)] around the effect of the call. *)
Definition zmq_do (c : zmq_call) (s : zmq_sock) : outcome zmq_sock :=
  throw_if (negb (ok c)) runtime_error
    (Ret match c with
         | zmq_setsockopt o => Build_zmq_sock (sock_type s) (sock_options s ++ [o]) (sock_bound s) (sock_connected s)
         | zmq_bind a => Build_zmq_sock (sock_type s) (sock_options s) (sock_bound s ++ [a]) (sock_connected s)
         | zmq_connect a => Build_zmq_sock (sock_type s) (sock_options s) (sock_bound s) (sock_connected s ++ [a])
         | zmq_socket_call _ => s
         end).

Definition new_sock (t : zmq_socket_type) : zmq_sock := Build_zmq_sock t [] [] [].

Definition create_socket (t : zmq_socket_type) : outcome zmq_sock :=
  let! s0 := zmq_do (zmq_socket_call t) (new_sock t) in
  let! s1 := if bool_decide (t = ZMQ_SUB) then zmq_do (zmq_setsockopt (ZMQ_SUBSCRIBE "")) s0 else Ret s0 in
  let! s2 :=
    if bool_decide (t = ZMQ_SUB) || bool_decide (t = ZMQ_PULL) then
      let! s := zmq_do (zmq_setsockopt (ZMQ_RCVHWM BUFFER_ZMQ_RCVHWM)) s1 in
      zmq_do (zmq_setsockopt (ZMQ_RCVTIMEO 1000)) s
    else zmq_do (zmq_setsockopt (ZMQ_SNDHWM BUFFER_ZMQ_SNDHWM)) s1 in
  zmq_do (zmq_setsockopt (ZMQ_LINGER 0)) s2.

Definition connect_socket (buffer_name : string) (t : zmq_socket_type) : outcome zmq_sock :=
  let! s := create_socket t in zmq_do (zmq_connect buffer_name) s.

Definition connect_socket_ipc (buffer_name : string) (t : zmq_socket_type) : outcome zmq_sock :=
  connect_socket (String.append IPC_URL_BASE buffer_name) t.

Definition bind_socket (buffer_name : string) (t : zmq_socket_type) : outcome zmq_sock :=
  let! s := create_socket t in zmq_do (zmq_bind (String.append IPC_URL_BASE buffer_name)) s.

(** [bind_sender_socket] of a service with its high-water mark.  The result of
    [zmq_socket] is not tested; on a null socket the first option already fails. *)
Definition bind_publisher (sndhwm : Z) (stream_address : string) : outcome zmq_sock :=
  let! s1 := zmq_do (zmq_setsockopt (ZMQ_SNDHWM sndhwm)) (new_sock ZMQ_PUB) in
  let! s2 := zmq_do (zmq_setsockopt (ZMQ_LINGER 0)) s1 in
  zmq_do (zmq_bind stream_address) s2.

Definition send_bind_sender_socket : string -> outcome zmq_sock := bind_publisher 1000.
Definition live_bind_sender_socket : string -> outcome zmq_sock := bind_publisher 100.
Definition metadata_bind_sender_socket : string -> outcome zmq_sock := bind_publisher 50000.
End Calls.

(** A socket is handed out only when every library call on it succeeded, and then it has
    the options of its role: consumers subscribe to everything and have the receive
    high-water mark and the receive timeout the service loops rely on to print statistics,
    producers have the send high-water mark; no socket lingers. *)
Lemma create_socket_options ok t s :
  create_socket ok t = Ret s ->
  ok (zmq_socket_call t) = true /\ sock_type s = t /\ sock_bound s = [] /\ sock_connected s = [] /\
  Forall (fun o => ok (zmq_setsockopt o) = true) (sock_options s) /\
  sock_options s = match t with
    | ZMQ_SUB => [ZMQ_SUBSCRIBE ""; ZMQ_RCVHWM 50000; ZMQ_RCVTIMEO 1000; ZMQ_LINGER 0]
    | ZMQ_PULL => [ZMQ_RCVHWM 50000; ZMQ_RCVTIMEO 1000; ZMQ_LINGER 0]
    | _ => [ZMQ_SNDHWM 50000; ZMQ_LINGER 0]
    end.
Proof.
  unfold create_socket, zmq_do, throw_if, BUFFER_ZMQ_RCVHWM, BUFFER_ZMQ_SNDHWM.
  destruct t; intros He;
    repeat match type of He with
    | context [ok ?c] => let E := fresh "E" in destruct (ok c) eqn:E; cbn [negb obind] in He; [|done]
    | context [bool_decide ?P] => let v := eval vm_compute in (bool_decide P) in
                                  change (bool_decide P) with v in He; cbn [orb] in He
    end; injection He as <-; cbn [new_sock sock_type sock_options sock_bound sock_connected app];
    split_and!; try done; repeat constructor; done.
Qed.
