(* ===== verification/Hdf5.v ===== *)
(** * HDF5

    The HDF5 library as the detector writers use it
    ([src/source/std-det-writer/src/hdf5_file.cpp] and
    [src/source/std-det-meta-writer/std-det-meta-writer-gf/src/hdf5_file.cpp]).  The library
    is not part of the repository: class [HDF5] names the calls, class [HDF5Laws] states what
    their documentation promises and the writers rely on, and the writers are verified against
    these classes.  [mem_ds] is an implementation in memory that satisfies them.

    A dataset of the writers is a sequence of rows along its first, unlimited dimension; every
    access selects one row. *)

From S2P Require Import Prelude.

Inductive h5_class : Type := H5P_FILE_ACCESS | H5P_FILE_CREATE | H5P_DATASET_CREATE | H5P_DATASET_ACCESS.

(** Calls whose only result is whether they succeed. *)
Inductive h5_call : Type :=
| H5Pcreate (c : h5_class)
| H5Pset_alignment (threshold alignment : Z)
| H5Pset_istore_k (ik : Z)
| H5Pset_chunk (dims : list Z)
| H5Pset_chunk_cache (nslots nbytes : Z)
| H5Pset_filter_bshuf_lz4
| H5Screate_simple (dims : list Z)
| H5Gcreate (name : string).

(** A call on a dataset that fails gives [None], a call that returns a handle a negative
    number.  [H5Dcreate name type_size dims chunk] creates a dataset whose first dimension is
    unlimited, [chunk = None] when no chunk size is set in the property list.
    [H5Dwrite d offset count row] is the selection of a hyperslab with the write into it. *)
Class HDF5 (ds : Set -> Type) : Type := {
  h5_ok : h5_call -> bool;
  H5Fcreate : string -> Z;
  H5Dcreate {A : Set} : string -> Z -> list Z -> option (list Z) -> option (ds A);
  H5Sget_simple_extent_dims {A : Set} : ds A -> option (list Z);
  H5Dset_extent {A : Set} : ds A -> list Z -> option (ds A);
  H5Dwrite {A : Set} : ds A -> list Z -> list Z -> A -> option (ds A)
}.

(** A call with the test of its result: [if (call < 0) throw std::runtime_error(...)]. *)
Definition h5_do {ds A} `{HDF5 ds} (c : h5_call) (k : outcome A) : outcome A :=
  throw_if (negb (h5_ok c)) runtime_error k.

Definition h5_try {A} (r : option A) : outcome A :=
  match r with Some a => Ret a | None => Throw runtime_error end.

(** The documented behaviour, when the system calls below the library do not fail and a file that
    is created is not open: a chunk
    needs positive dimensions, and a dataset with an unlimited dimension a chunk size; a change of the
    extent keeps the rows that are inside before and after; a write changes one row.
    [h5_row d i] is the row last written at [i], [None] for the fill value. *)
Class HDF5Laws (ds : Set -> Type) `{HDF5 ds} : Type := {
  h5_dims {A : Set} : ds A -> list Z;
  h5_row {A : Set} : ds A -> Z -> option A;
  h5_call_ok c : match c with H5Pset_chunk dims => Forall (fun n => 0 < n) dims | _ => True end ->
    h5_ok c = true;
  h5_chunk_zero dims : 0 ∈ dims -> h5_ok (H5Pset_chunk dims) = false;
  h5_file_id name : 0 < H5Fcreate name;
  h5_create {A : Set} name size dims chunk : Forall (fun n => 0 < n) chunk ->
    length chunk = length dims ->
    exists d : ds A, H5Dcreate name size dims (Some chunk) = Some d /\ h5_dims d = dims /\
      forall i, h5_row d i = None;
  h5_create_unchunked {A : Set} name size dims : H5Dcreate (A := A) name size dims None = None;
  h5_get_dims {A : Set} (d : ds A) : H5Sget_simple_extent_dims d = Some (h5_dims d);
  h5_set_extent {A : Set} (d : ds A) n n' rest : h5_dims d = n :: rest -> 0 <= n' < 2 ^ 64 ->
    exists d', H5Dset_extent d (n' :: rest) = Some d' /\ h5_dims d' = n' :: rest /\
      forall i, h5_row d' i = if i <? n' then h5_row d i else None;
  h5_write {A : Set} (d : ds A) n rest i (row : A) : h5_dims d = n :: rest -> 0 <= i < n ->
    exists d', H5Dwrite d (i :: replicate (length rest) 0) (1 :: rest) row = Some d' /\ h5_dims d' = n :: rest /\
      forall j, h5_row d' j = if j =? i then Some row else h5_row d j
}.

(** ** Shared routines of the two writers *)

(** A routine with the files it has created on disk, or emptied when they existed
    ([H5F_ACC_TRUNC]), in order.  They stay when the routine throws afterwards. *)
Definition creates (A : Type) : Type := list string * outcome A.

Definition creates_no_file {A} (o : outcome A) : creates A := ([], o).

Definition creates_bind {A B} (m : creates A) (k : A -> creates B) : creates B :=
  match m with
  | (files, Ret a) => let (more, o) := k a in (files ++ more, o)
  | (files, Throw e) => (files, Throw e)
  | (files, Undef u) => (files, Undef u)
  end.

Section Routines.
Context {ds : Set -> Type} `{HDF5 ds}.

Definition max_ik_store : Z := 8192.

(** [H5Fcreate] with [H5F_ACC_TRUNC] creates or empties the file on disk when it succeeds. *)
Definition create_file (gpfs_block_size : Z) (filename : string) : creates Z :=
  creates_bind (creates_no_file
   (h5_do (H5Pcreate H5P_FILE_ACCESS)
   (h5_do (H5Pset_alignment 0 gpfs_block_size)
   (h5_do (H5Pcreate H5P_FILE_CREATE)
   (h5_do (H5Pset_istore_k max_ik_store) (Ret tt))))))
  (fun _ =>
    let file_id := H5Fcreate filename in
    if file_id <? 0 then creates_no_file (Throw runtime_error) else ([filename], Ret file_id)).

(** [create_metadata_dataset] for records of [size] bytes.  The result of [H5Pset_chunk] is not
    tested. *)
Definition create_metadata_dataset {A : Set} (gpfs_block_size size : Z) : outcome (ds A) :=
  let records_per_chunk := gpfs_block_size / size in
  h5_do (H5Screate_simple [0])
    (let chunk := H5Pset_chunk [records_per_chunk] in
     h5_try (H5Dcreate "metadata" size [0] (if h5_ok chunk then Some [records_per_chunk] else None))).

(** The write of the record at [index]: the dataset grows by whole chunks. *)
Definition write_meta_record {A : Set} (gpfs_block_size size index : Z) (d : ds A) (data : A) :
  outcome (ds A) :=
  let! dims := h5_try (H5Sget_simple_extent_dims d) in
  let! next := i32 (index + 1) in
  let required_index := u64 next in
  let! d1 :=
    if default 0 (head dims) <? required_index then
      let records_per_chunk := gpfs_block_size / size in
      let! q := udiv required_index records_per_chunk in
      h5_try (H5Dset_extent d [u64 (u64 (q + 1) * records_per_chunk)])
    else Ret d in
  h5_do (H5Screate_simple [1]) (h5_try (H5Dwrite d1 [u64 index] [1] data)).
End Routines.

(** ** Datasets that hold a list of rows *)

Definition row_of {A} (l : list A) (i : Z) : option A := if 0 <=? i then l !! Z.to_nat i else None.

(** Row [i] of [d] is element [i] of [l], nothing else is written, and the extent covers [l]. *)
Definition holds {ds} {A : Set} `{HDF5Laws ds} (d : ds A) (rest : list Z) (l : list A) : Prop :=
  (exists n, h5_dims d = n :: rest /\ zlen l <= n) /\ forall i, h5_row d i = row_of l i.

Lemma row_of_snoc {A} (l : list A) x i :
  row_of (l ++ [x]) i = if i =? zlen l then Some x else row_of l i.
Proof.
  unfold row_of. pose proof (zlen_nonneg l). destruct (Z.leb_spec 0 i).
  - destruct (Z.eqb_spec i (zlen l)) as [->|Hne].
    + unfold zlen. by rewrite Nat2Z.id, lookup_app_r, Nat.sub_diag by lia.
    + unfold zlen in Hne. destruct (decide (Z.to_nat i < length l)%nat).
      * by rewrite lookup_app_l.
      * rewrite (lookup_ge_None_2 l) by lia. apply lookup_ge_None_2. rewrite length_app. simpl. lia.
  - destruct (Z.eqb_spec i (zlen l)); [lia|done].
Qed.

Lemma row_of_cut {A} (l : list A) n i : zlen l <= n -> (if i <? n then row_of l i else None) = row_of l i.
Proof.
  intros Hl. destruct (Z.ltb_spec i n); [done|]. unfold row_of, zlen in *.
  destruct (Z.leb_spec 0 i); [|done]. symmetry. apply lookup_ge_None_2. lia.
Qed.

Section Holds.
Context {ds : Set -> Type} `{HDF5Laws ds} {A : Set}.

Lemma set_extent_holds (d : ds A) rest l n :
  holds d rest l -> zlen l <= n < 2 ^ 64 ->
  exists d', H5Dset_extent d (n :: rest) = Some d' /\ holds d' rest l /\ h5_dims d' = n :: rest.
Proof.
  intros [(m & Hm & Hle) Hrow] Hn. pose proof (zlen_nonneg l).
  destruct (h5_set_extent d m n rest Hm ltac:(lia)) as (d' & Hd & Hdims & Hr).
  exists d'. split_and!; [done| |done]. split; [eexists; split; [done|lia]|].
  intros i. rewrite Hr, Hrow. apply row_of_cut. lia.
Qed.

Lemma write_holds (d : ds A) rest l n x :
  holds d rest l -> h5_dims d = n :: rest -> zlen l < n ->
  exists d', H5Dwrite d (zlen l :: replicate (length rest) 0) (1 :: rest) x = Some d' /\
    holds d' rest (l ++ [x]) /\ h5_dims d' = n :: rest.
Proof.
  intros [_ Hrow] Hn Hlt. pose proof (zlen_nonneg l).
  destruct (h5_write d n rest (zlen l) x Hn ltac:(lia)) as (d' & Hd & Hdims & Hr).
  exists d'. split_and!; [done| |done]. split.
  - exists n. split; [done|]. rewrite zlen_app. change (zlen [x]) with 1. lia.
  - intros i. by rewrite Hr, Hrow, row_of_snoc.
Qed.

Lemma create_holds name size rest chunk :
  Forall (fun n => 0 < n) chunk -> length chunk = S (length rest) ->
  exists d : ds A, H5Dcreate name size (0 :: rest) (Some chunk) = Some d /\ holds d rest [] /\
    h5_dims d = 0 :: rest.
Proof.
  intros Hc Hl. destruct (h5_create (A := A) name size (0 :: rest) chunk Hc Hl) as (d & Hd & Hdims & Hr).
  exists d. split_and!; [done| |done]. split; [exists 0; by split|]. intros i. rewrite Hr. unfold row_of.
  by destruct (0 <=? i).
Qed.

Lemma create_file_ret g name : exists id, create_file g name = ([name], Ret id) /\ 0 < id.
Proof.
  unfold create_file, h5_do, throw_if. rewrite !h5_call_ok by done. cbn [negb creates_bind creates_no_file].
  pose proof (h5_file_id name). rewrite (proj2 (Z.ltb_ge _ _)) by lia. eauto.
Qed.

Lemma create_metadata_dataset_ret g size :
  0 < size <= g -> exists d : ds A, create_metadata_dataset g size = Ret d /\ holds d [] [].
Proof.
  intros Hg. assert (Hq : 0 < g / size) by (apply Z.div_str_pos; lia).
  unfold create_metadata_dataset, h5_do, throw_if. rewrite (h5_call_ok (H5Screate_simple _)) by done.
  rewrite (h5_call_ok (H5Pset_chunk _)) by (repeat constructor; done). cbn [negb].
  destruct (create_holds "metadata" size [] [g / size]) as (d & -> & Hd & _);
    [by constructor|done|]. exists d. by split.
Qed.

Lemma create_metadata_dataset_small g size :
  0 < size -> 0 <= g < size -> create_metadata_dataset (A := A) g size = Throw runtime_error.
Proof.
  intros Hs Hg. unfold create_metadata_dataset, h5_do, throw_if. rewrite h5_call_ok by done. cbn [negb].
  rewrite (Z.div_small g size Hg), h5_chunk_zero by set_solver. by rewrite h5_create_unchunked.
Qed.

Lemma write_meta_record_ret g size (d : ds A) l x :
  0 < size <= g -> g < 2 ^ 32 -> holds d [] l -> zlen l < 2 ^ 31 - 1 ->
  exists d', write_meta_record g size (zlen l) d x = Ret d' /\ holds d' [] (l ++ [x]).
Proof.
  intros Hg Hg32 Hd Hl. pose proof (zlen_nonneg l). assert (Hq : 0 < g / size) by (apply Z.div_str_pos; lia).
  assert (Hqle : g / size <= g) by (apply Z.div_le_upper_bound; nia).
  pose proof Hd as [(n & Hn & Hle) _]. unfold write_meta_record. rewrite h5_get_dims, Hn.
  cbn [h5_try obind]. change (default 0 (head [n])) with n. rewrite i32_ret by (unfold in_i32; lia). cbn [obind].
  rewrite !u64_small by lia.
  assert (Hext : exists d1 m, (if n <? zlen l + 1 then
      let! q := udiv (zlen l + 1) (g / size) in
      h5_try (H5Dset_extent d [u64 (u64 (q + 1) * (g / size))]) else Ret d) = Ret d1 /\
      holds d1 [] l /\ h5_dims d1 = [m] /\ zlen l < m).
  { destruct (Z.ltb_spec n (zlen l + 1)); [|exists d, n; split_and!; [done..|lia]].
    rewrite udiv_ret by lia. cbn [obind]. set (q := (zlen l + 1) / (g / size)).
    assert (Hm : zlen l + 1 < (q + 1) * (g / size) <= zlen l + 1 + g / size).
    { pose proof (Z.div_mod (zlen l + 1) (g / size) ltac:(lia)) as E. fold q in E.
      pose proof (Z.mod_pos_bound (zlen l + 1) (g / size) Hq). nia. }
    assert (0 <= q <= zlen l + 1) by (split; [apply Z.div_pos; lia|apply Z.div_le_upper_bound; nia]).
    rewrite !u64_small by (rewrite ?u64_small by lia; lia).
    destruct (set_extent_holds d [] l ((q + 1) * (g / size)) Hd ltac:(lia)) as (d1 & -> & Hd1 & Hdim).
    exists d1, ((q + 1) * (g / size)). split_and!; [done..|lia]. }
  destruct Hext as (d1 & m & -> & Hd1 & Hm & Hlt). cbn [obind]. unfold h5_do, throw_if.
  rewrite h5_call_ok by done. cbn [negb].
  destruct (write_holds d1 [] l m x Hd1 Hm Hlt) as (d' & Hw & Hd' & _). simpl in Hw. rewrite Hw. eauto.
Qed.
End Holds.

(** ** An implementation in memory *)

Record mem_ds (A : Set) : Type := { md_dims : list Z; md_rows : gmap Z A }.
Arguments md_dims {A} _.
Arguments md_rows {A} _.
Arguments Build_mem_ds {A} _ _.

Definition all_positive (l : list Z) : bool := forallb (fun n => 0 <? n) l.

Definition mem_call_ok (c : h5_call) : bool :=
  match c with H5Pset_chunk dims => all_positive dims | _ => true end.

Definition mem_create {A : Set} (dims : list Z) (chunk : option (list Z)) : option (mem_ds A) :=
  match chunk with
  | Some c => if all_positive c && (length c =? length dims)%nat then Some (Build_mem_ds dims ∅) else None
  | None => None
  end.

Definition mem_set_extent {A : Set} (d : mem_ds A) (dims : list Z) : option (mem_ds A) :=
  match md_dims d, dims with
  | _ :: rest, n :: rest' =>
      if bool_decide (rest = rest') then
        Some (Build_mem_ds dims (filter (fun kv => kv.1 < n) (md_rows d)))
      else None
  | _, _ => None
  end.

Definition mem_row_write {A : Set} (d : mem_ds A) (offset count : list Z) (row : A) : option (mem_ds A) :=
  match md_dims d, offset, count with
  | n :: rest, i :: zeros, 1 :: rest' =>
      if (0 <=? i) && (i <? n) && bool_decide (rest = rest') && forallb (Z.eqb 0) zeros then
        Some (Build_mem_ds (md_dims d) (<[i := row]> (md_rows d)))
      else None
  | _, _, _ => None
  end.

#[global] Instance mem_hdf5 : HDF5 mem_ds := {|
  h5_ok := mem_call_ok;
  H5Fcreate _ := 1;
  H5Dcreate A _ _ := mem_create;
  H5Sget_simple_extent_dims A d := Some (md_dims d);
  H5Dset_extent A := mem_set_extent;
  H5Dwrite A := mem_row_write
|}.

Lemma all_positive_spec l : all_positive l = true <-> Forall (fun n => 0 < n) l.
Proof.
  induction l as [|n l IH]; simpl; [split; auto|].
  unfold all_positive in *. cbn [forallb]. split.
  - intros [Hn Hl]%andb_true_iff. constructor; [by apply Z.ltb_lt|by apply IH].
  - intros [Hn Hl]%Forall_cons_1. apply andb_true_iff. split; [by apply Z.ltb_lt|by apply IH].
Qed.

#[global] Program Instance mem_hdf5_laws : HDF5Laws mem_ds := {|
  h5_dims A d := md_dims d;
  h5_row A d i := md_rows d !! i
|}.
Next Obligation. intros [] Hc; try done. by apply all_positive_spec. Qed.
Next Obligation.
  intros dims Hd. apply not_true_iff_false. change (~ all_positive dims = true).
  rewrite all_positive_spec, list.Forall_forall. intros Hp. specialize (Hp 0 Hd). lia.
Qed.
Next Obligation. done. Qed.
Next Obligation.
  intros A name size dims chunk Hc Hl. exists (Build_mem_ds dims ∅). cbn. unfold mem_create.
  rewrite (proj2 (all_positive_spec chunk) Hc), Hl, Nat.eqb_refl. split_and!; [done..|].
  intros i. apply lookup_empty.
Qed.
Next Obligation. done. Qed.
Next Obligation. done. Qed.
Next Obligation.
  intros A d n n' rest Hd Hn. eexists. cbn. unfold mem_set_extent. rewrite Hd, bool_decide_eq_true_2 by done.
  split_and!; [done..|]. intros i. cbn [md_rows]. destruct (Z.ltb_spec i n').
  - destruct (md_rows d !! i) as [x|] eqn:E.
    + apply map_lookup_filter_Some. split; [done|]. done.
    + apply map_lookup_filter_None. by left.
  - apply map_lookup_filter_None. right. intros x _. simpl. lia.
Qed.
Next Obligation.
  intros A d n rest i row Hd Hi. eexists. cbn. unfold mem_row_write. rewrite Hd.
  rewrite (proj2 (Z.leb_le _ _)), (proj2 (Z.ltb_lt _ _)), bool_decide_eq_true_2 by (done || lia).
  assert (Hz : forallb (Z.eqb 0) (replicate (length rest) 0) = true) by (induction (length rest); done).
  rewrite Hz. split_and!; [done..|]. intros j. cbn [md_rows]. rewrite lookup_insert.
  destruct (Z.eqb_spec j i) as [->|]; case_decide; done.
Qed.
