(* ===== verification/DetWriter.v ===== *)
(** * std-det-writer

    [src/source/std-det-writer/src]: [hdf5_file.cpp] (class [HDF5File]),
    [writer_stats_collector.hpp] and [main.cpp].  A writer obeys the commands of the detector
    driver: it creates a file, appends images from the RAM buffer, confirms the last one, and
    closes the file.  HDF5 is the interface of [Hdf5]; [seteuid] is an argument. *)

From stdpp Require Import pretty.
From S2P Require Import Prelude Protocol Stats Config RamBuffer Sockets Hdf5.

(** ** writer_stats_collector.hpp *)

Module WriterStats.
(** [base] holds the period and the time of the last report. *)
Record WriterStatsCollector : Type := {
  base : TimedStatsCollector;
  image_n_bytes : Z;
  image_counter : Z;
  total_bytes : Z;
  total_buffer_write : Z;
  max_buffer_write : Z;
  writing_start : Z;
  source : string;
  writer_id : Z
}.

Definition new (name suffix : string) (period_s image_bytes id now : Z) : WriterStatsCollector :=
  {| base := TimedStatsCollector_new name period_s "" now; image_n_bytes := image_bytes;
     image_counter := 0; total_bytes := 0; total_buffer_write := 0; max_buffer_write := 0;
     writing_start := 0; source := suffix; writer_id := id |}.

Definition start_image_write (now : Z) (s : WriterStatsCollector) : WriterStatsCollector :=
  {| base := base s; image_n_bytes := image_n_bytes s; image_counter := image_counter s;
     total_bytes := total_bytes s; total_buffer_write := total_buffer_write s;
     max_buffer_write := max_buffer_write s; writing_start := now; source := source s;
     writer_id := writer_id s |}.

Definition end_image_write (now : Z) (s : WriterStatsCollector) : outcome WriterStatsCollector :=
  let! n := i32 (image_counter s + 1) in
  let write_duration := now - writing_start s in
  Ret {| base := base s; image_n_bytes := image_n_bytes s; image_counter := n;
         total_bytes := u64 (total_bytes s + image_n_bytes s);
         total_buffer_write := total_buffer_write s + write_duration;
         max_buffer_write := Z.max (max_buffer_write s) write_duration;
         writing_start := writing_start s; source := source s; writer_id := writer_id s |}.

(** The average time of a write, and the throughput as a quotient. *)
Definition calculate_averages (s : WriterStatsCollector) : Z * (Z * Z) :=
  if 0 <? image_counter s then
    (Z.quot (total_buffer_write s) (image_counter s),
     (total_bytes s * 1000000, total_buffer_write s * 1024 * 1024))
  else (0, (0, 1)).

Definition message (now : Z) (s : WriterStatsCollector) : list stat * WriterStatsCollector :=
  let '(avg_buffer_write, (num, den)) := calculate_averages s in
  ([SText "source" (source s); SNum "id" (writer_id s); SNum "n_written_images" (image_counter s);
    SNum "avg_buffer_write_us" avg_buffer_write; SNum "max_buffer_write_us" (max_buffer_write s);
    SQuot "avg_throughput" num den],
   {| base := base s; image_n_bytes := image_n_bytes s; image_counter := 0; total_bytes := 0;
      total_buffer_write := 0; max_buffer_write := 0; writing_start := writing_start s;
      source := source s; writer_id := writer_id s |}).
End WriterStats.

#[global] Instance WriterStats_collector : Collector WriterStats.WriterStatsCollector := {|
  timed := WriterStats.base;
  set_timed t s := WriterStats.Build_WriterStatsCollector t (WriterStats.image_n_bytes s)
    (WriterStats.image_counter s) (WriterStats.total_bytes s) (WriterStats.total_buffer_write s)
    (WriterStats.max_buffer_write s) (WriterStats.writing_start s) (WriterStats.source s)
    (WriterStats.writer_id s);
  additional_message := WriterStats.message
|}.

(** ** hdf5_file.cpp *)

Record h5_metadata : Set := { h5_image_id : Z; h5_status : Z }.

Definition sizeof_h5_metadata : Z := 16.

Definition status_value (s : pb_status) : Z :=
  match s with
  | st_undefined => 0 | st_good_image => 1 | st_missing_packets => 2 | st_id_missmatch => 3
  end.

(** The size of a pixel of the HDF5 type. *)
Definition get_datatype (bit_depth : Z) : outcome Z :=
  if bit_depth =? 8 then Ret 1 else if bit_depth =? 16 then Ret 2
  else if bit_depth =? 32 then Ret 4 else Throw runtime_error.

(** The open file; [file_name] is what [file_id] stands for. *)
Record HDF5File (ds : Set -> Type) : Type := {
  file_name : string;
  is_h5bitshuffle_lz4_compression : bool;
  image_height : Z;
  image_width : Z;
  image_bit_depth : Z;
  image_size : Z;
  block_size : Z;
  index : Z;
  file_id : Z;
  image_ds : ds (list Z);
  metadata_ds : ds h5_metadata
}.
Arguments file_name {ds} _.
Arguments is_h5bitshuffle_lz4_compression {ds} _.
Arguments image_height {ds} _.
Arguments image_width {ds} _.
Arguments image_bit_depth {ds} _.
Arguments image_size {ds} _.
Arguments block_size {ds} _.
Arguments index {ds} _.
Arguments file_id {ds} _.
Arguments image_ds {ds} _.
Arguments metadata_ds {ds} _.
Arguments Build_HDF5File {ds} _ _ _ _ _ _ _ _ _ _ _.

(** A file that was closed: its name and its two datasets. *)
Definition closed_file (ds : Set -> Type) : Type := string * (ds h5_metadata * ds (list Z)).

Section File.
Context {ds : Set -> Type} `{HDF5 ds}.

Definition create_image_dataset (block_size height width bit_depth image_size : Z) (bshuf : bool) :
  outcome (ds (list Z)) :=
  h5_do (H5Pcreate H5P_DATASET_CREATE)
 (let! images_per_chunk := udiv block_size image_size in
  let chunking := [images_per_chunk; height; width] in
  h5_do (H5Pset_chunk chunking)
 (h5_do (H5Screate_simple [0; height; width])
 (let! _ := if bshuf then h5_do H5Pset_filter_bshuf_lz4 (Ret tt) else Ret tt in
  h5_do (H5Pset_chunk_cache images_per_chunk block_size)
 (let! size := get_datatype bit_depth in
  h5_try (H5Dcreate "data" size [0; height; width] (Some chunking)))))).

Definition HDF5File_new (config : DetectorConfig) (filename suffix : string) : creates (HDF5File ds) :=
  let bshuf := bool_decide (suffix = "h5bitshuffle-lz4"%string) in
  let height := u64 (image_pixel_height config) in
  let width := u64 (image_pixel_width config) in
  let depth := u64 (bit_depth config) in
  creates_bind (creates_no_file (converted_image_n_bytes config)) (fun size =>
  let block := u64 (gpfs_block_size config) in
  creates_bind (create_file block filename) (fun id => creates_no_file
 (h5_do (H5Gcreate (detector_name config))
 (let! meta := create_metadata_dataset block sizeof_h5_metadata in
  let! image := create_image_dataset block height width depth size bshuf in
  Ret {| file_name := filename; is_h5bitshuffle_lz4_compression := bshuf; image_height := height;
         image_width := width; image_bit_depth := depth; image_size := size; block_size := block;
         index := -1; file_id := id; image_ds := image; metadata_ds := meta |})))).

(** [~HDF5File]: failures of [H5Dset_extent] are not tested. *)
Definition HDF5File_delete (f : HDF5File ds) : closed_file ds :=
  if (0 <? file_id f) && (0 <? index f) then
    let n := u64 (u64 (index f) + 1) in
    (file_name f,
     (default (metadata_ds f) (H5Dset_extent (metadata_ds f) [n]),
      default (image_ds f) (H5Dset_extent (image_ds f) [n; image_height f; image_width f])))
  else (file_name f, (metadata_ds f, image_ds f)).

Definition write_meta (f : HDF5File ds) (meta : pb_image) : outcome (ds h5_metadata) :=
  write_meta_record (block_size f) sizeof_h5_metadata (index f) (metadata_ds f)
    {| h5_image_id := pb_image_id meta; h5_status := status_value (pb_st meta) |}.

(** [write_image]: the pixels are read from [mem] at [image]. *)
Definition write_image (f : HDF5File ds) (mem : list Z) (image : Z) : outcome (ds (list Z)) :=
  let! dims := h5_try (H5Sget_simple_extent_dims (image_ds f)) in
  let idx := u64 (index f) in
  let! d1 :=
    if default 0 (head dims) <=? idx then
      let! images_per_chunk := udiv (block_size f) (image_size f) in
      h5_try (H5Dset_extent (image_ds f) [u64 (idx + images_per_chunk); image_height f; image_width f])
    else Ret (image_ds f) in
  h5_do (H5Screate_simple [1; image_height f; image_width f])
 (let! size := get_datatype (image_bit_depth f) in
  let! pixels := mem_read mem image (image_height f * image_width f * size) in
  h5_try (H5Dwrite d1 [idx; 0; 0] [1; image_height f; image_width f] pixels)).

Definition set_index (f : HDF5File ds) (i : Z) : HDF5File ds :=
  Build_HDF5File (file_name f) (is_h5bitshuffle_lz4_compression f) (image_height f) (image_width f)
    (image_bit_depth f) (image_size f) (block_size f) i (file_id f) (image_ds f) (metadata_ds f).

Definition set_datasets (f : HDF5File ds) (m : ds h5_metadata) (d : ds (list Z)) : HDF5File ds :=
  Build_HDF5File (file_name f) (is_h5bitshuffle_lz4_compression f) (image_height f) (image_width f)
    (image_bit_depth f) (image_size f) (block_size f) (index f) (file_id f) d m.

Definition HDF5File_write (f : HDF5File ds) (meta : pb_image) (mem : list Z) (image : Z) :
  outcome (HDF5File ds) :=
  let! i := i32 (index f + 1) in
  let f1 := set_index f i in
  let! m := write_meta f1 meta in
  let! d := write_image f1 mem image in
  Ret (set_datasets f1 m d).
End File.

(** ** main.cpp *)

(** The state of the process: the open file, the effective user, the statistics, the responses
    sent, the files closed so far with their contents, and the files created or emptied on disk so
    far. *)
Record det_writer (ds : Set -> Type) : Type := {
  dw_file : option (HDF5File ds);
  dw_euid : Z;
  dw_stats : WriterStats.WriterStatsCollector;
  dw_sent : list response_code;
  dw_disk : list (closed_file ds);
  dw_created : list string
}.
Arguments dw_file {ds} _.
Arguments dw_euid {ds} _.
Arguments dw_stats {ds} _.
Arguments dw_sent {ds} _.
Arguments dw_disk {ds} _.
Arguments dw_created {ds} _.
Arguments Build_det_writer {ds} _ _ _ _ _ _.

Section Main.
Context {ds : Set -> Type} `{HDF5 ds}.
(** [seteuid euid id]: whether the process, now with effective user [euid], may switch. *)
Variable (seteuid : Z -> Z -> bool).

Definition root_user_id : Z := 0.

(** [user_switch]: the returned flag, and the effective user afterwards. *)
Definition switch_user (user_switch_active : bool) (euid new_user_id : Z) : bool * Z :=
  if user_switch_active then
    if seteuid euid new_user_id then (true, new_user_id) else (false, euid)
  else (true, euid).

Definition switch_writer_user (active : bool) (euid writer_user : Z) : bool * Z :=
  if writer_user =? root_user_id then (true, euid) else switch_user active euid writer_user.

(** The readings of the clock in one iteration. *)
Record writer_clock : Type := { t_start : Z; t_end : Z; t_print : Z }.

(** What [file = ...] and [file.reset()] do with the previous file. *)
Definition release (f : option (HDF5File ds)) : list (closed_file ds) :=
  match f with Some f => [HDF5File_delete f] | None => [] end.

Definition on_create_file (config : DetectorConfig) (suffix path : string) (id : Z) (st : det_writer ds) :
  outcome (det_writer ds) :=
  let (switched, euid) := switch_writer_user (switch_user_active config) (dw_euid st) (u32 id) in
  if switched then
    let (created, file) := HDF5File_new config path suffix in
    match file with
    | Ret f => Ret (Build_det_writer (Some f) euid (dw_stats st) (dw_sent st ++ [SUCCESS])
                      (dw_disk st ++ release (dw_file st)) (dw_created st ++ created))
    | Throw runtime_error =>
        Ret (Build_det_writer (dw_file st) euid (dw_stats st) (dw_sent st ++ [FAILURE]) (dw_disk st)
               (dw_created st ++ created))
    | Throw e => Throw e
    | Undef u => Undef u
    end
  else Ret (Build_det_writer (dw_file st) euid (dw_stats st) (dw_sent st) (dw_disk st) (dw_created st)).

Definition on_record_image (rb : RamBuffer) (mem : list Z) (clock : writer_clock) (meta : pb_image)
  (st : det_writer ds) : outcome (det_writer ds) :=
  let! image_data := get_data rb (pb_image_id meta) in
  let stats := WriterStats.start_image_write (t_start clock) (dw_stats st) in
  match dw_file st with
  | None => Undef null_deref
  | Some f =>
      let! f' := HDF5File_write f meta mem image_data in
      let! stats' := WriterStats.end_image_write (t_end clock) stats in
      Ret (Build_det_writer (Some f') (dw_euid st) stats' (dw_sent st) (dw_disk st) (dw_created st))
  end.

Definition on_close_file (config : DetectorConfig) (st : det_writer ds) : det_writer ds :=
  let (_, euid) := switch_user (switch_user_active config) (dw_euid st) root_user_id in
  Build_det_writer None euid (dw_stats st) (dw_sent st ++ [SUCCESS]) (dw_disk st ++ release (dw_file st)) (dw_created st).

Definition on_action (config : DetectorConfig) (suffix : string) (rb : RamBuffer) (mem : list Z)
  (clock : writer_clock) (action : writer_action) (st : det_writer ds) : outcome (det_writer ds) :=
  match action with
  | create_file_cmd path id => on_create_file config suffix path id st
  | record_image meta => on_record_image rb mem clock meta st
  | close_file => Ret (on_close_file config st)
  | confirm_last_image =>
      Ret (Build_det_writer (dw_file st) (dw_euid st) (dw_stats st) (dw_sent st ++ [SUCCESS]) (dw_disk st) (dw_created st))
  | action_not_set => Ret st
  end.

(** One iteration.  A message is the length [zmq_recv] returns with the parsed command; the
    parser reads as many bytes from the 512 byte buffer.  [mem] is the RAM buffer. *)
Definition det_writer_step (config : DetectorConfig) (suffix : string) (rb : RamBuffer) (mem : list Z)
  (clock : writer_clock) (msg : option (Z * writer_action)) (st : det_writer ds) :
  outcome (det_writer ds) :=
  let! st1 :=
    match msg with
    | Some (n_bytes, action) =>
        if 0 <? n_bytes then
          if 512 <? n_bytes then Undef out_of_bounds
          else on_action config suffix rb mem clock action st
        else Ret st
    | None => Ret st
    end in
  let (_, stats) := print_stats (t_print clock) (t_print clock) (dw_stats st1) in
  Ret (Build_det_writer (dw_file st1) (dw_euid st1) stats (dw_sent st1) (dw_disk st1) (dw_created st1)).

(** What [main] sets up in front of the loop: the stream of commands with the RAM buffer, the
    socket of the responses, and the initial state; [None] when the writer is not needed. *)
Definition det_writer_main (config : DetectorConfig) (os : syscalls) (zmq_ok : zmq_call -> bool)
  (suffix : string) (writer_id now euid : Z) (s : shm) :
  outcome (option (Communicator * zmq_sock * det_writer ds * shm)) :=
  if number_of_writers config <=? writer_id then Ret None
  else
    let! image_n_bytes := converted_image_n_bytes config in
    let stats := WriterStats.new (detector_name config) suffix (stats_collection_period config)
                   image_n_bytes writer_id now in
    let! n_slots := slots_number config in
    let! '(receiver, s') :=
      Communicator_new os
        {| rbc_buffer_name := detector_name config +:+ "-" +:+ suffix;
           rbc_n_bytes_data := image_n_bytes; rbc_n_buffer_slots := n_slots |}
        {| stream_name := detector_name config +:+ "-driver-" +:+ pretty writer_id;
           conn_type := CONN_TYPE_CONNECT |} s in
    let! sender := bind_socket zmq_ok (detector_name config +:+ "-writer-" +:+ pretty writer_id) ZMQ_PUSH in
    Ret (Some (receiver, sender, Build_det_writer None euid stats [] [] [], s')).
End Main.

(** ** The file holds the images in the order they were written *)

(** The record stored for an image. *)
Definition h5_record (meta : pb_image) : h5_metadata :=
  {| h5_image_id := pb_image_id meta; h5_status := status_value (pb_st meta) |}.

(** A configuration files can be created for: images fit into a block of the file system. *)
Record writer_config (config : DetectorConfig) (size pixel : Z) : Prop := {
  wc_height : 0 < image_pixel_height config < 2 ^ 31;
  wc_width : 0 < image_pixel_width config < 2 ^ 31;
  wc_depth : get_datatype (bit_depth config) = Ret pixel;
  wc_size : converted_image_n_bytes config = Ret size;
  wc_pixels : image_pixel_height config * image_pixel_width config * pixel <= size;
  wc_block : 0 < size <= gpfs_block_size config;
  wc_record : sizeof_h5_metadata <= gpfs_block_size config < 2 ^ 31
}.

Section FileSpec.
Context {ds : Set -> Type} `{HDF5Laws ds}.
Context (config : DetectorConfig) (size pixel : Z) (Hc : writer_config config size pixel).

Let h := image_pixel_height config.
Let w := image_pixel_width config.

(** The open file holds the images [l]: metadata and pixels. *)
Record file_holds (f : HDF5File ds) (path : string) (l : list (pb_image * list Z)) : Prop := {
  fh_name : file_name f = path;
  fh_height : image_height f = h;
  fh_width : image_width f = w;
  fh_depth : image_bit_depth f = bit_depth config;
  fh_size : image_size f = size;
  fh_block : block_size f = gpfs_block_size config;
  fh_id : 0 < file_id f;
  fh_index : index f = zlen l - 1;
  fh_meta : holds (metadata_ds f) [] (h5_record ∘ fst <$> l);
  fh_image : holds (image_ds f) [h; w] (snd <$> l)
}.

(** The pixels [write_image] takes from the slot of an image. *)
Definition slot_pixels (rb : RamBuffer) (mem : list Z) (id : Z) : outcome (list Z) :=
  let! off := get_data rb id in mem_read mem off (h * w * pixel).

Lemma depth_range : 8 <= bit_depth config <= 32 /\ 1 <= pixel <= 4.
Proof using Hc.
  pose proof (wc_depth _ _ _ Hc) as E. unfold get_datatype in E.
  repeat (match type of E with context [?a =? ?b] => destruct (Z.eqb_spec a b) end; [injection E as <-; lia|]).
  done.
Qed.

Lemma HDF5File_new_ret path suffix :
  exists f, HDF5File_new config path suffix = ([path], Ret f) /\ file_holds f path [].
Proof using Hc.
  destruct Hc as [Hh Hw Hd Hs Hp Hb Hr]. pose proof depth_range. unfold HDF5File_new.
  rewrite !u64_small by lia. rewrite Hs. cbn [creates_bind creates_no_file].
  destruct (create_file_ret (gpfs_block_size config) path) as (id & -> & Hid). cbn [creates_bind creates_no_file app].
  unfold h5_do, throw_if. rewrite h5_call_ok by done. cbn [negb].
  destruct (create_metadata_dataset_ret (A := h5_metadata) (gpfs_block_size config) sizeof_h5_metadata)
    as (m & -> & Hm); [unfold sizeof_h5_metadata in *; lia|]. cbn [obind].
  assert (Hq : 0 < gpfs_block_size config / size) by (apply Z.div_str_pos; lia).
  assert (Hpos : Forall (fun n => 0 < n) [gpfs_block_size config / size; image_pixel_height config; image_pixel_width config])
    by (repeat (constructor; [lia|]); constructor).
  unfold create_image_dataset, h5_do, throw_if. rewrite udiv_ret by lia. cbn [obind].
  rewrite !h5_call_ok by done. cbn [negb].
  assert (Hf : (if bool_decide (suffix = "h5bitshuffle-lz4"%string) then Ret tt else Ret tt) = Ret tt)
    by (by destruct (bool_decide _)).
  rewrite Hf. cbn [obind]. rewrite Hd. cbn [obind].
  destruct (create_holds (A := list Z) "data" pixel [image_pixel_height config; image_pixel_width config]
              [gpfs_block_size config / size; image_pixel_height config; image_pixel_width config] Hpos)
    as (d & -> & Hdh & _); [done|]. cbn [h5_try obind].
  eexists. split; [reflexivity|]. by constructor.
Qed.

Lemma write_image_ret f path l mem off px :
  file_holds f path l -> zlen l < 2 ^ 31 -> mem_read mem off (h * w * pixel) = Ret px ->
  exists d, write_image (set_index f (zlen l)) mem off = Ret d /\ holds d [h; w] ((snd <$> l) ++ [px]).
Proof using Hc.
  intros [Hn Hh Hw Hd Hs Hb Hid Hi Hm Himg] Hl Hpx. destruct Hc as [Hh' Hw' Hd' Hs' Hp' Hb' Hr'].
  unfold write_image. cbn [set_index image_ds index block_size image_size image_height image_width image_bit_depth].
  pose proof (zlen_nonneg l). assert (Hlen : zlen (snd <$> l) = zlen l) by (unfold zlen; by rewrite length_fmap).
  pose proof Himg as [(n & Hdn & Hle) _]. rewrite h5_get_dims, Hdn. cbn [h5_try obind].
  change (default 0 (head (n :: [h; w]))) with n. rewrite u64_small by lia. rewrite Hh, Hw, Hb, Hs, Hd.
  assert (Hq : 0 < gpfs_block_size config / size <= gpfs_block_size config)
    by (split; [apply Z.div_str_pos; lia|apply Z.div_le_upper_bound; nia]).
  assert (Hext : exists d1 m, (if n <=? zlen l then
      let! images_per_chunk := udiv (gpfs_block_size config) size in
      h5_try (H5Dset_extent (image_ds f) [u64 (zlen l + images_per_chunk); h; w])
    else Ret (image_ds f)) = Ret d1 /\ holds d1 [h; w] (snd <$> l) /\ h5_dims d1 = [m; h; w] /\ zlen l < m).
  { destruct (Z.leb_spec n (zlen l)); [|exists (image_ds f), n; split_and!; [done..|lia]].
    rewrite udiv_ret by lia. cbn [obind]. rewrite u64_small by lia.
    destruct (set_extent_holds (image_ds f) [h; w] (snd <$> l) (zlen l + gpfs_block_size config / size) Himg)
      as (d1 & -> & Hd1 & Hdim); [lia|]. eexists d1, _. split_and!; [done..|lia]. }
  destruct Hext as (d1 & m & -> & Hd1 & Hm1 & Hlt). cbn [obind]. unfold h5_do, throw_if.
  rewrite h5_call_ok by done. cbn [negb]. rewrite Hd'. cbn [obind]. rewrite Hpx. cbn [obind].
  destruct (write_holds d1 [h; w] (snd <$> l) m px Hd1 Hm1) as (d' & Hw1 & Hd2 & _); [lia|].
  rewrite Hlen in Hw1. simpl in Hw1. rewrite Hw1. by exists d'.
Qed.

Lemma HDF5File_write_ret f path l meta mem off px :
  file_holds f path l -> zlen l < 2 ^ 31 - 1 -> mem_read mem off (h * w * pixel) = Ret px ->
  exists f', HDF5File_write f meta mem off = Ret f' /\ file_holds f' path (l ++ [(meta, px)]).
Proof using Hc.
  intros Hf Hl Hpx. pose proof Hf as [Hn Hh Hw Hd Hs Hb Hid Hi Hm Himg]. unfold HDF5File_write.
  pose proof (zlen_nonneg l). assert (Hlen : zlen (h5_record ∘ fst <$> l) = zlen l) by (unfold zlen; by rewrite length_fmap).
  rewrite Hi. replace (zlen l - 1 + 1) with (zlen l) by lia.
  rewrite i32_ret by (unfold in_i32; lia). cbn [obind].
  destruct (write_image_ret f path l mem off px Hf ltac:(lia) Hpx) as (d & Hwd & Hdh).
  unfold write_meta. cbn [set_index block_size index metadata_ds]. rewrite Hb, <- Hlen.
  destruct (write_meta_record_ret (gpfs_block_size config) sizeof_h5_metadata (metadata_ds f)
              (h5_record ∘ fst <$> l) (h5_record meta)) as (m & Hwm & Hmh);
    [pose proof (wc_record _ _ _ Hc); unfold sizeof_h5_metadata in *; lia..|done|lia|].
  change {| h5_image_id := pb_image_id meta; h5_status := status_value (pb_st meta) |} with (h5_record meta).
  rewrite Hwm. cbn [obind]. rewrite Hlen, Hwd. cbn [obind]. eexists. split; [reflexivity|].
  split; cbn [set_datasets set_index file_name image_height image_width image_bit_depth image_size block_size
              file_id index metadata_ds image_ds]; try done.
  - rewrite zlen_app. change (zlen [(meta, px)]) with 1. lia.
  - by rewrite fmap_app.
  - by rewrite fmap_app.
Qed.

(** A closed file: the images in order, and nothing behind them when there are at least two. *)
Definition closed_holds (c : closed_file ds) (path : string) (l : list (pb_image * list Z)) : Prop :=
  fst c = path /\ holds (fst (snd c)) [] (h5_record ∘ fst <$> l) /\ holds (snd (snd c)) [h; w] (snd <$> l) /\
  (2 <= zlen l -> h5_dims (fst (snd c)) = [zlen l] /\ h5_dims (snd (snd c)) = [zlen l; h; w]).

Lemma HDF5File_delete_holds f path l :
  file_holds f path l -> zlen l < 2 ^ 31 -> closed_holds (HDF5File_delete f) path l.
Proof using Hc.
  intros [Hn Hh Hw Hd Hs Hb Hid Hi Hm Himg] Hl. unfold HDF5File_delete, closed_holds.
  rewrite (proj2 (Z.ltb_lt 0 (file_id f))) by done. rewrite Hi. cbn [andb].
  destruct (Z.ltb_spec 0 (zlen l - 1)); cbn [fst snd]; [|split_and!; [done..|lia]].
  rewrite !u64_small by (rewrite ?u64_small by lia; lia). replace (zlen l - 1 + 1) with (zlen l) by lia.
  destruct (set_extent_holds (metadata_ds f) [] (h5_record ∘ fst <$> l) (zlen l) Hm) as (m & -> & Hm' & Hdm);
    [unfold zlen in *; rewrite length_fmap; lia|].
  rewrite Hh, Hw.
  destruct (set_extent_holds (image_ds f) [h; w] (snd <$> l) (zlen l) Himg) as (d & -> & Hd' & Hdd);
    [unfold zlen in *; rewrite length_fmap; lia|].
  cbn [default]. done.
Qed.
End FileSpec.

(** ** Runs of the writer *)

(** An iteration's input: the RAM buffer and the clock at that time, and the message. *)
Notation writer_input := (list Z * writer_clock * option (Z * writer_action))%type.

Definition det_writer_run {ds} `{HDF5 ds} seteuid config suffix rb (inputs : list writer_input)
  (st : det_writer ds) : outcome (det_writer ds) :=
  foldO (fun st '(mem, clock, msg) => det_writer_step seteuid config suffix rb mem clock msg st) inputs st.

Lemma det_writer_run_app {ds} `{HDF5 ds} seteuid config suffix rb l1 l2 (st : det_writer ds) :
  det_writer_run seteuid config suffix rb (l1 ++ l2) st =
  let! st' := det_writer_run seteuid config suffix rb l1 st in det_writer_run seteuid config suffix rb l2 st'.
Proof. apply foldO_app. Qed.

(** The images an input list records, with the pixels in the RAM buffer at that time. *)
Definition recorded_one (config : DetectorConfig) (pixel : Z) (rb : RamBuffer) (i : writer_input) :
  option (pb_image * list Z) :=
  match i with
  | (mem, _, Some (_, record_image meta)) =>
      match slot_pixels config pixel rb mem (pb_image_id meta) with
      | Ret px => Some (meta, px)
      | _ => None
      end
  | _ => None
  end.

(** A message the writer can process: it fits into the receive buffer, and the slot of the
    image to record can be read. *)
Definition valid_input (config : DetectorConfig) (pixel : Z) (rb : RamBuffer) (i : writer_input) : Prop :=
  match i with
  | (_, _, None) => True
  | (mem, _, Some (n, action)) =>
      0 < n <= 512 /\
      match action with
      | record_image meta => exists px, slot_pixels config pixel rb mem (pb_image_id meta) = Ret px
      | _ => True
      end
  end.

(** The commands of an input list. *)
Definition command (i : writer_input) : option writer_action := snd <$> snd i.

Definition is_record (c : writer_action) : bool := match c with record_image _ => true | _ => false end.

Definition counter_ok {ds} (st : det_writer ds) (n : Z) : Prop :=
  0 <= WriterStats.image_counter (dw_stats st) /\ WriterStats.image_counter (dw_stats st) + n < 2 ^ 31.

Lemma writer_print_counter now (s : WriterStats.WriterStatsCollector) :
  let s' := snd (print_stats now now s) in
  WriterStats.image_counter s' = WriterStats.image_counter s \/ WriterStats.image_counter s' = 0.
Proof.
  unfold print_stats. destruct (_ <? _); [|by left]. right. simpl. unfold WriterStats.message.
  by destruct (WriterStats.calculate_averages s) as [? [? ?]].
Qed.

(** Iterations in terms of the handler of the command. *)
Lemma det_writer_step_action {ds} `{HDF5 ds} seteuid config suffix rb mem clock n action
  (st st1 : det_writer ds) :
  0 < n <= 512 -> on_action seteuid config suffix rb mem clock action st = Ret st1 ->
  exists stats, det_writer_step seteuid config suffix rb mem clock (Some (n, action)) st =
      Ret (Build_det_writer (dw_file st1) (dw_euid st1) stats (dw_sent st1) (dw_disk st1) (dw_created st1)) /\
    (WriterStats.image_counter stats = WriterStats.image_counter (dw_stats st1) \/
     WriterStats.image_counter stats = 0).
Proof.
  intros Hn Ha. unfold det_writer_step. rewrite (proj2 (Z.ltb_lt _ _)), (proj2 (Z.ltb_ge _ _)) by lia.
  rewrite Ha. cbn [obind]. pose proof (writer_print_counter (t_print clock) (dw_stats st1)) as Hp.
  destruct (print_stats _ _ _) as [m stats]. exists stats. by split.
Qed.

Section RunSpec.
Context {ds : Set -> Type} `{HDF5Laws ds}.
Context (config : DetectorConfig) (size pixel : Z) (Hc : writer_config config size pixel).
Context (seteuid : Z -> Z -> bool) (suffix : string) (rb : RamBuffer).

(** Nothing but the file and the statistics differs. *)
Definition same_but_file (st st' : det_writer ds) : Prop :=
  dw_euid st' = dw_euid st /\ dw_sent st' = dw_sent st /\ dw_disk st' = dw_disk st.

Lemma record_step st f path l i k :
  dw_file st = Some f -> file_holds config size f path l -> valid_input config pixel rb i ->
  (forall c, command i = Some c -> is_record c = true) -> zlen l < 2 ^ 31 - 1 -> counter_ok st (k + 1) -> 0 <= k ->
  exists st' f', det_writer_step seteuid config suffix rb (fst (fst i)) (snd (fst i)) (snd i) st = Ret st' /\
    dw_file st' = Some f' /\ same_but_file st st' /\ counter_ok st' k /\
    file_holds config size f' path (l ++ option_list (recorded_one config pixel rb i)).
Proof using Hc.
  intros Hf Hh Hi Hrec Hl [Hc0 Hc1] Hk. destruct i as [[mem clock] [[n action]|]]; cbn [fst snd].
  - specialize (Hrec action eq_refl).
    destruct action as [|p id|meta| |]; try done. destruct Hi as [Hn [px Hpx]]. pose proof Hpx as (off & Hoff & Hrd)%obind_Ret_iff.
    destruct (HDF5File_write_ret config size pixel Hc f path l meta mem off px Hh Hl Hrd) as (f' & Hw & Hh').
    destruct (det_writer_step_action seteuid config suffix rb mem clock n (record_image meta) st
      (Build_det_writer (Some f') (dw_euid st)
         (WriterStats.Build_WriterStatsCollector (WriterStats.base (dw_stats st))
           (WriterStats.image_n_bytes (dw_stats st)) (WriterStats.image_counter (dw_stats st) + 1)
           (u64 (WriterStats.total_bytes (dw_stats st) + WriterStats.image_n_bytes (dw_stats st)))
           (WriterStats.total_buffer_write (dw_stats st) + (t_end clock - t_start clock))
           (Z.max (WriterStats.max_buffer_write (dw_stats st)) (t_end clock - t_start clock))
           (t_start clock) (WriterStats.source (dw_stats st)) (WriterStats.writer_id (dw_stats st)))
         (dw_sent st) (dw_disk st) (dw_created st)) Hn) as (stats & Hs & Hcnt).
    { unfold on_action, on_record_image. rewrite Hoff. cbn [obind]. rewrite Hf, Hw. cbn [obind].
      unfold WriterStats.end_image_write, WriterStats.start_image_write.
      cbn [WriterStats.image_counter WriterStats.writing_start].
      rewrite i32_ret by (unfold in_i32; lia). done. }
    rewrite Hs. eexists _, f'. split_and!; try done.
    + unfold counter_ok. cbn [dw_stats WriterStats.image_counter] in *. lia.
    + unfold recorded_one. rewrite Hpx. done.
  - unfold det_writer_step. cbn [obind]. pose proof (writer_print_counter (t_print clock) (dw_stats st)) as Hp.
    destruct (print_stats _ _ _) as [m stats]. cbn [snd] in Hp. eexists _, f.
    split_and!; try done; [unfold counter_ok; cbn [dw_stats]; lia|].
    cbn [recorded_one option_list]. by rewrite app_nil_r.
Qed.

Lemma record_run inputs : forall st f path l k,
  dw_file st = Some f -> file_holds config size f path l ->
  Forall (valid_input config pixel rb) inputs -> Forall (fun c => is_record c = true) (omap command inputs) ->
  zlen l + zlen inputs < 2 ^ 31 - 1 -> counter_ok st (zlen inputs + k) -> 0 <= k ->
  exists st' f', det_writer_run seteuid config suffix rb inputs st = Ret st' /\
    dw_file st' = Some f' /\ same_but_file st st' /\ counter_ok st' k /\
    file_holds config size f' path (l ++ omap (recorded_one config pixel rb) inputs).
Proof using Hc.
  induction inputs as [|i inputs IH]; intros st f path l k Hf Hh Hi Hrec Hl Hcnt Hk.
  { exists st, f. rewrite app_nil_r. done. }
  apply Forall_cons_1 in Hi as [Hi Hrest]. rewrite zlen_cons in Hl, Hcnt. rewrite omap_cons_eq in Hrec.
  assert (Hone : forall c, command i = Some c -> is_record c = true)
    by (intros c Ec; rewrite Ec in Hrec; by apply Forall_cons_1 in Hrec as [? _]).
  assert (Hrec' : Forall (fun c => is_record c = true) (omap command inputs))
    by (destruct (command i); [by apply Forall_cons_1 in Hrec as [_ ?]|done]).
  pose proof (zlen_nonneg inputs). replace (1 + zlen inputs + k) with (zlen inputs + k + 1) in Hcnt by lia.
  destruct (record_step st f path l i (zlen inputs + k) Hf Hh Hi Hone ltac:(lia) Hcnt ltac:(lia))
    as (st1 & f1 & Hs & Hf1 & (E1 & E2 & E3) & Hcnt1 & Hh1).
  assert (Hlo : zlen (option_list (recorded_one config pixel rb i)) <= 1)
    by (destruct (recorded_one config pixel rb i); done).
  destruct (IH st1 f1 path _ k Hf1 Hh1 Hrest Hrec') as (st' & f' & Hr & Hf' & (E4 & E5 & E6) & Hk' & Hh');
    [rewrite zlen_app; lia|done|done|].
  exists st', f'. split_and!; [|done|split_and!; congruence|done|].
  - unfold det_writer_run in *. destruct i as [[mem clock] msg]. cbn [foldO fst snd] in *. rewrite Hs. done.
  - rewrite <- app_assoc in Hh'. simpl. destruct (recorded_one config pixel rb i); exact Hh'.
Qed.

(** Without commands only the statistics change. *)
Lemma quiet_run inputs : forall st k, omap command inputs = [] -> counter_ok st (zlen inputs + k) -> 0 <= k ->
  exists stats, det_writer_run seteuid config suffix rb inputs st =
      Ret (Build_det_writer (dw_file st) (dw_euid st) stats (dw_sent st) (dw_disk st) (dw_created st)) /\
    0 <= WriterStats.image_counter stats /\ WriterStats.image_counter stats + k < 2 ^ 31.
Proof using Type.
  induction inputs as [|[[mem clock] msg] inputs IH]; intros st k Hq [Hc0 Hc1] Hk.
  { exists (dw_stats st). destruct st. change (zlen []) with 0 in Hc1. split; [done|lia]. }
  rewrite omap_cons_eq in Hq. rewrite zlen_cons in Hc1. pose proof (zlen_nonneg inputs).
  destruct msg as [[n action]|]; [done|]. unfold command in Hq. cbn [snd fmap option_fmap option_map] in Hq.
  assert (Hs : exists stats, det_writer_step seteuid config suffix rb mem clock None st =
      Ret (Build_det_writer (dw_file st) (dw_euid st) stats (dw_sent st) (dw_disk st) (dw_created st)) /\
      0 <= WriterStats.image_counter stats <= WriterStats.image_counter (dw_stats st)).
  { unfold det_writer_step. cbn [obind]. pose proof (writer_print_counter (t_print clock) (dw_stats st)) as Hp.
    destruct (print_stats (t_print clock) (t_print clock) (dw_stats st)) as [m stats]. cbn [snd] in Hp.
    exists stats. split; [done|lia]. }
  destruct Hs as (stats & Hs & Hb). unfold det_writer_run in *. cbn [foldO]. rewrite Hs. cbn [obind].
  destruct (IH (Build_det_writer (dw_file st) (dw_euid st) stats (dw_sent st) (dw_disk st) (dw_created st)) k Hq) as (stats' & Hr & Hs');
    [unfold counter_ok; cbn [dw_stats]; lia|done|]. exists stats'. done.
Qed.

(** A command after a time without commands. *)
Lemma command_run pre mem clock n action st st1 k :
  omap command pre = [] -> 0 < n <= 512 -> counter_ok st (zlen pre + k) -> 0 <= k ->
  (forall stats, on_action seteuid config suffix rb mem clock action
      (Build_det_writer (dw_file st) (dw_euid st) stats (dw_sent st) (dw_disk st) (dw_created st)) =
    Ret (Build_det_writer (dw_file st1) (dw_euid st1) stats (dw_sent st1) (dw_disk st1) (dw_created st1))) ->
  exists stats, det_writer_run seteuid config suffix rb (pre ++ [(mem, clock, Some (n, action))]) st =
      Ret (Build_det_writer (dw_file st1) (dw_euid st1) stats (dw_sent st1) (dw_disk st1) (dw_created st1)) /\
    0 <= WriterStats.image_counter stats /\ WriterStats.image_counter stats + k < 2 ^ 31.
Proof using Type.
  intros Hpre Hn Hcnt Hk Ha. unfold det_writer_run. rewrite foldO_app.
  destruct (quiet_run pre st k Hpre Hcnt Hk) as (stats0 & Hq & Hs0 & Hs1). unfold det_writer_run in Hq. rewrite Hq.
  cbn [obind foldO].
  destruct (det_writer_step_action seteuid config suffix rb mem clock n action _ _ Hn (Ha stats0))
    as (stats & -> & Hcnt'). cbn [dw_stats] in Hcnt'. exists stats. split; [done|]. lia.
Qed.
End RunSpec.

Lemma recorded_metas config pixel rb inputs metas :
  Forall (valid_input config pixel rb) inputs -> omap command inputs = record_image <$> metas ->
  fst <$> omap (recorded_one config pixel rb) inputs = metas.
Proof.
  intros Hv. revert metas. induction Hv as [|[[mem clock] [[n action]|]] inputs Hi _ IH]; intros metas E.
  - by destruct metas.
  - rewrite omap_cons_eq in E. unfold command in E. cbn [snd fmap option_fmap option_map] in E.
    destruct metas as [|meta metas]; [done|]. injection E as -> E. destruct Hi as [_ [px Hpx]].
    rewrite omap_cons_eq. cbn [recorded_one]. rewrite Hpx. cbn [fmap list_fmap fst]. f_equal. by apply IH.
  - rewrite omap_cons_eq. cbn [recorded_one]. by apply IH.
Qed.

Lemma recorded_app config pixel rb l1 i l2 :
  command i = None \/ (exists c, command i = Some c /\ is_record c = false) ->
  omap (recorded_one config pixel rb) (l1 ++ i :: l2) =
  omap (recorded_one config pixel rb) l1 ++ omap (recorded_one config pixel rb) l2.
Proof.
  intros Hi. rewrite omap_app, omap_cons_eq. destruct i as [[mem clock] [[n action]|]]; [|done].
  destruct Hi as [?|(c & [= <-] & Hc)]; [done|]. by destruct action.
Qed.

Lemma recorded_quiet config pixel rb l : omap command l = [] -> omap (recorded_one config pixel rb) l = [].
Proof.
  intros Hl%omap_nil_inv. induction Hl as [|[[mem clock] [[n action]|]] l Hi _ IH]; [done..|].
  rewrite omap_cons_eq. exact IH.
Qed.

(** A command sequence of one file, with the inputs that carry its commands. *)
Record file_run config pixel rb path id metas (pre : list writer_input) m1 c1 n1 mid m2 c2 n2 quiet m3 c3 n3 post
  (inputs : list writer_input) : Prop := {
  fr_inputs : inputs = (pre ++ [(m1, c1, Some (n1, create_file_cmd path id))]) ++ mid ++
                       ([] ++ [(m2, c2, Some (n2, confirm_last_image))]) ++
                       (quiet ++ [(m3, c3, Some (n3, close_file))]) ++ post;
  fr_pre : omap command pre = [];
  fr_quiet : omap command quiet = [];
  fr_post : omap command post = [];
  fr_mid : omap command mid = record_image <$> metas;
  fr_valid : Forall (valid_input config pixel rb) mid;
  fr_sizes : 0 < n1 <= 512 /\ 0 < n2 <= 512 /\ 0 < n3 <= 512;
  fr_recorded : omap (recorded_one config pixel rb) inputs = omap (recorded_one config pixel rb) mid
}.

Lemma command_inv i c : command i = Some c -> exists mem clock n, i = (mem, clock, Some (n, c)).
Proof. destruct i as [[mem clock] [[n a]|]]; [|done]. intros [= ->]. eauto. Qed.

Lemma run_shape config pixel rb path id metas inputs :
  Forall (valid_input config pixel rb) inputs ->
  omap command inputs = create_file_cmd path id :: (record_image <$> metas) ++ [confirm_last_image; close_file] ->
  exists pre m1 c1 n1 mid m2 c2 n2 quiet m3 c3 n3 post,
    file_run config pixel rb path id metas pre m1 c1 n1 mid m2 c2 n2 quiet m3 c3 n3 post inputs.
Proof.
  intros Hv (pre & i1 & rest & -> & Hpre & (m1 & c1 & n1 & ->)%command_inv & Hrest)%(omap_split command inputs []).
  apply omap_split in Hrest as (mid & i2 & rest2 & -> & Hmid & (m2 & c2 & n2 & ->)%command_inv & Hrest2).
  apply (omap_split command rest2 []) in Hrest2 as (quiet & i3 & post & -> & Hq & (m3 & c3 & n3 & ->)%command_inv & Hpost).
  exists pre, m1, c1, n1, mid, m2, c2, n2, quiet, m3, c3, n3, post.
  apply Forall_app in Hv as [_ Hv]. apply Forall_cons_1 in Hv as [[Hn1 _] Hv].
  apply Forall_app in Hv as [Hvm Hv]. apply Forall_cons_1 in Hv as [[Hn2 _] Hv].
  apply Forall_app in Hv as [_ Hv]. apply Forall_cons_1 in Hv as [[Hn3 _] _].
  split; try done.
  - rewrite <- !app_assoc. done.
  - rewrite recorded_app by (right; by eexists). rewrite (recorded_quiet config pixel rb pre Hpre).
    rewrite !recorded_app by (right; by eexists). rewrite (recorded_quiet config pixel rb quiet Hq).
    rewrite (recorded_quiet config pixel rb post Hpost), !app_nil_r. done.
Qed.

Section Phases.
Context {ds : Set -> Type} `{HDF5Laws ds}.
Context (config : DetectorConfig) (size pixel : Z) (Hc : writer_config config size pixel).
Context (seteuid : Z -> Z -> bool) (suffix : string) (rb : RamBuffer).

(** The creation of a file for a user the process may switch to. *)
Lemma create_action mem clock path id st :
  (switch_user_active config = true -> u32 id <> root_user_id -> seteuid (dw_euid st) (u32 id) = true) ->
  exists f euid, file_holds config size f path [] /\
    forall stats, on_action seteuid config suffix rb mem clock (create_file_cmd path id)
      (Build_det_writer (dw_file st) (dw_euid st) stats (dw_sent st) (dw_disk st) (dw_created st)) =
    Ret (Build_det_writer (Some f) euid stats (dw_sent st ++ [SUCCESS]) (dw_disk st ++ release (dw_file st))
           (dw_created st ++ [path])).
Proof using Hc.
  intros Hsw. destruct (HDF5File_new_ret config size pixel Hc path suffix) as (f & Hnew & Hh). exists f.
  unfold on_action, on_create_file, switch_writer_user, switch_user. cbn [dw_euid dw_file dw_sent dw_disk dw_created dw_stats].
  destruct (Z.eqb_spec (u32 id) root_user_id); [|destruct (switch_user_active config)];
    rewrite ?Hsw, Hnew by done; eauto.
Qed.

(** The confirmation and the end of a file. *)
Lemma finish_run st f path l m2 c2 n2 quiet m3 c3 n3 post :
  dw_file st = Some f -> file_holds config size f path l -> zlen l < 2 ^ 31 ->
  omap command quiet = [] -> omap command post = [] -> 0 < n2 <= 512 -> 0 < n3 <= 512 ->
  counter_ok st (zlen quiet + (zlen post + 0)) ->
  exists st' file, det_writer_run seteuid config suffix rb
      (([] ++ [(m2, c2, Some (n2, confirm_last_image))]) ++ (quiet ++ [(m3, c3, Some (n3, close_file))]) ++ post) st =
      Ret st' /\
    dw_file st' = None /\ dw_sent st' = dw_sent st ++ [SUCCESS; SUCCESS] /\ dw_disk st' = dw_disk st ++ [file] /\
    closed_holds config file path l.
Proof using Hc.
  intros Hf Hh Hl Hq Hpost Hn2 Hn3 [Hk0 Hk1]. pose proof (zlen_nonneg quiet). pose proof (zlen_nonneg post).
  rewrite det_writer_run_app.
  destruct (command_run config seteuid suffix rb [] m2 c2 n2 confirm_last_image st
    (Build_det_writer (dw_file st) (dw_euid st) (dw_stats st) (dw_sent st ++ [SUCCESS]) (dw_disk st) (dw_created st))
    (zlen quiet + (zlen post + 0)) eq_refl Hn2) as (stats2 & -> & Hs2);
    [unfold counter_ok; change (zlen (@nil writer_input)) with 0; lia|lia|done|].
  cbn [obind dw_file dw_euid dw_sent dw_disk dw_created]. rewrite det_writer_run_app.
  set (st2 := Build_det_writer (dw_file st) (dw_euid st) stats2 (dw_sent st ++ [SUCCESS]) (dw_disk st) (dw_created st)).
  destruct (command_run config seteuid suffix rb quiet m3 c3 n3 close_file st2 (on_close_file seteuid config st2)
    (zlen post + 0) Hq Hn3) as (stats3 & -> & Hs3).
  { unfold counter_ok, st2. cbn [dw_stats]. lia. }
  { lia. }
  { intros stats. unfold on_action, on_close_file, st2. cbn [dw_euid dw_file dw_sent dw_disk dw_created dw_stats].
    by destruct (switch_user _ _ _ _). }
  cbn [obind].
  match goal with |- context [det_writer_run _ _ _ _ post ?s] =>
    destruct (quiet_run config seteuid suffix rb post s 0 Hpost) as (stats4 & -> & _) end;
    [unfold counter_ok; cbn [dw_stats]; lia|lia|].
  eexists _, (HDF5File_delete f). split; [reflexivity|]. cbn [dw_file dw_sent dw_disk dw_created].
  unfold on_close_file, st2. cbn [dw_file dw_euid dw_sent dw_disk dw_created dw_stats].
  destruct (switch_user _ _ _ _) as [b e]. cbn [dw_file dw_sent dw_disk dw_created] in *. rewrite Hf, <- !app_assoc.
  split_and!; try done. by apply (HDF5File_delete_holds config size pixel Hc f path).
Qed.
End Phases.

Lemma writer_file_lemma {ds} `{HDF5Laws ds} config size pixel seteuid suffix rb path id metas inputs
  (st : det_writer ds) :
  writer_config config size pixel ->
  (switch_user_active config = true -> u32 id <> root_user_id -> seteuid (dw_euid st) (u32 id) = true) ->
  Forall (valid_input config pixel rb) inputs ->
  omap command inputs = create_file_cmd path id :: (record_image <$> metas) ++ [confirm_last_image; close_file] ->
  zlen inputs < 2 ^ 31 - 1 -> counter_ok st (zlen inputs) ->
  exists st' file, det_writer_run seteuid config suffix rb inputs st = Ret st' /\
    dw_file st' = None /\ dw_sent st' = dw_sent st ++ [SUCCESS; SUCCESS; SUCCESS] /\
    dw_disk st' = dw_disk st ++ release (dw_file st) ++ [file] /\
    closed_holds config file path (omap (recorded_one config pixel rb) inputs) /\
    fst <$> omap (recorded_one config pixel rb) inputs = metas.
Proof.
  intros Hc Hsw Hv Hcmd Hlen Hcnt.
  destruct (run_shape config pixel rb path id metas inputs Hv Hcmd)
    as (pre & m1 & c1 & n1 & mid & m2 & c2 & n2 & quiet & m3 & c3 & n3 & post & Hrun).
  destruct Hrun as [-> Hpre Hq Hpost Hmid Hvm (Hn1 & Hn2 & Hn3) Hrec]. rewrite Hrec.
  destruct Hcnt as [Hc0 Hc1]. rewrite !zlen_app in Hlen, Hc1. unfold zlen at 2 4 5 7 in Hlen.
  unfold zlen at 2 4 5 7 in Hc1. cbn [length] in Hlen, Hc1.
  pose proof (zlen_nonneg pre). pose proof (zlen_nonneg mid). pose proof (zlen_nonneg quiet). pose proof (zlen_nonneg post).
  rewrite det_writer_run_app.
  destruct (create_action config size pixel Hc seteuid suffix rb m1 c1 path id st Hsw) as (f0 & euid & Hh0 & Hcreate).
  destruct (command_run config seteuid suffix rb pre m1 c1 n1 (create_file_cmd path id) st
    (Build_det_writer (Some f0) euid (dw_stats st) (dw_sent st ++ [SUCCESS]) (dw_disk st ++ release (dw_file st))
      (dw_created st ++ [path]))
    (zlen mid + (zlen quiet + (zlen post + 0))) Hpre Hn1 ltac:(split; lia) ltac:(lia) Hcreate) as (stats1 & -> & Hs1). cbn [obind dw_file dw_euid dw_sent dw_disk dw_created].
  rewrite det_writer_run_app.
  destruct (record_run config size pixel Hc seteuid suffix rb mid
    (Build_det_writer (Some f0) euid stats1 (dw_sent st ++ [SUCCESS]) (dw_disk st ++ release (dw_file st))
      (dw_created st ++ [path]))
    f0 path [] (zlen quiet + (zlen post + 0)) eq_refl Hh0 Hvm) as (st1 & f1 & -> & Hf1 & (E1 & E2 & E3) & [Hk0 Hk1] & Hh1).
  { rewrite Hmid. apply Forall_fmap, list.Forall_forall. done. }
  { change (zlen []) with 0. lia. }
  { unfold counter_ok. cbn [dw_stats]. lia. }
  { lia. }
  cbn [obind]. pose proof (zlen_omap (recorded_one config pixel rb) mid).
  destruct (finish_run config size pixel Hc seteuid suffix rb st1 f1 path _ m2 c2 n2 quiet m3 c3 n3 post Hf1 Hh1)
    as (st' & file & Hr & Hf' & Hs' & Hd' & Hclosed); [rewrite app_nil_l; lia|done..|].
  exists st', file. cbn [dw_sent dw_disk dw_created] in E2, E3. rewrite Hs', Hd', E2, E3. split; [done|].
  rewrite <- !app_assoc. split_and!; try done. by apply (recorded_metas config pixel rb mid metas).
Qed.


(** An instance: 2x2 images of 16 bit, eight of them in a block, a ring of three slots. *)
Definition demo_writer : DetectorConfig :=
  {| detector_name := "EG"; detector_type := "eiger"; n_modules := 1; bit_depth := 16;
     image_pixel_height := 2; image_pixel_width := 2; start_udp_port := 50000; log_level := "info";
     stats_collection_period := 10; max_number_of_forwarders_spawned := 1; use_all_forwarders := false;
     gpfs_block_size := 64; sender_sends_full_images := false; module_sync_queue_size := 1;
     number_of_writers := 2; ram_buffer_gb := 0; delay_filter_timeout := 0; switch_user_active := true;
     ls_configs := ∅; modules := ∅ |}.

Definition demo_writer_ring : RamBuffer :=
  {| buffer_name_ := "EG-image"; n_slots_ := 3; data_bytes_ := 8; buffer_bytes_ := 24; shm_fd_ := 0 |}.

Definition demo_writer_meta (id : Z) : pb_image :=
  {| pb_image_id := id; pb_height := 2; pb_width := 2; pb_size := 8; pb_dt := dt_uint16;
     pb_st := st_good_image; pb_cp := cp_none; pb_det := dm_not_set |}.

(** The ring filled with one value, which tells the memories of different times apart. *)
Definition demo_mem (v : Z) : list Z := replicate 24 v.

Definition demo_clock : writer_clock := {| t_start := 0; t_end := 5; t_print := 7 |}.

Definition demo_writer_state : det_writer mem_ds :=
  Build_det_writer None 0 (WriterStats.new "EG" "image" 10 8 0 0) [] [] [].

(** A process that may switch to any user from root, and to its own user and back. *)
Definition posix_seteuid (euid id : Z) : bool := (euid =? 0) || (id =? euid) || (id =? 0).

Lemma demo_writer_config : writer_config demo_writer 8 2.
Proof. by split. Qed.

Definition demo_writer_inputs : list writer_input :=
  [(demo_mem 0, demo_clock, None); (demo_mem 0, demo_clock, Some (20, create_file_cmd "/data/run0.h5" 1000));
   (demo_mem 1, demo_clock, Some (40, record_image (demo_writer_meta 7))); (demo_mem 1, demo_clock, None);
   (demo_mem 2, demo_clock, Some (40, record_image (demo_writer_meta 9)));
   (demo_mem 3, demo_clock, Some (2, confirm_last_image)); (demo_mem 3, demo_clock, Some (2, close_file))].

Lemma demo_writer_valid : Forall (valid_input demo_writer 2 demo_writer_ring) demo_writer_inputs.
Proof.
  repeat (apply Forall_cons_2; [first [exact I|split; [lia|first [exact I|eexists; vm_compute; reflexivity]]]|]).
  constructor.
Qed.


(** ** Errors *)

(** C40: a file of a configuration whose images do not fit into a block of the file system (but a
    metadata record does) cannot be created: [H5Fcreate] itself succeeds ([HDF5Laws]; the path is not that of a
    file that is open), and the constructor throws behind it.  When the command fits the 512 bytes of the buffer and
    the user of the request was switched to, the writer answers with FAILURE, keeps the file it
    had open, closes nothing, and goes on; but the file under the requested path is on disk,
    created or emptied if there was one, and it is the only one. *)
Theorem writer_create_failure {ds} `{HDF5Laws ds} config size seteuid suffix rb mem clock n path id
  (st : det_writer ds) :
  converted_image_n_bytes config = Ret size -> 0 <= gpfs_block_size config < size ->
  sizeof_h5_metadata <= gpfs_block_size config < 2 ^ 31 -> 0 < n <= 512 ->
  fst (switch_writer_user seteuid (switch_user_active config) (dw_euid st) (u32 id)) = true ->
  exists st', det_writer_step seteuid config suffix rb mem clock (Some (n, create_file_cmd path id)) st = Ret st' /\
    dw_sent st' = dw_sent st ++ [FAILURE] /\ dw_file st' = dw_file st /\ dw_disk st' = dw_disk st /\
    dw_created st' = dw_created st ++ [path].
Proof.
  intros Hs Hb Hr Hn Hsw.
  assert (Hnew : HDF5File_new (ds := ds) config path suffix = ([path], Throw runtime_error)).
  { unfold HDF5File_new. rewrite Hs. cbn [creates_bind creates_no_file]. rewrite (u64_small (gpfs_block_size config)) by lia.
    destruct (create_file_ret (gpfs_block_size config) path) as (fid & -> & _). cbn [creates_bind creates_no_file app].
    unfold h5_do, throw_if. rewrite h5_call_ok by done. cbn [negb].
    destruct (create_metadata_dataset_ret (A := h5_metadata) (gpfs_block_size config) sizeof_h5_metadata)
      as (m & -> & _); [unfold sizeof_h5_metadata in *; lia|]. cbn [obind].
    unfold create_image_dataset, h5_do, throw_if. rewrite h5_call_ok by done. cbn [negb].
    rewrite udiv_ret by lia. cbn [obind]. rewrite (Z.div_small _ _ Hb), h5_chunk_zero by set_solver. done. }
  destruct (switch_writer_user seteuid (switch_user_active config) (dw_euid st) (u32 id)) as [b euid] eqn:E.
  cbn [fst] in Hsw. subst b.
  destruct (det_writer_step_action seteuid config suffix rb mem clock n (create_file_cmd path id) st
    (Build_det_writer (dw_file st) euid (dw_stats st) (dw_sent st ++ [FAILURE]) (dw_disk st)
      (dw_created st ++ [path])) Hn)
    as (stats & -> & _); [unfold on_action, on_create_file; by rewrite E, Hnew|].
  eexists. split; [reflexivity|]. by split_and!.
Qed.

Definition demo_small_block : DetectorConfig :=
  {| detector_name := "EG"; detector_type := "eiger"; n_modules := 1; bit_depth := 16;
     image_pixel_height := 4; image_pixel_width := 4; start_udp_port := 50000; log_level := "info";
     stats_collection_period := 10; max_number_of_forwarders_spawned := 1; use_all_forwarders := false;
     gpfs_block_size := 16; sender_sends_full_images := false; module_sync_queue_size := 1;
     number_of_writers := 2; ram_buffer_gb := 0; delay_filter_timeout := 0; switch_user_active := true;
     ls_configs := ∅; modules := ∅ |}.

Lemma writer_create_failure_witness :
  exists st', det_writer_step posix_seteuid demo_small_block "image" demo_writer_ring (demo_mem 0) demo_clock
      (Some (20, create_file_cmd "/data/a.h5" 1000)) demo_writer_state = Ret st' /\
    dw_sent st' = [] ++ [FAILURE] /\ dw_file st' = None /\ dw_disk st' = [] /\
    dw_created st' = [] ++ ["/data/a.h5"%string].
Proof.
  apply (writer_create_failure demo_small_block 32 posix_seteuid "image" demo_writer_ring (demo_mem 0)
    demo_clock 20 "/data/a.h5" 1000 demo_writer_state).
  - reflexivity.
  - simpl; lia.
  - unfold sizeof_h5_metadata; simpl; lia.
  - lia.
  - reflexivity.
Defined.

(** A failed creation leaves the process with the user of the request: a creation for another
    user is then not even answered, until a file is closed. *)
Lemma failed_create_keeps_user :
  match det_writer_run posix_seteuid demo_small_block "image" demo_writer_ring
      [(demo_mem 0, demo_clock, Some (20, create_file_cmd "/data/a.h5" 1000))] demo_writer_state with
  | Ret st1 =>
      dw_sent st1 = [FAILURE] /\ dw_euid st1 = 1000 /\
      match det_writer_run posix_seteuid demo_writer "image" demo_writer_ring
          [(demo_mem 0, demo_clock, Some (20, create_file_cmd "/data/b.h5" 2000))] st1 with
      | Ret st2 => dw_sent st2 = [FAILURE]
      | _ => False
      end
  | _ => False
  end.
Proof. vm_compute. repeat split. Qed.

(** A file with a single image keeps the rows reserved for it: the extents are reduced only
    when [index > 0]. *)
Lemma single_image_not_trimmed :
  match det_writer_run posix_seteuid demo_writer "image" demo_writer_ring
      [(demo_mem 0, demo_clock, Some (20, create_file_cmd "/data/a.h5" 0));
       (demo_mem 1, demo_clock, Some (40, record_image (demo_writer_meta 7)));
       (demo_mem 1, demo_clock, Some (2, close_file))] demo_writer_state with
  | Ret st => (fun c => (md_dims (fst (snd c)), md_dims (snd (snd c)))) <$> dw_disk st = [([4], [8; 2; 2])]
  | _ => False
  end.
Proof. vm_compute. reflexivity. Qed.
