(* ===== verification/MetaWriter.v ===== *)
(** * std-det-meta-writer-gf

    [src/source/std-det-meta-writer/std-det-meta-writer-gf/src]: [hdf5_file.cpp] and [main.cpp].
    The writer of the GigaFRoST metadata obeys the same commands as the image writers and gets
    every image; its file has one record per image.  Other than there, an error while the file
    is created is not caught, and the user is always switched. *)

From S2P Require Import Prelude Protocol Stats Config RamBuffer Sockets Hdf5 DetWriter.

Record h5_gf_metadata : Set := {
  h5g_image_id : Z;
  h5g_scan_id : Z;
  h5g_scan_time : Z;
  h5g_sync_time : Z;
  h5g_frame_timestamp : Z;
  h5g_exposure_time : Z
}.

Definition sizeof_h5_gf_metadata : Z := 40.

(** [meta.gf()]: the default instance when the metadata is of another detector. *)
Definition gf_of (meta : pb_image) : GFImageMetadata :=
  match pb_det meta with dm_gf m => m | _ => gf_default end.

Definition h5_gf_record (meta : pb_image) : h5_gf_metadata :=
  let g := gf_of meta in
  {| h5g_image_id := pb_image_id meta; h5g_scan_id := gf_scan_id g; h5g_scan_time := gf_scan_time g;
     h5g_sync_time := gf_sync_time g; h5g_frame_timestamp := gf_frame_timestamp g;
     h5g_exposure_time := gf_exposure_time g |}.

(** *** The type of the records *)

(** [create_compound_metadata_structure]: name, offset and size of every member. *)
Definition create_compound_metadata_structure : list (string * Z * Z) :=
  [("image_id", 0, 8); ("scan_id", 8, 8); ("scan_time", 16, 4); ("sync_time", 20, 4); ("frame_timestamp", 24, 8);
   ("exposure_time", 32, 8)]%string.

(** The bytes of [h5_metadata] in memory: every field is at a multiple of its size without padding. *)
Definition h5_gf_bytes (r : h5_gf_metadata) : list Z :=
  le_encode 8 (h5g_image_id r) ++ le_encode 8 (h5g_scan_id r) ++ le_encode 4 (h5g_scan_time r) ++ le_encode 4 (h5g_sync_time r) ++
  le_encode 8 (h5g_frame_timestamp r) ++ le_encode 8 (h5g_exposure_time r).

(** What HDF5 takes for the member at [off] with [n] bytes. *)
Definition h5_member (bs : list Z) (off n : Z) : outcome Z := omap_out le_decode (mem_read bs off n).

Definition h5_gf_typed (r : h5_gf_metadata) : Prop :=
  in_u 64 (h5g_image_id r) /\ in_u 64 (h5g_scan_id r) /\ in_u 32 (h5g_scan_time r) /\ in_u 32 (h5g_sync_time r) /\
  in_u 64 (h5g_frame_timestamp r) /\ in_u 64 (h5g_exposure_time r).

Lemma member_read pre x n post off : off = zlen pre -> 0 <= x < 2 ^ (8 * Z.of_nat n) ->
  h5_member (pre ++ le_encode n x ++ post) off (Z.of_nat n) = Ret x.
Proof.
  intros -> Hx. unfold h5_member. pose proof (zlen_nonneg pre). pose proof (zlen_nonneg post).
  assert (Hz : zlen (le_encode n x) = Z.of_nat n) by (unfold zlen; by rewrite length_le_encode).
  rewrite mem_read_ret by (rewrite ?zlen_app; lia). unfold zlen. rewrite !Nat2Z.id, drop_app_length.
  rewrite <- (length_le_encode n x) at 1. rewrite take_app_length. cbn. by rewrite le_decode_encode.
Qed.

(** The members of the type name the fields of the record, each with its value. *)
Lemma compound_members_read r : h5_gf_typed r ->
  zlen (h5_gf_bytes r) = sizeof_h5_gf_metadata /\
  (fun '(name, off, n) => (name, h5_member (h5_gf_bytes r) off n)) <$> create_compound_metadata_structure =
    [("image_id", Ret (h5g_image_id r)); ("scan_id", Ret (h5g_scan_id r)); ("scan_time", Ret (h5g_scan_time r));
     ("sync_time", Ret (h5g_sync_time r)); ("frame_timestamp", Ret (h5g_frame_timestamp r)); ("exposure_time", Ret (h5g_exposure_time r))]%string.
Proof.
  intros (H1 & H2 & H3 & H4 & H5 & H6). unfold in_u in *.
  assert (Hz : forall n x, zlen (le_encode n x) = Z.of_nat n) by (intros; unfold zlen; by rewrite length_le_encode).
  split; [unfold h5_gf_bytes; rewrite !zlen_app, !Hz; reflexivity|].
  set (b1 := le_encode 8 (h5g_image_id r)). set (b2 := le_encode 8 (h5g_scan_id r)). set (b3 := le_encode 4 (h5g_scan_time r)).
  set (b4 := le_encode 4 (h5g_sync_time r)). set (b5 := le_encode 8 (h5g_frame_timestamp r)). set (b6 := le_encode 8 (h5g_exposure_time r)).
  assert (E2 : h5_gf_bytes r = b1 ++ b2 ++ b3 ++ b4 ++ b5 ++ b6) by done.
  assert (E3 : h5_gf_bytes r = (b1 ++ b2) ++ b3 ++ b4 ++ b5 ++ b6) by (by rewrite E2, <- !app_assoc).
  assert (E4 : h5_gf_bytes r = (b1 ++ b2 ++ b3) ++ b4 ++ b5 ++ b6) by (by rewrite E2, <- !app_assoc).
  assert (E5 : h5_gf_bytes r = (b1 ++ b2 ++ b3 ++ b4) ++ b5 ++ b6) by (by rewrite E2, <- !app_assoc).
  assert (E6 : h5_gf_bytes r = (b1 ++ b2 ++ b3 ++ b4 ++ b5) ++ b6 ++ []) by (by rewrite E2, app_nil_r, <- !app_assoc).
  assert (M1 : h5_member (h5_gf_bytes r) 0 8 = Ret (h5g_image_id r)) by (rewrite E2; by apply (member_read [] _ 8)).
  assert (M2 : h5_member (h5_gf_bytes r) 8 8 = Ret (h5g_scan_id r)) by (rewrite E2; by apply (member_read b1 _ 8)).
  assert (M3 : h5_member (h5_gf_bytes r) 16 4 = Ret (h5g_scan_time r)) by (rewrite E3; by apply (member_read _ _ 4)).
  assert (M4 : h5_member (h5_gf_bytes r) 20 4 = Ret (h5g_sync_time r)) by (rewrite E4; by apply (member_read _ _ 4)).
  assert (M5 : h5_member (h5_gf_bytes r) 24 8 = Ret (h5g_frame_timestamp r)) by (rewrite E5; by apply (member_read _ _ 8)).
  assert (M6 : h5_member (h5_gf_bytes r) 32 8 = Ret (h5g_exposure_time r)) by (rewrite E6; by apply (member_read _ _ 8)).
  unfold create_compound_metadata_structure. cbn [fmap list_fmap]. by rewrite M1, M2, M3, M4, M5, M6.
Qed.

(** ** hdf5_file.cpp *)

Record MetaFile (ds : Set -> Type) : Type := {
  mf_name : string;
  mf_block_size : Z;
  mf_index : Z;
  mf_file_id : Z;
  mf_ds : ds h5_gf_metadata
}.
Arguments mf_name {ds} _.
Arguments mf_block_size {ds} _.
Arguments mf_index {ds} _.
Arguments mf_file_id {ds} _.
Arguments mf_ds {ds} _.
Arguments Build_MetaFile {ds} _ _ _ _ _.

Section MetaFileOps.
Context {ds : Set -> Type} `{HDF5 ds}.

Definition MetaFile_create_file (block : Z) (filename : string) : creates Z := create_file block filename.

Definition MetaFile_create_metadata_dataset (block : Z) : outcome (ds h5_gf_metadata) :=
  create_metadata_dataset block sizeof_h5_gf_metadata.

Definition MetaFile_create_datasets (block : Z) (detector_name : string) : outcome (ds h5_gf_metadata) :=
  h5_do (H5Gcreate detector_name) (MetaFile_create_metadata_dataset block).

Definition MetaFile_new (config : DetectorConfig) (filename : string) : creates (MetaFile ds) :=
  let block := u64 (gpfs_block_size config) in
  creates_bind (MetaFile_create_file block filename) (fun id => creates_no_file
   (let! meta := MetaFile_create_datasets block (detector_name config) in
    Ret (Build_MetaFile filename block (-1) id meta))).

Definition MetaFile_delete (f : MetaFile ds) : string * ds h5_gf_metadata :=
  (mf_name f,
   if (0 <? mf_file_id f) && (0 <? mf_index f) then
     default (mf_ds f) (H5Dset_extent (mf_ds f) [u64 (u64 (mf_index f) + 1)])
   else mf_ds f).

Definition MetaFile_write (f : MetaFile ds) (meta : pb_image) : outcome (MetaFile ds) :=
  let! i := i32 (mf_index f + 1) in
  let! d := write_meta_record (mf_block_size f) sizeof_h5_gf_metadata i (mf_ds f) (h5_gf_record meta) in
  Ret (Build_MetaFile (mf_name f) (mf_block_size f) i (mf_file_id f) d).
End MetaFileOps.

(** ** main.cpp *)

Record meta_writer (ds : Set -> Type) : Type := {
  mw_file : option (MetaFile ds);
  mw_euid : Z;
  mw_stats : TimedStatsCollector;
  mw_sent : list response_code;
  mw_disk : list (string * ds h5_gf_metadata);
  mw_created : list string
}.
Arguments mw_file {ds} _.
Arguments mw_euid {ds} _.
Arguments mw_stats {ds} _.
Arguments mw_sent {ds} _.
Arguments mw_disk {ds} _.
Arguments mw_created {ds} _.
Arguments Build_meta_writer {ds} _ _ _ _ _ _.

(** Errors of [MetaFile_new] end the process, which leaves the file it created behind. *)
Section MetaMain.
Context {ds : Set -> Type} `{HDF5 ds}.
Variable (seteuid : Z -> Z -> bool).

Definition meta_release (f : option (MetaFile ds)) : list (string * ds h5_gf_metadata) :=
  match f with Some f => [MetaFile_delete f] | None => [] end.

Definition meta_on_action (config : DetectorConfig) (action : writer_action) (st : meta_writer ds) :
  outcome (meta_writer ds) :=
  match action with
  | create_file_cmd path id =>
      let (switched, euid) := switch_writer_user seteuid true (mw_euid st) (u32 id) in
      if switched then
        let (created, file) := MetaFile_new config path in
        let! f := file in
        Ret (Build_meta_writer (Some f) euid (mw_stats st) (mw_sent st ++ [SUCCESS])
               (mw_disk st ++ meta_release (mw_file st)) (mw_created st ++ created))
      else Ret (Build_meta_writer (mw_file st) euid (mw_stats st) (mw_sent st) (mw_disk st) (mw_created st))
  | record_image meta =>
      match mw_file st with
      | None => Undef null_deref
      | Some f =>
          let! f' := MetaFile_write f meta in
          Ret (Build_meta_writer (Some f') (mw_euid st) (timed_process (mw_stats st)) (mw_sent st) (mw_disk st) (mw_created st))
      end
  | close_file =>
      let (_, euid) := switch_user seteuid true (mw_euid st) root_user_id in
      Ret (Build_meta_writer None euid (mw_stats st) (mw_sent st ++ [SUCCESS])
             (mw_disk st ++ meta_release (mw_file st)) (mw_created st))
  | confirm_last_image =>
      Ret (Build_meta_writer (mw_file st) (mw_euid st) (mw_stats st) (mw_sent st ++ [SUCCESS]) (mw_disk st) (mw_created st))
  | action_not_set => Ret st
  end.

Definition meta_writer_step (config : DetectorConfig) (now : Z) (msg : option (Z * writer_action))
  (st : meta_writer ds) : outcome (meta_writer ds) :=
  let! st1 :=
    match msg with
    | Some (n_bytes, action) =>
        if 0 <? n_bytes then
          if 512 <? n_bytes then Undef out_of_bounds else meta_on_action config action st
        else Ret st
    | None => Ret st
    end in
  let (_, stats) := print_stats now now (mw_stats st1) in
  Ret (Build_meta_writer (mw_file st1) (mw_euid st1) stats (mw_sent st1) (mw_disk st1) (mw_created st1)).

(** What [main] sets up; the RAM buffer is opened but not used. *)
Definition meta_writer_main (config : DetectorConfig) (os : syscalls) (zmq_ok : zmq_call -> bool)
  (now euid : Z) (s : shm) : outcome (Communicator * zmq_sock * meta_writer ds * shm) :=
  let stats := TimedStatsCollector_new (detector_name config) (stats_collection_period config) "" now in
  let! image_n_bytes := converted_image_n_bytes config in
  let! n_slots := slots_number config in
  let! '(receiver, s') :=
    Communicator_new os
      {| rbc_buffer_name := detector_name config +:+ "-image"; rbc_n_bytes_data := image_n_bytes;
         rbc_n_buffer_slots := n_slots |}
      {| stream_name := detector_name config +:+ "-driver-meta"; conn_type := CONN_TYPE_CONNECT |} s in
  let! sender := bind_socket zmq_ok (detector_name config +:+ "-writer-meta") ZMQ_PUSH in
  Ret (receiver, sender, Build_meta_writer None euid stats [] [] [], s').
End MetaMain.

(** ** The file holds a record for every image *)

Notation meta_input := (Z * option (Z * writer_action))%type.

Definition meta_writer_run {ds} `{HDF5 ds} seteuid config (inputs : list meta_input) (st : meta_writer ds) :
  outcome (meta_writer ds) :=
  foldO (fun st '(now, msg) => meta_writer_step seteuid config now msg st) inputs st.

Definition meta_recorded_one (i : meta_input) : option pb_image :=
  match snd i with Some (_, record_image meta) => Some meta | _ => None end.

Definition meta_recordable (i : meta_input) : Prop :=
  match snd i with None => True | Some (n, record_image _) => 0 < n <= 512 | _ => False end.

Lemma meta_writer_step_action {ds} `{HDF5 ds} seteuid config now n action (st st1 : meta_writer ds) :
  0 < n <= 512 -> meta_on_action seteuid config action st = Ret st1 ->
  exists stats, meta_writer_step seteuid config now (Some (n, action)) st =
      Ret (Build_meta_writer (mw_file st1) (mw_euid st1) stats (mw_sent st1) (mw_disk st1) (mw_created st1)).
Proof.
  intros Hn Ha. unfold meta_writer_step. rewrite (proj2 (Z.ltb_lt _ _)), (proj2 (Z.ltb_ge _ _)) by lia.
  rewrite Ha. cbn [obind]. destruct (print_stats _ _ _) as [m stats]. by exists stats.
Qed.

Section MetaSpec.
Context {ds : Set -> Type} `{HDF5Laws ds}.
Context (config : DetectorConfig).
Context (Hblock : sizeof_h5_gf_metadata <= gpfs_block_size config < 2 ^ 31).

Record meta_file_holds (f : MetaFile ds) (path : string) (l : list pb_image) : Prop := {
  mfh_name : mf_name f = path;
  mfh_block : mf_block_size f = gpfs_block_size config;
  mfh_id : 0 < mf_file_id f;
  mfh_index : mf_index f = zlen l - 1;
  mfh_rows : holds (mf_ds f) [] (h5_gf_record <$> l)
}.

Definition meta_closed_holds (c : string * ds h5_gf_metadata) (path : string) (l : list pb_image) : Prop :=
  fst c = path /\ holds (snd c) [] (h5_gf_record <$> l) /\ (2 <= zlen l -> h5_dims (snd c) = [zlen l]).

Lemma MetaFile_new_ret path : exists f, MetaFile_new config path = ([path], Ret f) /\ meta_file_holds f path [].
Proof using Hblock.
  unfold MetaFile_new, MetaFile_create_file, MetaFile_create_datasets, MetaFile_create_metadata_dataset.
  rewrite u64_small by (unfold sizeof_h5_gf_metadata in *; lia).
  destruct (create_file_ret (gpfs_block_size config) path) as (id & -> & Hid). cbn [creates_bind creates_no_file app].
  unfold h5_do, throw_if. rewrite h5_call_ok by done. cbn [negb].
  destruct (create_metadata_dataset_ret (A := h5_gf_metadata) (gpfs_block_size config) sizeof_h5_gf_metadata)
    as (m & -> & Hm); [unfold sizeof_h5_gf_metadata in *; lia|]. cbn [obind]. eexists. split; [done|]. by split.
Qed.

Lemma MetaFile_write_ret f path l meta :
  meta_file_holds f path l -> zlen l < 2 ^ 31 - 1 ->
  exists f', MetaFile_write f meta = Ret f' /\ meta_file_holds f' path (l ++ [meta]).
Proof using Hblock.
  intros [Hn Hb Hid Hi Hr] Hl. unfold MetaFile_write. rewrite Hi, Hb.
  replace (zlen l - 1 + 1) with (zlen l) by lia. pose proof (zlen_nonneg l).
  rewrite i32_ret by (unfold in_i32; lia). cbn [obind].
  assert (Hlen : zlen (h5_gf_record <$> l) = zlen l) by (unfold zlen; by rewrite length_fmap).
  destruct (write_meta_record_ret (gpfs_block_size config) sizeof_h5_gf_metadata (mf_ds f)
              (h5_gf_record <$> l) (h5_gf_record meta)) as (d & Hw & Hd);
    [unfold sizeof_h5_gf_metadata in *; lia..|done|lia|].
  rewrite Hlen in Hw. rewrite Hw. cbn [obind]. eexists. split; [done|].
  split; cbn [mf_name mf_block_size mf_file_id mf_index mf_ds]; try done.
  - rewrite zlen_app. change (zlen [meta]) with 1. lia.
  - by rewrite fmap_app.
Qed.

Lemma MetaFile_delete_holds f path l :
  meta_file_holds f path l -> zlen l < 2 ^ 31 -> meta_closed_holds (MetaFile_delete f) path l.
Proof using Type.
  intros [Hn Hb Hid Hi Hr] Hl. unfold MetaFile_delete, meta_closed_holds. cbn [fst snd].
  rewrite (proj2 (Z.ltb_lt 0 (mf_file_id f))) by done. rewrite Hi. cbn [andb].
  destruct (Z.ltb_spec 0 (zlen l - 1)); [|split_and!; [done..|lia]].
  rewrite !u64_small by (rewrite ?u64_small by lia; lia). replace (zlen l - 1 + 1) with (zlen l) by lia.
  destruct (set_extent_holds (mf_ds f) [] (h5_gf_record <$> l) (zlen l) Hr) as (d & -> & Hd & Hdim);
    [unfold zlen in *; rewrite length_fmap; lia|]. done.
Qed.

Lemma meta_record_run seteuid inputs : forall st f path l,
  mw_file st = Some f -> meta_file_holds f path l -> Forall meta_recordable inputs ->
  zlen l + zlen inputs < 2 ^ 31 - 1 ->
  exists st' f', meta_writer_run seteuid config inputs st = Ret st' /\ mw_file st' = Some f' /\
    mw_sent st' = mw_sent st /\ mw_disk st' = mw_disk st /\
    meta_file_holds f' path (l ++ omap meta_recorded_one inputs).
Proof using Hblock.
  induction inputs as [|[now [[n action]|]] inputs IH]; intros st f path l Hf Hh Hi Hl.
  { exists st, f. rewrite app_nil_r. done. }
  - apply Forall_cons_1 in Hi as [Hi Hrest]. rewrite zlen_cons in Hl. pose proof (zlen_nonneg inputs).
    destruct action as [|p id|meta| |]; try done.
    destruct (MetaFile_write_ret f path l meta Hh ltac:(lia)) as (f1 & Hw & Hh1).
    destruct (meta_writer_step_action seteuid config now n (record_image meta) st
      (Build_meta_writer (Some f1) (mw_euid st) (timed_process (mw_stats st)) (mw_sent st) (mw_disk st) (mw_created st)) Hi)
      as (stats & Hs); [unfold meta_on_action; by rewrite Hf, Hw|].
    destruct (IH (Build_meta_writer (Some f1) (mw_euid st) stats (mw_sent st) (mw_disk st) (mw_created st)) f1 path
      (l ++ [meta]) eq_refl Hh1 Hrest) as (st' & f' & Hr & Hf' & E1 & E2 & Hh');
      [rewrite zlen_app; change (zlen [meta]) with 1; lia|].
    exists st', f'. rewrite <- app_assoc in Hh'. split_and!; try done.
    unfold meta_writer_run in *. cbn [foldO]. by rewrite Hs.
  - apply Forall_cons_1 in Hi as [Hi Hrest]. rewrite zlen_cons in Hl. unfold meta_writer_run in *. cbn [foldO].
    
    assert (Hs : exists stats, meta_writer_step seteuid config now None st =
      Ret (Build_meta_writer (mw_file st) (mw_euid st) stats (mw_sent st) (mw_disk st) (mw_created st))).
    { unfold meta_writer_step. cbn [obind]. destruct (print_stats now now (mw_stats st)) as [m stats]. eauto. }
    destruct Hs as [stats ->]. cbn [obind].
    apply (IH (Build_meta_writer (mw_file st) (mw_euid st) stats (mw_sent st) (mw_disk st) (mw_created st)) f path l); auto. lia.
Qed.
End MetaSpec.


Definition demo_gf_meta (id : Z) : pb_image :=
  {| pb_image_id := id; pb_height := 2; pb_width := 2; pb_size := 8; pb_dt := dt_uint16;
     pb_st := st_good_image; pb_cp := cp_none;
     pb_det := dm_gf {| gf_scan_id := 5; gf_scan_time := id + 1; gf_sync_time := id + 2;
                        gf_frame_timestamp := id + 3; gf_exposure_time := 9; gf_store_image := true |} |}.

Definition demo_meta_writer : meta_writer mem_ds :=
  Build_meta_writer None 0 (TimedStatsCollector_new "GF" 10 "" 0) [] [] [].


(** An error while the file is created leaves [main]: the process ends without an answer. *)
Lemma meta_create_failure_fatal :
  meta_writer_run posix_seteuid demo_small_block [(1, Some (20, create_file_cmd "/data/aMeta.h5" 0))]
    demo_meta_writer = Throw runtime_error.
Proof. vm_compute. reflexivity. Qed.
