(* ===== verification/DetDriver.v ===== *)
(** * std-det-driver: the recording of a run

    [src/source/std-det-driver/src]: [driver_state.hpp], [state_manager.hpp],
    [process_api_message.cpp] and [writer_driver.cpp].  The driver lets its writers create their
    files, distributes the images of the source among them, and lets them confirm and close.
    A run is one execution of the thread of [writer_driver::start]; what other threads do to it,
    the requests to stop, are part of its input.  The interleaving of all threads of the process
    is the subject of [DriverStates]. *)

From stdpp Require Import pretty.
From S2P Require Import Prelude Protocol Stats Config RamBuffer Sockets.

(** ** driver_state.hpp *)

Inductive driver_state : Type :=
| idle | started | creating_file | file_created | waiting_for_first_image
| recording | saving_file | file_saved | stop | error.

#[global] Instance driver_state_eq_dec : EqDecision driver_state.
Proof. solve_decision. Defined.

Definition to_string (s : driver_state) : string :=
  match s with
  | idle => "idle" | started => "started" | creating_file => "creating_file"
  | file_created => "file_created" | waiting_for_first_image => "waiting_for_first_image"
  | recording => "recording" | saving_file => "saving_file" | file_saved => "file_saved"
  | stop => "stop" | error => "error"
  end.

(** ** state_manager.hpp *)

Record state_manager : Type := {
  state : driver_state;
  images_processed : Z;
  active_sessions : Z
}.

Definition manager_new : state_manager :=
  {| state := idle; images_processed := 0; active_sessions := 0 |}.

Definition change_state (newState : driver_state) (m : state_manager) : state_manager :=
  {| state := newState;
     images_processed := if bool_decide (newState = idle) then 0 else images_processed m;
     active_sessions := active_sessions m |}.

Definition update_image_count (sent_images : Z) (m : state_manager) : state_manager :=
  {| state := state m; images_processed := sent_images; active_sessions := active_sessions m |}.

Definition add_active_session (m : state_manager) : state_manager :=
  {| state := state m; images_processed := images_processed m; active_sessions := u32 (active_sessions m + 1) |}.

Definition remove_active_session (m : state_manager) : state_manager :=
  {| state := state m; images_processed := images_processed m; active_sessions := u32 (active_sessions m - 1) |}.

Definition is_recording (m : state_manager) : bool :=
  bool_decide (state m = recording) || bool_decide (state m = waiting_for_first_image) ||
  bool_decide (state m = creating_file).

(** [socket_session::stop_recording]. *)
Definition stop_recording (m : state_manager) : state_manager :=
  if is_recording m then change_state stop m else m.

(** ** run_settings.hpp and process_api_message.cpp *)

Record run_settings : Type := {
  rs_path : string;
  rs_n_images : Z;
  rs_writer : Z;
  rs_start_image_id : Z
}.

(** A parsed request: the fields the driver looks at, [None] when absent. *)
Record api_command : Type := {
  cmd_command : option string;
  cmd_path : option string;
  cmd_file_prefix : option string;
  cmd_n_image : option Z;
  cmd_writer_id : option Z;
  cmd_start_id : option Z
}.

Definition process_start_request (c : api_command) : option run_settings :=
  match cmd_path c with
  | Some path =>
      if bool_decide (default ""%string (cmd_command c) = "start"%string) then
        Some {| rs_path := path +:+ "/" +:+ default "file"%string (cmd_file_prefix c);
                rs_n_images := default 16777215 (cmd_n_image c);
                rs_writer := default 0 (cmd_writer_id c);
                rs_start_image_id := default 0 (cmd_start_id c) |}
      else None
  | None => None
  end.

(** ** writer_driver.cpp *)

(** Per writer: its sockets, the commands sent so far, and the responses not yet received. *)
Record writer_driver : Type := {
  manager : state_manager;
  with_metadata_writer : bool;
  send_sockets : list zmq_sock;
  receive_sockets : list zmq_sock;
  sync_receive_socket : zmq_sock;
  commands_sent : list (list writer_action);
  responses : list (list response_code);
  stats : SessionStats.ActiveSessionStatsCollector;
  subscribed : bool
}.

Section Sockets.
Variable (ok : zmq_call -> bool).

Definition prepare_sync_receiver_socket (source_name : string) : outcome zmq_sock :=
  let! s0 := zmq_do ok (zmq_socket_call ZMQ_SUB) (new_sock ZMQ_SUB) in
  let! s1 := zmq_do ok (zmq_setsockopt (ZMQ_RCVHWM 1000)) s0 in
  let! s2 := zmq_do ok (zmq_setsockopt (ZMQ_RCVTIMEO 1000)) s1 in
  let! s3 := zmq_do ok (zmq_setsockopt (ZMQ_LINGER 0)) s2 in
  zmq_do ok (zmq_connect (IPC_URL_BASE +:+ source_name)) s3.

Definition driver_bind_sender_socket (stream_address : string) : outcome zmq_sock :=
  let! s1 := zmq_do ok (zmq_setsockopt (ZMQ_SNDHWM 100)) (new_sock ZMQ_PUSH) in
  let! s2 := zmq_do ok (zmq_setsockopt (ZMQ_LINGER 0)) s1 in
  zmq_do ok (zmq_bind (IPC_URL_BASE +:+ stream_address)) s2.

Definition connect_to_socket (stream_address : string) : outcome zmq_sock :=
  let! s1 := zmq_do ok (zmq_setsockopt (ZMQ_RCVHWM 1000)) (new_sock ZMQ_PULL) in
  let! s2 := zmq_do ok (zmq_setsockopt (ZMQ_RCVTIMEO 5000)) s1 in
  zmq_do ok (zmq_connect (IPC_URL_BASE +:+ stream_address)) s2.

(** The two sockets of a writer, by the end of their names. *)
Definition add_writer (config : DetectorConfig) (socks : list zmq_sock * list zmq_sock) (id : string) :
  outcome (list zmq_sock * list zmq_sock) :=
  let! s := driver_bind_sender_socket (detector_name config +:+ "-driver-" +:+ id) in
  let! r := connect_to_socket (detector_name config +:+ "-writer-" +:+ id) in
  Ret (fst socks ++ [s], snd socks ++ [r]).

Definition writer_names (config : DetectorConfig) (with_meta : bool) : list string :=
  (if with_meta then ["meta"%string] else []) ++
  (pretty <$> (Z.of_nat <$> seq 0 (Z.to_nat (number_of_writers config)))).

Definition writer_driver_new (m : state_manager) (source_suffix : string) (config : DetectorConfig)
  (with_meta : bool) (now : Z) : outcome writer_driver :=
  let! '(send, recv) := foldO (add_writer config) (writer_names config with_meta) ([], []) in
  let! sync := prepare_sync_receiver_socket (detector_name config +:+ "-" +:+ source_suffix) in
  Ret {| manager := m; with_metadata_writer := with_meta; send_sockets := send; receive_sockets := recv;
         sync_receive_socket := sync; commands_sent := (fun _ => []) <$> send;
         responses := (fun _ => []) <$> recv;
         stats := SessionStats.Build_ActiveSessionStatsCollector
           (TimedStatsCollector_new (detector_name config) (stats_collection_period config) source_suffix now) 0;
         subscribed := false |}.
End Sockets.

Definition set_manager (d : writer_driver) (m : state_manager) : writer_driver :=
  Build_writer_driver m (with_metadata_writer d) (send_sockets d) (receive_sockets d) (sync_receive_socket d)
    (commands_sent d) (responses d) (stats d) (subscribed d).

Definition set_commands (d : writer_driver) (c : list (list writer_action)) : writer_driver :=
  Build_writer_driver (manager d) (with_metadata_writer d) (send_sockets d) (receive_sockets d)
    (sync_receive_socket d) c (responses d) (stats d) (subscribed d).

Definition set_responses (d : writer_driver) (r : list (list response_code)) : writer_driver :=
  Build_writer_driver (manager d) (with_metadata_writer d) (send_sockets d) (receive_sockets d)
    (sync_receive_socket d) (commands_sent d) r (stats d) (subscribed d).

Definition set_stats (d : writer_driver) (s : SessionStats.ActiveSessionStatsCollector) : writer_driver :=
  Build_writer_driver (manager d) (with_metadata_writer d) (send_sockets d) (receive_sockets d)
    (sync_receive_socket d) (commands_sent d) (responses d) s (subscribed d).

Definition set_subscribed (d : writer_driver) (b : bool) : writer_driver :=
  Build_writer_driver (manager d) (with_metadata_writer d) (send_sockets d) (receive_sockets d)
    (sync_receive_socket d) (commands_sent d) (responses d) (stats d) b.

Definition set_state (s : driver_state) (d : writer_driver) : writer_driver :=
  set_manager d (change_state s (manager d)).

(** The body of the thread of [init]. *)
Definition init_step (now : Z) (d : writer_driver) : option (list stat) * writer_driver :=
  let (printed, s) := print_stats now now (SessionStats.update_stats (stats d) (active_sessions (manager d))) in
  (printed, set_stats d s).

Definition generate_file_path_for_writer (with_meta : bool) (base_path : string) (index : Z) : string :=
  if with_meta then
    if index =? 0 then base_path +:+ "Meta.h5" else base_path +:+ pretty (index - 1) +:+ ".h5"
  else base_path +:+ pretty index +:+ ".h5".

(** [zmq_send] on the socket of writer [j]. *)
Definition send_to (d : writer_driver) (j : Z) (cmd : writer_action) : outcome writer_driver :=
  match commands_sent d !! Z.to_nat j with
  | Some cs => Ret (set_commands d (<[Z.to_nat j := cs ++ [cmd]]> (commands_sent d)))
  | None => Undef out_of_bounds
  end.

Definition send_create_file_requests (base_path : string) (id : Z) (d : writer_driver) : writer_driver :=
  let d1 := set_state creating_file d in
  set_commands d1
    (imap (fun i cs => cs ++ [create_file_cmd
             (generate_file_path_for_writer (with_metadata_writer d) base_path (Z.of_nat i)) id])
       (commands_sent d1)).

(** The responses taken from the receive queues: [None] when a writer reports a failure, else the
    number of responses; an empty queue is a timeout. *)
Fixpoint take_responses (queues : list (list response_code)) (files_created : Z) :
  option Z * list (list response_code) :=
  match queues with
  | [] => (Some files_created, [])
  | [] :: rest => let (r, rest') := take_responses rest files_created in (r, [] :: rest')
  | (FAILURE :: q) :: rest => (None, q :: rest)
  | (SUCCESS :: q) :: rest => let (r, rest') := take_responses rest (u32 (files_created + 1)) in (r, q :: rest')
  | (UNKNOWN :: q) :: rest => let (r, rest') := take_responses rest files_created in (r, q :: rest')
  end.

Definition did_all_writers_acknowledge (d : writer_driver) : bool * writer_driver :=
  let (r, queues) := take_responses (responses d) 0 in
  (match r with Some n => n =? zlen (responses d) | None => false end, set_responses d queues).

Definition get_current_writer_index (with_meta : bool) (n_sockets index : Z) : outcome Z :=
  if with_meta then let! r := umod index (u64 (n_sockets - 1)) in Ret (1 + r)
  else umod index n_sockets.

(** One turn of the loop of [record_images]: what other sessions request in front of the test of
    the loop and while the driver waits, and the message, if one arrives before the timeout. *)
Record record_event : Type := {
  stop_before : bool;
  stop_waiting : bool;
  received : option (Z * pb_image)
}.

Definition record_one (i : Z) (meta : pb_image) (d : writer_driver) : outcome writer_driver :=
  let d1 := set_stats d (SessionStats.Build_ActiveSessionStatsCollector
              (timed_process (SessionStats.base (stats d))) (SessionStats.n_active_connections (stats d))) in
  let d2 := if i =? 0 then set_state recording d1 else d1 in
  let! d3 := if with_metadata_writer d2 then send_to d2 0 (record_image meta) else Ret d2 in
  let! j := get_current_writer_index (with_metadata_writer d3) (zlen (send_sockets d3)) i in
  let! d4 := send_to d3 j (record_image meta) in
  Ret (set_manager d4 (update_image_count (u32 (i + 1)) (manager d4))).

(** The loop: whether it has ended, the number of images, and the driver. *)
Fixpoint record_loop (n_images i : Z) (events : list record_event) (d : writer_driver) :
  outcome (bool * Z * writer_driver) :=
  match events with
  | [] => Ret (negb ((i <? n_images) && is_recording (manager d)), i, d)
  | e :: rest =>
      let d0 := if stop_before e then set_manager d (stop_recording (manager d)) else d in
      if (i <? n_images) && is_recording (manager d0) then
        let d1 := if stop_waiting e then set_manager d0 (stop_recording (manager d0)) else d0 in
        match received e with
        | Some (n_bytes, meta) =>
            if 0 <? n_bytes then
              if 512 <? n_bytes then Undef out_of_bounds
              else let! d2 := record_one i meta d1 in record_loop n_images (u32 (i + 1)) rest d2
            else record_loop n_images i rest d1
        | None => record_loop n_images i rest d1
        end
      else Ret (true, i, d0)
  end.

Definition record_images (n_images : Z) (events : list record_event) (d : writer_driver) :
  outcome (bool * Z * writer_driver) :=
  let! '(ended, i, d1) := record_loop n_images 0 events (set_subscribed d true) in
  Ret (ended, i, if ended then set_subscribed d1 false else d1).

Definition send_command_to_all_writers (cmd : writer_action) (d : writer_driver) : writer_driver :=
  set_commands d ((fun cs => cs ++ [cmd]) <$> commands_sent d).

(** What the writers answer until a timeout, per writer. *)
Definition arrive (answers : list (list response_code)) (d : writer_driver) : writer_driver :=
  set_responses d (zip_with app (responses d) answers).

Definition did_all_writers_record_data (answers : list (list response_code)) (d : writer_driver) :
  bool * writer_driver :=
  did_all_writers_acknowledge (arrive answers (send_command_to_all_writers confirm_last_image d)).

Definition send_save_file_requests (answers : list (list response_code)) (d : writer_driver) : writer_driver :=
  let (acknowledged, d1) :=
    did_all_writers_acknowledge (arrive answers (send_command_to_all_writers close_file (set_state saving_file d))) in
  if acknowledged then set_state file_saved d1 else set_state error d1.

(** The environment of a run: a request to stop while the files are created, the events of the
    recording, and the answers in the three phases. *)
Record run_env : Type := {
  env_stop_creating : bool;
  env_events : list record_event;
  env_created : list (list response_code);
  env_confirmed : list (list response_code);
  env_closed : list (list response_code)
}.

(** The thread of [start]: whether it has ended, and the driver. *)
Definition start (settings : run_settings) (env : run_env) (d : writer_driver) :
  outcome (bool * writer_driver) :=
  let d1 := send_create_file_requests (rs_path settings) (rs_writer settings) d in
  let d2 := if env_stop_creating env then set_manager d1 (stop_recording (manager d1)) else d1 in
  let (created, d3) := did_all_writers_acknowledge (arrive (env_created env) d2) in
  if created then
    let! '(ended, _, d4) := record_images (rs_n_images settings) (env_events env) (set_state waiting_for_first_image d3) in
    if ended then
      let (confirmed, d5) := did_all_writers_record_data (env_confirmed env) d4 in
      Ret (true, if confirmed then send_save_file_requests (env_closed env) d5 else d5)
    else Ret (false, d4)
  else Ret (true, set_state error d3).

(** ** Distribution of the images *)

(** The writer of image [i], and the images writer [j] gets of a sequence that starts at [i]. *)
Definition target (with_meta : bool) (n : Z) (i : Z) : Z :=
  if with_meta then 1 + i mod (n - 1) else i mod n.

Fixpoint for_writer (with_meta : bool) (n j i : Z) (metas : list pb_image) : list pb_image :=
  match metas with
  | [] => []
  | m :: rest =>
      (if (with_meta && (j =? 0)) || (target with_meta n i =? j) then [m] else []) ++
      for_writer with_meta n j (i + 1) rest
  end.

Lemma mod_pred a m : 0 < m -> (a - 1) mod m = if decide (a mod m = 0) then m - 1 else a mod m - 1.
Proof.
  intros Hm. pose proof (Z.div_mod a m ltac:(lia)) as E. pose proof (Z.mod_pos_bound a m Hm).
  set (q := a / m) in *. case_decide; symmetry;
    [apply (Z.mod_unique _ _ (q - 1))|apply (Z.mod_unique _ _ q)]; nia.
Qed.

(** Image [k] of an image writer is image [j + k * n] of the run. *)
Lemma for_writer_lookup (with_meta : bool) n j i metas (k : nat) :
  let off := if with_meta then 1 else 0 in
  let m := n - off in
  0 < m -> off <= j < n ->
  for_writer with_meta n j i metas !! k = metas !! (Z.to_nat ((j - off - i) mod m) + k * Z.to_nat m)%nat.
Proof.
  intros off m Hm Hj. revert i k. induction metas as [|x metas IH]; intros i k; [done|]. cbn [for_writer].
  assert (Ht : (with_meta && (j =? 0)) || (target with_meta n i =? j) = bool_decide ((j - off - i) mod m = 0)).
  { assert (Hmod : i mod m = j - off <-> (j - off - i) mod m = 0).
    { split; intros E.
      - pose proof (Z.div_mod i m ltac:(lia)). replace (j - off - i) with (- (i / m) * m) by lia.
        by apply Z_mod_mult.
      - apply Z.mod_divide in E as [c E]; [|lia]. replace i with (j - off + - c * m) by lia.
        rewrite Z_mod_plus_full. apply Z.mod_small. lia. }
    apply Bool.eq_true_iff_eq. rewrite bool_decide_eq_true, <- Hmod, orb_true_iff, andb_true_iff, !Z.eqb_eq.
    unfold target, m, off in *. clear Hmod IH. destruct with_meta; rewrite ?Z.sub_0_r.
    - generalize (i mod (n - 1)). intros. naive_solver lia.
    - naive_solver. }
  rewrite Ht. pose proof (Z.mod_pos_bound (j - off - i) m Hm) as Hr.
  assert (Hnext : (j - off - (i + 1)) mod m = if decide ((j - off - i) mod m = 0) then m - 1 else (j - off - i) mod m - 1).
  { replace (j - off - (i + 1)) with (j - off - i - 1) by lia. by apply mod_pred. }
  destruct (decide ((j - off - i) mod m = 0)) as [E0|E0].
  - rewrite bool_decide_eq_true_2, E0 by done. simpl. destruct k as [|k]; [done|]. simpl.
    rewrite IH, Hnext. replace (Z.to_nat m + k * Z.to_nat m)%nat with (S (Z.to_nat (m - 1) + k * Z.to_nat m)) by lia. done.
  - rewrite bool_decide_eq_false_2 by done. simpl. rewrite IH, Hnext.
    replace (Z.to_nat ((j - off - i) mod m)) with (S (Z.to_nat ((j - off - i) mod m - 1))) by lia. done.
Qed.

Lemma for_writer_app with_meta n j i l1 l2 :
  for_writer with_meta n j i (l1 ++ l2) =
  for_writer with_meta n j i l1 ++ for_writer with_meta n j (i + zlen l1) l2.
Proof.
  revert i. induction l1 as [|x l1 IH]; intros i; [change (zlen []) with 0; by rewrite Z.add_0_r|].
  cbn [app for_writer]. rewrite IH, zlen_cons, <- app_assoc. do 3 f_equal. lia.
Qed.

(** The metadata writer gets every image. *)
Lemma for_meta_writer n i metas : for_writer true n 0 i metas = metas.
Proof. revert i. induction metas as [|x l IH]; intros i; [done|]. simpl. by rewrite IH. Qed.

(** ** The recording loop *)

(** A driver with its writers: at least one for images. *)
Record wf_driver (d : writer_driver) : Prop := {
  wd_commands : length (commands_sent d) = length (send_sockets d);
  wd_responses : length (responses d) = length (send_sockets d);
  wd_writers : (if with_metadata_writer d then 1 else 0) < zlen (send_sockets d) < 2 ^ 31
}.

(** [d'] is [d] after the images [metas], numbered from [i], were sent to the writers. *)
Record images_sent (d : writer_driver) (i : Z) (metas : list pb_image) (d' : writer_driver) : Prop := {
  is_sockets : send_sockets d' = send_sockets d;
  is_meta : with_metadata_writer d' = with_metadata_writer d;
  is_responses : responses d' = responses d;
  is_commands : commands_sent d' = imap (fun j cs => cs ++ (record_image <$>
    for_writer (with_metadata_writer d) (zlen (send_sockets d)) (Z.of_nat j) i metas)) (commands_sent d)
}.

Lemma images_sent_wf d i metas d' : wf_driver d -> images_sent d i metas d' -> wf_driver d'.
Proof.
  intros [Hc Hr Hw] [Es Em Er Ec]. split; rewrite ?Es, ?Em, ?Er, ?Ec; try done. by rewrite length_imap.
Qed.

Lemma images_sent_none d i : images_sent d i [] d.
Proof.
  split; try done. symmetry. apply list_eq. intros j. rewrite list_lookup_imap.
  destruct (commands_sent d !! j); [|done]. simpl. by rewrite app_nil_r.
Qed.

Lemma images_sent_manager d i metas d' m : images_sent (set_manager d m) i metas d' -> images_sent d i metas d'.
Proof. by intros []. Qed.

Lemma images_sent_app d i l1 d1 l2 d2 :
  images_sent d i l1 d1 -> images_sent d1 (i + zlen l1) l2 d2 -> images_sent d i (l1 ++ l2) d2.
Proof.
  intros [E1 E2 E3 E4] [F1 F2 F3 F4]. split; try congruence. rewrite F4, E4, E1, E2. apply list_eq. intros j.
  rewrite !list_lookup_imap. destruct (commands_sent d !! j); [|done]. simpl.
  by rewrite for_writer_app, fmap_app, app_assoc.
Qed.

Lemma send_to_ret d j cmd :
  0 <= j < zlen (commands_sent d) ->
  send_to d j cmd = Ret (set_commands d (imap (fun k cs => if Z.of_nat k =? j then cs ++ [cmd] else cs) (commands_sent d))).
Proof.
  intros Hj. unfold send_to, zlen in *.
  destruct (lookup_lt_is_Some_2 (commands_sent d) (Z.to_nat j)) as [cs Hcs]; [lia|]. rewrite Hcs. do 2 f_equal.
  apply list_eq. intros k. rewrite list_lookup_imap. destruct (decide (k = Z.to_nat j)) as [->|Hne].
  - rewrite list_lookup_insert_eq by lia. rewrite Hcs, Z2Nat.id, Z.eqb_refl by lia. done.
  - rewrite list_lookup_insert_ne by done. destruct (commands_sent d !! k); [|done]. simpl.
    by rewrite (proj2 (Z.eqb_neq (Z.of_nat k) j)) by lia.
Qed.

Lemma target_ret d i :
  wf_driver d -> 0 <= i < 2 ^ 32 ->
  get_current_writer_index (with_metadata_writer d) (zlen (send_sockets d)) i =
    Ret (target (with_metadata_writer d) (zlen (send_sockets d)) i) /\
  (if with_metadata_writer d then 1 else 0) <= target (with_metadata_writer d) (zlen (send_sockets d)) i
    < zlen (send_sockets d).
Proof.
  intros [_ _ Hw] Hi. unfold get_current_writer_index, target. destruct (with_metadata_writer d).
  - rewrite u64_small, umod_ret by lia. cbn [obind].
    pose proof (Z.mod_pos_bound i (zlen (send_sockets d) - 1) ltac:(lia)). split; [done|lia].
  - rewrite umod_ret by lia. pose proof (Z.mod_pos_bound i (zlen (send_sockets d)) ltac:(lia)). split; [done|lia].
Qed.

Lemma record_one_ret d i meta :
  wf_driver d -> 0 <= i < 2 ^ 32 ->
  exists d', record_one i meta d = Ret d' /\ images_sent d i [meta] d' /\
    manager d' = update_image_count (u32 (i + 1)) (if i =? 0 then change_state recording (manager d) else manager d).
Proof.
  intros Hd Hi. destruct (target_ret d i Hd Hi) as [Hidx Hrange]. destruct Hd as [Hc Hr Hw].
  assert (Hlen : zlen (commands_sent d) = zlen (send_sockets d)) by (unfold zlen; congruence).
  unfold record_one. set (d2 := if i =? 0 then _ else _).
  assert (E : with_metadata_writer d2 = with_metadata_writer d /\ send_sockets d2 = send_sockets d /\
    responses d2 = responses d /\ commands_sent d2 = commands_sent d /\
    manager d2 = if i =? 0 then change_state recording (manager d) else manager d).
  { unfold d2. by destruct (i =? 0). }
  destruct E as (E1 & E2 & E3 & E4 & E5). clearbody d2. rewrite E1.
  destruct (with_metadata_writer d) eqn:Em; cbv iota in Hrange, Hw.
  - rewrite send_to_ret by (rewrite E4, Hlen; lia). cbn [obind set_commands with_metadata_writer send_sockets].
    rewrite E1, E2, Hidx. cbn [obind].
    rewrite send_to_ret by (cbn [set_commands commands_sent]; unfold zlen in *; rewrite length_imap, E4; lia).
    cbn [obind]. eexists. split; [done|]. cbn [set_manager set_commands manager]. rewrite E5. split; [|done].
    split; cbn [set_manager set_commands send_sockets with_metadata_writer responses commands_sent]; try congruence.
    rewrite E4. apply list_eq. intros j. rewrite !list_lookup_imap. destruct (commands_sent d !! j); [|done].
    cbn [fmap option_fmap option_map]. f_equal. rewrite Em. cbn [for_writer andb].
    destruct (Z.eqb_spec (Z.of_nat j) 0) as [E0|E0].
    + rewrite E0. cbn [orb]. rewrite (proj2 (Z.eqb_neq 0 (target true (zlen (send_sockets d)) i))) by lia. done.
    + cbn [orb]. rewrite (Z.eqb_sym (Z.of_nat j)). destruct (target _ _ i =? _); cbn [app fmap list_fmap]; by rewrite ?app_nil_r.
  - cbn [obind]. rewrite E1, E2, Hidx. cbn [obind]. rewrite send_to_ret by (rewrite E4, Hlen; lia). cbn [obind].
    eexists. split; [done|]. cbn [set_manager set_commands manager]. rewrite E5. split; [|done].
    split; cbn [set_manager set_commands send_sockets with_metadata_writer responses commands_sent]; try congruence.
    rewrite E4. apply list_eq. intros j. rewrite !list_lookup_imap. destruct (commands_sent d !! j); [|done].
    cbn [fmap option_fmap option_map]. f_equal. rewrite Em. cbn [for_writer andb orb]. rewrite (Z.eqb_sym (Z.of_nat j)).
    destruct (target _ _ i =? _); cbn [app fmap list_fmap]; by rewrite ?app_nil_r.
Qed.

Definition good_event (e : record_event) : Prop :=
  match received e with Some (n, _) => 0 < n <= 512 | None => True end.
Definition event_meta (e : record_event) : option pb_image := snd <$> received e.
Definition no_stop (e : record_event) : Prop := stop_before e = false /\ stop_waiting e = false.

(** The result of the loop: some of the received images, in order and from the first on, are
    sent; without a request to stop all of them up to [n_images]. *)
Record loop_result (n i : Z) (events : list record_event) (d : writer_driver)
  (ended : bool) (metas : list pb_image) (d' : writer_driver) : Prop := {
  lr_sent : images_sent d i metas d';
  lr_prefix : metas `prefix_of` omap event_meta events;
  lr_bound : i + zlen metas <= n;
  lr_end : ended = negb ((i + zlen metas <? n) && is_recording (manager d'));
  lr_full : is_recording (manager d) = true -> Forall no_stop events ->
    metas = take (Z.to_nat (n - i)) (omap event_meta events) /\ is_recording (manager d') = true /\
    ended = (n <=? i + zlen (omap event_meta events))
}.

Definition maybe_stop (b : bool) (d : writer_driver) : writer_driver :=
  if b then set_manager d (stop_recording (manager d)) else d.

Lemma maybe_stop_sent b d i metas d' : images_sent (maybe_stop b d) i metas d' -> images_sent d i metas d'.
Proof. destruct b; [apply images_sent_manager|done]. Qed.

Lemma maybe_stop_wf b d : wf_driver d -> wf_driver (maybe_stop b d).
Proof. intros []. by destruct b; split. Qed.

(** The loop ends in front of this event. *)
Lemma loop_end n i e rest d :
  i <= n -> (i <? n) && is_recording (manager (maybe_stop (stop_before e) d)) = false ->
  loop_result n i (e :: rest) d true [] (maybe_stop (stop_before e) d).
Proof.
  intros Hi Hend. split.
  - apply (maybe_stop_sent (stop_before e)), images_sent_none.
  - apply prefix_nil.
  - change (zlen []) with 0. lia.
  - change (zlen []) with 0. by rewrite Z.add_0_r, Hend.
  - intros Hrec Hns%Forall_cons_1. destruct Hns as [[Hb _] _]. rewrite Hb in *. cbn [maybe_stop] in *.
    rewrite Hrec, andb_true_r in Hend. apply Z.ltb_ge in Hend. replace (n - i) with 0 by lia.
    split_and!; [done..|]. symmetry. apply Z.leb_le. pose proof (zlen_nonneg (omap event_meta (e :: rest))). lia.
Qed.

(** A turn without and with an image. *)
Lemma loop_none n i e rest d ended metas d' :
  event_meta e = None ->
  loop_result n i rest (maybe_stop (stop_waiting e) (maybe_stop (stop_before e) d)) ended metas d' ->
  loop_result n i (e :: rest) d ended metas d'.
Proof.
  intros He [Hs Hp Hb Hend Hf]. split; rewrite ?omap_cons_eq, ?He; try done.
  - by apply maybe_stop_sent, maybe_stop_sent in Hs.
  - intros Hrec Hns%Forall_cons_1. destruct Hns as [[E1 E2] Hns]. rewrite E1, E2 in Hf. by apply Hf.
Qed.

Lemma loop_image n i e meta rest d d2 ended metas d' :
  event_meta e = Some meta -> i < n ->
  images_sent (maybe_stop (stop_waiting e) (maybe_stop (stop_before e) d)) i [meta] d2 ->
  (no_stop e -> is_recording (manager d) = true -> is_recording (manager d2) = true) ->
  loop_result n (i + 1) rest d2 ended metas d' ->
  loop_result n i (e :: rest) d ended (meta :: metas) d'.
Proof.
  intros He Hi Hs2 Hrec2 [Hs Hp Hb Hend Hf]. pose proof (zlen_nonneg (omap event_meta rest)).
  split; rewrite ?omap_cons_eq, ?He, ?zlen_cons.
  - apply maybe_stop_sent, maybe_stop_sent in Hs2. by apply (images_sent_app d i [meta] d2 metas d').
  - by apply prefix_cons.
  - lia.
  - rewrite Hend. do 3 f_equal. lia.
  - intros Hrec Hns%Forall_cons_1. destruct Hns as [Hns Hrest]. destruct (Hf (Hrec2 Hns Hrec) Hrest) as (E & Hr & He').
    split_and!; [|done|rewrite He'; f_equal; lia].
    replace (Z.to_nat (n - i)) with (S (Z.to_nat (n - (i + 1)))) by lia. simpl. by rewrite <- E.
Qed.

Lemma record_loop_ret n events : forall i d,
  wf_driver d -> 0 <= i <= n -> n < 2 ^ 32 -> Forall good_event events ->
  exists ended metas d', record_loop n i events d = Ret (ended, i + zlen metas, d') /\
    loop_result n i events d ended metas d'.
Proof.
  induction events as [|e rest IH]; intros i d Hd Hi Hn Hg.
  - eexists _, [], d. change (zlen []) with 0. rewrite Z.add_0_r. split; [done|].
    split; [apply images_sent_none|done|change (zlen []) with 0; lia|by rewrite Z.add_0_r|].
    intros Hrec _. rewrite Hrec, andb_true_r. change (omap event_meta []) with (@nil pb_image).
    rewrite take_nil. split_and!; [done..|]. change (zlen []) with 0. rewrite Z.add_0_r, Z.ltb_antisym. by rewrite negb_involutive.
  - apply Forall_cons_1 in Hg as [Hg Hrest]. cbn [record_loop].
    fold (maybe_stop (stop_before e) d). set (d0 := maybe_stop (stop_before e) d).
    fold (maybe_stop (stop_waiting e) d0). set (d1 := maybe_stop (stop_waiting e) d0).
    assert (Hd1 : wf_driver d1) by (by apply maybe_stop_wf, maybe_stop_wf).
    destruct ((i <? n) && is_recording (manager d0)) eqn:Hc.
    2: { exists true, [], d0. change (zlen []) with 0. rewrite Z.add_0_r. split; [done|]. apply loop_end; [lia|done]. }
    apply andb_true_iff in Hc as [Hin%Z.ltb_lt _]. unfold good_event in Hg.
    destruct (received e) as [[nb meta]|] eqn:Er.
    + rewrite (proj2 (Z.ltb_lt _ _)), (proj2 (Z.ltb_ge _ _)) by lia.
      destruct (record_one_ret d1 i meta Hd1 ltac:(lia)) as (d2 & -> & Hs2 & Hm2). cbn [obind].
      rewrite u32_small by lia.
      destruct (IH (i + 1) d2 (images_sent_wf _ _ _ _ Hd1 Hs2) ltac:(lia) Hn Hrest) as (ended & metas & d' & -> & Hl).
      exists ended, (meta :: metas), d'. rewrite zlen_cons. split; [do 3 f_equal; lia|].
      apply (loop_image n i e meta rest d d2 ended metas d'); try done; [unfold event_meta; by rewrite Er|].
      intros [E1 E2] Hrec. rewrite Hm2. unfold d1, d0. rewrite E1, E2. by destruct (i =? 0).
    + destruct (IH i d1 Hd1 Hi Hn Hrest) as (ended & metas & d' & -> & Hl). exists ended, metas, d'. split; [done|].
      apply loop_none; [unfold event_meta; by rewrite Er|done].
Qed.

(** ** Acknowledgements *)

(** All queues start with a success: one is taken from each, and all are counted. *)
Lemma take_responses_all queues k :
  0 <= k -> k + zlen queues < 2 ^ 32 -> Forall (fun q => head q = Some SUCCESS) queues ->
  take_responses queues k = (Some (k + zlen queues), tail <$> queues).
Proof.
  intros Hk Hlen Hq. revert k Hk Hlen. induction Hq as [|q queues Hh _ IH]; intros k Hk Hlen.
  - change (zlen []) with 0. by rewrite Z.add_0_r.
  - rewrite zlen_cons in *. pose proof (zlen_nonneg queues). destruct q as [|[] q]; try done. cbn [take_responses].
    rewrite u32_small, IH by lia. cbn [fmap list_fmap tail]. do 2 f_equal. lia.
Qed.

(** A queue without a success in front is not counted. *)
Lemma take_responses_le queues k n q' :
  0 <= k -> k + zlen queues < 2 ^ 32 -> take_responses queues k = (Some n, q') ->
  n <= k + zlen queues /\ (n = k + zlen queues -> Forall (fun q => head q = Some SUCCESS) queues).
Proof.
  revert k q'. induction queues as [|q queues IH]; intros k q' Hk Hlen.
  - intros [= <- <-]. change (zlen []) with 0. split; [lia|done].
  - rewrite zlen_cons in *. pose proof (zlen_nonneg queues). destruct q as [|[] q]; cbn [take_responses].
    1,2: destruct (take_responses queues k) as [r rest] eqn:E; intros [= -> <-];
         destruct (IH _ _ Hk ltac:(lia) E); split; lia.
    2: done.
    destruct (take_responses queues (u32 (k + 1))) as [r rest] eqn:E. intros [= -> <-]. rewrite u32_small in E by lia.
    destruct (IH (k + 1) rest ltac:(lia) ltac:(lia) E) as [Hle Heq]. split; [lia|]. intros. constructor; [done|].
    apply Heq. lia.
Qed.

(** [did_all_writers_acknowledge] is true exactly when every writer's next response is a success. *)
Lemma acknowledge_iff d :
  zlen (responses d) < 2 ^ 32 ->
  fst (did_all_writers_acknowledge d) = true <-> Forall (fun q => head q = Some SUCCESS) (responses d).
Proof.
  intros Hlen. unfold did_all_writers_acknowledge. split.
  - destruct (take_responses (responses d) 0) as [[n|] q'] eqn:E; cbn [fst]; [|done]. intros Heq%Z.eqb_eq.
    apply (take_responses_le _ 0 n q'); [lia|lia|done|lia].
  - intros Hall. rewrite take_responses_all by (done || lia). cbn [fst]. apply Z.eqb_eq. lia.
Qed.

(** Nothing is waiting, and every writer answers once. *)
Definition quiet_driver (d : writer_driver) : Prop :=
  responses d = replicate (length (send_sockets d)) [].
Definition all_succeed (d : writer_driver) (answers : list (list response_code)) : Prop :=
  answers = replicate (length (send_sockets d)) [SUCCESS].

Lemma acknowledge_all d answers :
  wf_driver d -> quiet_driver d -> all_succeed d answers ->
  did_all_writers_acknowledge (arrive answers d) = (true, set_responses d (responses d)).
Proof.
  intros [_ _ Hw] Hq ->. unfold did_all_writers_acknowledge, arrive. cbn [set_responses responses]. rewrite Hq.
  assert (E : zip_with app (replicate (length (send_sockets d)) []) (replicate (length (send_sockets d)) [SUCCESS]) =
              replicate (length (send_sockets d)) [SUCCESS]) by (induction (length (send_sockets d)); simpl; congruence).
  rewrite E. unfold zlen in *. rewrite take_responses_all; [|lia|unfold zlen; rewrite length_replicate; destruct (with_metadata_writer d); lia|].
  - unfold zlen. rewrite Z.add_0_l, Z.eqb_refl, fmap_replicate. done.
  - apply Forall_replicate. done.
Qed.

(** ** A run of the driver *)

(** What writer [j] is told in a run that records [metas]. *)
Definition run_commands (d : writer_driver) (settings : run_settings) (j : nat) (metas : list pb_image) :
  list writer_action :=
  create_file_cmd (generate_file_path_for_writer (with_metadata_writer d) (rs_path settings) (Z.of_nat j))
    (rs_writer settings) ::
  (record_image <$> for_writer (with_metadata_writer d) (zlen (send_sockets d)) (Z.of_nat j) 0 metas) ++
  [confirm_last_image; close_file].

(** The parts of the driver the phases do not touch. *)
Record same_writers (d d' : writer_driver) : Prop := {
  sw_meta : with_metadata_writer d' = with_metadata_writer d;
  sw_sockets : send_sockets d' = send_sockets d;
  sw_responses : responses d' = responses d
}.

Lemma same_writers_phase d d' answers :
  wf_driver d -> quiet_driver d -> same_writers d d' -> length (commands_sent d') = length (commands_sent d) ->
  all_succeed d answers ->
  wf_driver d' /\ quiet_driver d' /\ all_succeed d' answers.
Proof.
  intros [H1 H2 H3] Hq [E1 E2 E3] Hl Ha. unfold quiet_driver, all_succeed in *. rewrite E2, E3.
  split_and!; try done. split; rewrite ?E1, ?E2, ?E3; congruence || done.
Qed.

(** The end of a run, after the recording loop. *)
Lemma finish_run_ret d confirmed closed :
  wf_driver d -> quiet_driver d -> all_succeed d confirmed -> all_succeed d closed ->
  let (c, d5) := did_all_writers_record_data confirmed d in
  c = true /\
  let d6 := send_save_file_requests closed d5 in
  state (manager d6) = file_saved /\ same_writers d d6 /\
  commands_sent d6 = (fun cs => cs ++ [confirm_last_image; close_file]) <$> commands_sent d.
Proof.
  intros Hd Hq Hc1 Hc2. unfold did_all_writers_record_data.
  set (da := send_command_to_all_writers confirm_last_image d).
  destruct (same_writers_phase d da confirmed Hd Hq) as (Hda & Hqa & Hca);
    [done|apply length_fmap|done|]. rewrite (acknowledge_all da confirmed Hda Hqa Hca). split; [done|].
  cbv zeta. unfold send_save_file_requests.
  match goal with |- context [arrive closed ?x] => set (db := x) end.
  destruct (same_writers_phase d db closed Hd Hq) as (Hdb & Hqb & Hcb);
    [done|etrans; apply length_fmap|done|].
  rewrite (acknowledge_all db closed Hdb Hqb Hcb). split_and!; [done..|].
  cbn. rewrite <- list_fmap_compose. apply list_fmap_ext. intros ? cs _. simpl. by rewrite <- app_assoc.
Qed.

Lemma imap_commands d settings metas (l : list (list writer_action)) :
  (fun cs => cs ++ [confirm_last_image; close_file]) <$>
    imap (fun j cs => cs ++ (record_image <$>
      for_writer (with_metadata_writer d) (zlen (send_sockets d)) (Z.of_nat j) 0 metas))
      (imap (fun i cs => cs ++ [create_file_cmd (generate_file_path_for_writer (with_metadata_writer d)
         (rs_path settings) (Z.of_nat i)) (rs_writer settings)]) l) =
  imap (fun j cs => cs ++ run_commands d settings j metas) l.
Proof.
  apply list_eq. intros j. rewrite list_lookup_fmap, !list_lookup_imap. destruct (l !! j); [|done].
  simpl. by rewrite <- !app_assoc.
Qed.

Lemma driver_run_lemma settings env d :
  wf_driver d -> quiet_driver d -> 0 <= rs_n_images settings < 2 ^ 32 ->
  Forall good_event (env_events env) ->
  all_succeed d (env_created env) -> all_succeed d (env_confirmed env) -> all_succeed d (env_closed env) ->
  let received := omap event_meta (env_events env) in
  exists ended metas d', start settings env d = Ret (ended, d') /\
    metas `prefix_of` received /\ zlen metas <= rs_n_images settings /\
    (ended = true -> state (manager d') = file_saved /\ quiet_driver d' /\
       commands_sent d' = imap (fun j cs => cs ++ run_commands d settings j metas) (commands_sent d)) /\
    (Forall no_stop (env_events env) ->
       metas = take (Z.to_nat (rs_n_images settings)) received /\
       ended = (rs_n_images settings <=? zlen received)).
Proof.
  intros Hd Hq Hn Hg Ha1 Ha2 Ha3 received. unfold start.
  fold (maybe_stop (env_stop_creating env) (send_create_file_requests (rs_path settings) (rs_writer settings) d)).
  set (d2 := maybe_stop _ _).
  assert (Hsw : same_writers d d2 /\ commands_sent d2 = imap (fun i cs => cs ++ [create_file_cmd
      (generate_file_path_for_writer (with_metadata_writer d) (rs_path settings) (Z.of_nat i)) (rs_writer settings)])
      (commands_sent d)) by (unfold d2; by destruct (env_stop_creating env)).
  destruct Hsw as [Hsw Hcmd]. assert (Hlen : length (commands_sent d2) = length (commands_sent d))
    by (by rewrite Hcmd, length_imap).
  destruct (same_writers_phase d d2 _ Hd Hq Hsw Hlen Ha1) as (Hd2 & Hq2 & Ha12).
  rewrite (acknowledge_all d2 _ Hd2 Hq2 Ha12). unfold record_images.
  set (d3 := set_subscribed _ true).
  assert (Hd3 : wf_driver d3) by (by destruct Hd2; split).
  destruct (record_loop_ret (rs_n_images settings) (env_events env) 0 d3 Hd3 ltac:(lia) ltac:(lia) Hg)
    as (ended & metas & d4 & -> & [Hs Hp Hb Hend Hf]). cbn [obind].
  assert (Hfull : Forall no_stop (env_events env) -> metas = take (Z.to_nat (rs_n_images settings)) received /\
    ended = (rs_n_images settings <=? zlen received)).
  { intros Hns. destruct (Hf eq_refl Hns) as (E1 & _ & E2). by rewrite Z.sub_0_r in E1. }
  destruct ended.
  - set (d5 := set_subscribed d4 false). destruct Hs as [E1 E2 E3 E4]. destruct Hsw as [F1 F2 F3].
    assert (Hsw5 : same_writers d d5) by (split; cbn in *; congruence).
    assert (Hlen5 : length (commands_sent d5) = length (commands_sent d))
      by (cbn; rewrite E4, length_imap; done).
    destruct (same_writers_phase d d5 _ Hd Hq Hsw5 Hlen5 Ha2) as (Hd5 & Hq5 & Ha25).
    destruct (same_writers_phase d d5 _ Hd Hq Hsw5 Hlen5 Ha3) as (_ & _ & Ha35).
    pose proof (finish_run_ret d5 _ _ Hd5 Hq5 Ha25 Ha35) as Hfin.
    destruct (did_all_writers_record_data (env_confirmed env) d5) as [c d6]. destruct Hfin as (-> & Hst & Hsw6 & Hc6).
    exists true, metas, (send_save_file_requests (env_closed env) d6). split_and!; try done. intros _.
    split_and!; [done| |].
    + destruct Hsw6 as [G1 G2 G3]. unfold quiet_driver in *. by rewrite G2, G3.
    + rewrite Hc6. cbn [d5 set_subscribed commands_sent]. rewrite E4. cbn [d3 set_subscribed commands_sent].
      change (with_metadata_writer d3) with (with_metadata_writer d2). change (send_sockets d3) with (send_sockets d2).
      change (commands_sent (set_state waiting_for_first_image (set_responses d2 (responses d2)))) with (commands_sent d2).
      rewrite F1, F2, Hcmd. apply imap_commands.
  - exists false, metas, d4. split_and!; done.
Qed.

(** C16: a run of the driver whose writers acknowledge: whatever arrives and whenever it is
    stopped, the recorded images are the first ones received, at most [n_images]; when the run
    ends every writer got, after its earlier commands, exactly: create its file, record its
    images in order, confirm, close; and the driver reports the file as saved.  Without a
    request to stop the run ends exactly when [n_images] images have arrived, and records these. *)
Theorem driver_run settings env d :
  wf_driver d -> quiet_driver d -> 0 <= rs_n_images settings < 2 ^ 32 ->
  Forall good_event (env_events env) ->
  all_succeed d (env_created env) -> all_succeed d (env_confirmed env) -> all_succeed d (env_closed env) ->
  let received := omap event_meta (env_events env) in
  exists ended metas d', start settings env d = Ret (ended, d') /\
    metas `prefix_of` received /\ zlen metas <= rs_n_images settings /\
    (ended = true -> state (manager d') = file_saved /\ quiet_driver d' /\
       commands_sent d' = imap (fun j cs => cs ++ run_commands d settings j metas) (commands_sent d)) /\
    (Forall no_stop (env_events env) ->
       metas = take (Z.to_nat (rs_n_images settings)) received /\
       ended = (rs_n_images settings <=? zlen received)).
Proof. apply driver_run_lemma. Qed.

(** An instance: two image writers, five images offered, three requested. *)
Definition demo_image (id : Z) : pb_image :=
  {| pb_image_id := id; pb_height := 2; pb_width := 2; pb_size := 8; pb_dt := dt_uint16;
     pb_st := st_good_image; pb_cp := cp_none; pb_det := dm_not_set |}.

Definition demo_driver : writer_driver :=
  {| manager := manager_new; with_metadata_writer := false;
     send_sockets := [new_sock ZMQ_PUSH; new_sock ZMQ_PUSH]; receive_sockets := [new_sock ZMQ_PULL; new_sock ZMQ_PULL];
     sync_receive_socket := new_sock ZMQ_SUB; commands_sent := [[]; []]; responses := [[]; []];
     stats := SessionStats.Build_ActiveSessionStatsCollector (TimedStatsCollector_new "EG" 10 "image" 0) 0;
     subscribed := false |}.

Definition demo_settings : run_settings :=
  {| rs_path := "/data/run"; rs_n_images := 3; rs_writer := 1000; rs_start_image_id := 0 |}.

Definition demo_event (id : Z) : record_event :=
  {| stop_before := false; stop_waiting := false; received := Some (40, demo_image id) |}.

Definition demo_env : run_env :=
  {| env_stop_creating := false;
     env_events := [demo_event 7; {| stop_before := false; stop_waiting := false; received := None |};
                    demo_event 8; demo_event 9; demo_event 10; demo_event 11];
     env_created := [[SUCCESS]; [SUCCESS]]; env_confirmed := [[SUCCESS]; [SUCCESS]];
     env_closed := [[SUCCESS]; [SUCCESS]] |}.

Lemma demo_driver_wf : wf_driver demo_driver.
Proof. by split. Qed.

Lemma demo_events_good : Forall good_event (env_events demo_env).
Proof. repeat (apply Forall_cons_2; [first [exact I|unfold good_event; simpl; lia]|]). constructor. Qed.

Lemma driver_run_witness :
  let received := [demo_image 7; demo_image 8; demo_image 9; demo_image 10; demo_image 11] in
  exists ended metas d', start demo_settings demo_env demo_driver = Ret (ended, d') /\
    metas `prefix_of` received /\ zlen metas <= 3 /\
    (ended = true -> state (manager d') = file_saved /\ quiet_driver d' /\
       commands_sent d' = imap (fun j cs => cs ++ run_commands demo_driver demo_settings j metas) [[]; []]) /\
    (Forall no_stop (env_events demo_env) ->
       metas = take (Z.to_nat 3) received /\ ended = (3 <=? zlen received)).
Proof.
  apply (driver_run demo_settings demo_env demo_driver).
  - exact demo_driver_wf.
  - reflexivity.
  - simpl; lia.
  - exact demo_events_good.
  - reflexivity.
  - reflexivity.
  - reflexivity.
Defined.

(** ** Errors of a run *)

(** When not every writer acknowledges the creation of its file, because one reports a failure
    or does not answer in time, the run ends in the state error, and no writer got anything but
    the request to create its file. *)
Lemma driver_creation_error settings env d :
  wf_driver d -> length (env_created env) = length (send_sockets d) ->
  ~ Forall (fun q => head q = Some SUCCESS) (zip_with app (responses d) (env_created env)) ->
  exists d', start settings env d = Ret (true, d') /\ state (manager d') = error /\
    commands_sent d' = imap (fun j cs => cs ++ [create_file_cmd (generate_file_path_for_writer
      (with_metadata_writer d) (rs_path settings) (Z.of_nat j)) (rs_writer settings)]) (commands_sent d).
Proof.
  intros [H1 H2 H3] Hlen Hno. unfold start.
  fold (maybe_stop (env_stop_creating env) (send_create_file_requests (rs_path settings) (rs_writer settings) d)).
  set (d2 := maybe_stop _ _).
  assert (E : responses d2 = responses d /\ commands_sent d2 = imap (fun i cs => cs ++ [create_file_cmd
      (generate_file_path_for_writer (with_metadata_writer d) (rs_path settings) (Z.of_nat i)) (rs_writer settings)])
      (commands_sent d)) by (unfold d2; by destruct (env_stop_creating env)).
  destruct E as [Er Ec]. pose proof (acknowledge_iff (arrive (env_created env) d2)) as Hack.
  cbn [arrive set_responses responses] in Hack. rewrite Er in Hack.
  assert (Hz : zlen (zip_with app (responses d) (env_created env)) < 2 ^ 32).
  { unfold zlen in *. rewrite length_zip_with. destruct (with_metadata_writer d); lia. }
  specialize (Hack Hz).
  assert (Hc : commands_sent (snd (did_all_writers_acknowledge (arrive (env_created env) d2))) = commands_sent d2)
    by (unfold did_all_writers_acknowledge; by destruct (take_responses _ _)).
  destruct (did_all_writers_acknowledge (arrive (env_created env) d2)) as [[] d3]; cbn [fst snd] in *.
  - by exfalso; apply Hno, Hack.
  - eexists. split; [done|]. split; [done|]. cbn. by rewrite Hc, Ec.
Qed.

Definition demo_env_failure : run_env :=
  {| env_stop_creating := false; env_events := []; env_created := [[SUCCESS]; [FAILURE]]; env_confirmed := [];
     env_closed := [] |}.

Lemma driver_creation_error_witness :
  exists d', start demo_settings demo_env_failure demo_driver = Ret (true, d') /\ state (manager d') = error /\
    commands_sent d' = imap (fun j cs => cs ++ [create_file_cmd (generate_file_path_for_writer
      false "/data/run" (Z.of_nat j)) 1000]) [[]; []].
Proof.
  apply (driver_creation_error demo_settings demo_env_failure demo_driver).
  - exact demo_driver_wf.
  - reflexivity.
  - intros Hall. apply Forall_cons_1 in Hall as [_ Hall]. apply Forall_cons_1 in Hall as [Hall _]. discriminate.
Defined.

(** A request to stop while the files are created is lost: the run records as if there was none. *)
Lemma stop_while_creating_lost :
  match start demo_settings
    {| env_stop_creating := true; env_events := env_events demo_env; env_created := env_created demo_env;
       env_confirmed := env_confirmed demo_env; env_closed := env_closed demo_env |} demo_driver with
  | Ret (true, d) => images_processed (manager d) = 3 /\ state (manager d) = file_saved
  | _ => False
  end.
Proof. vm_compute. repeat split. Qed.

(** So is one that arrives while the driver waits for the first image. *)
Lemma stop_before_first_image_lost :
  match start demo_settings
    {| env_stop_creating := false;
       env_events := {| stop_before := false; stop_waiting := true; received := Some (40, demo_image 7) |} ::
                     [demo_event 8; demo_event 9];
       env_created := env_created demo_env; env_confirmed := env_confirmed demo_env;
       env_closed := env_closed demo_env |} demo_driver with
  | Ret (true, d) => images_processed (manager d) = 3 /\ state (manager d) = file_saved
  | _ => False
  end.
Proof. vm_compute. repeat split. Qed.

(** When a writer does not confirm the last image, the files are not closed and the driver stays
    in the state recording. *)
Lemma unconfirmed_run_stuck :
  match start demo_settings
    {| env_stop_creating := false; env_events := env_events demo_env; env_created := env_created demo_env;
       env_confirmed := [[SUCCESS]; []]; env_closed := env_closed demo_env |} demo_driver with
  | Ret (true, d) => state (manager d) = recording /\ list.last <$> commands_sent d = [Some confirm_last_image; Some confirm_last_image]
  | _ => False
  end.
Proof. vm_compute. repeat split. Qed.

(** Answers that are not read, here of the second writer after the first one failed, are taken as
    the answers of the next run: it counts a file as created that writer 1 refuses. *)
Lemma stale_response_accepted :
  let env created := {| env_stop_creating := false; env_events := []; env_created := created;
                        env_confirmed := []; env_closed := [] |} in
  match start demo_settings (env [[FAILURE]; [SUCCESS]]) demo_driver with
  | Ret (_, d1) =>
      match start demo_settings (env [[SUCCESS]; [FAILURE]]) d1 with
      | Ret (_, d2) => state (manager d2) = waiting_for_first_image /\ responses d2 = [[]; [FAILURE]]
      | _ => False
      end
  | _ => False
  end.
Proof. vm_compute. repeat split. Qed.
