(* ===== verification/Recording.v ===== *)
(** * From the driver to the files

    The detector driver ([DetDriver]) and an image writer ([DetWriter]) together: the commands
    the driver sends on a writer's socket are the commands the writer processes. *)

From stdpp Require Import pretty.
From S2P Require Import Prelude Protocol Config RamBuffer Hdf5 DetWriter DetDriver.

Section EndToEnd.
Context {ds : Set -> Type} `{HDF5Laws ds}.

(** The first socket of an image writer, and their number. *)
Definition first_image_writer (d : writer_driver) : Z := if with_metadata_writer d then 1 else 0.
Definition image_writers (d : writer_driver) : Z := zlen (send_sockets d) - first_image_writer d.

Lemma image_writer_path d base k :
  0 <= k ->
  generate_file_path_for_writer (with_metadata_writer d) base (first_image_writer d + k) =
  base +:+ pretty k +:+ ".h5".
Proof.
  intros Hk. unfold generate_file_path_for_writer, first_image_writer. destruct (with_metadata_writer d); [|done].
  rewrite (proj2 (Z.eqb_neq (1 + k) 0)) by lia. by replace (1 + k - 1) with k by lia.
Qed.

(** The images of image writer [k]. *)
Lemma image_writer_images d k metas (i : nat) :
  wf_driver d -> 0 <= k < image_writers d ->
  for_writer (with_metadata_writer d) (zlen (send_sockets d)) (first_image_writer d + k) 0 metas !! i =
  metas !! (Z.to_nat k + i * Z.to_nat (image_writers d))%nat.
Proof.
  intros [_ _ Hw] Hk. unfold image_writers, first_image_writer in *.
  pose proof (for_writer_lookup (with_metadata_writer d) (zlen (send_sockets d)) (first_image_writer d + k) 0 metas i) as E.
  unfold first_image_writer in E. cbv zeta in E. rewrite E by (destruct (with_metadata_writer d); lia).
  do 3 f_equal. rewrite Z.mod_small; lia.
Qed.
End EndToEnd.


(** An instance: three images to two writers, the first of which gets images 7 and 9. *)
Definition demo_after : writer_driver :=
  match start demo_settings demo_env demo_driver with Ret (_, d) => d | _ => demo_driver end.

