(* ===== verification/DriverStates.v ===== *)
(** * std-det-driver: the threads of the process

    [src/source/std-det-driver/src/socket_session.cpp] with [writer_driver::start] and
    [state_manager]: the thread that handles requests, a monitor thread per session, and a
    thread per run share the state of the driver.  Every thread is its position between two
    accesses of the shared state; a step of the process is a step of one thread.  What a run does
    to the writers is modelled in [DetDriver]. *)

From S2P Require Import Prelude DetDriver.

(** ** Threads *)

(** The thread of [writer_driver::start] for [n] images, in front of: the state creating_file;
    the answers; the state waiting_for_first_image; the test of the recording loop; the receive;
    the state recording; the image count; the confirmation; the state saving_file; the answers;
    the final state. *)
Inductive run_pc : Type :=
| RCreate (n : Z)
| RAnswers (n : Z)
| RWait (n : Z)
| RTest (n i : Z)
| RReceive (n i : Z)
| RFirst (n i : Z)
| RCount (n i : Z)
| RConfirm
| RSave
| RClose
| RFinish (final : driver_state).

(** A step of a run: the state and the position afterwards, [None] at the end of the thread. *)
Inductive run_step : state_manager -> run_pc -> state_manager -> option run_pc -> Prop :=
| run_create m n : run_step m (RCreate n) (change_state creating_file m) (Some (RAnswers n))
| run_created m n : run_step m (RAnswers n) m (Some (RWait n))
| run_not_created m n : run_step m (RAnswers n) m (Some (RFinish error))
| run_wait m n : run_step m (RWait n) (change_state waiting_for_first_image m) (Some (RTest n 0))
| run_test m n i :
    run_step m (RTest n i) m (Some (if (i <? n) && is_recording m then RReceive n i else RConfirm))
| run_timeout m n i : run_step m (RReceive n i) m (Some (RTest n i))
| run_image m n i : run_step m (RReceive n i) m (Some (RFirst n i))
| run_first m n i :
    run_step m (RFirst n i) (if i =? 0 then change_state recording m else m) (Some (RCount n i))
| run_count m n i :
    run_step m (RCount n i) (update_image_count (u32 (i + 1)) m) (Some (RTest n (u32 (i + 1))))
| run_confirmed m : run_step m RConfirm m (Some RSave)
| run_not_confirmed m : run_step m RConfirm m None
| run_save m : run_step m RSave (change_state saving_file m) (Some RClose)
| run_closed m : run_step m RClose m (Some (RFinish file_saved))
| run_not_closed m : run_step m RClose m (Some (RFinish error))
| run_finish m final : run_step m (RFinish final) (change_state final m) None.

(** The loop of [monitor_writer_state], in front of reading the state, or of the state idle. *)
Inductive monitor_pc : Type := MWait | MReset.

(** A step of a monitor, with the status it sends to its client. *)
Inductive monitor_step : state_manager -> monitor_pc -> option driver_state -> state_manager -> monitor_pc -> Prop :=
| monitor_report m :
    monitor_step m MWait (Some (state m)) m
      (if bool_decide (state m = file_saved) || bool_decide (state m = error) then MReset else MWait)
| monitor_reset m : monitor_step m MReset None (change_state idle m) MWait.

(** The thread of the requests: waiting, or in [stop_recording] behind its test. *)
Inductive io_pc : Type := IoRead | IoStop.

Record process : Type := {
  p_manager : state_manager;
  p_io : io_pc;
  p_monitors : list monitor_pc;
  p_runs : list run_pc
}.

Inductive label : Type :=
| Lconnect | Ldisconnect | Lstart | Lreject | Lstop | Lstop_store
| Lmonitor (sent : option driver_state) | Lrun.

Inductive step : process -> label -> process -> Prop :=
| step_connect p :
    p_io p = IoRead ->
    step p Lconnect {| p_manager := add_active_session (p_manager p); p_io := IoRead;
                       p_monitors := p_monitors p ++ [MWait]; p_runs := p_runs p |}
| step_disconnect m ms1 ms2 rs :
    step {| p_manager := m; p_io := IoRead; p_monitors := ms1 ++ MWait :: ms2; p_runs := rs |} Ldisconnect
         {| p_manager := remove_active_session m; p_io := IoRead; p_monitors := ms1 ++ ms2; p_runs := rs |}
| step_start p n :
    p_io p = IoRead -> p_monitors p <> [] -> state (p_manager p) = idle ->
    step p Lstart {| p_manager := p_manager p; p_io := IoRead; p_monitors := p_monitors p;
                     p_runs := p_runs p ++ [RCreate n] |}
| step_reject p :
    p_io p = IoRead -> p_monitors p <> [] -> state (p_manager p) <> idle -> step p Lreject p
| step_stop p :
    p_io p = IoRead -> p_monitors p <> [] ->
    step p Lstop {| p_manager := p_manager p; p_io := if is_recording (p_manager p) then IoStop else IoRead;
                    p_monitors := p_monitors p; p_runs := p_runs p |}
| step_stop_store m ms rs :
    step {| p_manager := m; p_io := IoStop; p_monitors := ms; p_runs := rs |} Lstop_store
         {| p_manager := change_state stop m; p_io := IoRead; p_monitors := ms; p_runs := rs |}
| step_monitor m m' io ms1 pc sent pc' ms2 rs :
    monitor_step m pc sent m' pc' ->
    step {| p_manager := m; p_io := io; p_monitors := ms1 ++ pc :: ms2; p_runs := rs |} (Lmonitor sent)
         {| p_manager := m'; p_io := io; p_monitors := ms1 ++ pc' :: ms2; p_runs := rs |}
| step_run m m' io ms rs1 pc pc' rs2 :
    run_step m pc m' pc' ->
    step {| p_manager := m; p_io := io; p_monitors := ms; p_runs := rs1 ++ pc :: rs2 |} Lrun
         {| p_manager := m'; p_io := io; p_monitors := ms; p_runs := rs1 ++ option_list pc' ++ rs2 |}.

Definition process_new : process :=
  {| p_manager := manager_new; p_io := IoRead; p_monitors := []; p_runs := [] |}.

(** Processes reached by any steps. *)
Inductive reachable (p0 : process) : process -> Prop :=
| reach_here : reachable p0 p0
| reach_step p l p' : reachable p0 p -> step p l p' -> reachable p0 p'.

(** ** A client that waits for its run

    The client knows only what it sent and the statuses it was sent: it [waits] from a request to
    start that was accepted to the next status file_saved or error.  It has one connection at a
    time, may give it up and connect again in the middle of a run, sends stop whenever it likes,
    and a request to start only while it does not wait.  That the run behind the status has
    indeed ended is a theorem. *)

Definition client_sends (waits : bool) (p : process) (l : label) : Prop :=
  match l with
  | Lconnect => p_monitors p = []
  | Lstart | Lreject => waits = false
  | _ => True
  end.

Definition client_hears (waits : bool) (l : label) : bool :=
  match l with
  | Lstart => true
  | Lmonitor (Some file_saved) | Lmonitor (Some error) => false
  | _ => waits
  end.

Inductive client_reachable : process -> bool -> Prop :=
| client_here : client_reachable process_new false
| client_step p waits l p' :
    client_reachable p waits -> client_sends waits p l -> step p l p' ->
    client_reachable p' (client_hears waits l).

(** ** The state tells what the run does *)

(** The state while a run is at a position, unless it was stopped. *)
Definition phase (pc : run_pc) (s : driver_state) : Prop :=
  s = stop \/
  match pc with
  | RCreate _ => s = idle
  | RAnswers _ | RWait _ => s = creating_file
  | RTest _ _ | RReceive _ _ | RFirst _ _ | RCount _ _ | RConfirm | RSave =>
      s = waiting_for_first_image \/ s = recording
  | RClose => s = saving_file
  | RFinish final => (s = saving_file \/ (s = creating_file /\ final = error)) /\ (final = file_saved \/ final = error)
  end.

Record driver_inv (p : process) (waits : bool) : Prop := {
  inv_monitors : (length (p_monitors p) <= 1)%nat;
  inv_runs : (length (p_runs p) <= 1)%nat;
  inv_phase : Forall (fun pc => phase pc (state (p_manager p))) (p_runs p);
  inv_reset : MReset ∈ p_monitors p -> p_runs p = [] /\ state (p_manager p) <> idle;
  inv_waits : waits = false -> p_runs p = []
}.

Lemma phase_step m pc m' pc' :
  run_step m pc m' pc' -> phase pc (state m) -> Forall (fun pc => phase pc (state m')) (option_list pc').
Proof.
  unfold phase. intros Hs Hp. destruct Hs; cbn [option_list]; try apply Forall_nil_2; apply Forall_singleton;
    cbn in *; try (destruct (_ && _) || destruct (_ =? _)); naive_solver.
Qed.

(** A run behind its start is never in a state a monitor resets. *)
Lemma phase_not_final pc s : phase pc s -> s <> file_saved /\ s <> error.
Proof. unfold phase. destruct pc; naive_solver. Qed.

Lemma singleton_app {A} (l1 l2 : list A) x : (length (l1 ++ x :: l2) <= 1)%nat -> l1 = [] /\ l2 = [].
Proof. rewrite length_app. simpl. destruct l1, l2; simpl; try lia. done. Qed.

(** In a final state no run is left. *)
Lemma final_no_run s rs : Forall (fun pc => phase pc s) rs -> s = file_saved \/ s = error -> rs = [].
Proof.
  intros Hp Hs. destruct rs as [|pc rs]; [done|]. apply Forall_cons_1 in Hp as [Hp _].
  apply phase_not_final in Hp. naive_solver.
Qed.

Lemma inv_run_step m m' io ms rs1 pc pc' rs2 w :
  driver_inv {| p_manager := m; p_io := io; p_monitors := ms; p_runs := rs1 ++ pc :: rs2 |} w -> run_step m pc m' pc' ->
  driver_inv {| p_manager := m'; p_io := io; p_monitors := ms; p_runs := rs1 ++ option_list pc' ++ rs2 |} w.
Proof.
  intros [Hm Hr Hp Hreset Hw] Hs; cbn in *. destruct (singleton_app _ _ _ Hr) as [-> ->].
  apply Forall_cons_1 in Hp as [Hp _]. cbn. rewrite app_nil_r. split; cbn; try done.
  - destruct pc' as [?|]; simpl; lia.
  - by eapply phase_step.
  - by intros [? _]%Hreset.
  - by intros ?%Hw.
Qed.

Lemma inv_monitor_step m m' io ms1 pc sent pc' ms2 rs w :
  driver_inv {| p_manager := m; p_io := io; p_monitors := ms1 ++ pc :: ms2; p_runs := rs |} w ->
  monitor_step m pc sent m' pc' ->
  driver_inv {| p_manager := m'; p_io := io; p_monitors := ms1 ++ pc' :: ms2; p_runs := rs |}
             (client_hears w (Lmonitor sent)).
Proof.
  intros [Hm Hr Hp Hreset Hw] Hs; cbn in *. destruct (singleton_app _ _ _ Hm) as [-> ->]. cbn in *. destruct Hs as [m|m].
  - split; cbn; try done.
    + intros Hin%list_elem_of_singleton.
      destruct (bool_decide (state m = file_saved) || bool_decide (state m = error)) eqn:E; [|done].
      rewrite orb_true_iff, !bool_decide_eq_true in E. split; [by eapply final_no_run|by destruct E as [-> | ->]].
    + destruct (state m) eqn:E; try done; intros _; eapply final_no_run; eauto.
  - destruct Hreset as [-> _]; [by apply list_elem_of_singleton|]. split; cbn; try done.
    intros Hin%list_elem_of_singleton. done.
Qed.

Lemma driver_inv_step p w l p' :
  driver_inv p w -> client_sends w p l -> step p l p' -> driver_inv p' (client_hears w l).
Proof.
  intros Hinv Hc Hs. destruct Hs; cbn in Hc; cbn [client_hears].
  - destruct Hinv as [Hm Hr Hp Hreset Hw]. rewrite Hc in *. split; cbn; try done.
    intros Hin%list_elem_of_singleton. done.
  - destruct Hinv as [Hm Hr Hp Hreset Hw]; cbn in *. destruct (singleton_app _ _ _ Hm) as [-> ->].
    split; cbn; try done; [lia|]. by intros ?%elem_of_nil.
  - destruct Hinv as [Hm Hr Hp Hreset Hw]. rewrite (Hw Hc) in *. split; cbn; try done.
    + constructor; [|constructor]. by right.
    + intros [_ ?]%Hreset. done.
  - done.
  - destruct Hinv as [Hm Hr Hp Hreset Hw]. by split.
  - destruct Hinv as [Hm Hr Hp Hreset Hw]; cbn in *. split; cbn; try done.
    + eapply Forall_impl; [|exact Hp]. cbn. intros. by left.
    + intros [? _]%Hreset. done.
  - by eapply inv_monitor_step.
  - by eapply inv_run_step.
Qed.

Lemma client_driver_inv p waits : client_reachable p waits -> driver_inv p waits.
Proof.
  induction 1 as [|p w l p' _ IH Hc Hs]; [|by eapply driver_inv_step].
  split; cbn; try lia; [constructor|by intros ?%elem_of_nil|done].
Qed.

(** C13: one client with one connection at a time, that sends a request to start only when it has
    heard file_saved or error for the run it started before, and stop whenever it likes.  Whatever
    the interleaving of the threads and wherever it disconnects and connects again: when the
    client does not wait, no run is alive; there is never more than one run; the state of the
    driver is the phase of that run, or stop; a monitor is about to reset the state only when no
    run is alive and the state is not idle, so that a request to start is rejected before the
    reset; and in the state idle, in which requests to start are accepted, a run that is alive has
    not taken its first step.  (A client that does not wait gets two runs: [two_runs_at_once].) *)
Theorem driver_state_reflects_run p waits :
  client_reachable p waits ->
  (waits = false -> p_runs p = []) /\
  (length (p_runs p) <= 1)%nat /\ Forall (fun pc => phase pc (state (p_manager p))) (p_runs p) /\
  (MReset ∈ p_monitors p -> p_runs p = [] /\ state (p_manager p) <> idle) /\
  (state (p_manager p) = idle -> Forall (fun pc => exists n, pc = RCreate n) (p_runs p)).
Proof.
  intros [Hm Hl Hp Hreset Hw]%client_driver_inv. split_and!; try done. intros Hidle.
  rewrite Hidle in Hp. eapply Forall_impl; [|exact Hp]. cbn. unfold phase. intros []; naive_solver.
Qed.

(** A process with one connection. *)
Definition with_runs (s : driver_state) (images : Z) (mon : monitor_pc) (rs : list run_pc) : process :=
  {| p_manager := {| state := s; images_processed := images; active_sessions := 1 |}; p_io := IoRead;
     p_monitors := [mon]; p_runs := rs |}.

Lemma client_connects : client_reachable (with_runs idle 0 MWait []) false.
Proof. eapply (client_step process_new false Lconnect); [apply client_here|done|]. by apply step_connect. Qed.

Lemma client_starts images n :
  client_reachable (with_runs idle images MWait []) false ->
  client_reachable (with_runs idle images MWait [RCreate n]) true.
Proof.
  intros Hr. eapply (client_step _ false Lstart) in Hr; [exact Hr|done|].
  by apply (step_start (with_runs idle images MWait []) n).
Qed.

Lemma client_run m m' io ms pc pc' w :
  client_reachable {| p_manager := m; p_io := io; p_monitors := ms; p_runs := [pc] |} w -> run_step m pc m' pc' ->
  client_reachable {| p_manager := m'; p_io := io; p_monitors := ms; p_runs := option_list pc' |} w.
Proof.
  intros Hr Hs. eapply (client_step _ w Lrun) in Hr; [exact Hr|done|].
  pose proof (step_run m m' io ms [] pc pc' [] Hs) as H. simpl in H. by rewrite app_nil_r in H.
Qed.

Lemma client_monitor m m' io pc sent pc' rs w :
  client_reachable {| p_manager := m; p_io := io; p_monitors := [pc]; p_runs := rs |} w ->
  monitor_step m pc sent m' pc' ->
  client_reachable {| p_manager := m'; p_io := io; p_monitors := [pc']; p_runs := rs |} (client_hears w (Lmonitor sent)).
Proof.
  intros Hr Hs. eapply (client_step _ w (Lmonitor sent)) in Hr; [exact Hr|done|].
  exact (step_monitor m m' io [] pc sent pc' [] rs Hs).
Qed.

Ltac run_by Hr c :=
  eapply client_run in Hr; [|apply c]; cbn [option_list] in Hr.

Ltac monitor_by Hr c :=
  eapply client_monitor in Hr; [|apply c]; cbn in Hr.

(** A run of one image from its start to the report of the saved file and the reset, and the
    start of the next run, which is in front of the answers of the writers. *)
Definition demo_process : process := with_runs creating_file 0 MWait [RAnswers 3].

Lemma demo_process_reachable : client_reachable demo_process true.
Proof.
  pose proof (client_starts 0 1 client_connects) as Hr.
  run_by Hr run_create. run_by Hr run_created. run_by Hr run_wait. run_by Hr run_test.
  run_by Hr run_image. run_by Hr run_first. run_by Hr run_count. run_by Hr run_test.
  monitor_by Hr monitor_report.
  run_by Hr run_confirmed. run_by Hr run_save. run_by Hr run_closed. run_by Hr run_finish.
  monitor_by Hr monitor_report. monitor_by Hr monitor_reset.
  apply (client_starts 0 3) in Hr. run_by Hr run_create. exact Hr.
Qed.

Lemma driver_state_reflects_run_witness :
  (true = false -> p_runs demo_process = []) /\
  (length (p_runs demo_process) <= 1)%nat /\
  Forall (fun pc => phase pc (state (p_manager demo_process))) (p_runs demo_process) /\
  (MReset ∈ p_monitors demo_process -> p_runs demo_process = [] /\ state (p_manager demo_process) <> idle) /\
  (state (p_manager demo_process) = idle -> Forall (fun pc => exists n, pc = RCreate n) (p_runs demo_process)).
Proof. apply (driver_state_reflects_run demo_process true). exact demo_process_reachable. Defined.

(** ** A driver that does not come back *)

(** No run, no pending reset, and a state no monitor resets. *)
Record stuck (p : process) : Prop := {
  stuck_runs : p_runs p = [];
  stuck_monitors : MReset ∉ p_monitors p;
  stuck_state : state (p_manager p) ∈ [recording; waiting_for_first_image; stop]
}.

Lemma stuck_step p l p' : stuck p -> step p l p' -> stuck p'.
Proof.
  intros [Hr Hm Hst] Hs. destruct Hs; cbn in *; try (by destruct rs1).
  - split; cbn; [done|set_solver|done].
  - split; cbn; [done|set_solver|done].
  - rewrite H1 in Hst. set_solver.
  - by split.
  - by split.
  - split; cbn; [done|done|set_solver].
  - destruct H as [m|m]; [|set_solver].
    rewrite !bool_decide_eq_false_2 by (intros E; rewrite E in Hst; set_solver). by split.
Qed.

(** When a run ends because a writer did not confirm its last image, the driver is left in a
    state that no thread ever leaves: no further request to start is accepted, whatever the
    clients do and however many of them connect. *)
Lemma unconfirmed_driver_stuck p0 p :
  stuck p0 -> reachable p0 p -> p_runs p = [] /\ forall p', ~ step p Lstart p'.
Proof.
  intros Hs Hr. assert (H : stuck p) by (induction Hr; [done|by eapply stuck_step]).
  destruct H as [Hruns _ Hst]. split; [done|]. intros p' Hstep. inversion Hstep as [| |? ? ? ? Hidle| | | | |]; subst.
  rewrite Hidle in Hst. set_solver.
Qed.

Definition unconfirmed_process : process := with_runs recording 1 MWait [].

(** The driver gets there with a single client that records one image and waits for its end. *)
Lemma unconfirmed_reachable : client_reachable unconfirmed_process true.
Proof.
  pose proof (client_starts 0 1 client_connects) as Hr.
  run_by Hr run_create. run_by Hr run_created. run_by Hr run_wait. run_by Hr run_test.
  run_by Hr run_image. run_by Hr run_first. run_by Hr run_count. run_by Hr run_test.
  run_by Hr run_not_confirmed. exact Hr.
Qed.

Lemma unconfirmed_stuck : stuck unconfirmed_process.
Proof. split; [done|set_solver|set_solver]. Qed.

Lemma unconfirmed_driver_stuck_witness :
  p_runs unconfirmed_process = [] /\ forall p', ~ step unconfirmed_process Lstart p'.
Proof. apply (unconfirmed_driver_stuck unconfirmed_process unconfirmed_process); [exact unconfirmed_stuck|apply reach_here]. Defined.

(** Two requests to start in a row are both accepted: the state idle is left only by the thread of
    the first run. *)
Lemma two_runs_at_once :
  exists p, reachable process_new p /\ p_runs p = [RCreate 1; RCreate 2].
Proof.
  set (p1 := with_runs idle 0 MWait []).
  eexists. split.
  - eapply (reach_step _ (with_runs idle 0 MWait [RCreate 1]) Lstart); [|by apply (step_start _ 2)].
    eapply (reach_step _ p1 Lstart); [|by apply (step_start p1 1)].
    eapply (reach_step _ process_new Lconnect); [apply reach_here|]. by apply step_connect.
  - done.
Qed.
