(* ===== verification/GfGeometry.v ===== *)
(** * GigaFRoST frame geometry

    The size computations of [src/source/detectors/include/detectors/gigafrost.hpp], of
    the receiver's [main] ([src/source/std-udp-recv/src/gigafrost/main.cpp]) and of the
    converter's [calculate_data_sizes]
    ([src/source/std-data-convert/std-data-convert-gf/src/main.cpp]).  [uint32_t] products
    wrap; [x * 1.5] and [std::ceil(x / (double)y)] are exact here because every operand
    is below [2^32], so they are written as integer operations. *)

From S2P Require Import Prelude Formats.

(** ** gigafrost.hpp *)

Definition module_n_x_pixels (image_pixel_width : Z) : Z := u32 (Z.quot image_pixel_width 2).

Definition module_n_y_pixels (image_pixel_height : Z) : Z :=
  u32 (Z.quot (Z.quot image_pixel_height 2) 2).

Definition module_n_data_bytes (image_pixel_height image_pixel_width : Z) : Z :=
  u32 (u32 (module_n_x_pixels image_pixel_width * module_n_y_pixels image_pixel_height) * 3) / 2.

(** The rows of a module of the given width that fit into a packet. *)
Definition rows_in_packet (module_width : Z) : outcome Z :=
  let n_12pixel_blocks := module_width / 12 in
  let! q := udiv gf.PACKET_N_DATA_BYTES_MAX (u32 (36 * n_12pixel_blocks)) in
  let n_cache_line_blocks := u32 (q * n_12pixel_blocks) / 2 in
  udiv (u32 (n_cache_line_blocks * 48)) module_width.

Definition n_rows_per_packet (image_pixel_height image_pixel_width : Z) : outcome Z :=
  let module_width := module_n_x_pixels image_pixel_width in
  let module_height := module_n_y_pixels image_pixel_height in
  let! rows := rows_in_packet module_width in
  Ret (Z.min rows module_height).

(** The 36 padding bytes of a packet with an odd number of rows. *)
Definition row_padding (rows width : Z) : Z :=
  if (rows mod 2 =? 1) && negb (width mod 48 =? 0) then 36 else 0.

Definition n_data_bytes_per_packet (image_pixel_height image_pixel_width : Z) : outcome Z :=
  let! rows := n_rows_per_packet image_pixel_height image_pixel_width in
  let width := module_n_x_pixels image_pixel_width in
  Ret (u64 (u32 (width * rows) * 3 / 2 + row_padding rows width)).

(** [std::ceil(n / (double)d)]; the infinite quotient does not convert to [size_t]. *)
Definition ceil_div (n d : Z) : outcome Z :=
  if d =? 0 then Undef float_cast_range else Ret ((n + d - 1) / d).

Definition n_packets_per_frame (image_pixel_height image_pixel_width : Z) : outcome Z :=
  let! rows := n_rows_per_packet image_pixel_height image_pixel_width in
  ceil_div (module_n_y_pixels image_pixel_height) rows.

Definition last_packet_n_bytes (image_pixel_height image_pixel_width : Z) : outcome Z :=
  let! rows := n_rows_per_packet image_pixel_height image_pixel_width in
  let! r := umod (module_n_y_pixels image_pixel_height) rows in
  let last_packet_n_rows := if r =? 0 then rows else r in
  Ret (u32 (u32 (last_packet_n_rows * module_n_x_pixels image_pixel_width) * 3) / 2).

(** ** The receiver's constants (gigafrost/main.cpp) *)

Record gf_recv_sizes : Type := {
  width_in_pixels : Z;
  height_in_pixels : Z;
  bytes_per_module : Z;
  rows_per_packet : Z;
  bytes_per_packet : Z;
  packets_in_frame : Z;
  bytes_of_last_packet : Z;
  start_row_last_packet : Z;
  bytes_of_frame : Z
}.

Definition gf_recv_constants (image_pixel_height image_pixel_width : Z) : outcome gf_recv_sizes :=
  let width := module_n_x_pixels image_pixel_width in
  let height := module_n_y_pixels image_pixel_height in
  let! rows := n_rows_per_packet image_pixel_height image_pixel_width in
  let! per_packet := n_data_bytes_per_packet image_pixel_height image_pixel_width in
  let! packets := n_packets_per_frame image_pixel_height image_pixel_width in
  let! r := umod height rows in
  let last_rows := if r =? 0 then rows else r in
  let of_last := u64 (u64 (u64 (width * last_rows) * 3) / 2 + row_padding last_rows width) in
  Ret {| width_in_pixels := width; height_in_pixels := height;
         bytes_per_module := module_n_data_bytes image_pixel_height image_pixel_width;
         rows_per_packet := rows; bytes_per_packet := per_packet; packets_in_frame := packets;
         bytes_of_last_packet := of_last;
         start_row_last_packet := u64 (height - last_rows);
         bytes_of_frame := u64 (u64 (per_packet * u64 (packets - 1)) + of_last) |}.

(** ** The converter's input size (std-data-convert-gf/src/main.cpp) *)

Definition converter_module_bytes (image_pixel_height image_pixel_width : Z) : outcome Z :=
  let! per_packet := n_data_bytes_per_packet image_pixel_height image_pixel_width in
  let! packets := n_packets_per_frame image_pixel_height image_pixel_width in
  let! last := last_packet_n_bytes image_pixel_height image_pixel_width in
  Ret (u64 (u64 (per_packet * u64 (packets - 1)) + last)).

(** ** Lemmas *)

(** The sizes of the detector family: up to 2016 x 2016 pixels, at least one 12-pixel
    block per module row. *)
Definition gf_image_ok (h w : Z) : Prop := 4 <= h <= 2016 /\ 24 <= w <= 2016.

(** A packet of any module row length from 12 to 1008 pixels: between 1 and 1023 rows,
    whose bytes with the padding fit into the payload. *)
Lemma rows_in_packet_check :
  forallb (fun mw => match rows_in_packet mw with
             | Ret r => (0 <? r) && (r <? 1024) &&
                        (mw * r * 3 / 2 + 36 <=? gf.PACKET_N_DATA_BYTES_MAX)
             | _ => false end)
          (seqZ 12 997) = true.
Proof. vm_compute. reflexivity. Qed.

Lemma rows_in_packet_pos mw :
  12 <= mw <= 1008 -> exists r, rows_in_packet mw = Ret r /\ 0 < r < 1024 /\
    mw * r * 3 / 2 + 36 <= gf.PACKET_N_DATA_BYTES_MAX.
Proof.
  intros Hmw. pose proof rows_in_packet_check as Hc. rewrite forallb_forall in Hc.
  specialize (Hc mw). assert (Hin : List.In mw (seqZ 12 997)).
  { apply list_elem_of_In, elem_of_seqZ. lia. }
  specialize (Hc Hin). destruct (rows_in_packet mw) as [r|e|u]; try done.
  exists r. split; [done|]. rewrite !andb_true_iff in Hc. lia.
Qed.

Lemma module_dims h w :
  gf_image_ok h w ->
  module_n_x_pixels w = w / 2 /\ module_n_y_pixels h = h / 4 /\
  12 <= w / 2 <= 1008 /\ 1 <= h / 4 <= 504.
Proof.
  intros [Hh Hw]. unfold module_n_x_pixels, module_n_y_pixels.
  rewrite (Z.quot_div_nonneg w), (Z.quot_div_nonneg h) by lia.
  rewrite Z.quot_div_nonneg by (try apply Z.div_pos; lia).
  rewrite Z.div_div by lia. change (2 * 2) with 4.
  assert (12 <= w / 2 <= 1008) by (split; [apply Z.div_le_lower_bound|apply Z.div_le_upper_bound]; lia).
  assert (1 <= h / 4 <= 504) by (split; [apply Z.div_le_lower_bound|apply Z.div_le_upper_bound]; lia).
  rewrite !u32_small by lia. done.
Qed.

Lemma n_rows_per_packet_pos h w :
  gf_image_ok h w -> exists r, n_rows_per_packet h w = Ret r /\ 0 < r < 1024 /\ r <= h / 4 /\
    w / 2 * r * 3 / 2 + 36 <= gf.PACKET_N_DATA_BYTES_MAX.
Proof.
  intros Hok. destruct (module_dims h w Hok) as (Hx & Hy & Hmw & Hmh).
  unfold n_rows_per_packet. rewrite Hx, Hy.
  destruct (rows_in_packet_pos (w / 2) Hmw) as (r & -> & Hr & Hb). simpl.
  eexists. split; [done|]. split; [lia|]. split; [lia|].
  etrans; [|exact Hb]. apply Z.add_le_mono_r, Z.div_le_mono; nia.
Qed.

(** Number of packets and rows of the last packet of a column of [mh] rows. *)
Lemma packets_and_last mh r :
  0 < mh -> 0 < r ->
  let n := (mh + r - 1) / r in
  let last := if mh mod r =? 0 then r else mh mod r in
  1 <= n <= mh /\ 1 <= last <= r /\ mh = (n - 1) * r + last.
Proof.
  intros Hm Hr n last. unfold n, last. clear n last.
  pose proof (Z.div_mod mh r ltac:(lia)) as Hd. pose proof (Z.mod_pos_bound mh r Hr) as Hb.
  destruct (Z.eqb_spec (mh mod r) 0) as [E|E].
  - assert (Hn : (mh + r - 1) / r = mh / r).
    { symmetry. apply Z.div_unique with (r - 1); [left; lia|]. lia. }
    rewrite Hn. nia.
  - assert (Hn : (mh + r - 1) / r = mh / r + 1).
    { symmetry. apply Z.div_unique with (mh mod r - 1); [left; lia|]. lia. }
    rewrite Hn. pose proof (Z.div_pos mh r ltac:(lia) Hr). nia.
Qed.

Lemma row_padding_even rows width : width mod 48 = 0 -> row_padding rows width = 0.
Proof. intros H. unfold row_padding. by rewrite H, Z.eqb_refl, andb_false_r. Qed.

Lemma row_padding_range rows width : 0 <= row_padding rows width <= 36.
Proof. unfold row_padding. destruct (_ && _); lia. Qed.

(** The receiver's constants, written out: nothing wraps and no division fails. *)
Lemma gf_sizes h w :
  gf_image_ok h w ->
  exists r last,
    let mw := w / 2 in let mh := h / 4 in let n := (mh + r - 1) / r in
    let pkt := mw * r * 3 / 2 + row_padding r mw in
    let lst := mw * last * 3 / 2 + row_padding last mw in
    0 < r <= mh /\ 1 <= last <= r /\ 1 <= n <= mh /\ mh = (n - 1) * r + last /\
    0 <= pkt <= gf.PACKET_N_DATA_BYTES_MAX /\ 0 <= lst <= gf.PACKET_N_DATA_BYTES_MAX /\
    gf_recv_constants h w = Ret
      {| width_in_pixels := mw; height_in_pixels := mh; bytes_per_module := mw * mh * 3 / 2;
         rows_per_packet := r; bytes_per_packet := pkt; packets_in_frame := n;
         bytes_of_last_packet := lst; start_row_last_packet := (n - 1) * r;
         bytes_of_frame := pkt * (n - 1) + lst |} /\
    converter_module_bytes h w = Ret (pkt * (n - 1) + mw * last * 3 / 2).
Proof.
  intros Hok. destruct (module_dims h w Hok) as (Hx & Hy & Hmw & Hmh).
  destruct (n_rows_per_packet_pos h w Hok) as (r & Hr & Hr0 & Hrm & Hb).
  destruct (packets_and_last (h / 4) r) as (Hn & Hl & Hsum); [lia..|].
  exists r, (if h / 4 mod r =? 0 then r else h / 4 mod r). cbv zeta.
  change gf.PACKET_N_DATA_BYTES_MAX with 7400 in *.
  set (last := if h / 4 mod r =? 0 then r else h / 4 mod r) in *.
  set (n := (h / 4 + r - 1) / r) in *. set (mh := h / 4) in *. set (mw := w / 2) in *.
  assert (Hle : mw * last * 3 / 2 <= mw * r * 3 / 2) by (apply Z.div_le_mono; nia).
  assert (0 <= mw * last * 3 / 2) by (apply Z.div_pos; nia).
  pose proof (row_padding_range r mw). pose proof (row_padding_range last mw).
  assert (Hpkt : n_data_bytes_per_packet h w = Ret (mw * r * 3 / 2 + row_padding r mw)).
  { unfold n_data_bytes_per_packet. rewrite Hr. simpl. rewrite Hx. fold mw.
    rewrite (u32_small (mw * r)) by nia. rewrite u64_small by lia. done. }
  assert (Hpkts : n_packets_per_frame h w = Ret n).
  { unfold n_packets_per_frame, ceil_div. rewrite Hr, Hy. simpl.
    destruct (Z.eqb_spec r 0); [lia|done]. }
  set (pkt := mw * r * 3 / 2 + row_padding r mw) in *.
  assert (Hframe : forall k, 0 <= k <= 7400 -> u64 (u64 (pkt * u64 (n - 1)) + k) = pkt * (n - 1) + k).
  { intros k Hk. rewrite (u64_small (n - 1)) by lia.
    rewrite (u64_small (pkt * _)) by nia. rewrite u64_small by nia. done. }
  split_and!; try lia.
  - unfold gf_recv_constants. rewrite Hr, Hpkt, Hpkts, Hx, Hy. simpl.
    rewrite umod_ret by lia. simpl. fold mh. fold last. fold mw.
    rewrite (u64_small (mw * last)) by nia. rewrite (u64_small (mw * last * 3)) by nia.
    rewrite (u64_small (mw * last * 3 / 2 + _)) by lia. rewrite Hframe by lia.
    rewrite u64_small by lia. unfold module_n_data_bytes. rewrite Hx, Hy. fold mh. fold mw.
    rewrite (u32_small (mw * mh)) by nia. rewrite u32_small by nia.
    replace (mh - last) with ((n - 1) * r) by lia. done.
  - unfold converter_module_bytes. rewrite Hpkt, Hpkts. simpl.
    unfold last_packet_n_bytes. rewrite Hr, Hx, Hy. simpl. rewrite umod_ret by lia. simpl.
    fold mh. fold last. fold mw. rewrite (u32_small (last * mw)) by nia.
    rewrite u32_small by nia. rewrite (Z.mul_comm last), Hframe by lia. done.
Qed.

(** The sizes when the module width is a multiple of 48 pixels ([2 * a]). *)
Lemma gf_sizes_48 h w a :
  gf_image_ok h w -> w / 2 = 2 * a -> (w / 2) mod 48 = 0 ->
  exists r last,
    let mh := h / 4 in let n := (mh + r - 1) / r in
    0 < r <= mh /\ 1 <= last <= r /\ 1 <= n <= mh /\ mh = (n - 1) * r + last /\
    3 * a * r <= gf.PACKET_N_DATA_BYTES_MAX /\
    gf_recv_constants h w = Ret
      {| width_in_pixels := 2 * a; height_in_pixels := mh; bytes_per_module := 3 * a * mh;
         rows_per_packet := r; bytes_per_packet := 3 * a * r; packets_in_frame := n;
         bytes_of_last_packet := 3 * a * last; start_row_last_packet := (n - 1) * r;
         bytes_of_frame := 3 * a * mh |} /\
    converter_module_bytes h w = Ret (3 * a * mh).
Proof.
  intros Hok Ha H48.
  destruct (gf_sizes h w Hok) as (r & last & Hr & Hl & Hn & Hs & Hp & _ & Hc & Hv).
  exists r, last. cbv zeta in *. rewrite !row_padding_even, Ha in * by done.
  assert (Hhalf : forall k, 2 * a * k * 3 / 2 = 3 * a * k).
  { intros k. replace (2 * a * k * 3) with (3 * a * k * 2) by lia. apply Z.div_mul. lia. }
  rewrite !Hhalf, !Z.add_0_r in *. split_and!; try lia.
  - rewrite Hc. do 2 f_equal. nia.
  - rewrite Hv. f_equal. nia.
Qed.

(** For every image size of the detector family the receiver's size computations
    neither divide by zero nor wrap, the payload of every packet fits into the data area of a
    packet, and the packets' rows add up to the rows of a module. *)
Lemma gf_packet_bounds h w :
  gf_image_ok h w ->
  exists sz, gf_recv_constants h w = Ret sz /\
    0 <= bytes_per_packet sz <= gf.PACKET_N_DATA_BYTES_MAX /\
    0 <= bytes_of_last_packet sz <= gf.PACKET_N_DATA_BYTES_MAX /\
    1 <= packets_in_frame sz /\
    start_row_last_packet sz = (packets_in_frame sz - 1) * rows_per_packet sz /\
    start_row_last_packet sz < height_in_pixels sz <=
      start_row_last_packet sz + rows_per_packet sz.
Proof.
  intros Hok. destruct (gf_sizes h w Hok) as (r & last & Hr & Hl & Hn & Hs & Hp & Hq & Hc & _).
  eexists. split; [exact Hc|]. simpl. split_and!; lia.
Qed.

Lemma gf_packet_bounds_witness :
  exists sz, gf_recv_constants 2016 2016 = Ret sz /\
    0 <= bytes_per_packet sz <= gf.PACKET_N_DATA_BYTES_MAX /\
    0 <= bytes_of_last_packet sz <= gf.PACKET_N_DATA_BYTES_MAX /\
    1 <= packets_in_frame sz /\
    start_row_last_packet sz = (packets_in_frame sz - 1) * rows_per_packet sz /\
    start_row_last_packet sz < height_in_pixels sz <=
      start_row_last_packet sz + rows_per_packet sz.
Proof. apply (gf_packet_bounds 2016 2016). unfold gf_image_ok. lia. Defined.

(** Receiver and converter agree on the size of a module frame when the module
    width is a multiple of 48 pixels: the receiver's frame buffer, its shared-memory slot and
    the converter's input all hold 1.5 bytes per pixel of the module. *)
Lemma gf_frame_sizes_agree h w :
  gf_image_ok h w -> (w / 2) mod 48 = 0 ->
  exists sz, gf_recv_constants h w = Ret sz /\
    converter_module_bytes h w = Ret (bytes_of_frame sz) /\
    bytes_of_frame sz = bytes_per_module sz /\
    2 * bytes_of_frame sz = 3 * (width_in_pixels sz * height_in_pixels sz).
Proof.
  intros Hok H48.
  assert (Ha : w / 2 = 2 * (w / 2 / 2)).
  { pose proof (Z.div_mod (w / 2) 48 ltac:(lia)) as Hd. rewrite H48 in Hd.
    rewrite Hd at 2. replace (48 * (w / 2 / 48) + 0) with (24 * (w / 2 / 48) * 2) by lia.
    rewrite Z.div_mul by lia. lia. }
  destruct (gf_sizes_48 h w _ Hok Ha H48) as (r & last & Hr & Hl & Hn & Hs & Hp & Hc & Hv).
  eexists. split; [exact Hc|]. simpl. split; [exact Hv|]. split; [done|]. lia.
Qed.

Lemma gf_frame_sizes_agree_witness :
  exists sz, gf_recv_constants 480 960 = Ret sz /\
    converter_module_bytes 480 960 = Ret (bytes_of_frame sz) /\
    bytes_of_frame sz = bytes_per_module sz /\
    2 * bytes_of_frame sz = 3 * (width_in_pixels sz * height_in_pixels sz).
Proof. apply (gf_frame_sizes_agree 480 960); [unfold gf_image_ok; lia|reflexivity]. Defined.

(** The three sizes differ for a 360 x 300 image: the last packet is copied beyond the end
    of the frame buffer, and producer and consumer disagree on the slot size. *)
Lemma gf_frame_sizes_disagree :
  exists sz, gf_recv_constants 300 360 = Ret sz /\
    bytes_per_module sz = 20250 /\ bytes_of_frame sz = 20358 /\
    converter_module_bytes 300 360 = Ret 20322 /\
    u32 (start_row_last_packet sz * width_in_pixels sz) * 3 / 2 + bytes_of_last_packet sz
      = bytes_per_module sz + 36.
Proof. eexists. split; [vm_compute; reflexivity|]. repeat split; reflexivity. Qed.
