(* ===== verification/Assembly.v ===== *)
(** * Reassembling frames from packets: the abstract machine

    The three UDP receivers ([src/source/std-udp-recv/src/*/main.cpp]) share one
    discipline: packets of the current frame are copied into one frame buffer, the last
    packet of the frame flushes it, and a packet of another frame flushes what was left
    behind by a lost last packet.  This file states that discipline once, proves what it
    achieves for a stream of packets, and states as a class what a receiver has to show to
    inherit it. *)

From S2P Require Import Prelude.

Record a_packet (M : Type) : Type := {
  ap_frame : Z;
  ap_meta : M;
  ap_off : Z;
  ap_data : list Z;
  ap_last : bool
}.
Arguments ap_frame {M} _.
Arguments ap_meta {M} _.
Arguments ap_off {M} _.
Arguments ap_data {M} _.
Arguments ap_last {M} _.

(** [out] is what was handed over: metadata of the frame's first packet, the missing
    count, the contents of the frame buffer. *)
Record a_state (M : Type) : Type := {
  cur : option (Z * M);
  missing : Z;
  buf : list Z;
  out : list (M * Z * list Z)
}.
Arguments Build_a_state {M} _ _ _ _.
Arguments cur {M} _.
Arguments missing {M} _.
Arguments buf {M} _.
Arguments out {M} _.

(** ** Copying packets over a frame buffer *)

Definition copy1 {M} (b : list Z) (p : a_packet M) : list Z :=
  list_inserts (Z.to_nat (ap_off p)) (ap_data p) b.

(** The frame buffer after the packets [ps]. *)
Definition overlay {M} (b : list Z) (ps : list (a_packet M)) : list Z := fold_left copy1 ps b.

Definition covers {M} (p : a_packet M) (i : nat) : bool :=
  (ap_off p <=? Z.of_nat i) && (Z.of_nat i <? ap_off p + zlen (ap_data p)).

(** The packet's payload lies in a buffer of [n] bytes. *)
Definition fits {M} (n : Z) (p : a_packet M) : Prop :=
  0 <= ap_off p /\ ap_off p + zlen (ap_data p) <= n.

(** The packet carries the part of [img] at its offset. *)
Definition slice_of {M} (img : list Z) (p : a_packet M) : Prop :=
  mem_read img (ap_off p) (zlen (ap_data p)) = Ret (ap_data p).

Lemma covers_true {M} (p : a_packet M) i :
  covers p i = true <-> ap_off p <= Z.of_nat i < ap_off p + zlen (ap_data p).
Proof. unfold covers. rewrite andb_true_iff, Z.leb_le, Z.ltb_lt. tauto. Qed.

Lemma copy1_write {M} b (p : a_packet M) :
  fits (zlen b) p -> mem_write b (ap_off p) (ap_data p) = Ret (copy1 b p).
Proof. intros [? ?]. by apply mem_write_ret. Qed.

Lemma zlen_overlay {M} b (ps : list (a_packet M)) : zlen (overlay b ps) = zlen b.
Proof.
  unfold overlay. revert b. induction ps as [|p ps IH]; intros b; simpl; [done|].
  rewrite IH. unfold copy1, zlen. by rewrite length_inserts.
Qed.

Lemma slice_fits {M} img (p : a_packet M) : slice_of img p -> fits (zlen img) p.
Proof. intros (?&?&?&_)%mem_read_inv. done. Qed.

(** Each cell holds the image's byte where some packet brought it and its old contents
    elsewhere: the order of the packets and repeated packets do not matter. *)
Lemma overlay_lookup {M} img b (ps : list (a_packet M)) i :
  zlen img = zlen b -> Forall (slice_of img) ps ->
  overlay b ps !! i = if existsb (fun p => covers p i) ps then img !! i else b !! i.
Proof.
  revert b. induction ps as [|p ps IH]; intros b Hl Hps; [done|].
  apply Forall_cons_1 in Hps as [Hp Hps]. unfold overlay in *. simpl.
  assert (Hw := copy1_write b p). rewrite <- Hl in Hw. specialize (Hw (slice_fits _ _ Hp)).
  assert (Hlw := mem_write_zlen _ _ _ _ Hw). rewrite (IH (copy1 b p)) by (done || congruence).
  destruct (covers p i) eqn:Hc; simpl.
  - destruct (existsb _ ps); [done|]. apply covers_true in Hc.
    rewrite (mem_write_lookup _ _ _ _ _ Hw), decide_True by done.
    assert (Hlt : Z.of_nat (Z.to_nat (Z.of_nat i - ap_off p)) < zlen (ap_data p)) by lia.
    rewrite (mem_read_lookup _ _ _ _ _ Hp Hlt). f_equal.
    apply mem_read_inv in Hp. lia.
  - destruct (existsb _ ps); [done|]. rewrite (mem_write_lookup _ _ _ _ _ Hw), decide_False; [done|].
    rewrite <- covers_true, Hc. done.
Qed.

(** All parts received: the buffer is the image. *)
Lemma overlay_complete {M} img b (ps : list (a_packet M)) :
  zlen img = zlen b -> Forall (slice_of img) ps ->
  (forall i : nat, Z.of_nat i < zlen img -> existsb (fun p => covers p i) ps = true) ->
  overlay b ps = img.
Proof.
  intros Hl Hps Hc. apply list_eq. intros i. rewrite (overlay_lookup img) by done.
  destruct (decide (Z.of_nat i < zlen img)) as [Hi|Hi]; [by rewrite Hc|].
  destruct (existsb _ _); [done|]. unfold zlen in *.
  rewrite !lookup_ge_None_2 by lia. done.
Qed.

(** ** The machine *)

Section Machine.
Context {M : Type}.
(** Packets per frame, and whether a frame whose first packet is its last one is flushed
    at once. *)
Variable (n : Z) (flush_first : bool).

Definition accumulate (st : a_state M) (p : a_packet M) : outcome (a_state M) :=
  let! b := mem_write (buf st) (ap_off p) (ap_data p) in
  Ret (Build_a_state (cur st) (u64 (missing st - 1)) b (out st)).

Definition flush (st : a_state M) : a_state M :=
  match cur st with
  | Some (_, m) => Build_a_state None (missing st) (buf st) (out st ++ [(m, missing st, buf st)])
  | None => st
  end.

Definition start (st : a_state M) (p : a_packet M) : a_state M :=
  Build_a_state (Some (ap_frame p, ap_meta p)) n (buf st) (out st).

Definition is_current (st : a_state M) (p : a_packet M) : bool :=
  match cur st with Some (f, _) => f =? ap_frame p | None => false end.

Definition a_step (st : a_state M) (p : a_packet M) : outcome (a_state M) :=
  if is_current st p then
    let! st' := accumulate st p in
    Ret (if ap_last p then flush st' else st')
  else
    let! st' := accumulate (start (flush st) p) p in
    Ret (if flush_first && ap_last p then flush st' else st').

Definition a_run (ps : list (a_packet M)) (st : a_state M) : outcome (a_state M) :=
  foldO a_step ps st.

(** The packets of one frame as they arrive: at least one, all of the frame, and the
    frame's last packet, when it is not lost, behind the others. *)
Record burst (size : Z) (ps : list (a_packet M)) : Prop := {
  burst_len : 1 <= zlen ps <= n;
  burst_frame : forall p q, p ∈ ps -> q ∈ ps -> ap_frame p = ap_frame q;
  burst_fits : Forall (fits size) ps;
  burst_last : exists q l, ps = q ++ [l] /\ Forall (fun p => ap_last p = false) q
}.

Definition burst_id (ps : list (a_packet M)) : option Z := ap_frame <$> head ps.

(** The bursts of a stream: neighbours belong to different frames. *)
Fixpoint stream (size : Z) (prev : option Z) (fs : list (list (a_packet M))) : Prop :=
  match fs with
  | [] => True
  | ps :: fs' => burst size ps /\ burst_id ps <> prev /\ stream size (burst_id ps) fs'
  end.

(** What the machine has to hand over for a stream: one entry per frame, in order, with
    the metadata of its first packet, the number of packets that did not arrive, and the
    frame buffer. *)
Fixpoint expected (b : list Z) (fs : list (list (a_packet M))) : list (M * Z * list Z) :=
  match fs with
  | [] => []
  | ps :: fs' =>
      let b' := overlay b ps in
      match ps with
      | [] => expected b' fs'
      | p :: _ => (ap_meta p, n - zlen ps, b') :: expected b' fs'
      end
  end.

Lemma accumulate_ok st p :
  fits (zlen (buf st)) p ->
  accumulate st p = Ret (Build_a_state (cur st) (u64 (missing st - 1)) (copy1 (buf st) p) (out st)).
Proof. intros H. unfold accumulate. by rewrite copy1_write. Qed.

(** Packets in the middle of a frame. *)
Lemma a_run_middle ps st f m :
  cur st = Some (f, m) -> Forall (fun p => ap_frame p = f /\ ap_last p = false) ps ->
  Forall (fits (zlen (buf st))) ps -> zlen ps <= missing st < 2 ^ 64 ->
  a_run ps st = Ret (Build_a_state (Some (f, m)) (missing st - zlen ps) (overlay (buf st) ps) (out st)).
Proof.
  revert st. induction ps as [|p ps IH]; intros [c k b o] Hc Hf Hfit Hm; simpl in *.
  - subst. rewrite Z.sub_0_r. done.
  - apply Forall_cons_1 in Hf as [[Hpf Hpl] Hf]. apply Forall_cons_1 in Hfit as [Hp Hfit].
    rewrite zlen_cons in *. pose proof (zlen_nonneg ps).
    unfold a_run. simpl. unfold a_step at 1, is_current. simpl. subst c. rewrite Hpf, Z.eqb_refl.
    rewrite accumulate_ok by done. simpl. rewrite Hpl, u64_small by lia.
    unfold a_run in IH. rewrite IH; simpl.
    + do 2 f_equal. lia.
    + done.
    + done.
    + change (copy1 b p) with (overlay b [p]). by rewrite zlen_overlay.
    + lia.
Qed.

Lemma buf_flush st : buf (flush st) = buf st.
Proof. unfold flush. by destruct (cur st) as [[]|]. Qed.

Lemma zlen_copy1 b (p : a_packet M) : zlen (copy1 b p) = zlen b.
Proof. unfold copy1, zlen. by rewrite length_inserts. Qed.

(** The first packet of a frame. *)
Lemma a_step_new st p :
  1 <= n < 2 ^ 64 -> fits (zlen (buf st)) p -> Some (ap_frame p) <> (fst <$> cur st) ->
  a_step st p = Ret (let st' := Build_a_state (Some (ap_frame p, ap_meta p)) (n - 1)
                       (copy1 (buf st) p) (out (flush st)) in
                     if flush_first && ap_last p then flush st' else st').
Proof.
  intros Hn Hp Hid. unfold a_step, is_current.
  replace (match cur st with Some (f, _) => f =? ap_frame p | None => false end) with false.
  - rewrite accumulate_ok by (simpl; by rewrite buf_flush). simpl.
    by rewrite u64_small, buf_flush by lia.
  - destruct (cur st) as [[f m]|]; [|done]. symmetry. apply Z.eqb_neq. intros ->. by apply Hid.
Qed.

(** The rest of a frame, up to the packet that may be its last. *)
Lemma a_run_rest q l st f m :
  cur st = Some (f, m) -> Forall (fun p => ap_frame p = f) (q ++ [l]) ->
  Forall (fun p => ap_last p = false) q -> Forall (fits (zlen (buf st))) (q ++ [l]) ->
  zlen (q ++ [l]) <= missing st < 2 ^ 64 ->
  a_run (q ++ [l]) st =
    Ret (let st' := Build_a_state (Some (f, m)) (missing st - zlen (q ++ [l]))
                      (overlay (buf st) (q ++ [l])) (out st) in
         if ap_last l then flush st' else st').
Proof.
  intros Hc Hf Hq Hfit Hm. apply Forall_app in Hf as [Hfq [Hfl _]%Forall_cons_1].
  apply Forall_app in Hfit as [Hfitq [Hfitl _]%Forall_cons_1].
  rewrite zlen_app, zlen_cons in *. change (zlen (@nil (a_packet M))) with 0 in *.
  pose proof (zlen_nonneg q).
  unfold a_run. rewrite foldO_app. change (foldO a_step q st) with (a_run q st).
  rewrite (a_run_middle q st f m) by
    first [done | lia | apply list.Forall_and; by split].
  simpl. unfold a_step at 1, is_current. simpl. rewrite Hfl, Z.eqb_refl.
  rewrite accumulate_ok by (simpl; by rewrite zlen_overlay). simpl.
  rewrite u64_small by lia. unfold overlay. rewrite fold_left_app. simpl.
  replace (missing st - zlen q - 1) with (missing st - (zlen q + (1 + 0))) by lia. done.
Qed.

(** A burst, received when another frame is current: the old frame is flushed, and the
    burst ends as one more hand-over, done now or pending. *)
Lemma a_run_burst ps st :
  n < 2 ^ 64 -> burst (zlen (buf st)) ps ->
  burst_id ps <> (fst <$> cur st) ->
  exists p0 ps' st', ps = p0 :: ps' /\ a_run ps st = Ret st' /\
    out (flush st') = out (flush st) ++ [(ap_meta p0, n - zlen ps, overlay (buf st) ps)] /\
    buf st' = overlay (buf st) ps /\
    (cur st' = None \/ fst <$> cur st' = burst_id ps) /\
    (forall q l, ps = q ++ [l] -> ap_last l = true -> (flush_first = true \/ q <> []) ->
       cur st' = None).
Proof.
  intros Hn64 [Hlen Hfr Hfit (q & l & Hps & Hq)] Hid.
  destruct ps as [|p0 ps']; [by destruct q|]. exists p0, ps'.
  rewrite zlen_cons in Hlen. pose proof (zlen_nonneg ps').
  apply Forall_cons_1 in Hfit as [Hp0 Hfit].
  unfold a_run. simpl. rewrite a_step_new by (done || lia). simpl.
  destruct q as [|q0 q]; simpl in Hps; injection Hps as -> ->; simpl.
  - eexists. split; [done|]. split; [done|]. rewrite zlen_cons.
    destruct (flush_first && ap_last l) eqn:Hff; simpl; split_and!; eauto.
    intros [|? [|]] l' E Hl Hor; try done. simplify_eq/=.
    rewrite Hl, andb_true_r in Hff. naive_solver.
  - apply Forall_cons_1 in Hq as [-> Hq]. rewrite andb_false_r.
    change (foldO a_step (q ++ [l])) with (a_run (q ++ [l])).
    rewrite (a_run_rest _ _ _ (ap_frame q0) (ap_meta q0)); simpl; rewrite ?zlen_copy1; try done; [| |lia].
    + eexists. split; [done|]. split; [done|].
      rewrite (zlen_cons q0). replace (n - 1 - zlen (q ++ [l])) with (n - (1 + zlen (q ++ [l]))) by lia.
      destruct (ap_last l) eqn:Hl; simpl; split_and!; eauto.
      intros q' l' E Hl' _. change (q0 :: q ++ [l]) with ((q0 :: q) ++ [l]) in E.
      apply app_inj_tail in E as [_ ->]. congruence.
    + apply list.Forall_forall. intros p Hp. apply Hfr; set_solver.
Qed.

(** A burst that ends with the frame's last packet, received by an idle machine. *)
Lemma a_run_closed q l p0 ps st :
  n < 2 ^ 64 -> burst (zlen (buf st)) (p0 :: ps) -> cur st = None ->
  p0 :: ps = q ++ [l] -> ap_last l = true -> (flush_first = true \/ q <> []) ->
  exists st', a_run (p0 :: ps) st = Ret st' /\ cur st' = None /\
    out st' = out st ++ [(ap_meta p0, n - zlen (p0 :: ps), overlay (buf st) (p0 :: ps))].
Proof.
  intros Hn Hb Hc Hq Hl Hff.
  destruct (a_run_burst (p0 :: ps) st Hn Hb) as (x & xs & st' & [= <- <-] & Hr & Ho & _ & _ & Hcur).
  { by rewrite Hc. }
  exists st'. split; [done|]. assert (Hcn := Hcur q l Hq Hl Hff). split; [done|].
  unfold flush in Ho. by rewrite Hcn, Hc in Ho.
Qed.

(** The whole stream: the hand-overs, with the pending one, are the expected ones. *)
Lemma a_run_stream fs st :
  n < 2 ^ 64 -> stream (zlen (buf st)) (fst <$> cur st) fs ->
  exists st', a_run (concat fs) st = Ret st' /\
    out (flush st') = out (flush st) ++ expected (buf st) fs /\
    buf st' = overlay (buf st) (concat fs).
Proof.
  intros Hn. revert st. induction fs as [|ps fs IH]; intros st Hs; simpl.
  - exists st. rewrite app_nil_r. done.
  - destruct Hs as (Hb & Hid & Hs).
    destruct (a_run_burst ps st Hn Hb Hid) as (p0 & ps' & st1 & Eps & Hr & Ho & Hbuf & Hc & _).
    destruct (IH st1) as (st' & Hr' & Ho' & Hb').
    { rewrite Hbuf, zlen_overlay. destruct Hc as [Hc|Hc].
      - destruct fs; [done|]. destruct Hs as (?&?&?). rewrite Hc. split_and!; try done.
        simpl. destruct l; [|done]. destruct H as [? _ _ _]. vm_compute in burst_len0. naive_solver.
      - by rewrite Hc. }
    exists st'. unfold a_run in *. rewrite foldO_app, Hr. simpl. split; [done|].
    rewrite Ho', Ho, Hbuf, <- app_assoc. split.
    + subst ps. done.
    + rewrite Hb', Hbuf. unfold overlay. by rewrite fold_left_app.
Qed.
End Machine.

(** ** The interface of a receiver

    [FrameReceiver]: the receiver's handling of a packet simulates the abstract machine
    on the packets it accepts. *)

Class FrameReceiver (St P M : Type) : Type := {
  r_step : St -> P -> outcome St;
  r_packets : Z;
  r_flush_first : bool;
  r_abs : P -> a_packet M;
  r_ok : P -> Prop;
  r_rel : St -> a_state M -> Prop;
  r_sim : forall st a p a', r_rel st a -> r_ok p ->
    a_step r_packets r_flush_first a (r_abs p) = Ret a' ->
    exists st', r_step st p = Ret st' /\ r_rel st' a'
}.

Lemma receiver_run `{FrameReceiver St P M} ps st a a' :
  r_rel st a -> Forall r_ok ps ->
  a_run r_packets r_flush_first (r_abs <$> ps) a = Ret a' ->
  exists st', foldO r_step ps st = Ret st' /\ r_rel st' a'.
Proof.
  revert st a. induction ps as [|p ps IH]; intros st a Hrel Hok; simpl.
  - intros [= <-]. eauto.
  - apply Forall_cons_1 in Hok as [Hp Hok]. unfold a_run. simpl.
    rewrite obind_Ret_iff. intros (a1 & Ha1 & Hr).
    destruct (r_sim st a p a1 Hrel Hp Ha1) as (st1 & -> & Hrel1). simpl.
    by apply (IH st1 a1).
Qed.

(** ** Packets of equal size, numbered from zero

    The Eiger and Jungfrau packets carry their number; packet [k] goes to [k * D]. *)

Section Numbered.
Context {P M : Type}.
Variable (num frame : P -> Z) (payload : P -> list Z) (abs : P -> a_packet M) (D n : Z).
Hypothesis (HD : 0 < D) (Hn : 1 <= n).
Hypothesis (abs_frame : forall p, ap_frame (abs p) = frame p).
Hypothesis (abs_off : forall p, 0 <= num p < n -> ap_off (abs p) = num p * D).
Hypothesis (abs_data : forall p, zlen (payload p) = D -> ap_data (abs p) = payload p).
Hypothesis (abs_last : forall p, 0 <= num p < n -> ap_last (abs p) = (num p =? n - 1)).

Definition numbered_packet (p : P) : Prop := 0 <= num p < n /\ zlen (payload p) = D.

(** The packets of a frame as they arrive: some may be lost, the last one is not
    overtaken. *)
Record numbered_burst (ps : list P) : Prop := {
  nb_len : 1 <= zlen ps <= n;
  nb_frame : forall p q, p ∈ ps -> q ∈ ps -> frame p = frame q;
  nb_valid : Forall numbered_packet ps;
  nb_last : exists q l, ps = q ++ [l] /\ Forall (fun p => num p <> n - 1) q
}.

Fixpoint numbered_stream (prev : option Z) (fs : list (list P)) : Prop :=
  match fs with
  | [] => True
  | ps :: fs' => numbered_burst ps /\ frame <$> head ps <> prev /\
                 numbered_stream (frame <$> head ps) fs'
  end.

(** All packets of the frame [fi] with the contents [img]. *)
Record numbered_complete (img : list Z) (fi : Z) (ps : list P) : Prop := {
  nc_size : zlen img = n * D;
  nc_payload : Forall (fun p => zlen (payload p) = D) ps;
  nc_frame : Forall (fun p => frame p = fi) ps;
  nc_numbers : num <$> ps ≡ₚ seqZ 0 n;
  nc_last : exists q l, ps = q ++ [l] /\ num l = n - 1;
  nc_slices : Forall (fun p => mem_read img (num p * D) D = Ret (payload p)) ps
}.

Lemma numbered_fits p : numbered_packet p -> fits (n * D) (abs p).
Proof. intros [Hk Hd]. unfold fits. rewrite abs_off, abs_data, Hd by done. nia. Qed.

Lemma numbered_burst_abs ps : numbered_burst ps -> burst n (n * D) (abs <$> ps).
Proof.
  intros [Hl Hf Hv (q & l & -> & Hq)]. split.
  - unfold zlen in *. by rewrite length_fmap.
  - intros p p' (x & -> & Hx)%list_elem_of_fmap (y & -> & Hy)%list_elem_of_fmap.
    rewrite !abs_frame. by apply Hf.
  - apply Forall_fmap. eapply Forall_impl; [|exact Hv]. intros p Hp. by apply numbered_fits.
  - exists (abs <$> q), (abs l). rewrite fmap_app. split; [done|].
    apply Forall_app in Hv as [Hv _].
    apply Forall_fmap, list.Forall_forall. intros p Hp. rewrite list.Forall_forall in Hq, Hv.
    simpl. rewrite abs_last by (by apply Hv). by apply Z.eqb_neq, Hq.
Qed.

Lemma numbered_stream_abs prev fs :
  numbered_stream prev fs -> stream n (n * D) prev (map abs <$> fs).
Proof.
  revert prev. induction fs as [|ps fs IH]; intros prev; simpl; [done|].
  intros (Hb & Hid & Hs).
  assert (Hh : burst_id (map abs ps) = frame <$> head ps).
  { destruct ps; [done|]. unfold burst_id. simpl. by rewrite abs_frame. }
  rewrite Hh. split; [exact (numbered_burst_abs ps Hb)|]. auto.
Qed.

Lemma numbered_stream_valid prev fs :
  numbered_stream prev fs -> Forall numbered_packet (concat fs).
Proof.
  revert prev. induction fs as [|ps fs IH]; intros prev; simpl; [done|].
  intros ([] & _ & Hs). apply Forall_app. eauto.
Qed.

Lemma numbered_complete_valid img fi ps :
  numbered_complete img fi ps -> Forall numbered_packet ps.
Proof.
  intros []. apply list.Forall_forall. intros p Hp. rewrite list.Forall_forall in *.
  split; [|by apply nc_payload0].
  assert (Hin : num p ∈ num <$> ps) by (by apply list_elem_of_fmap_2).
  rewrite nc_numbers0 in Hin. apply elem_of_seqZ in Hin. lia.
Qed.

Lemma numbered_complete_len img fi ps : numbered_complete img fi ps -> zlen ps = n.
Proof.
  intros []. apply Permutation_length in nc_numbers0.
  rewrite length_fmap, length_seqZ in nc_numbers0. unfold zlen. lia.
Qed.

Lemma numbered_complete_burst img fi ps : numbered_complete img fi ps -> numbered_burst ps.
Proof.
  intros Hc. pose proof (numbered_complete_valid _ _ _ Hc) as Hv.
  pose proof (numbered_complete_len _ _ _ Hc) as Hl. destruct Hc. split.
  - lia.
  - intros p q Hp Hq. rewrite list.Forall_forall in nc_frame0. by rewrite !nc_frame0.
  - done.
  - destruct nc_last0 as (q & l & -> & Hnl). exists q, l. split; [done|].
    assert (Hnd : NoDup (num <$> q ++ [l])) by (rewrite nc_numbers0; apply NoDup_seqZ).
    rewrite fmap_app in Hnd. apply list.NoDup_app in Hnd as (_ & Hnd & _).
    apply list.Forall_forall. intros p Hp Heq. apply (Hnd (num p)).
    + by apply list_elem_of_fmap_2.
    + simpl. rewrite Heq, <- Hnl. set_solver.
Qed.

Lemma numbered_complete_overlay img fi ps b :
  numbered_complete img fi ps -> zlen b = n * D -> overlay b (abs <$> ps) = img.
Proof.
  intros Hc Hb. pose proof (numbered_complete_valid _ _ _ Hc) as Hv. destruct Hc.
  rewrite list.Forall_forall in *. apply overlay_complete; [congruence| |].
  - apply Forall_fmap, list.Forall_forall. intros p Hp. destruct (Hv p Hp) as [Hk Hd].
    change (slice_of img (abs p)). unfold slice_of.
    rewrite abs_off, abs_data, Hd by done. by apply nc_slices0.
  - intros i Hi.
    assert (Hdm := Z.div_mod (Z.of_nat i) D ltac:(lia)).
    pose proof (Z.mod_pos_bound (Z.of_nat i) D ltac:(lia)).
    assert (Hin : Z.of_nat i / D ∈ num <$> ps).
    { rewrite nc_numbers0. apply elem_of_seqZ. split; [apply Z_div_nonneg_nonneg; lia|].
      apply Z.div_lt_upper_bound; lia. }
    apply list_elem_of_fmap in Hin as (p & Hp & Hin). destruct (Hv p Hin) as [Hk Hd].
    apply existsb_exists. exists (abs p).
    split; [by apply list_elem_of_In, list_elem_of_fmap_2|].
    apply (covers_true (abs p) i). rewrite abs_off, abs_data, Hd by done. nia.
Qed.

(** A complete frame on an idle machine: one hand-over, nothing missing. *)
Lemma numbered_complete_run img fi p0 ps st :
  2 <= n < 2 ^ 64 -> zlen (buf st) = n * D -> cur st = None ->
  numbered_complete img fi (p0 :: ps) ->
  exists st', a_run n false (abs <$> p0 :: ps) st = Ret st' /\ cur st' = None /\
    out st' = out st ++ [(ap_meta (abs p0), 0, img)].
Proof.
  intros Hn2 Hb Hcur Hc. pose proof (numbered_complete_len _ _ _ Hc) as Hl.
  destruct (nc_last _ _ _ Hc) as (q & l & Hq & Hnl).
  assert (Hvl : numbered_packet l).
  { pose proof (numbered_complete_valid _ _ _ Hc) as Hv. rewrite Hq in Hv.
    apply Forall_app in Hv as [_ Hv]. by apply Forall_cons_1 in Hv as [? _]. }
  destruct (a_run_closed n false (abs <$> q) (abs l) (abs p0) (abs <$> ps) st) as (st' & Hr & Hcn & Ho).
  - lia.
  - rewrite Hb. apply (numbered_burst_abs (p0 :: ps)). by eapply numbered_complete_burst.
  - done.
  - change (abs <$> p0 :: ps = (abs <$> q) ++ [abs l]). by rewrite Hq, fmap_app.
  - rewrite abs_last by apply Hvl. rewrite Hnl. apply Z.eqb_refl.
  - right. intros Hnil. apply fmap_nil_inv in Hnil. subst q. rewrite Hq in Hl.
    unfold zlen in Hl. simpl in Hl. lia.
  - exists st'. split; [exact Hr|]. split; [done|]. rewrite Ho.
    change (abs p0 :: (abs <$> ps)) with (abs <$> p0 :: ps).
    rewrite (numbered_complete_overlay _ _ _ _ Hc Hb).
    replace (zlen (abs <$> p0 :: ps)) with n by (unfold zlen in *; rewrite length_fmap; lia).
    by rewrite Z.sub_diag.
Qed.
End Numbered.

(** An instance: the packets [mk 0 .. mk (n - 1)] of a frame of constant bytes. *)
Lemma constant_frame_complete {P} (num frame : P -> Z) (payload : P -> list Z) D n (mk : Z -> P) fi x :
  0 < D -> 1 <= n ->
  (forall k, num (mk k) = k) -> (forall k, frame (mk k) = fi) ->
  (forall k, payload (mk k) = replicate (Z.to_nat D) x) ->
  numbered_complete num frame payload D n (replicate (Z.to_nat (n * D)) x) fi
    (mk 0 :: (mk <$> seqZ 1 (n - 1))).
Proof.
  intros HD Hn Hnum Hfr Hpl.
  assert (E : mk 0 :: (mk <$> seqZ 1 (n - 1)) = mk <$> seqZ 0 n).
  { rewrite (seqZ_cons 0 n) by lia. simpl. do 3 f_equal; lia. }
  rewrite E. split.
  - rewrite zlen_replicate. lia.
  - apply Forall_fmap, list.Forall_forall. intros k _. simpl. rewrite Hpl, zlen_replicate. lia.
  - apply Forall_fmap, list.Forall_forall. intros k _. apply Hfr.
  - rewrite <- list_fmap_compose. rewrite list_fmap_ext with (g := id).
    + by rewrite list_fmap_id.
    + intros. apply Hnum.
  - exists (mk <$> seqZ 0 (n - 1)), (mk (n - 1)). split; [|apply Hnum].
    replace n with (n - 1 + 1) at 1 by lia. rewrite seqZ_app, fmap_app by lia. done.
  - apply Forall_fmap, list.Forall_forall. intros k Hk%elem_of_seqZ. simpl.
    rewrite Hnum, Hpl. apply mem_read_replicate; nia.
Qed.

Lemma fmap_concat {A B} (f : A -> B) (ls : list (list A)) : f <$> concat ls = concat (map f <$> ls).
Proof. induction ls as [|l ls IH]; simpl; [done|]. by rewrite fmap_app, IH. Qed.
