(* ===== verification/UdpRecv.v ===== *)
(** * State shared by the UDP receivers

    What the three [main.cpp] of [src/source/std-udp-recv/src] have in common: the
    variables of the receive loop, the hand-over of a finished frame
    ([sender.send(...)] followed by [stats.process(...)]), and the relation between these
    variables and the abstract machine of [Assembly]. *)

From S2P Require Import Prelude Formats RamBuffer Stats Assembly.

Record recv_state (T : Type) : Type := {
  meta : T;
  frame_buffer : list Z;
  sender : Communicator;
  mem : shm;
  stats : FrameStats.FrameStatsCollector
}.
Arguments Build_recv_state {T} _ _ _ _ _.
Arguments meta {T} _.
Arguments frame_buffer {T} _.
Arguments sender {T} _.
Arguments mem {T} _.
Arguments stats {T} _.

Definition set_meta {T} (st : recv_state T) (x : T) : recv_state T :=
  Build_recv_state x (frame_buffer st) (sender st) (mem st) (stats st).

Definition set_frame_buffer {T} (st : recv_state T) (b : list Z) : recv_state T :=
  Build_recv_state (meta st) b (sender st) (mem st) (stats st).

(** [sender.send(meta.common.image_id, meta, frame_buffer); stats.process(n_missing)]. *)
Definition hand_over `{DetFrame T} (st : recv_state T) : outcome (recv_state T) :=
  let c := common (meta st) in
  let! '(snd, m) := send (sender st) (mem st) (image_id c) (encode (meta st))
                      (Some (frame_buffer st)) in
  Ret (Build_recv_state (meta st) (frame_buffer st) snd m
         (FrameStats.process (stats st) (n_missing_packets c))).

(** The lines [memcpy(frame_buffer + offset, packet.data, n)]. *)
Definition copy_packet {T} (st : recv_state T) (offset : Z) (data : list Z) (n : Z) :
  outcome (recv_state T) :=
  let! b := memcpy (frame_buffer st) offset data 0 n in Ret (set_frame_buffer st b).

(** ** Relation to the abstract machine *)

Section Relation.
Context {T : Type} `{DetFrame T}.
Variable (set_common : CommonFrame -> T -> T).
Hypothesis (common_set : forall c x, common (set_common c x) = c).
(** The ring, and the sender's log, its bytes and the counters before the first packet. *)
Variable (rb : RamBuffer) (sent0 : list (list Z)) (m0 : list Z)
         (stats0 : FrameStats.FrameStatsCollector).

(** The metadata of a frame with its missing count. *)
Definition with_missing (k : Z) (x : T) : T :=
  set_common {| image_id := image_id (common x); n_missing_packets := k;
                module_id := module_id (common x) |} x.

Definition frame_of (o : T * Z * list Z) : T := with_missing (snd (fst o)) (fst (fst o)).

Definition frame_write (o : T * Z * list Z) : Z * list Z :=
  (image_id (common (fst (fst o))), snd o).

(** The outside world has seen exactly the frames the machine handed over. *)
Record seen (st : recv_state T) (a : a_state T) : Prop := {
  seen_buf : frame_buffer st = buf a;
  seen_len : zlen (buf a) = data_bytes_ rb;
  seen_rb : buffer (sender st) = rb;
  seen_sent : sent (sender st) = sent0 ++ (encode ∘ frame_of <$> out a);
  seen_mem : write_all rb (frame_write <$> out a) m0 = Ret (shm_bytes (mem st) (shm_fd_ rb));
  seen_stats : stats st = fold_left FrameStats.process ((snd ∘ fst) <$> out a) stats0
}.

Lemma image_id_with_missing k x : image_id (common (with_missing k x)) = image_id (common x).
Proof. unfold with_missing. by rewrite common_set. Qed.

Lemma missing_with_missing k x : n_missing_packets (common (with_missing k x)) = k.
Proof. unfold with_missing. by rewrite common_set. Qed.

Lemma seen_copy st a off data n c k :
  seen st a -> 0 <= n <= zlen data ->
  0 <= off -> off + n <= zlen (buf a) ->
  copy_packet st off data n =
    Ret (set_frame_buffer st (list_inserts (Z.to_nat off) (take (Z.to_nat n) data) (buf a))) /\
  seen (set_frame_buffer st (list_inserts (Z.to_nat off) (take (Z.to_nat n) data) (buf a)))
    (Build_a_state c k (list_inserts (Z.to_nat off) (take (Z.to_nat n) data) (buf a)) (out a)).
Proof.
  intros [] Hn Ho Hb. split.
  - unfold copy_packet, memcpy. rewrite mem_read_ret by lia. simpl. rewrite drop_0, seen_buf0.
    rewrite mem_write_ret; [done|lia|]. unfold zlen in *. rewrite length_take. lia.
  - split; simpl; try done. unfold zlen in *. by rewrite length_inserts.
Qed.

(** Handing over the current frame is the machine's [flush]. *)
Lemma seen_hand_over st a f x :
  wf_ram rb -> zlen m0 = buffer_bytes_ rb ->
  seen st a -> cur a = Some (f, x) -> meta st = with_missing (missing a) x ->
  exists st', hand_over st = Ret st' /\ meta st' = meta st /\ seen st' (flush a) /\
              frame_buffer st' = frame_buffer st.
Proof.
  intros Hwf Hm0 [] Hc Hmeta.
  destruct (write_block_spec rb (shm_bytes (mem st) (shm_fd_ rb)) (image_id (common x))
              (frame_buffer st) Hwf) as (m1 & Hw & Hl & _).
  { rewrite <- Hm0. refine (foldO_ind (fun m => zlen m = zlen m0) _ _ _ _ eq_refl _ seen_mem0).
    intros m w m' _ Hm. unfold write_block. rewrite obind_Ret_iff. intros (off & _ & Hcpy).
    unfold memcpy in Hcpy. apply obind_Ret_iff in Hcpy as (d & _ & Hcpy).
    apply mem_write_zlen in Hcpy. lia. }
  { rewrite seen_buf0. lia. }
  unfold hand_over, send, write. rewrite seen_rb0, Hmeta, image_id_with_missing, Hw. simpl.
  eexists. split; [done|]. split; [done|]. split; [|done]. unfold flush. rewrite Hc.
  split; simpl; try done.
  - rewrite seen_sent0, fmap_app, app_assoc. done.
  - rewrite fmap_app. unfold write_all in *. rewrite foldO_app, seen_mem0. simpl.
    simpl in Hw. rewrite <- seen_buf0, Hw. simpl. unfold shm_bytes, shm_set. simpl.
    by rewrite lookup_insert_eq.
  - rewrite fmap_app, fold_left_app, seen_stats0. simpl. by rewrite missing_with_missing.
Qed.
End Relation.
