(* ===== verification/UdpRecvGf.v ===== *)
(** * GigaFRoST UDP receiver

    [src/source/std-udp-recv/src/gigafrost/main.cpp].  [packet_step] is the body of the
    loop over the received packets; the loop itself is [foldO] over the packets that
    [receive_many] returned, and the endless outer loop is the same fold over all packets.
    The frame buffer's initial contents are those of [aligned_alloc] (arbitrary). *)

From S2P Require Import Prelude Formats RamBuffer GfGeometry Stats Assembly UdpRecv.

Definition gf_set_common (c : CommonFrame) (m : gf.GFFrame) : gf.GFFrame :=
  {| gf.gf_common := c; gf.swapped_rows := gf.swapped_rows m; gf.link_id := gf.link_id m;
     gf.corr_mode := gf.corr_mode m; gf.frame_quadrant_id := gf.frame_quadrant_id m;
     gf.rpf := gf.rpf m; gf.do_not_store := gf.do_not_store m; gf.scan_id := gf.scan_id m;
     gf.size_x := gf.size_x m; gf.size_y := gf.size_y m; gf.scan_time := gf.scan_time m;
     gf.sync_time := gf.sync_time m; gf.frame_timestamp := gf.frame_timestamp m;
     gf.exposure_time := gf.exposure_time m |}.

(** In [init_frame_metadata] the shift of the last line binds stronger than the mask. *)
Definition gf_init_frame_metadata (module_size_x module_size_y frame_n_packets : Z)
  (packet : gf.GFUdpPacket) (m : gf.GFFrame) : gf.GFFrame :=
  {| gf.gf_common := {| image_id := gf.frame_index packet; n_missing_packets := frame_n_packets;
                        module_id := module_id (common m) |};
     gf.swapped_rows := Z.land (gf.quadrant_rows packet) 1;
     gf.link_id := Z.shiftr (Z.land (gf.status_flags packet) 32) 5;
     gf.corr_mode := Z.shiftr (Z.land (gf.status_flags packet) 28) 2;
     gf.frame_quadrant_id := Z.shiftr (Z.land (gf.status_flags packet) 192) 6;
     gf.rpf := gf.rpf m;
     gf.do_not_store := u8 (Z.land (gf.image_status_flags packet) (Z.shiftr 32768 15));
     gf.scan_id := gf.udp_scan_id packet;
     gf.size_x := module_size_x;
     gf.size_y := module_size_y;
     gf.scan_time := gf.udp_scan_time packet;
     gf.sync_time := gf.udp_sync_time packet;
     gf.frame_timestamp := Z.land (gf.image_timing packet) (2 ^ 40 - 1);
     gf.exposure_time := Z.shiftr (Z.land (gf.image_timing packet) (2 ^ 64 - 2 ^ 40)) 40 |}.

Definition gf_set_image_id (id : Z) (m : gf.GFFrame) : gf.GFFrame :=
  gf_set_common {| image_id := id; n_missing_packets := n_missing_packets (common m);
                   module_id := module_id (common m) |} m.

Definition gf_packet_received (m : gf.GFFrame) : gf.GFFrame :=
  gf_set_common {| image_id := image_id (common m);
                   n_missing_packets := u64 (n_missing_packets (common m) - 1);
                   module_id := module_id (common m) |} m.

Definition gf_send_image_id (st : recv_state gf.GFFrame) : outcome (recv_state gf.GFFrame) :=
  let! st' := hand_over st in
  Ret (set_meta st' (gf_set_image_id INVALID_IMAGE_ID (meta st'))).

Definition gf_process_packet (st : recv_state gf.GFFrame) (packet : gf.GFUdpPacket)
  (frame_buffer_offset bytes_per_packet bytes_of_last_packet last_packet_starting_row : Z) :
  outcome (recv_state gf.GFFrame) :=
  let st1 := set_meta st (gf_packet_received (meta st)) in
  if negb (gf.packet_starting_row packet =? last_packet_starting_row) then
    copy_packet st1 frame_buffer_offset (gf.data packet) bytes_per_packet
  else
    let! st2 := copy_packet st1 frame_buffer_offset (gf.data packet) bytes_of_last_packet in
    gf_send_image_id st2.

(** [packet.packet_starting_row * width_in_pixels * 1.5]. *)
Definition gf_frame_buffer_offset (sz : gf_recv_sizes) (packet : gf.GFUdpPacket) : Z :=
  u32 (gf.packet_starting_row packet * width_in_pixels sz) * 3 / 2.

Definition gf_packet_step (sz : gf_recv_sizes) (st : recv_state gf.GFFrame)
  (packet : gf.GFUdpPacket) : outcome (recv_state gf.GFFrame) :=
  let off := gf_frame_buffer_offset sz packet in
  if image_id (common (meta st)) =? gf.frame_index packet then
    gf_process_packet st packet off (bytes_per_packet sz) (bytes_of_last_packet sz)
      (start_row_last_packet sz)
  else
    let! st1 := if negb (image_id (common (meta st)) =? INVALID_IMAGE_ID)
                then gf_send_image_id st else Ret st in
    let m := gf_init_frame_metadata (width_in_pixels sz) (height_in_pixels sz)
               (packets_in_frame sz) packet (meta st1) in
    gf_process_packet (set_meta st1 m) packet off (bytes_per_packet sz)
      (bytes_of_last_packet sz) (start_row_last_packet sz).

(** [GFFrame meta = {}] and the two assignments behind it. *)
Definition gf_initial_meta (module_id_arg : Z) : gf.GFFrame :=
  {| gf.gf_common := {| image_id := INVALID_IMAGE_ID; n_missing_packets := 0;
                        module_id := module_id_arg mod 8 |};
     gf.swapped_rows := 0; gf.link_id := 0; gf.corr_mode := 0; gf.frame_quadrant_id := 0;
     gf.rpf := 0; gf.do_not_store := 0; gf.scan_id := 0; gf.size_x := 0; gf.size_y := 0;
     gf.scan_time := 0; gf.sync_time := 0; gf.frame_timestamp := 0; gf.exposure_time := 0 |}.

(** The part of [main] in front of the loop. *)
Definition gf_recv_main (os : syscalls) (name source_name : string)
  (stats_period image_pixel_height image_pixel_width module_id_arg now : Z)
  (heap : list Z) (s : shm) : outcome (gf_recv_sizes * recv_state gf.GFFrame) :=
  let! sz := gf_recv_constants image_pixel_height image_pixel_width in
  let! '(snd, s1) := Communicator_new os
      {| rbc_buffer_name := source_name; rbc_n_bytes_data := bytes_of_frame sz;
         rbc_n_buffer_slots := RECEIVER_RAM_BUFFER_N_SLOTS |}
      {| stream_name := source_name; conn_type := CONN_TYPE_BIND |} s in
  let frame_buffer := take (Z.to_nat (bytes_per_module sz)) heap in
  throw_if (zlen frame_buffer <? bytes_per_module sz) runtime_error
    (Ret (sz, {| meta := gf_initial_meta module_id_arg; frame_buffer := frame_buffer;
                 sender := snd; mem := s1;
                 stats := FrameStats.new name stats_period module_id_arg now |})).

(** ** Refinement of the abstract machine *)

Section Receiver.
Variable (sz : gf_recv_sizes) (mid : Z) (rb : RamBuffer) (sent0 : list (list Z)) (m0 : list Z)
         (stats0 : FrameStats.FrameStatsCollector).
Hypothesis (Hrb : wf_ram rb) (Hm0 : zlen m0 = buffer_bytes_ rb).

Definition gf_template (p : gf.GFUdpPacket) : gf.GFFrame :=
  gf_init_frame_metadata (width_in_pixels sz) (height_in_pixels sz) (packets_in_frame sz) p
    (gf_initial_meta mid).

Definition gf_is_last (p : gf.GFUdpPacket) : bool :=
  gf.packet_starting_row p =? start_row_last_packet sz.

Definition gf_copy_size (p : gf.GFUdpPacket) : Z :=
  if gf_is_last p then bytes_of_last_packet sz else bytes_per_packet sz.

Definition gf_abs (p : gf.GFUdpPacket) : a_packet gf.GFFrame :=
  {| ap_frame := gf.frame_index p; ap_meta := gf_template p;
     ap_off := gf_frame_buffer_offset sz p;
     ap_data := take (Z.to_nat (gf_copy_size p)) (gf.data p); ap_last := gf_is_last p |}.

(** A received datagram: 32-bit frame number, full payload area. *)
Definition gf_packet_ok (p : gf.GFUdpPacket) : Prop :=
  0 <= gf.frame_index p < 2 ^ 32 /\ zlen (gf.data p) = gf.PACKET_N_DATA_BYTES_MAX /\
  0 <= gf_copy_size p <= gf.PACKET_N_DATA_BYTES_MAX.

Definition gf_rel (st : recv_state gf.GFFrame) (a : a_state gf.GFFrame) : Prop :=
  seen gf_set_common rb sent0 m0 stats0 st a /\
  module_id (common (meta st)) = mid mod 8 /\ gf.rpf (meta st) = 0 /\
  match cur a with
  | None => image_id (common (meta st)) = INVALID_IMAGE_ID
  | Some (f, x) => meta st = with_missing gf_set_common (missing a) x /\
                   image_id (common x) = f /\ f < 2 ^ 32
  end.

Lemma gf_common_set c x : common (gf_set_common c x) = c.
Proof. done. Qed.

(** The end of a packet's handling: the missing count goes down, the payload is copied, and
    the last packet hands the frame over. *)
Lemma gf_process_sim st a p f x a' :
  seen gf_set_common rb sent0 m0 stats0 st a -> gf_packet_ok p ->
  cur a = Some (f, x) -> meta st = with_missing gf_set_common (missing a) x ->
  image_id (common x) = f -> f < 2 ^ 32 -> module_id (common x) = mid mod 8 -> gf.rpf x = 0 ->
  accumulate a (gf_abs p) = Ret a' ->
  exists st', gf_process_packet st p (gf_frame_buffer_offset sz p) (bytes_per_packet sz)
                (bytes_of_last_packet sz) (start_row_last_packet sz) = Ret st' /\
    gf_rel st' (if gf_is_last p then flush a' else a').
Proof.
  intros Hseen (_ & Hd & Hsz) Hc Hmeta Hid Hf Hmid Hrpf.
  unfold accumulate. rewrite obind_Ret_iff. intros (b & Hw & [= <-]). simpl in Hw.
  apply mem_write_inv in Hw as (Ho & Hfit & ->).
  assert (Hlen : zlen (take (Z.to_nat (gf_copy_size p)) (gf.data p)) = gf_copy_size p)
    by (unfold zlen in *; rewrite length_take; lia).
  rewrite Hlen in Hfit.
  set (st1 := set_meta st (gf_packet_received (meta st))).
  assert (Hseen1 : seen gf_set_common rb sent0 m0 stats0 st1 a) by (by destruct Hseen).
  assert (Hmeta1 : meta st1 = with_missing gf_set_common (u64 (missing a - 1)) x).
  { unfold st1. simpl. by rewrite Hmeta. }
  destruct (seen_copy gf_set_common rb sent0 m0 stats0 st1 a (gf_frame_buffer_offset sz p)
              (gf.data p) (gf_copy_size p) (cur a) (u64 (missing a - 1)) Hseen1)
    as [Hcp Hseen2]; [lia..|].
  unfold gf_process_packet. fold st1. unfold gf_copy_size in *.
  change (gf.packet_starting_row p =? start_row_last_packet sz) with (gf_is_last p).
  destruct (gf_is_last p) eqn:Hl; simpl; rewrite Hcp; simpl.
  - match type of Hseen2 with seen _ _ _ _ _ ?s ?b =>
      destruct (seen_hand_over gf_set_common gf_common_set rb sent0 m0 stats0 s b f x Hrb Hm0
                  Hseen2 Hc Hmeta1) as (st3 & Hh & Hm3 & Hseen3 & _) end.
    unfold gf_send_image_id. rewrite Hh. simpl. eexists. split; [done|].
    unfold gf_rel. rewrite Hc in Hseen3 |- *. simpl in *. split; [by destruct Hseen3|].
    rewrite Hm3, Hmeta1. simpl. done.
  - eexists. split; [done|]. unfold gf_rel. simpl. rewrite Hc. split; [by rewrite <- Hc|].
    rewrite Hmeta. simpl. done.
Qed.

Lemma gf_init_template p m :
  module_id (common m) = mid mod 8 -> gf.rpf m = 0 ->
  gf_init_frame_metadata (width_in_pixels sz) (height_in_pixels sz) (packets_in_frame sz) p m =
  with_missing gf_set_common (packets_in_frame sz) (gf_template p).
Proof.
  intros Hm Hr. unfold gf_template, gf_init_frame_metadata, with_missing, gf_set_common. simpl.
  simpl in Hm. by rewrite Hm, Hr.
Qed.

Lemma gf_packet_sim st a p a' :
  gf_rel st a -> gf_packet_ok p ->
  a_step (packets_in_frame sz) true a (gf_abs p) = Ret a' ->
  exists st', gf_packet_step sz st p = Ret st' /\ gf_rel st' a'.
Proof.
  intros (Hseen & Hmid & Hrpf & Hcur) Hp. pose proof Hp as (Hfi & _).
  assert (Hinv : 2 ^ 32 < INVALID_IMAGE_ID) by (by vm_compute).
  unfold a_step, is_current, gf_packet_step. cbn [ap_frame gf_abs ap_last andb].
  destruct (cur a) as [[f x]|] eqn:Hc.
  - destruct Hcur as (Hmeta & Hid & Hf).
    assert (Hmf : image_id (common (meta st)) = f) by (by rewrite Hmeta).
    rewrite Hmf. destruct (Z.eqb_spec f (gf.frame_index p)) as [E|E].
    + rewrite obind_Ret_iff. intros (a1 & Ha1 & [= <-]).
      eapply gf_process_sim; try done; rewrite Hmeta in Hmid, Hrpf; done.
    + rewrite obind_Ret_iff. intros (a1 & Ha1 & [= <-]).
      destruct (Z.eqb_spec f INVALID_IMAGE_ID); [lia|]. simpl.
      destruct (seen_hand_over gf_set_common gf_common_set rb sent0 m0 stats0 st a f x Hrb Hm0
                  Hseen Hc Hmeta) as (st1 & Hh & Hm1 & Hseen1 & _).
      unfold gf_send_image_id. rewrite Hh. simpl.
      rewrite gf_init_template by (simpl; by rewrite Hm1).
      eapply gf_process_sim; [|exact Hp|..|exact Ha1]; try done; [|apply Hfi].
      unfold start, flush in *. rewrite Hc in *. by destruct Hseen1.
  - rewrite Hcur. destruct (Z.eqb_spec INVALID_IMAGE_ID (gf.frame_index p)); [lia|]. simpl.
    rewrite obind_Ret_iff. intros (a1 & Ha1 & [= <-]).
    rewrite gf_init_template by done.
    eapply gf_process_sim; [|exact Hp|..|exact Ha1]; try done; [|apply Hfi].
    unfold start, flush in *. rewrite Hc in *. by destruct Hseen.
Qed.

#[local] Instance gf_receiver : FrameReceiver (recv_state gf.GFFrame) gf.GFUdpPacket gf.GFFrame := {|
  r_step := gf_packet_step sz;
  r_packets := packets_in_frame sz;
  r_flush_first := true;
  r_abs := gf_abs;
  r_ok := gf_packet_ok;
  r_rel := gf_rel;
  r_sim := gf_packet_sim
|}.

Lemma gf_run ps st a a' :
  gf_rel st a -> Forall gf_packet_ok ps ->
  a_run (packets_in_frame sz) true (gf_abs <$> ps) a = Ret a' ->
  exists st', foldO (gf_packet_step sz) ps st = Ret st' /\ gf_rel st' a'.
Proof. exact (receiver_run ps st a a'). Qed.
End Receiver.

(** ** Streams of packets *)

(** A datagram of a module with the geometry [sz]: it starts at the row of one of the
    [packets_in_frame] packets. *)
Definition gf_valid_packet (sz : gf_recv_sizes) (p : gf.GFUdpPacket) : Prop :=
  0 <= gf.frame_index p < 2 ^ 32 /\ zlen (gf.data p) = gf.PACKET_N_DATA_BYTES_MAX /\
  exists k, 0 <= k < packets_in_frame sz /\ gf.packet_starting_row p = k * rows_per_packet sz.

(** The packets of one frame in the order of their arrival; any of them may be lost, as
    long as one arrives, and the last one, if it arrives, does so behind the others. *)
Record gf_burst (sz : gf_recv_sizes) (ps : list gf.GFUdpPacket) : Prop := {
  gf_burst_len : 1 <= zlen ps <= packets_in_frame sz;
  gf_burst_frame : forall p q, p ∈ ps -> q ∈ ps -> gf.frame_index p = gf.frame_index q;
  gf_burst_valid : Forall (gf_valid_packet sz) ps;
  gf_burst_last : exists q l, ps = q ++ [l] /\
    Forall (fun p => gf.packet_starting_row p <> start_row_last_packet sz) q
}.

Fixpoint gf_stream (sz : gf_recv_sizes) (prev : option Z) (fs : list (list gf.GFUdpPacket)) : Prop :=
  match fs with
  | [] => True
  | ps :: fs' => gf_burst sz ps /\ gf.frame_index <$> head ps <> prev /\
                 gf_stream sz (gf.frame_index <$> head ps) fs'
  end.

(** Where the packet number [k] of a frame goes. *)
Lemma gf_tile h w sz p k :
  gf_image_ok h w -> (w / 2) mod 48 = 0 -> gf_recv_constants h w = Ret sz ->
  0 <= k < packets_in_frame sz -> gf.packet_starting_row p = k * rows_per_packet sz ->
  gf_frame_buffer_offset sz p = k * bytes_per_packet sz /\
  gf_is_last sz p = (k =? packets_in_frame sz - 1) /\
  0 < bytes_per_packet sz <= gf.PACKET_N_DATA_BYTES_MAX /\
  0 < bytes_of_last_packet sz <= bytes_per_packet sz /\
  bytes_per_module sz = bytes_per_packet sz * (packets_in_frame sz - 1) + bytes_of_last_packet sz /\
  bytes_of_frame sz = bytes_per_module sz /\ packets_in_frame sz < 2 ^ 64.
Proof.
  intros Hok H48 Hc Hk Hrow.
  assert (Ha : w / 2 = 2 * (24 * (w / 2 / 48))).
  { pose proof (Z.div_mod (w / 2) 48 ltac:(lia)) as Hd. lia. }
  pose proof (module_dims h w Hok) as (_ & _ & Hmw & Hmh).
  destruct (gf_sizes_48 h w _ Hok Ha H48) as (r & last & Hr & Hl & Hn & Hs & Hp & Hc' & _).
  set (a := 24 * (w / 2 / 48)) in *. rewrite Hc in Hc'. injection Hc' as ->. simpl in *.
  set (n := (h / 4 + r - 1) / r) in *. set (mh := h / 4) in *.
  assert (k * r <= mh) by nia.
  unfold gf_frame_buffer_offset, gf_is_last. simpl. rewrite Hrow, u32_small by nia.
  split_and!; try lia; try nia.
  replace (k * r * (2 * a) * 3) with (k * (3 * a * r) * 2) by lia. by rewrite Z.div_mul by lia.
Qed.

Section Streams.
Variable (h w : Z) (sz : gf_recv_sizes) (mid : Z).
Hypothesis (Hok : gf_image_ok h w) (H48 : (w / 2) mod 48 = 0)
           (Hsz : gf_recv_constants h w = Ret sz).

Lemma gf_valid_ok p :
  gf_valid_packet sz p -> gf_packet_ok sz p /\ fits (bytes_per_module sz) (gf_abs sz mid p) /\
    zlen (ap_data (gf_abs sz mid p)) = gf_copy_size sz p.
Proof.
  intros (Hf & Hd & k & Hk & Hrow).
  destruct (gf_tile h w sz p k Hok H48 Hsz Hk Hrow) as (Hoff & Hlast & Hb & Hl & Hm & _).
  assert (Hcs : 0 <= gf_copy_size sz p <= gf.PACKET_N_DATA_BYTES_MAX).
  { unfold gf_copy_size. destruct (gf_is_last sz p); lia. }
  assert (Hlen : zlen (take (Z.to_nat (gf_copy_size sz p)) (gf.data p)) = gf_copy_size sz p).
  { unfold zlen in *. rewrite length_take. lia. }
  split; [done|]. split; [|done]. unfold fits. simpl. rewrite Hoff, Hlen. split; [nia|].
  unfold gf_copy_size. rewrite Hlast. destruct (Z.eqb_spec k (packets_in_frame sz - 1)); nia.
Qed.

Lemma gf_burst_abs ps :
  gf_burst sz ps -> burst (packets_in_frame sz) (bytes_per_module sz) (gf_abs sz mid <$> ps).
Proof.
  intros [Hl Hf Hv (q & l & -> & Hq)]. split.
  - unfold zlen in *. by rewrite length_fmap.
  - intros p p' (x & -> & Hx)%list_elem_of_fmap (y & -> & Hy)%list_elem_of_fmap. by apply Hf.
  - apply Forall_fmap. eapply Forall_impl; [|exact Hv]. intros p Hp. by apply gf_valid_ok.
  - exists (gf_abs sz mid <$> q), (gf_abs sz mid l). rewrite fmap_app. split; [done|].
    apply Forall_fmap. eapply Forall_impl; [|exact Hq]. intros p Hp. by apply Z.eqb_neq.
Qed.

Lemma gf_stream_abs prev fs :
  gf_stream sz prev fs ->
  stream (packets_in_frame sz) (bytes_per_module sz) prev (map (gf_abs sz mid) <$> fs) /\
  Forall (gf_packet_ok sz) (concat fs).
Proof.
  revert prev. induction fs as [|ps fs IH]; intros prev; simpl; [done|].
  intros (Hb & Hid & Hs).
  assert (Hh : burst_id (map (gf_abs sz mid) ps) = gf.frame_index <$> head ps) by (by destruct ps).
  rewrite Hh. destruct (IH _ Hs) as [IH1 IH2]. split.
  - split; [exact (gf_burst_abs ps Hb)|]. done.
  - apply Forall_app. split; [|done]. destruct Hb. eapply Forall_impl; [|done].
    intros p Hp. by apply gf_valid_ok.
Qed.
End Streams.

(** The receiver as [main] starts it. *)
Lemma gf_recv_main_inv os name src period h w mid now heap s sz st :
  gf_image_ok h w -> (w / 2) mod 48 = 0 ->
  gf_recv_main os name src period h w mid now heap s = Ret (sz, st) ->
  let rb := buffer (sender st) in let m0 := shm_bytes (mem st) (shm_fd_ rb) in
  gf_recv_constants h w = Ret sz /\ wf_ram rb /\ zlen m0 = buffer_bytes_ rb /\
  zlen (frame_buffer st) = bytes_per_module sz /\ n_slots_ rb = RECEIVER_RAM_BUFFER_N_SLOTS /\
  data_bytes_ rb = bytes_of_frame sz /\
  gf_rel mid rb [] m0 (stats st) st (Build_a_state None 0 (frame_buffer st) []).
Proof.
  intros Hok H48. unfold gf_recv_main. rewrite obind_Ret_iff. intros (sz' & Hsz & Hm).
  apply obind_Ret_iff in Hm as ([c s1] & Hc & Hm). unfold throw_if in Hm.
  destruct (Z.ltb_spec (zlen (take (Z.to_nat (bytes_per_module sz')) heap)) (bytes_per_module sz'));
    [done|]. simplify_eq/=.
  unfold Communicator_new in Hc. apply obind_Ret_iff in Hc as ([rb s2] & Hrb & Hc). simplify_eq/=.
  apply RamBuffer_new_inv in Hrb as (_ & Hns & Hdb & Hbb & _ & Hlen). simpl in *.
  set (p0 := {| gf.protocol_id := 0; gf.quadrant_row_length_in_blocks := 0; gf.quadrant_rows := 0;
    gf.status_flags := 0; gf.udp_scan_id := 0; gf.frame_index := 0; gf.image_status_flags := 0;
    gf.packet_starting_row := 0; gf.image_timing := 0; gf.udp_sync_time := 0;
    gf.udp_scan_time := 0; gf.data := [] |}).
  pose proof (module_dims h w Hok) as (_ & _ & _ & Hmh).
  destruct (gf_sizes h w Hok) as (r & last & Hr & Hl' & Hn' & _ & _ & _ & Hc & _).
  assert (Hpos : 1 <= packets_in_frame sz <= 504).
  { rewrite Hsz in Hc. injection Hc as ->. simpl. lia. }
  destruct (gf_tile h w sz p0 0 Hok H48 Hsz) as (_ & _ & Hb & Hl & Hm & Hf & Hn); [lia|done|].
  change gf.PACKET_N_DATA_BYTES_MAX with 7400 in *.
  assert (bytes_per_packet sz * (packets_in_frame sz - 1) <= 7400 * 503)
    by (apply Z.mul_le_mono_nonneg; lia).
  assert (0 <= bytes_per_packet sz * (packets_in_frame sz - 1)) by nia.
  assert (Hfb : zlen (take (Z.to_nat (bytes_per_module sz)) heap) = bytes_per_module sz).
  { unfold zlen in *. rewrite length_take in *. lia. }
  split_and!; try done.
  - unfold wf_ram. rewrite Hns, Hdb, Hbb. unfold RECEIVER_RAM_BUFFER_N_SLOTS.
    split_and!; done || lia.
  - split_and!; try done. split; simpl; try done. by rewrite Hfb, Hdb, Hf.
Qed.

(** What the consumers see of a receiver state: the messages sent, and the one that the
    next packet of another frame will send. *)
Definition gf_messages (st : recv_state gf.GFFrame) : list (list Z) :=
  sent (sender st) ++
  (if image_id (common (meta st)) =? INVALID_IMAGE_ID then [] else [encode (meta st)]).

Lemma gf_rel_messages mid rb m0 stats0 st a :
  gf_rel mid rb [] m0 stats0 st a ->
  gf_messages st = encode ∘ frame_of gf_set_common <$> out (flush a).
Proof.
  intros (Hseen & _ & _ & Hcur). destruct Hseen. unfold gf_messages, flush.
  destruct (cur a) as [[f x]|].
  - destruct Hcur as (Hm & Hid & Hf). rewrite Hm, image_id_with_missing by done.
    destruct (Z.eqb_spec (image_id (common x)) INVALID_IMAGE_ID) as [E|E].
    + assert (2 ^ 32 < INVALID_IMAGE_ID) by (by vm_compute). lia.
    + cbn [out]. rewrite seen_sent, fmap_app. done.
  - rewrite Hcur, Z.eqb_refl, app_nil_r. done.
Qed.

(** C1: a GigaFRoST receiver started by [main] for an image whose half width, the width of a
    module, is a multiple of 48 pixels turns a stream of packet bursts into exactly one message per
    frame, in order, whichever packets were lost.  A burst holds packets of one frame, at least one and
    not more than the frame has, the frame's last packet, if it arrives, behind the others;
    neighbouring bursts are of different frames.  The message carries the metadata of the frame's first packet and
    the number of packets of a frame less the number received, which is the number missing when no
    packet was duplicated; only the message of the final frame may still be pending, and no packet
    makes the code read or write outside a buffer.  (For other widths the last packet may be copied
    beyond the frame buffer: [gf_frame_sizes_disagree].) *)
Theorem gf_receiver_stream os name src period h w mid now heap s sz st fs :
  gf_image_ok h w -> (w / 2) mod 48 = 0 ->
  gf_recv_main os name src period h w mid now heap s = Ret (sz, st) ->
  gf_stream sz None fs ->
  exists st', foldO (gf_packet_step sz) (concat fs) st = Ret st' /\
    gf_messages st' =
      encode ∘ frame_of gf_set_common <$>
        expected (packets_in_frame sz) (frame_buffer st) (map (gf_abs sz mid) <$> fs).
Proof.
  intros Hok H48 Hmain Hfs.
  destruct (gf_recv_main_inv _ _ _ _ _ _ _ _ _ _ _ _ Hok H48 Hmain)
    as (Hsz & Hwf & Hm0 & Hfb & _ & _ & Hrel).
  destruct (gf_stream_abs h w sz mid Hok H48 Hsz None fs Hfs) as [Hstream Hpk].
  destruct (gf_sizes h w Hok) as (r & last & _ & _ & Hn & _ & _ & _ & Hc & _).
  pose proof (module_dims h w Hok) as (_ & _ & _ & Hmh).
  assert (Hn64 : packets_in_frame sz < 2 ^ 64).
  { rewrite Hsz in Hc. injection Hc as ->. simpl. lia. }
  destruct (a_run_stream (packets_in_frame sz) true (map (gf_abs sz mid) <$> fs)
              (Build_a_state None 0 (frame_buffer st) []) Hn64) as (a' & Hrun & Hout & _).
  { simpl. by rewrite Hfb. }
  rewrite <- fmap_concat in Hrun.
  destruct (gf_run sz mid _ _ _ _ Hwf Hm0 _ _ _ _ Hrel Hpk Hrun) as (st' & Hrun' & Hrel').
  exists st'. split; [done|]. rewrite (gf_rel_messages _ _ _ _ _ _ Hrel'), Hout. done.
Qed.

(** ** A frame without losses *)

(** The packets [ps] are all packets of the image [img], in any order but with the frame's
    last packet at the end. *)
Record gf_complete (sz : gf_recv_sizes) (img : list Z) (fi : Z) (ps : list gf.GFUdpPacket) : Prop := {
  gf_complete_size : zlen img = bytes_per_module sz;
  gf_complete_data : Forall (fun p => zlen (gf.data p) = gf.PACKET_N_DATA_BYTES_MAX) ps;
  gf_complete_frame : Forall (fun p => gf.frame_index p = fi) ps;
  gf_complete_rows : gf.packet_starting_row <$> ps ≡ₚ
    (fun k => k * rows_per_packet sz) <$> seqZ 0 (packets_in_frame sz);
  gf_complete_last : exists q l, ps = q ++ [l] /\ gf_is_last sz l = true;
  gf_complete_slices : Forall (fun p =>
    mem_read img (gf_frame_buffer_offset sz p) (gf_copy_size sz p) =
    mem_read (gf.data p) 0 (gf_copy_size sz p)) ps
}.

Section Complete.
Variable (h w : Z) (sz : gf_recv_sizes) (mid : Z).
Hypothesis (Hok : gf_image_ok h w) (H48 : (w / 2) mod 48 = 0)
           (Hsz : gf_recv_constants h w = Ret sz).
Variable (img : list Z) (fi : Z) (ps : list gf.GFUdpPacket).
Hypothesis (Hfi : 0 <= fi < 2 ^ 32) (Hps : gf_complete sz img fi ps).

Lemma gf_rows_per_packet_pos : 0 < rows_per_packet sz /\ 1 <= packets_in_frame sz.
Proof.
  destruct (gf_sizes h w Hok) as (r & last & Hr & _ & Hn & _ & _ & _ & Hc & _).
  rewrite Hsz in Hc. injection Hc as ->. simpl. lia.
Qed.

Lemma gf_complete_valid : Forall (gf_valid_packet sz) ps.
Proof.
  destruct Hps. apply list.Forall_forall. intros p Hp. rewrite list.Forall_forall in *.
  split; [rewrite (gf_complete_frame0 p Hp); lia|]. split; [by apply gf_complete_data0|].
  assert (Hin : gf.packet_starting_row p ∈ gf.packet_starting_row <$> ps)
    by (by apply list_elem_of_fmap_2).
  rewrite gf_complete_rows0 in Hin. apply list_elem_of_fmap in Hin as (k & -> & Hk).
  apply elem_of_seqZ in Hk. exists k. split; [lia|done].
Qed.

Lemma gf_complete_burst : gf_burst sz ps.
Proof.
  destruct gf_rows_per_packet_pos as [Hr Hn]. pose proof gf_complete_valid. destruct Hps. split.
  - apply Permutation_length in gf_complete_rows0.
    rewrite !length_fmap, length_seqZ in gf_complete_rows0. unfold zlen. lia.
  - intros p q Hp Hq. rewrite list.Forall_forall in gf_complete_frame0. by rewrite !gf_complete_frame0.
  - done.
  - destruct gf_complete_last0 as (q & l & -> & Hl). exists q, l. split; [done|].
    assert (Hnd : NoDup (gf.packet_starting_row <$> q ++ [l])).
    { rewrite gf_complete_rows0. apply NoDup_fmap_2_strong; [|apply NoDup_seqZ].
      intros x y _ _ Hxy. nia. }
    rewrite fmap_app in Hnd. apply list.NoDup_app in Hnd as (_ & Hnd & _).
    apply list.Forall_forall. intros p Hp Heq. apply (Hnd (gf.packet_starting_row p)).
    + by apply list_elem_of_fmap_2.
    + apply Z.eqb_eq in Hl. simpl. rewrite Heq, <- Hl. set_solver.
Qed.

(** The packet number [k] is among the received ones. *)
Lemma gf_complete_packet k :
  0 <= k < packets_in_frame sz ->
  exists p, p ∈ ps /\ gf.packet_starting_row p = k * rows_per_packet sz.
Proof.
  intros Hk. destruct Hps.
  assert (Hin : k * rows_per_packet sz ∈ gf.packet_starting_row <$> ps).
  { rewrite gf_complete_rows0. apply (list_elem_of_fmap_2 (fun k => k * rows_per_packet sz)).
    apply elem_of_seqZ. lia. }
  apply list_elem_of_fmap in Hin as (p & Hp & Hin). by exists p.
Qed.

(** Every byte of the frame is brought by some packet. *)
Lemma gf_complete_covers i :
  Z.of_nat i < bytes_per_module sz ->
  existsb (fun p => covers p i) (gf_abs sz mid <$> ps) = true.
Proof.
  intros Hi. pose proof gf_complete_valid as Hv. rewrite list.Forall_forall in Hv.
  destruct gf_rows_per_packet_pos as [Hr Hn].
  destruct (gf_complete_packet 0) as (p0 & _ & Hp0); [lia|].
  destruct (gf_tile h w sz p0 0 Hok H48 Hsz) as (_ & _ & Hbp & _); [lia|done|].
  set (d := Z.of_nat i / bytes_per_packet sz).
  assert (Hdm := Z.div_mod (Z.of_nat i) (bytes_per_packet sz) ltac:(lia)). fold d in Hdm.
  pose proof (Z.mod_pos_bound (Z.of_nat i) (bytes_per_packet sz) ltac:(lia)).
  assert (0 <= d) by (apply Z_div_nonneg_nonneg; lia).
  set (k := Z.min (packets_in_frame sz - 1) d).
  destruct (gf_complete_packet k) as (p & Hp & Hrow); [lia|].
  destruct (gf_tile h w sz p k Hok H48 Hsz ltac:(lia) Hrow) as (Hoff & Hlast & _ & Hl1 & Hm & _).
  destruct (gf_valid_ok h w sz mid Hok H48 Hsz p (Hv p Hp)) as (_ & _ & Hlen).
  apply existsb_exists. exists (gf_abs sz mid p). split.
  { apply list_elem_of_In. by apply list_elem_of_fmap_2. }
  apply (covers_true (gf_abs sz mid p) i). rewrite Hlen. simpl. rewrite Hoff. unfold gf_copy_size. rewrite Hlast.
  destruct (Z.eqb_spec k (packets_in_frame sz - 1)) as [Ek|Ek].
  - assert (k <= d) by lia. rewrite Ek in *. nia.
  - assert (Ed : k = d) by lia. rewrite Ed. nia.
Qed.

(** The frame buffer holds the image. *)
Lemma gf_complete_overlay b :
  zlen b = bytes_per_module sz -> overlay b (gf_abs sz mid <$> ps) = img.
Proof.
  intros Hb. pose proof gf_complete_valid as Hv. pose proof gf_complete_covers as Hcov.
  destruct Hps. apply overlay_complete; [congruence| |].
  - apply Forall_fmap, list.Forall_forall. intros p Hp. rewrite list.Forall_forall in *.
    destruct (gf_valid_ok h w sz mid Hok H48 Hsz p (Hv p Hp)) as ((_ & Hd & Hs) & _ & Hlen).
    change (slice_of img (gf_abs sz mid p)). unfold slice_of. rewrite Hlen. simpl. rewrite (gf_complete_slices0 p Hp), mem_read_ret by lia.
    by rewrite drop_0.
  - intros i Hi. apply Hcov. congruence.
Qed.
End Complete.

Lemma gf_complete_count sz mid img fi ps :
  gf_complete sz img fi ps ->
  packets_in_frame sz - zlen (gf_abs sz mid <$> ps) = 0 \/ packets_in_frame sz < 0.
Proof.
  intros Hc. pose proof (Permutation_length (gf_complete_rows _ _ _ _ Hc)) as Hpl.
  unfold zlen. rewrite !length_fmap, length_seqZ in *. lia.
Qed.

Lemma gf_complete_id sz mid img fi p0 ps :
  gf_complete sz img fi (p0 :: ps) -> image_id (common (gf_template sz mid p0)) = fi.
Proof. intros Hc. by destruct (Forall_cons_1 _ _ _ (gf_complete_frame _ _ _ _ Hc)). Qed.

(** When the last packet of a frame overtakes another one, the frame is sent when the last packet
    arrives, and the other packet starts it again: two messages with the same image id, and each
    counts the packet of the other one as missing. *)
Lemma gf_reordered_frame_sent_twice os name src period h w mid now heap s sz st l p :
  gf_image_ok h w -> (w / 2) mod 48 = 0 ->
  gf_recv_main os name src period h w mid now heap s = Ret (sz, st) ->
  gf_valid_packet sz l -> gf_valid_packet sz p -> gf_is_last sz l = true -> gf_is_last sz p = false ->
  gf.frame_index l = gf.frame_index p ->
  exists st', foldO (gf_packet_step sz) [l; p] st = Ret st' /\
    gf_messages st' =
      (fun q => encode (with_missing gf_set_common (packets_in_frame sz - 1) (gf_template sz mid q))) <$> [l; p].
Proof.
  intros Hok H48 Hmain Hl Hp Ll Lp Hf.
  destruct (gf_recv_main_inv _ _ _ _ _ _ _ _ _ _ _ _ Hok H48 Hmain)
    as (Hsz & Hwf & Hm0 & Hfb & _ & _ & Hrel).
  destruct (gf_valid_ok h w sz mid Hok H48 Hsz l Hl) as (Okl & Fl & _).
  destruct (gf_valid_ok h w sz mid Hok H48 Hsz p Hp) as (Okp & Fp & _).
  pose proof Hl as (_ & _ & k & Hk & Hrow).
  destruct (gf_tile h w sz l k Hok H48 Hsz Hk Hrow) as (_ & _ & _ & _ & _ & _ & Hn64).
  rewrite <- Hfb in Fl, Fp.
  destruct (gf_run sz mid _ _ _ _ Hwf Hm0 [l; p] _ _ (Build_a_state
    (Some (gf.frame_index p, gf_template sz mid p)) (packets_in_frame sz - 1)
    (copy1 (copy1 (frame_buffer st) (gf_abs sz mid l)) (gf_abs sz mid p))
    [(gf_template sz mid l, packets_in_frame sz - 1, copy1 (frame_buffer st) (gf_abs sz mid l))])
    Hrel) as (st' & Hrun & Hrel').
  - apply Forall_cons_2; [done|]. apply Forall_cons_2; [done|constructor].
  - unfold a_run. cbn [fmap list_fmap foldO].
    rewrite a_step_new; [|lia|done|done]. cbn [ap_last gf_abs]. rewrite Ll. cbn [obind andb flush cur buf out].
    rewrite a_step_new; [|lia|cbn [buf]; by rewrite zlen_copy1|done]. cbn [ap_last gf_abs]. by rewrite Lp.
  - exists st'. split; [done|]. by rewrite (gf_rel_messages _ _ _ _ _ _ Hrel').
Qed.

(** C2: for an image whose half width is a multiple of 48 pixels, when all packets of a frame
    arrive, each once, the last one of the frame behind the others, which may come in any order, the
    receiver sends exactly one message for it, with the frame number as image id and no missing
    packets, the shared-memory slot of that id holds the image the packets carried, and the
    receiver is ready for the next frame.  (When the last packet overtakes another one, the frame
    is sent when the last packet arrives and again later: [gf_reordered_frame_sent_twice].) *)
Theorem gf_complete_frame_delivered os name src period h w mid now heap s sz st img fi p0 ps :
  gf_image_ok h w -> (w / 2) mod 48 = 0 -> 0 <= fi < 2 ^ 32 ->
  gf_recv_main os name src period h w mid now heap s = Ret (sz, st) ->
  gf_complete sz img fi (p0 :: ps) ->
  exists st', foldO (gf_packet_step sz) (p0 :: ps) st = Ret st' /\
    sent (sender st') = [encode (with_missing gf_set_common 0 (gf_template sz mid p0))] /\
    slot_data (buffer (sender st)) (shm_bytes (mem st') (shm_fd_ (buffer (sender st)))) fi
      = Ret img /\
    image_id (common (meta st')) = INVALID_IMAGE_ID.
Proof.
  intros Hok H48 Hfi Hmain Hc.
  destruct (gf_recv_main_inv _ _ _ _ _ _ _ _ _ _ _ _ Hok H48 Hmain)
    as (Hsz & Hwf & Hm0 & Hfb & _ & Hdb & Hrel).
  pose proof (gf_complete_burst h w sz Hok H48 Hsz img fi _ Hfi Hc) as Hb.
  pose proof (gf_complete_valid sz img fi _ Hfi Hc) as Hv.
  destruct (gf_complete_last _ _ _ _ Hc) as (q & l & Hq & Hl).
  apply Forall_cons_1 in Hv as Hv0. destruct Hv0 as [(_ & _ & k0 & Hk0 & Hrow0) _].
  destruct (gf_tile h w sz p0 k0 Hok H48 Hsz Hk0 Hrow0) as (_ & _ & _ & _ & _ & Hbf & Hn64).
  destruct (a_run_closed (packets_in_frame sz) true (gf_abs sz mid <$> q) (gf_abs sz mid l)
              (gf_abs sz mid p0) (gf_abs sz mid <$> ps) (Build_a_state None 0 (frame_buffer st) []))
    as (a' & Hrun & Hcur & Hout); [done| |done| |done|by left|].
  { cbn [buf]. rewrite Hfb. exact (gf_burst_abs h w sz mid Hok H48 Hsz (p0 :: ps) Hb). }
  { change (gf_abs sz mid <$> p0 :: ps = (gf_abs sz mid <$> q) ++ [gf_abs sz mid l]).
    by rewrite Hq, fmap_app. }
  change (gf_abs sz mid p0 :: (gf_abs sz mid <$> ps)) with (gf_abs sz mid <$> p0 :: ps) in *.
  assert (Hpk : Forall (gf_packet_ok sz) (p0 :: ps)).
  { eapply Forall_impl; [|exact Hv]. intros p Hp. by apply (gf_valid_ok h w sz mid). }
  destruct (gf_run sz mid _ _ _ _ Hwf Hm0 _ _ _ _ Hrel Hpk Hrun) as (st' & Hrun' & Hrel').
  destruct Hrel' as ([? ? ? Hsent Hmem ?] & _ & _ & Hcs). rewrite Hcur in Hcs.
  exists st'. split; [done|]. cbn [buf out app] in Hout.
  rewrite (gf_complete_overlay h w sz mid Hok H48 Hsz img fi (p0 :: ps) Hfi Hc _ Hfb) in Hout.
  destruct (gf_complete_count sz mid _ _ _ Hc) as [Hcnt|]; [|lia].
  rewrite Hcnt in Hout. rewrite Hout in *. split; [exact Hsent|]. split; [|done].
  rewrite <- (gf_complete_id sz mid _ _ _ _ Hc).
  apply (write_all_last _ [] _ _ _ _ Hwf Hm0) in Hmem; [exact Hmem|done|].
  pose proof (gf_complete_size _ _ _ _ Hc). simpl. congruence.
Qed.

(** ** Instances: a module of 48 x 2 pixels, one packet per frame *)

Definition demo_sizes : gf_recv_sizes :=
  {| width_in_pixels := 48; height_in_pixels := 2; bytes_per_module := 144; rows_per_packet := 2;
     bytes_per_packet := 144; packets_in_frame := 1; bytes_of_last_packet := 144;
     start_row_last_packet := 0; bytes_of_frame := 144 |}.

Definition demo_gf_packet (fi : Z) : gf.GFUdpPacket :=
  {| gf.protocol_id := 203; gf.quadrant_row_length_in_blocks := 4; gf.quadrant_rows := 2;
     gf.status_flags := 64; gf.udp_scan_id := 1; gf.frame_index := fi;
     gf.image_status_flags := 0; gf.packet_starting_row := 0; gf.image_timing := 5;
     gf.udp_sync_time := 0; gf.udp_scan_time := 0; gf.data := replicate (Z.to_nat 7400) 7 |}.

Lemma demo_sizes_ok : gf_recv_constants 8 96 = Ret demo_sizes.
Proof. vm_compute. reflexivity. Qed.

Lemma demo_payload fi : zlen (gf.data (demo_gf_packet fi)) = gf.PACKET_N_DATA_BYTES_MAX.
Proof. vm_compute. reflexivity. Qed.

Lemma demo_burst fi : 0 <= fi < 2 ^ 32 -> gf_burst demo_sizes [demo_gf_packet fi].
Proof.
  intros Hfi. split.
  - vm_compute. split; discriminate.
  - set_solver.
  - apply Forall_cons_2; [|constructor]. split; [exact Hfi|]. split; [apply demo_payload|].
    exists 0. split; [vm_compute; split; [discriminate|reflexivity]|reflexivity].
  - exists [], (demo_gf_packet fi). split; [done|constructor].
Qed.

Lemma demo_complete : gf_complete demo_sizes (replicate 144 7) 9 [demo_gf_packet 9].
Proof.
  split.
  - reflexivity.
  - apply Forall_cons_2; [apply demo_payload|constructor].
  - apply Forall_cons_2; [reflexivity|constructor].
  - reflexivity.
  - by exists [], (demo_gf_packet 9).
  - apply Forall_cons_2; [vm_compute; reflexivity|constructor].
Qed.

Lemma gf_recv_main_ok name src period h w mid now heap s sz :
  gf_recv_constants h w = Ret sz -> bytes_per_module sz = zlen heap ->
  exists st, gf_recv_main all_ok name src period h w mid now heap s = Ret (sz, st).
Proof.
  intros Hsz Hh. unfold gf_recv_main. rewrite Hsz. simpl.
  destruct (Communicator_new_ok {| rbc_buffer_name := src; rbc_n_bytes_data := bytes_of_frame sz;
    rbc_n_buffer_slots := RECEIVER_RAM_BUFFER_N_SLOTS |}
    {| stream_name := src; conn_type := CONN_TYPE_BIND |} s) as (c & s' & ->). simpl.
  unfold throw_if. rewrite take_ge by (unfold zlen in Hh; lia). rewrite Hh, Z.ltb_irrefl. eauto.
Qed.

Lemma gf_receiver_stream_witness :
  exists st, gf_recv_main all_ok "GF" "GF-0" 10 8 96 0 0 (replicate 144 0) demo_shm
               = Ret (demo_sizes, st) /\
  exists st', foldO (gf_packet_step demo_sizes) [demo_gf_packet 1; demo_gf_packet 2] st = Ret st' /\
    gf_messages st' =
      encode ∘ frame_of gf_set_common <$>
        expected 1 (frame_buffer st)
          (map (gf_abs demo_sizes 0) <$> [[demo_gf_packet 1]; [demo_gf_packet 2]]).
Proof.
  destruct (gf_recv_main_ok "GF" "GF-0" 10 8 96 0 0 (replicate 144 0) demo_shm demo_sizes)
    as [st Hst]; [apply demo_sizes_ok|reflexivity|].
  exists st. split; [exact Hst|].
  refine (gf_receiver_stream all_ok "GF" "GF-0" 10 8 96 0 0 _ demo_shm demo_sizes st
            [[demo_gf_packet 1]; [demo_gf_packet 2]] _ _ Hst _).
  - unfold gf_image_ok. lia.
  - reflexivity.
  - repeat split; try (apply demo_burst; lia); discriminate.
Defined.

Lemma gf_complete_frame_delivered_witness :
  exists st, gf_recv_main all_ok "GF" "GF-0" 10 8 96 0 0 (replicate 144 0) demo_shm
               = Ret (demo_sizes, st) /\
  exists st', foldO (gf_packet_step demo_sizes) [demo_gf_packet 9] st = Ret st' /\
    sent (sender st') = [encode (with_missing gf_set_common 0
                                   (gf_template demo_sizes 0 (demo_gf_packet 9)))] /\
    slot_data (buffer (sender st)) (shm_bytes (mem st') (shm_fd_ (buffer (sender st)))) 9
      = Ret (replicate 144 7) /\
    image_id (common (meta st')) = INVALID_IMAGE_ID.
Proof.
  destruct (gf_recv_main_ok "GF" "GF-0" 10 8 96 0 0 (replicate 144 0) demo_shm demo_sizes)
    as [st Hst]; [apply demo_sizes_ok|reflexivity|].
  exists st. split; [exact Hst|].
  refine (gf_complete_frame_delivered all_ok "GF" "GF-0" 10 8 96 0 0 _ demo_shm demo_sizes st
            _ 9 (demo_gf_packet 9) [] _ _ _ Hst _).
  - unfold gf_image_ok. lia.
  - reflexivity.
  - lia.
  - apply demo_complete.
Defined.

(** The bit the metadata reports as [do_not_store] is bit 0 of the status flags; bit 15,
    which the packet's description names, does not reach it. *)
Lemma gf_do_not_store_bit x y n p m :
  0 <= gf.image_status_flags p < 2 ^ 16 ->
  gf.do_not_store (gf_init_frame_metadata x y n p m) = gf.image_status_flags p mod 2.
Proof.
  intros Hf. simpl. change (Z.shiftr 32768 15) with (Z.ones 1).
  rewrite Z.land_ones by lia. change (2 ^ 1) with 2.
  apply u8_small. pose proof (Z.mod_pos_bound (gf.image_status_flags p) 2). lia.
Qed.
