(* ===== verification/UdpRecvEg.v ===== *)
(** * Eiger UDP receiver

    [src/source/std-udp-recv/src/eiger/main.cpp].  [eg_packet_step] is the body of the loop
    over the received packets.  The frame buffer's initial contents are those of
    [new char[...]] (arbitrary). *)

From S2P Require Import Prelude Formats RamBuffer Stats Assembly UdpRecv.

Definition eg_set_common (c : CommonFrame) (m : eg.EGFrame) : eg.EGFrame :=
  {| eg.eg_common := c; eg.bit_depth := eg.bit_depth m; eg.pos_y := eg.pos_y m;
     eg.pos_x := eg.pos_x m |}.

Definition eg_init_frame_metadata (module_id FRAME_N_PACKETS bit_depth : Z)
  (packet : eg.EGUdpPacket) (m : eg.EGFrame) : eg.EGFrame :=
  {| eg.eg_common := {| image_id := eg.frame_num packet; n_missing_packets := FRAME_N_PACKETS;
                        module_id := module_id |};
     eg.bit_depth := bit_depth; eg.pos_y := eg.column packet; eg.pos_x := eg.row packet |}.

Definition eg_set_image_id (id : Z) (m : eg.EGFrame) : eg.EGFrame :=
  eg_set_common {| image_id := id; n_missing_packets := n_missing_packets (common m);
                   module_id := module_id (common m) |} m.

Definition eg_packet_received (m : eg.EGFrame) : eg.EGFrame :=
  eg_set_common {| image_id := image_id (common m);
                   n_missing_packets := u64 (n_missing_packets (common m) - 1);
                   module_id := module_id (common m) |} m.

Definition eg_send_image_id (st : recv_state eg.EGFrame) : outcome (recv_state eg.EGFrame) :=
  let! st' := hand_over st in
  Ret (set_meta st' (eg_set_image_id INVALID_IMAGE_ID (meta st'))).

(** The constants of [main]. *)
Definition eg_frame_n_bytes (bit_depth : Z) : Z := u32 (eg.MODULE_N_PIXELS * bit_depth) / 8.
Definition eg_n_packets_per_frame (bit_depth : Z) : Z :=
  eg_frame_n_bytes bit_depth / eg.DATA_BYTES_PER_PACKET.

Definition eg_frame_buffer_offset (packet : eg.EGUdpPacket) : Z :=
  u32 (eg.packet_number packet * eg.DATA_BYTES_PER_PACKET).

Definition eg_packet_step (module_id bit_depth : Z) (st : recv_state eg.EGFrame)
  (packet : eg.EGUdpPacket) : outcome (recv_state eg.EGFrame) :=
  let n_packets := eg_n_packets_per_frame bit_depth in
  let off := eg_frame_buffer_offset packet in
  if image_id (common (meta st)) =? eg.frame_num packet then
    let! st1 := copy_packet st off (eg.data packet) eg.DATA_BYTES_PER_PACKET in
    let st2 := set_meta st1 (eg_packet_received (meta st1)) in
    if eg.packet_number packet =? u64 (n_packets - 1) then eg_send_image_id st2 else Ret st2
  else
    let! st1 := if negb (image_id (common (meta st)) =? INVALID_IMAGE_ID)
                then hand_over st else Ret st in
    let m := eg_init_frame_metadata module_id (u16 n_packets) (u16 bit_depth) packet (meta st1) in
    let! st2 := copy_packet (set_meta st1 m) off (eg.data packet) eg.DATA_BYTES_PER_PACKET in
    Ret (set_meta st2 (eg_packet_received (meta st2))).

Definition eg_initial_meta (module_id_arg : Z) : eg.EGFrame :=
  {| eg.eg_common := {| image_id := INVALID_IMAGE_ID; n_missing_packets := 0;
                        module_id := module_id_arg |};
     eg.bit_depth := 0; eg.pos_y := 0; eg.pos_x := 0 |}.

(** The part of [main] in front of the loop. *)
Definition eg_recv_main (os : syscalls) (name source_name : string)
  (stats_period bit_depth module_id_arg now : Z) (heap : list Z) (s : shm) :
  outcome (recv_state eg.EGFrame) :=
  let! '(snd, s1) := Communicator_new os
      {| rbc_buffer_name := source_name; rbc_n_bytes_data := eg_frame_n_bytes bit_depth;
         rbc_n_buffer_slots := RECEIVER_RAM_BUFFER_N_SLOTS |}
      {| stream_name := source_name; conn_type := CONN_TYPE_BIND |} s in
  Ret {| meta := eg_initial_meta module_id_arg;
         frame_buffer := take (Z.to_nat (eg_frame_n_bytes bit_depth)) heap;
         sender := snd; mem := s1;
         stats := FrameStats.new name stats_period module_id_arg now |}.

(** ** Refinement of the abstract machine *)

Section Receiver.
Variable (mid bd : Z) (rb : RamBuffer) (sent0 : list (list Z)) (m0 : list Z)
         (stats0 : FrameStats.FrameStatsCollector).
Hypothesis (Hrb : wf_ram rb) (Hm0 : zlen m0 = buffer_bytes_ rb) (Hbd : 1 <= bd <= 32).

Definition eg_template (p : eg.EGUdpPacket) : eg.EGFrame :=
  eg_init_frame_metadata mid (eg_n_packets_per_frame bd) bd p (eg_initial_meta mid).

Definition eg_abs (p : eg.EGUdpPacket) : a_packet eg.EGFrame :=
  {| ap_frame := eg.frame_num p; ap_meta := eg_template p; ap_off := eg_frame_buffer_offset p;
     ap_data := take (Z.to_nat eg.DATA_BYTES_PER_PACKET) (eg.data p);
     ap_last := eg.packet_number p =? eg_n_packets_per_frame bd - 1 |}.

(** A received datagram; the frame number that marks an idle receiver does not occur. *)
Definition eg_packet_ok (p : eg.EGUdpPacket) : Prop :=
  eg.frame_num p <> INVALID_IMAGE_ID /\ zlen (eg.data p) = eg.DATA_BYTES_PER_PACKET.

Definition eg_rel (st : recv_state eg.EGFrame) (a : a_state eg.EGFrame) : Prop :=
  seen eg_set_common rb sent0 m0 stats0 st a /\
  match cur a with
  | None => image_id (common (meta st)) = INVALID_IMAGE_ID
  | Some (f, x) => meta st = with_missing eg_set_common (missing a) x /\
                   image_id (common x) = f /\ f <> INVALID_IMAGE_ID
  end.

Lemma eg_sizes :
  eg_frame_n_bytes bd = 4 * bd * eg.DATA_BYTES_PER_PACKET /\ eg_n_packets_per_frame bd = 4 * bd.
Proof.
  unfold eg_n_packets_per_frame, eg_frame_n_bytes, eg.MODULE_N_PIXELS, eg.DATA_BYTES_PER_PACKET.
  rewrite u32_small by lia.
  replace (131072 * bd) with (16384 * bd * 8) by lia. rewrite Z.div_mul by lia.
  replace (16384 * bd) with (4 * bd * 4096) by lia. rewrite Z.div_mul by lia. done.
Qed.

Lemma eg_common_set c x : common (eg_set_common c x) = c.
Proof. done. Qed.

(** Copying a packet of the current frame. *)
Lemma eg_copy_sim st a p f x a' :
  seen eg_set_common rb sent0 m0 stats0 st a -> eg_packet_ok p ->
  cur a = Some (f, x) -> meta st = with_missing eg_set_common (missing a) x ->
  accumulate a (eg_abs p) = Ret a' ->
  exists st1, copy_packet st (eg_frame_buffer_offset p) (eg.data p) eg.DATA_BYTES_PER_PACKET
                = Ret st1 /\
    let st2 := set_meta st1 (eg_packet_received (meta st1)) in
    seen eg_set_common rb sent0 m0 stats0 st2 a' /\ cur a' = Some (f, x) /\
    meta st2 = with_missing eg_set_common (missing a') x.
Proof.
  intros Hseen [_ Hd] Hc Hmeta. unfold accumulate. rewrite obind_Ret_iff.
  intros (b & Hw & [= <-]). simpl in Hw. apply mem_write_inv in Hw as (Ho & Hfit & ->).
  assert (Hlen : zlen (take (Z.to_nat eg.DATA_BYTES_PER_PACKET) (eg.data p)) = eg.DATA_BYTES_PER_PACKET)
    by (unfold zlen in *; rewrite length_take; lia).
  rewrite Hlen in Hfit.
  destruct (seen_copy eg_set_common rb sent0 m0 stats0 st a (eg_frame_buffer_offset p)
              (eg.data p) eg.DATA_BYTES_PER_PACKET (cur a) (u64 (missing a - 1)) Hseen)
    as [Hcp Hseen2]; [rewrite Hd; done|lia..|].
  eexists. split; [exact Hcp|]. cbv zeta. split; [by destruct Hseen2|].
  split; [done|]. simpl. rewrite Hmeta. done.
Qed.

(** The first packet of a frame, behind the hand-over of the old one. *)
Lemma eg_new_sim st a p a' :
  seen eg_set_common rb sent0 m0 stats0 st a -> eg_packet_ok p ->
  accumulate (start (eg_n_packets_per_frame bd) a (eg_abs p)) (eg_abs p) = Ret a' ->
  exists st1, copy_packet (set_meta st (eg_init_frame_metadata mid (eg_n_packets_per_frame bd) bd p
                                         (meta st)))
                (eg_frame_buffer_offset p) (eg.data p) eg.DATA_BYTES_PER_PACKET = Ret st1 /\
    eg_rel (set_meta st1 (eg_packet_received (meta st1))) a'.
Proof.
  intros Hseen Hp Ha. destruct (eg_copy_sim (set_meta st (eg_init_frame_metadata mid
      (eg_n_packets_per_frame bd) bd p (meta st)))
      (start (eg_n_packets_per_frame bd) a (eg_abs p)) p (eg.frame_num p) (eg_template p) a')
    as (st1 & Hcp & Hs & Hc & Hm); [|exact Hp| | |exact Ha|]; [by destruct Hseen|done|done|].
  exists st1. split; [done|]. unfold eg_rel. rewrite Hc. destruct Hp. done.
Qed.

Lemma eg_packet_sim st a p a' :
  eg_rel st a -> eg_packet_ok p ->
  a_step (eg_n_packets_per_frame bd) false a (eg_abs p) = Ret a' ->
  exists st', eg_packet_step mid bd st p = Ret st' /\ eg_rel st' a'.
Proof.
  intros (Hseen & Hcur) Hp. pose proof Hp as (Hfi & _). destruct eg_sizes as [_ Hn].
  unfold a_step, is_current, eg_packet_step. cbn [ap_frame eg_abs ap_last andb].
  rewrite (u64_small (eg_n_packets_per_frame bd - 1)) by lia.
  rewrite (u16_small (eg_n_packets_per_frame bd)), (u16_small bd) by lia.
  destruct (cur a) as [[f x]|] eqn:Hc.
  - destruct Hcur as (Hmeta & Hid & Hf).
    assert (Hmf : image_id (common (meta st)) = f) by (by rewrite Hmeta).
    rewrite Hmf. destruct (Z.eqb_spec f (eg.frame_num p)) as [E|E];
      rewrite obind_Ret_iff; intros (a1 & Ha1 & [= <-]).
    + destruct (eg_copy_sim st a p f x a1 Hseen Hp Hc Hmeta Ha1) as (st1 & -> & Hs1 & Hc1 & Hm1).
      cbn [obind]. destruct (_ =? _).
      * destruct (seen_hand_over eg_set_common eg_common_set rb sent0 m0 stats0 _ _ f x
                    Hrb Hm0 Hs1 Hc1 Hm1) as (st3 & Hh & Hm3 & Hs3 & _).
        unfold eg_send_image_id. rewrite Hh. cbn [obind]. eexists. split; [done|].
        unfold eg_rel, flush in *. rewrite Hc1 in *. split; [by destruct Hs3|done].
      * eexists. split; [done|]. unfold eg_rel. rewrite Hc1. done.
    + destruct (Z.eqb_spec f INVALID_IMAGE_ID); [done|]. cbn [negb].
      destruct (seen_hand_over eg_set_common eg_common_set rb sent0 m0 stats0 st a f x
                  Hrb Hm0 Hseen Hc Hmeta) as (st1 & Hh & Hm1 & Hs1 & _).
      rewrite Hh. cbn [obind].
      destruct (eg_new_sim st1 (flush a) p a1 Hs1 Hp Ha1) as (st2 & -> & Hr). cbn [obind]. eauto.
  - rewrite Hcur. destruct (Z.eqb_spec INVALID_IMAGE_ID (eg.frame_num p)); [congruence|].
    rewrite Z.eqb_refl. cbn [negb obind]. rewrite obind_Ret_iff. intros (a1 & Ha1 & [= <-]).
    unfold flush in Ha1. rewrite Hc in Ha1.
    destruct (eg_new_sim st a p a1 Hseen Hp Ha1) as (st2 & -> & Hr). cbn [obind]. eauto.
Qed.

#[local] Instance eg_receiver : FrameReceiver (recv_state eg.EGFrame) eg.EGUdpPacket eg.EGFrame := {|
  r_step := eg_packet_step mid bd;
  r_packets := eg_n_packets_per_frame bd;
  r_flush_first := false;
  r_abs := eg_abs;
  r_ok := eg_packet_ok;
  r_rel := eg_rel;
  r_sim := eg_packet_sim
|}.

Lemma eg_run ps st a a' :
  eg_rel st a -> Forall eg_packet_ok ps ->
  a_run (eg_n_packets_per_frame bd) false (eg_abs <$> ps) a = Ret a' ->
  exists st', foldO (eg_packet_step mid bd) ps st = Ret st' /\ eg_rel st' a'.
Proof. exact (receiver_run ps st a a'). Qed.
End Receiver.

(** ** Streams of packets *)

Section Streams.
Variable (mid bd : Z).
Hypothesis (Hbd : 1 <= bd <= 32).

Lemma eg_abs_off p :
  0 <= eg.packet_number p < eg_n_packets_per_frame bd ->
  ap_off (eg_abs mid bd p) = eg.packet_number p * eg.DATA_BYTES_PER_PACKET.
Proof.
  destruct (eg_sizes bd Hbd) as [_ ->]. intros Hk. simpl. unfold eg_frame_buffer_offset.
  unfold eg.DATA_BYTES_PER_PACKET. by rewrite u32_small by lia.
Qed.

Lemma eg_abs_data p :
  zlen (eg.data p) = eg.DATA_BYTES_PER_PACKET -> ap_data (eg_abs mid bd p) = eg.data p.
Proof. intros Hd. cbn [ap_data eg_abs]. apply take_ge. unfold zlen in Hd. lia. Qed.
End Streams.

(** A run of a receiver that [main] started. *)
Lemma eg_recv_main_inv os name src period bd mid now heap s st :
  1 <= bd <= 32 -> eg_frame_n_bytes bd <= zlen heap ->
  eg_recv_main os name src period bd mid now heap s = Ret st ->
  let rb := buffer (sender st) in let m0 := shm_bytes (mem st) (shm_fd_ rb) in
  wf_ram rb /\ zlen m0 = buffer_bytes_ rb /\ data_bytes_ rb = eg_frame_n_bytes bd /\
  zlen (frame_buffer st) = eg_n_packets_per_frame bd * eg.DATA_BYTES_PER_PACKET /\
  eg_rel rb [] m0 (stats st) st (Build_a_state None 0 (frame_buffer st) []).
Proof.
  intros Hbd Hh. unfold eg_recv_main. rewrite obind_Ret_iff. intros ([c s1] & Hc & Hm).
  unfold Communicator_new in Hc. apply obind_Ret_iff in Hc as ([rb s2] & Hrb & Hc). simplify_eq/=.
  apply RamBuffer_new_inv in Hrb as (_ & Hns & Hdb & Hbb & _ & Hlen). simpl in *.
  destruct (eg_sizes bd Hbd) as [Hb Hn]. unfold eg.DATA_BYTES_PER_PACKET in *.
  assert (Hfb : zlen (take (Z.to_nat (eg_frame_n_bytes bd)) heap) = eg_frame_n_bytes bd).
  { unfold zlen in *. rewrite length_take. lia. }
  split_and!; try done.
  - unfold wf_ram. rewrite Hns, Hdb, Hbb. unfold RECEIVER_RAM_BUFFER_N_SLOTS.
    split_and!; done || lia.
  - rewrite Hfb, Hn. done.
  - split; [|done]. split; simpl; try done. congruence.
Qed.

(** What the consumers see of a receiver state: the messages sent, and the one that the
    next packet of another frame will send. *)
Definition eg_messages (st : recv_state eg.EGFrame) : list (list Z) :=
  sent (sender st) ++
  (if image_id (common (meta st)) =? INVALID_IMAGE_ID then [] else [encode (meta st)]).

Lemma eg_rel_messages rb m0 stats0 st a :
  eg_rel rb [] m0 stats0 st a ->
  eg_messages st = encode ∘ frame_of eg_set_common <$> out (flush a).
Proof.
  intros (Hseen & Hcur). destruct Hseen. unfold eg_messages, flush.
  destruct (cur a) as [[f x]|].
  - destruct Hcur as (Hm & Hid & Hf). rewrite Hm, image_id_with_missing by done.
    rewrite Hid. destruct (Z.eqb_spec f INVALID_IMAGE_ID); [done|].
    cbn [out]. rewrite seen_sent, fmap_app. done.
  - rewrite Hcur, Z.eqb_refl, app_nil_r. done.
Qed.

(** The bursts and complete frames of Eiger packets. *)
Definition eg_stream (bd : Z) : list (list eg.EGUdpPacket) -> Prop :=
  numbered_stream eg.packet_number eg.frame_num eg.data eg.DATA_BYTES_PER_PACKET
    (eg_n_packets_per_frame bd) None.

Definition eg_complete (bd : Z) : list Z -> Z -> list eg.EGUdpPacket -> Prop :=
  numbered_complete eg.packet_number eg.frame_num eg.data eg.DATA_BYTES_PER_PACKET
    (eg_n_packets_per_frame bd).


(** When all packets of an Eiger frame arrive, in any order with the last one at the
    end, the receiver sends exactly one message for it, with the frame number as image id
    and no missing packets, the shared-memory slot of that id holds the image, and the
    receiver is ready for the next frame. *)
Lemma eg_complete_frame_delivered os name src period bd mid now heap s st img fi p0 ps :
  1 <= bd <= 32 -> eg_frame_n_bytes bd <= zlen heap -> fi <> INVALID_IMAGE_ID ->
  eg_recv_main os name src period bd mid now heap s = Ret st ->
  eg_complete bd img fi (p0 :: ps) ->
  exists st', foldO (eg_packet_step mid bd) (p0 :: ps) st = Ret st' /\
    sent (sender st') = [encode (with_missing eg_set_common 0 (eg_template mid bd p0))] /\
    slot_data (buffer (sender st)) (shm_bytes (mem st') (shm_fd_ (buffer (sender st)))) fi
      = Ret img /\
    image_id (common (meta st')) = INVALID_IMAGE_ID.
Proof.
  intros Hbd Hh Hfi Hmain Hc.
  destruct (eg_recv_main_inv _ _ _ _ _ _ _ _ _ _ Hbd Hh Hmain) as (Hwf & Hm0 & Hdb & Hfb & Hrel).
  destruct (eg_sizes bd Hbd) as [Hb Hn].
  edestruct (numbered_complete_run eg.packet_number eg.frame_num eg.data (eg_abs mid bd)
               eg.DATA_BYTES_PER_PACKET (eg_n_packets_per_frame bd))
    with (st := Build_a_state None 0 (frame_buffer st) (@nil (eg.EGFrame * Z * list Z)))
    as (a' & Hrun & Hcur & Hout); try exact Hc; try done; try lia.
  { by apply eg_abs_off. } { apply eg_abs_data. }
  pose proof (nc_frame _ _ _ _ _ _ _ _ Hc) as Hfr. rewrite list.Forall_forall in Hfr.
  assert (Hok : Forall eg_packet_ok (p0 :: ps)).
  { pose proof (numbered_complete_valid _ _ _ _ _ _ _ _ Hc) as Hv.
    apply list.Forall_forall. intros p Hp. rewrite list.Forall_forall in Hv.
    split; [by rewrite Hfr|by apply Hv]. }
  destruct (eg_run mid bd _ _ _ _ Hwf Hm0 Hbd _ _ _ _ Hrel Hok Hrun) as (st' & Hrun' & Hrel').
  destruct Hrel' as ([? ? ? Hsent Hmem ?] & Hcs). rewrite Hcur in Hcs.
  exists st'. split; [done|]. cbn [out app] in Hout. rewrite Hout in Hsent, Hmem.
  split; [exact Hsent|]. split; [|done].
  apply (write_all_last _ [] _ _ _ _ Hwf Hm0) in Hmem; [|done|].
  - rewrite <- (Hfr p0) by set_solver. exact Hmem.
  - pose proof (nc_size _ _ _ _ _ _ _ _ Hc). simpl. lia.
Qed.

(** ** Instances: 1-bit frames of four packets *)

Definition demo_eg_packet (fi k : Z) : eg.EGUdpPacket :=
  {| eg.frame_num := fi; eg.exp_length := 0; eg.packet_number := k; eg.detSpec1 := 0;
     eg.timestamp := 0; eg.udp_module_id := 3; eg.row := 1; eg.column := 2; eg.detSpec2 := 0;
     eg.detSpec3 := 0; eg.round_robin := 0; eg.detector_type := 3; eg.header_version := 2;
     eg.data := replicate (Z.to_nat 4096) 7 |}.

Definition demo_eg_heap : list Z := replicate (Z.to_nat 16384) 0.

Lemma demo_eg_heap_ok : eg_frame_n_bytes 1 <= zlen demo_eg_heap.
Proof. unfold demo_eg_heap. rewrite zlen_replicate. vm_compute. discriminate. Qed.

Lemma eg_recv_main_ok name src period bd mid now heap s :
  exists st, eg_recv_main all_ok name src period bd mid now heap s = Ret st.
Proof.
  unfold eg_recv_main.
  destruct (Communicator_new_ok {| rbc_buffer_name := src;
    rbc_n_bytes_data := eg_frame_n_bytes bd; rbc_n_buffer_slots := RECEIVER_RAM_BUFFER_N_SLOTS |}
    {| stream_name := src; conn_type := CONN_TYPE_BIND |} s) as (c & s' & ->). simpl. eauto.
Qed.

Lemma demo_eg_numbered fi k :
  0 <= k < 4 -> numbered_packet eg.packet_number eg.data eg.DATA_BYTES_PER_PACKET
                  (eg_n_packets_per_frame 1) (demo_eg_packet fi k).
Proof.
  intros Hk. split; [exact Hk|]. unfold demo_eg_packet. cbn [eg.data]. rewrite zlen_replicate.
  apply Z2Nat.id. done.
Qed.

(** Frame 5 loses its packets 1 and 3, frame 6 its packets 1 and 2. *)
Definition demo_eg_stream : list (list eg.EGUdpPacket) :=
  [[demo_eg_packet 5 0; demo_eg_packet 5 2]; [demo_eg_packet 6 0; demo_eg_packet 6 3]].

Lemma demo_eg_burst fi k :
  1 <= k < 4 ->
  numbered_burst eg.packet_number eg.frame_num eg.data eg.DATA_BYTES_PER_PACKET
    (eg_n_packets_per_frame 1) [demo_eg_packet fi 0; demo_eg_packet fi k].
Proof.
  intros Hk. split.
  - vm_compute. split; discriminate.
  - set_solver.
  - repeat apply Forall_cons_2; try apply demo_eg_numbered; try lia. constructor.
  - exists [demo_eg_packet fi 0], (demo_eg_packet fi k). split; [done|].
    apply Forall_cons_2; [vm_compute; discriminate|constructor].
Qed.

Lemma demo_eg_stream_ok : eg_stream 1 demo_eg_stream.
Proof. repeat split; try (apply demo_eg_burst; lia); discriminate. Qed.


Lemma eg_complete_frame_delivered_witness :
  exists st, eg_recv_main all_ok "EG" "EG-3" 10 1 3 0 demo_eg_heap demo_shm = Ret st /\
  exists st', foldO (eg_packet_step 3 1)
                (demo_eg_packet 8 0 :: (demo_eg_packet 8 <$> seqZ 1 3)) st = Ret st' /\
    sent (sender st') =
      [encode (with_missing eg_set_common 0 (eg_template 3 1 (demo_eg_packet 8 0)))] /\
    slot_data (buffer (sender st)) (shm_bytes (mem st') (shm_fd_ (buffer (sender st)))) 8
      = Ret (replicate (Z.to_nat (4 * 4096)) 7) /\
    image_id (common (meta st')) = INVALID_IMAGE_ID.
Proof.
  destruct (eg_recv_main_ok "EG" "EG-3" 10 1 3 0 demo_eg_heap demo_shm) as [st Hst].
  exists st. split; [exact Hst|].
  refine (eg_complete_frame_delivered all_ok "EG" "EG-3" 10 1 3 0 demo_eg_heap demo_shm st
            _ 8 (demo_eg_packet 8 0) (demo_eg_packet 8 <$> seqZ 1 3) _ demo_eg_heap_ok _ Hst _).
  - lia.
  - vm_compute. discriminate.
  - apply (constant_frame_complete eg.packet_number eg.frame_num eg.data
             eg.DATA_BYTES_PER_PACKET 4 (demo_eg_packet 8) 8 7); done.
Defined.

(** A frame whose first received packet is its last one stays pending: nothing is sent
    until a packet of another frame arrives. *)
Lemma eg_last_packet_first st st1 mid bd p :
  image_id (common (meta st)) = INVALID_IMAGE_ID -> eg.frame_num p <> INVALID_IMAGE_ID ->
  eg_packet_step mid bd st p = Ret st1 -> sent (sender st1) = sent (sender st).
Proof.
  intros Hid Hf. unfold eg_packet_step. rewrite Hid.
  destruct (Z.eqb_spec INVALID_IMAGE_ID (eg.frame_num p)); [congruence|].
  rewrite Z.eqb_refl. cbn [negb obind]. rewrite obind_Ret_iff. intros (st2 & Hcp & [= <-]).
  unfold copy_packet in Hcp. apply obind_Ret_iff in Hcp as (b & _ & [= <-]). done.
Qed.
