(* ===== verification/UdpRecvJf.v ===== *)
(** * Jungfrau UDP receiver

    [src/source/std-udp-recv/src/jungfrau/main.cpp].  [jf_packet_step] is the body of the
    loop over the received packets.  A packet names its frame by [framenum], and the image
    id is the bunch id, a [double] that the code converts to [uint64_t]; the conversion is
    modelled on the 64 bits of the value. *)

From S2P Require Import Prelude Formats RamBuffer Stats Assembly UdpRecv.

#[local] Opaque Z.to_nat.

(** [static_cast<uint64_t>] of a double: truncation towards zero; infinities, NaNs and
    values outside the range of the type are undefined. *)
Definition double_to_u64 (bits : Z) : outcome Z :=
  let e := Z.land (Z.shiftr bits 52) 2047 in
  let m := Z.land bits (2 ^ 52 - 1) in
  if e =? 2047 then Undef float_cast_range
  else
    let magnitude := if e =? 0 then 0 else Z.shiftl (2 ^ 52 + m) (e - 1075) in
    if Z.testbit bits 63 then
      if magnitude =? 0 then Ret 0 else Undef float_cast_range
    else if magnitude <? 2 ^ 64 then Ret magnitude else Undef float_cast_range.

Definition jf_set_common (c : CommonFrame) (m : jf.JFFrame) : jf.JFFrame :=
  {| jf.jf_common := c; jf.id := jf.id m; jf.frame_index := jf.frame_index m;
     jf.daq_rec := jf.daq_rec m; jf.jf_module_id := jf.jf_module_id m |}.

Definition jf_set_frame_index (i : Z) (m : jf.JFFrame) : jf.JFFrame :=
  {| jf.jf_common := jf.jf_common m; jf.id := jf.id m; jf.frame_index := i;
     jf.daq_rec := jf.daq_rec m; jf.jf_module_id := jf.jf_module_id m |}.

Definition jf_packet_received (m : jf.JFFrame) : jf.JFFrame :=
  jf_set_common {| image_id := image_id (common m);
                   n_missing_packets := u64 (n_missing_packets (common m) - 1);
                   module_id := module_id (common m) |} m.

(** The assignments for the first packet of a frame. *)
Definition jf_init_frame (packet : jf.JFUdpPacket) (id : Z) (m : jf.JFFrame) : jf.JFFrame :=
  {| jf.jf_common := {| image_id := id; n_missing_packets := jf.N_PACKETS_PER_FRAME;
                        module_id := module_id (common m) |};
     jf.id := jf.id m; jf.frame_index := jf.framenum packet; jf.daq_rec := jf.debug packet;
     jf.jf_module_id := jf.jf_module_id m |}.

Definition JF_FRAME_N_BYTES : Z := jf.DATA_BYTES_PER_PACKET * jf.N_PACKETS_PER_FRAME.

Definition jf_frame_buffer_offset (packet : jf.JFUdpPacket) : Z :=
  u32 (jf.packetnum packet * jf.DATA_BYTES_PER_PACKET).

Definition jf_packet_step (st : recv_state jf.JFFrame) (packet : jf.JFUdpPacket) :
  outcome (recv_state jf.JFFrame) :=
  let off := jf_frame_buffer_offset packet in
  if jf.frame_index (meta st) =? jf.framenum packet then
    let! st1 := copy_packet st off (jf.data packet) jf.DATA_BYTES_PER_PACKET in
    let st2 := set_meta st1 (jf_packet_received (meta st1)) in
    if jf.packetnum packet =? jf.N_PACKETS_PER_FRAME - 1 then
      let! st3 := hand_over st2 in
      Ret (set_meta st3 (jf_set_frame_index INVALID_IMAGE_ID (meta st3)))
    else Ret st2
  else
    let! st1 := if negb (jf.frame_index (meta st) =? INVALID_IMAGE_ID)
                then hand_over st else Ret st in
    let! id := double_to_u64 (jf.bunchid packet) in
    let! st2 := copy_packet (set_meta st1 (jf_init_frame packet id (meta st1))) off
                  (jf.data packet) jf.DATA_BYTES_PER_PACKET in
    Ret (set_meta st2 (jf_packet_received (meta st2))).

Definition jf_initial_meta (module_id_arg : Z) : jf.JFFrame :=
  {| jf.jf_common := {| image_id := 0; n_missing_packets := 0; module_id := module_id_arg |};
     jf.id := 0; jf.frame_index := INVALID_IMAGE_ID; jf.daq_rec := 0;
     jf.jf_module_id := module_id_arg |}.

(** The part of [main] in front of the loop. *)
Definition jf_recv_main (os : syscalls) (name source_name : string)
  (stats_period module_id_arg now : Z) (heap : list Z) (s : shm) :
  outcome (recv_state jf.JFFrame) :=
  let! '(snd, s1) := Communicator_new os
      {| rbc_buffer_name := source_name; rbc_n_bytes_data := JF_FRAME_N_BYTES;
         rbc_n_buffer_slots := RECEIVER_RAM_BUFFER_N_SLOTS |}
      {| stream_name := source_name; conn_type := CONN_TYPE_BIND |} s in
  Ret {| meta := jf_initial_meta module_id_arg;
         frame_buffer := take (Z.to_nat jf.MODULE_N_BYTES) heap;
         sender := snd; mem := s1;
         stats := FrameStats.new name stats_period module_id_arg now |}.

(** ** Refinement of the abstract machine *)

Section Receiver.
Variable (mid : Z) (rb : RamBuffer) (sent0 : list (list Z)) (m0 : list Z)
         (stats0 : FrameStats.FrameStatsCollector).
Hypothesis (Hrb : wf_ram rb) (Hm0 : zlen m0 = buffer_bytes_ rb).

(** The image id of a packet's bunch. *)
Definition jf_bunch (p : jf.JFUdpPacket) : Z :=
  match double_to_u64 (jf.bunchid p) with Ret i => i | _ => 0 end.

Definition jf_template (p : jf.JFUdpPacket) : jf.JFFrame :=
  jf_init_frame p (jf_bunch p) (jf_initial_meta mid).

Definition jf_abs (p : jf.JFUdpPacket) : a_packet jf.JFFrame :=
  {| ap_frame := jf.framenum p; ap_meta := jf_template p; ap_off := jf_frame_buffer_offset p;
     ap_data := take (Z.to_nat jf.DATA_BYTES_PER_PACKET) (jf.data p);
     ap_last := jf.packetnum p =? jf.N_PACKETS_PER_FRAME - 1 |}.

(** A received datagram: the frame number that marks an idle receiver does not occur, and
    the bunch id is a number that fits into 64 bits. *)
Definition jf_packet_ok (p : jf.JFUdpPacket) : Prop :=
  jf.framenum p <> INVALID_IMAGE_ID /\ zlen (jf.data p) = jf.DATA_BYTES_PER_PACKET /\
  double_to_u64 (jf.bunchid p) = Ret (jf_bunch p).

Definition jf_fixed (m : jf.JFFrame) : Prop :=
  module_id (common m) = mid /\ jf.id m = 0 /\ jf.jf_module_id m = mid.

Definition jf_rel (st : recv_state jf.JFFrame) (a : a_state jf.JFFrame) : Prop :=
  seen jf_set_common rb sent0 m0 stats0 st a /\ jf_fixed (meta st) /\
  match cur a with
  | None => jf.frame_index (meta st) = INVALID_IMAGE_ID
  | Some (f, x) => meta st = with_missing jf_set_common (missing a) x /\
                   jf.frame_index x = f /\ f <> INVALID_IMAGE_ID
  end.

Lemma jf_common_set c x : common (jf_set_common c x) = c.
Proof. done. Qed.

Lemma jf_init_template p m :
  jf_fixed m -> jf_init_frame p (jf_bunch p) m =
  with_missing jf_set_common jf.N_PACKETS_PER_FRAME (jf_template p).
Proof.
  intros (Hm & Hi & Hj). unfold jf_template, jf_init_frame, with_missing, jf_set_common.
  simpl in *. by rewrite Hm, Hi, Hj.
Qed.

(** Copying a packet of the current frame. *)
Lemma jf_copy_sim st a p f x a' :
  seen jf_set_common rb sent0 m0 stats0 st a -> jf_packet_ok p ->
  cur a = Some (f, x) -> meta st = with_missing jf_set_common (missing a) x ->
  accumulate a (jf_abs p) = Ret a' ->
  exists st1, copy_packet st (jf_frame_buffer_offset p) (jf.data p) jf.DATA_BYTES_PER_PACKET
                = Ret st1 /\
    let st2 := set_meta st1 (jf_packet_received (meta st1)) in
    seen jf_set_common rb sent0 m0 stats0 st2 a' /\ cur a' = Some (f, x) /\
    meta st2 = with_missing jf_set_common (missing a') x.
Proof.
  intros Hseen (_ & Hd & _) Hc Hmeta. unfold accumulate. rewrite obind_Ret_iff.
  intros (b & Hw & [= <-]). cbn [ap_off ap_data jf_abs] in Hw.
  apply mem_write_inv in Hw as (Ho & Hfit & ->).
  assert (Hlen : zlen (take (Z.to_nat jf.DATA_BYTES_PER_PACKET) (jf.data p)) = jf.DATA_BYTES_PER_PACKET)
    by (unfold zlen in *; rewrite length_take; lia).
  rewrite Hlen in Hfit.
  destruct (seen_copy jf_set_common rb sent0 m0 stats0 st a (jf_frame_buffer_offset p)
              (jf.data p) jf.DATA_BYTES_PER_PACKET (cur a) (u64 (missing a - 1)) Hseen)
    as [Hcp Hseen2]; [rewrite Hd; done|lia..|].
  eexists. split; [exact Hcp|]. cbv zeta. split; [by destruct Hseen2|].
  split; [done|]. cbn [meta set_meta set_frame_buffer missing]. by rewrite Hmeta.
Qed.

(** The first packet of a frame, behind the hand-over of the old one. *)
Lemma jf_new_sim st a p a' :
  seen jf_set_common rb sent0 m0 stats0 st a -> jf_packet_ok p -> jf_fixed (meta st) ->
  accumulate (start jf.N_PACKETS_PER_FRAME a (jf_abs p)) (jf_abs p) = Ret a' ->
  exists st1, copy_packet (set_meta st (jf_init_frame p (jf_bunch p) (meta st)))
                (jf_frame_buffer_offset p) (jf.data p) jf.DATA_BYTES_PER_PACKET = Ret st1 /\
    jf_rel (set_meta st1 (jf_packet_received (meta st1))) a'.
Proof.
  intros Hseen Hp Hfix Ha. rewrite jf_init_template by done.
  destruct (jf_copy_sim (set_meta st (with_missing jf_set_common jf.N_PACKETS_PER_FRAME
      (jf_template p))) (start jf.N_PACKETS_PER_FRAME a (jf_abs p)) p (jf.framenum p)
      (jf_template p) a')
    as (st1 & Hcp & Hs & Hc & Hm); [|exact Hp| | |exact Ha|]; [by destruct Hseen|done|done|].
  exists st1. split; [done|]. unfold jf_rel. rewrite Hc, Hm. destruct Hp. done.
Qed.

Lemma jf_packet_sim st a p a' :
  jf_rel st a -> jf_packet_ok p ->
  a_step jf.N_PACKETS_PER_FRAME false a (jf_abs p) = Ret a' ->
  exists st', jf_packet_step st p = Ret st' /\ jf_rel st' a'.
Proof.
  intros (Hseen & Hfix & Hcur) Hp. pose proof Hp as (Hfi & _ & Hb).
  unfold a_step, is_current, jf_packet_step. cbn [ap_frame jf_abs ap_last andb].
  rewrite Hb. destruct (cur a) as [[f x]|] eqn:Hc.
  - destruct Hcur as (Hmeta & Hid & Hf).
    assert (Hmf : jf.frame_index (meta st) = f) by (by rewrite Hmeta).
    rewrite Hmf. destruct (Z.eqb_spec f (jf.framenum p)) as [E|E];
      rewrite obind_Ret_iff; intros (a1 & Ha1 & [= <-]).
    + destruct (jf_copy_sim st a p f x a1 Hseen Hp Hc Hmeta Ha1) as (st1 & -> & Hs1 & Hc1 & Hm1).
      assert (Hfx : jf_fixed x) by (by rewrite Hmeta in Hfix).
      cbn [obind]. destruct (_ =? _).
      * destruct (seen_hand_over jf_set_common jf_common_set rb sent0 m0 stats0 _ _ f x
                    Hrb Hm0 Hs1 Hc1 Hm1) as (st3 & Hh & Hm3 & Hs3 & _).
        rewrite Hh. cbn [obind]. eexists. split; [done|].
        unfold jf_rel, flush in *. rewrite Hc1 in *. rewrite Hm3, Hm1. split; [by destruct Hs3|done].
      * eexists. split; [done|]. unfold jf_rel. rewrite Hc1, Hm1. done.
    + destruct (Z.eqb_spec f INVALID_IMAGE_ID); [done|]. cbn [negb].
      destruct (seen_hand_over jf_set_common jf_common_set rb sent0 m0 stats0 st a f x
                  Hrb Hm0 Hseen Hc Hmeta) as (st1 & Hh & Hm1 & Hs1 & _).
      rewrite Hh. cbn [obind]. rewrite <- Hm1 in Hfix.
      destruct (jf_new_sim st1 (flush a) p a1 Hs1 Hp Hfix Ha1) as (st2 & -> & Hr). cbn [obind]. eauto.
  - rewrite Hcur. destruct (Z.eqb_spec INVALID_IMAGE_ID (jf.framenum p)); [congruence|].
    rewrite Z.eqb_refl. cbn [negb obind]. rewrite obind_Ret_iff. intros (a1 & Ha1 & [= <-]).
    unfold flush in Ha1. rewrite Hc in Ha1.
    destruct (jf_new_sim st a p a1 Hseen Hp Hfix Ha1) as (st2 & -> & Hr). cbn [obind]. eauto.
Qed.

#[local] Instance jf_receiver : FrameReceiver (recv_state jf.JFFrame) jf.JFUdpPacket jf.JFFrame := {|
  r_step := jf_packet_step;
  r_packets := jf.N_PACKETS_PER_FRAME;
  r_flush_first := false;
  r_abs := jf_abs;
  r_ok := jf_packet_ok;
  r_rel := jf_rel;
  r_sim := jf_packet_sim
|}.

Lemma jf_run ps st a a' :
  jf_rel st a -> Forall jf_packet_ok ps ->
  a_run jf.N_PACKETS_PER_FRAME false (jf_abs <$> ps) a = Ret a' ->
  exists st', foldO jf_packet_step ps st = Ret st' /\ jf_rel st' a'.
Proof. exact (receiver_run ps st a a'). Qed.
End Receiver.

(** ** Streams of packets *)

Lemma jf_abs_off mid p :
  0 <= jf.packetnum p < jf.N_PACKETS_PER_FRAME ->
  ap_off (jf_abs mid p) = jf.packetnum p * jf.DATA_BYTES_PER_PACKET.
Proof.
  unfold jf.N_PACKETS_PER_FRAME. intros Hk. cbn [ap_off jf_abs]. unfold jf_frame_buffer_offset.
  unfold jf.DATA_BYTES_PER_PACKET. by rewrite u32_small by lia.
Qed.

Lemma jf_abs_data mid p :
  zlen (jf.data p) = jf.DATA_BYTES_PER_PACKET -> ap_data (jf_abs mid p) = jf.data p.
Proof. intros Hd. cbn [ap_data jf_abs]. apply take_ge. unfold zlen in Hd. lia. Qed.

(** A receiver that [main] started. *)
Lemma jf_recv_main_inv os name src period mid now heap s st :
  jf.MODULE_N_BYTES <= zlen heap ->
  jf_recv_main os name src period mid now heap s = Ret st ->
  let rb := buffer (sender st) in let m0 := shm_bytes (mem st) (shm_fd_ rb) in
  wf_ram rb /\ zlen m0 = buffer_bytes_ rb /\ data_bytes_ rb = JF_FRAME_N_BYTES /\
  zlen (frame_buffer st) = jf.N_PACKETS_PER_FRAME * jf.DATA_BYTES_PER_PACKET /\
  jf_rel mid rb [] m0 (stats st) st (Build_a_state None 0 (frame_buffer st) []).
Proof.
  intros Hh. unfold jf_recv_main. rewrite obind_Ret_iff. intros ([c s1] & Hc & Hm).
  unfold Communicator_new in Hc. apply obind_Ret_iff in Hc as ([rb s2] & Hrb & Hc).
  injection Hc as <- <-. injection Hm as <-.
  apply RamBuffer_new_inv in Hrb as (_ & Hns & Hdb & Hbb & _ & Hlen).
  cbn [rbc_n_buffer_slots rbc_n_bytes_data rbc_buffer_name] in *.
  assert (Hfb : zlen (take (Z.to_nat jf.MODULE_N_BYTES) heap) = JF_FRAME_N_BYTES).
  { change JF_FRAME_N_BYTES with jf.MODULE_N_BYTES.
    assert (0 <= jf.MODULE_N_BYTES) by (vm_compute; discriminate).
    unfold zlen in *. rewrite length_take. lia. }
  cbn [sender mem buffer frame_buffer stats]. split_and!; try assumption.
  - unfold wf_ram. rewrite Hns, Hdb, Hbb. split_and!; vm_compute; discriminate || reflexivity.
  - split; [|split; [repeat split|reflexivity]]. split; [reflexivity|cbn [buf]; congruence|reflexivity..].
Qed.

(** What the consumers see of a receiver state: the messages sent, and the one that the
    next packet of another frame will send. *)
Definition jf_messages (st : recv_state jf.JFFrame) : list (list Z) :=
  sent (sender st) ++
  (if jf.frame_index (meta st) =? INVALID_IMAGE_ID then [] else [encode (meta st)]).

Lemma jf_rel_messages mid rb m0 stats0 st a :
  jf_rel mid rb [] m0 stats0 st a ->
  jf_messages st = encode ∘ frame_of jf_set_common <$> out (flush a).
Proof.
  intros (Hseen & _ & Hcur). destruct Hseen. unfold jf_messages, flush.
  destruct (cur a) as [[f x]|].
  - destruct Hcur as (Hm & Hid & Hf).
    assert (Hi : jf.frame_index (meta st) = f) by (by rewrite Hm).
    rewrite Hi. destruct (Z.eqb_spec f INVALID_IMAGE_ID); [done|].
    cbn [out]. rewrite seen_sent, fmap_app, Hm. done.
  - rewrite Hcur, Z.eqb_refl, app_nil_r. done.
Qed.

(** The bursts and complete frames of Jungfrau packets. *)
Definition jf_stream : list (list jf.JFUdpPacket) -> Prop :=
  numbered_stream jf.packetnum jf.framenum jf.data jf.DATA_BYTES_PER_PACKET
    jf.N_PACKETS_PER_FRAME None.

Definition jf_complete : list Z -> Z -> list jf.JFUdpPacket -> Prop :=
  numbered_complete jf.packetnum jf.framenum jf.data jf.DATA_BYTES_PER_PACKET
    jf.N_PACKETS_PER_FRAME.

(** Usable frame number and bunch id. *)
Definition jf_ids_ok (p : jf.JFUdpPacket) : Prop :=
  jf.framenum p <> INVALID_IMAGE_ID /\ double_to_u64 (jf.bunchid p) = Ret (jf_bunch p).


(** When all packets of a Jungfrau frame arrive, in any order with the last one at
    the end, the receiver sends exactly one message for it, with the bunch id as image id
    and no missing packets, the shared-memory slot of that id holds the image, and the
    receiver is ready for the next frame. *)
Lemma jf_complete_frame_delivered os name src period mid now heap s st img fi p0 ps :
  jf.MODULE_N_BYTES <= zlen heap ->
  jf_recv_main os name src period mid now heap s = Ret st ->
  jf_complete img fi (p0 :: ps) -> Forall jf_ids_ok (p0 :: ps) ->
  exists st', foldO jf_packet_step (p0 :: ps) st = Ret st' /\
    sent (sender st') = [encode (with_missing jf_set_common 0 (jf_template mid p0))] /\
    slot_data (buffer (sender st)) (shm_bytes (mem st') (shm_fd_ (buffer (sender st))))
      (jf_bunch p0) = Ret img /\
    jf.frame_index (meta st') = INVALID_IMAGE_ID.
Proof.
  intros Hh Hmain Hc Hids.
  destruct (jf_recv_main_inv _ _ _ _ _ _ _ _ _ Hh Hmain) as (Hwf & Hm0 & Hdb & Hfb & Hrel).
  edestruct (numbered_complete_run jf.packetnum jf.framenum jf.data (jf_abs mid)
               jf.DATA_BYTES_PER_PACKET jf.N_PACKETS_PER_FRAME)
    with (st := Build_a_state None 0 (frame_buffer st) (@nil (jf.JFFrame * Z * list Z)))
    as (a' & Hrun & Hcur & Hout); try exact Hc; try reflexivity; try exact Hfb;
    try apply jf_abs_off; try apply jf_abs_data; [by vm_compute..|].
  assert (Hok : Forall jf_packet_ok (p0 :: ps)).
  { pose proof (numbered_complete_valid _ _ _ _ _ _ _ _ Hc) as Hv.
    apply list.Forall_forall. intros p Hp. rewrite list.Forall_forall in Hids, Hv.
    destruct (Hids p Hp), (Hv p Hp). repeat split; assumption. }
  destruct (jf_run mid _ _ _ _ Hwf Hm0 _ _ _ _ Hrel Hok Hrun) as (st' & Hrun' & Hrel').
  destruct Hrel' as ([? ? ? Hsent Hmem ?] & _ & Hcs). rewrite Hcur in Hcs.
  exists st'. split; [done|]. cbn [out app] in Hout. rewrite Hout in Hsent, Hmem.
  split; [exact Hsent|]. split; [|done].
  apply (write_all_last _ [] _ _ _ _ Hwf Hm0) in Hmem; [exact Hmem|done|].
  rewrite Hdb. exact (nc_size _ _ _ _ _ _ _ _ Hc).
Qed.

(** ** Instances *)

(** [0x4014000000000000] is the double 5. *)
Definition demo_jf_packet (fi k : Z) : jf.JFUdpPacket :=
  {| jf.framenum := fi; jf.exptime := 0; jf.packetnum := k; jf.bunchid := 4617315517961601024;
     jf.timestamp := 0; jf.moduleID := 1; jf.row := 0; jf.column := 0; jf.zCoord := 0;
     jf.debug := 2; jf.roundRobin := 0; jf.detectortype := 4; jf.headerVersion := 2;
     jf.data := replicate (Z.to_nat 8192) 7 |}.

Lemma double_to_u64_examples :
  double_to_u64 4617315517961601024 = Ret 5 /\ double_to_u64 0 = Ret 0 /\
  double_to_u64 4607182418800017407 = Ret 0 /\ double_to_u64 (2 ^ 63 + 4617315517961601024) = Undef float_cast_range.
Proof. repeat split; vm_compute; reflexivity. Qed.

Definition demo_jf_heap : list Z := replicate (Z.to_nat jf.MODULE_N_BYTES) 0.

Lemma demo_jf_heap_ok : jf.MODULE_N_BYTES <= zlen demo_jf_heap.
Proof. unfold demo_jf_heap. rewrite zlen_replicate, Z2Nat.id; [reflexivity|done]. Qed.

Lemma jf_recv_main_ok name src period mid now heap s :
  exists st, jf_recv_main all_ok name src period mid now heap s = Ret st.
Proof.
  unfold jf_recv_main.
  destruct (Communicator_new_ok {| rbc_buffer_name := src;
    rbc_n_bytes_data := JF_FRAME_N_BYTES; rbc_n_buffer_slots := RECEIVER_RAM_BUFFER_N_SLOTS |}
    {| stream_name := src; conn_type := CONN_TYPE_BIND |} s) as (c & s' & ->).
  cbn [obind]. eexists. reflexivity.
Qed.

Lemma demo_jf_complete fi :
  jf_complete (replicate (Z.to_nat (128 * 8192)) 7) fi
    (demo_jf_packet fi 0 :: (demo_jf_packet fi <$> seqZ 1 127)).
Proof.
  apply (constant_frame_complete jf.packetnum jf.framenum jf.data
           jf.DATA_BYTES_PER_PACKET 128 (demo_jf_packet fi) fi 7); done.
Qed.

Lemma demo_jf_ids fi ks : fi <> INVALID_IMAGE_ID -> Forall jf_ids_ok (demo_jf_packet fi <$> ks).
Proof.
  intros Hf. apply Forall_fmap, list.Forall_forall. intros k _. split; [exact Hf|]. vm_compute. reflexivity.
Qed.

(** One frame of which only packets 0 and 3 arrive, then a complete one. *)
Definition demo_jf_stream : list (list jf.JFUdpPacket) :=
  [[demo_jf_packet 5 0; demo_jf_packet 5 3];
   demo_jf_packet 6 0 :: (demo_jf_packet 6 <$> seqZ 1 127)].

Lemma demo_jf_stream_ok : jf_stream demo_jf_stream.
Proof.
  split; [|split; [done|split; [|split; [done|done]]]].
  - split.
    + vm_compute. split; discriminate.
    + set_solver.
    + repeat (apply Forall_cons_2; [split; [by vm_compute|];
        unfold demo_jf_packet; cbn [jf.data]; rewrite zlen_replicate; apply Z2Nat.id; done|]).
      constructor.
    + exists [demo_jf_packet 5 0], (demo_jf_packet 5 3). split; [done|].
      apply Forall_cons_2; [vm_compute; discriminate|constructor].
  - eapply (numbered_complete_burst jf.packetnum jf.framenum jf.data (jf_abs 1));
      try exact (demo_jf_complete 6); try reflexivity; try apply jf_abs_off; try apply jf_abs_data;
      by vm_compute.
Qed.


Lemma jf_complete_frame_delivered_witness :
  exists st, jf_recv_main all_ok "JF" "JF-1" 10 1 0 demo_jf_heap demo_shm = Ret st /\
  exists st', foldO jf_packet_step
                (demo_jf_packet 8 0 :: (demo_jf_packet 8 <$> seqZ 1 127)) st = Ret st' /\
    sent (sender st') =
      [encode (with_missing jf_set_common 0 (jf_template 1 (demo_jf_packet 8 0)))] /\
    slot_data (buffer (sender st)) (shm_bytes (mem st') (shm_fd_ (buffer (sender st))))
      (jf_bunch (demo_jf_packet 8 0)) = Ret (replicate (Z.to_nat (128 * 8192)) 7) /\
    jf.frame_index (meta st') = INVALID_IMAGE_ID.
Proof.
  destruct (jf_recv_main_ok "JF" "JF-1" 10 1 0 demo_jf_heap demo_shm) as [st Hst].
  exists st. split; [exact Hst|].
  refine (jf_complete_frame_delivered all_ok "JF" "JF-1" 10 1 0 demo_jf_heap demo_shm st
            _ 8 (demo_jf_packet 8 0) (demo_jf_packet 8 <$> seqZ 1 127) demo_jf_heap_ok Hst
            (demo_jf_complete 8) _).
  apply (demo_jf_ids 8 (0 :: seqZ 1 127)). vm_compute. discriminate.
Defined.
