(* ===== verification/ModuleSync.v ===== *)
(** * Module synchronizer

    [src/source/std-data-sync/std-data-sync-module]: [include/synchronizer.hpp] and the two
    threads of [src/module_sync.cpp].  The operations of [Synchronizer] hold the mutex for
    their whole body, so every interleaving of the threads is a sequence of operations. *)

From Stdlib Require Import Sorted.
From S2P Require Import Prelude Formats Protocol Config Stats OrderedMap RamBuffer.

(** ** synchronizer.hpp *)

Record Synchronizer (T : Type) : Type := {
  sy_n_modules : Z;
  n_images_buffer : Z;
  new_image_mask : Z;
  cache : omap_t (Z * T)
}.
Arguments Build_Synchronizer {T} _ _ _ _.
Arguments sy_n_modules {T} _.
Arguments n_images_buffer {T} _.
Arguments new_image_mask {T} _.
Arguments cache {T} _.

Definition set_cache {T} (s : Synchronizer T) (c : omap_t (Z * T)) : Synchronizer T :=
  Build_Synchronizer (sy_n_modules s) (n_images_buffer s) (new_image_mask s) c.

Definition set_all (n_modules : Z) : outcome Z := foldO mask_set (seqZ 0 n_modules) 0.

Definition Synchronizer_new {T} (n_modules n_images_buffer mask : Z) : outcome (Synchronizer T) :=
  let! m := if mask =? 0 then set_all n_modules else Ret mask in
  Ret (Build_Synchronizer n_modules (u64 n_images_buffer) m []).

Section Operations.
Context {T : Type} `{DetFrame T}.
Implicit Types s : Synchronizer T.

Definition is_new_image s (id : Z) : bool :=
  match om_find id (cache s) with Some _ => false | None => true end.

Definition is_queue_too_long s : bool := n_images_buffer s <? om_size (cache s).

(** [meta.common.module_id % n_modules] on [int]. *)
Definition int_rem (x n : Z) : outcome Z :=
  if n =? 0 then Undef div_by_zero else Ret (Z.rem x n).

(** [if (is_queue_too_long()) cache.erase(cache.begin())]. *)
Definition make_room s : Synchronizer T :=
  if is_queue_too_long s then set_cache s (tail (cache s)) else s.

Definition push_new_image_to_queue s (meta : T) : outcome (Z * Synchronizer T) :=
  let s1 := make_room s in
  let! pos := int_rem (module_id (common meta)) (sy_n_modules s) in
  let! mask := mask_reset (new_image_mask s) pos in
  let s2 := set_cache s1 (om_emplace (image_id (common meta)) (mask, meta) (cache s1)) in
  Ret (if is_queue_too_long s2 then 1 else 0, s2).

Definition update_module_mask_for_image s (id module_id : Z) : outcome (Z * Synchronizer T) :=
  match om_find id (cache s) with
  | None => Undef end_deref
  | Some (mask, meta) =>
      let! pos := umod module_id (u64 (sy_n_modules s)) in
      let! b := mask_test mask pos in
      if negb b then Ret (1, set_cache s (om_erase id (cache s)))
      else
        let! mask' := mask_reset mask pos in
        Ret (0, set_cache s (om_put id (mask', meta) (cache s)))
  end.

Definition process_image_metadata s (meta : T) : outcome (Z * Synchronizer T) :=
  if is_new_image s (image_id (common meta)) then push_new_image_to_queue s meta
  else update_module_mask_for_image s (image_id (common meta)) (module_id (common meta)).

Definition pop_next_full_image s : option T * Synchronizer T :=
  match cache s with
  | [] => (None, s)
  | (_, (mask, meta)) :: rest =>
      if mask =? 0 then (Some meta, set_cache s rest) else (None, s)
  end.

(** ** module_sync.cpp: the receiving thread

    One iteration: the receive buffer, the synchronizer and the statistics; [msg] is what
    [zmq_recv] delivered, [None] when it failed. *)
Definition process_received_modules_step (st : list Z * Synchronizer T * SyncStats.SyncStatsCollector)
  (msg : option (list Z)) (now now_rate : Z) :
  outcome (list Z * Synchronizer T * SyncStats.SyncStatsCollector) :=
  let '(buf, s, stats) := st in
  match msg with
  | Some (b :: bytes) =>
      let buf' := recv_into buf (b :: bytes) in
      match decode T buf' with
      | Some meta =>
          let! '(n_corrupted, s') := process_image_metadata s meta in
          Ret (buf', s', snd (print_stats now now_rate (SyncStats.process stats n_corrupted)))
      | None => Undef out_of_bounds
      end
  | _ => Ret (buf, s, snd (print_stats now now_rate stats))
  end.
End Operations.

(** ** module_sync.cpp: the sending thread *)

Class FillDetectorData (T : Type) : Type := fill_detector_specific_data : T -> pb_image -> pb_image.

Definition set_det (m : pb_image) (d : pb_detector_metadata) : pb_image :=
  {| pb_image_id := pb_image_id m; pb_height := pb_height m; pb_width := pb_width m;
     pb_size := pb_size m; pb_dt := pb_dt m; pb_st := pb_st m; pb_cp := pb_cp m; pb_det := d |}.

#[global] Instance fill_gf : FillDetectorData gf.GFFrame := fun data meta =>
  set_det meta (dm_gf {| gf_scan_id := gf.scan_id data; gf_scan_time := gf.scan_time data;
    gf_sync_time := gf.sync_time data; gf_frame_timestamp := gf.frame_timestamp data;
    gf_exposure_time := gf.exposure_time data;
    gf_store_image := gf.do_not_store data =? 0 |}).

#[global] Instance fill_jf : FillDetectorData jf.JFFrame := fun data meta =>
  set_det meta (dm_jf (jf.daq_rec data)).

#[global] Instance fill_eg : FillDetectorData eg.EGFrame := fun _ meta =>
  set_det meta (dm_eg 0).

(** The metadata message as it is prepared in front of the sending loop. *)
Definition initial_image_meta (config : DetectorConfig) : outcome pb_image :=
  let! dtype := get_metadata_dtype config in
  let! size := converted_image_n_bytes config in
  Ret {| pb_image_id := 0; pb_height := u64 (image_pixel_height config);
         pb_width := u64 (image_pixel_width config); pb_size := size; pb_dt := dtype;
         pb_st := st_undefined; pb_cp := cp_none; pb_det := dm_not_set |}.

Definition set_image_status (m : pb_image) (id : Z) (st : pb_status) : pb_image :=
  {| pb_image_id := id; pb_height := pb_height m; pb_width := pb_width m; pb_size := pb_size m;
     pb_dt := pb_dt m; pb_st := st; pb_cp := pb_cp m; pb_det := pb_det m |}.

(** One iteration of the loop: the message object, the synchronizer, the message sent. *)
Definition send_synchronized_images_step {T : Type} `{DetFrame T} `{!FillDetectorData T}
  (image_meta : pb_image) (s : Synchronizer T) : pb_image * Synchronizer T * option pb_image :=
  match pop_next_full_image s with
  | (Some meta, s') =>
      let st := if n_missing_packets (common meta) =? 0 then st_good_image else st_missing_packets in
      let m := fill_detector_specific_data meta
                 (set_image_status image_meta (image_id (common meta)) st) in
      (m, s', Some m)
  | (None, s') => (image_meta, s', None)
  end.

(** ** Runs *)

Inductive sync_event (T : Type) : Type :=
| Recv (f : T)
| Pop.
Arguments Recv {T} f.
Arguments Pop {T}.

Section Runs.
Context {T : Type} `{DetFrame T}.

Definition sync_step (st : Synchronizer T * list T) (e : sync_event T) :
  outcome (Synchronizer T * list T) :=
  let (s, popped) := st in
  match e with
  | Recv f => let! '(_, s') := process_image_metadata s f in Ret (s', popped)
  | Pop => match pop_next_full_image s with
           | (Some f, s') => Ret (s', popped ++ [f])
           | (None, s') => Ret (s', popped)
           end
  end.

(** The synchronizer after the events, and the frames popped. *)
Definition sync_run (es : list (sync_event T)) (s : Synchronizer T) :
  outcome (Synchronizer T * list T) := foldO sync_step es (s, []).

Definition received (es : list (sync_event T)) : list T :=
  omap (fun e => match e with Recv f => Some f | Pop => None end) es.
End Runs.

(** ** Safety *)

Section Safety.
Context {T : Type} `{DetFrame T}.
Implicit Types (s : Synchronizer T) (f g : T).

(** The position of a frame's module in the masks. *)
Definition position (n : Z) f : Z := module_id (common f) mod n.

(** A configuration the masks can hold. *)
Definition sync_config s : Prop :=
  1 <= sy_n_modules s <= mask_bits /\ 0 <= n_images_buffer s /\ 0 <= new_image_mask s.

(** What the cache says about the frames [h] received so far: a module whose bit is
    cleared has sent its frame of that image. *)
Record entry_ok s (h : list T) (id mask : Z) (f : T) : Prop := {
  entry_mask : 0 <= mask;
  entry_frame : f ∈ h /\ image_id (common f) = id;
  entry_bits : forall i, 0 <= i -> Z.testbit (new_image_mask s) i = true ->
    Z.testbit mask i = false ->
    exists g, g ∈ h /\ image_id (common g) = id /\ position (sy_n_modules s) g = i
}.

Record sync_inv s (h : list T) : Prop := {
  inv_config : sync_config s;
  inv_sorted : sorted (cache s);
  inv_size : om_size (cache s) <= n_images_buffer s + 1;
  inv_entries : forall id mask f, om_find id (cache s) = Some (mask, f) -> entry_ok s h id mask f
}.

Lemma entry_ok_more s h g id mask f : entry_ok s h id mask f -> entry_ok s (h ++ [g]) id mask f.
Proof.
  intros [? [? ?] Hb]. split; [done|set_solver|]. intros i Hi HA HB.
  destruct (Hb i Hi HA HB) as (x & ? & ? & ?). exists x. set_solver.
Qed.

Lemma clearbit_nonneg m i : 0 <= m -> 0 <= i -> 0 <= Z.clearbit m i.
Proof. intros. rewrite Z.clearbit_spec'. apply Z.ldiff_nonneg. auto. Qed.

Lemma testbit_clear m p i : 0 <= p -> 0 <= i ->
  Z.testbit (Z.clearbit m p) i = Z.testbit m i && negb (p =? i).
Proof. intros. by apply Z.clearbit_eqb. Qed.

(** The bit positions computed by the two ways of receiving a frame. *)
Lemma position_int s f :
  sync_config s -> 0 <= module_id (common f) ->
  int_rem (module_id (common f)) (sy_n_modules s) = Ret (position (sy_n_modules s) f) /\
  0 <= position (sy_n_modules s) f < mask_bits.
Proof.
  intros (Hn & _) Hm. unfold int_rem, position.
  destruct (Z.eqb_spec (sy_n_modules s) 0); [lia|]. rewrite Z.rem_mod_nonneg by lia.
  pose proof (Z.mod_pos_bound (module_id (common f)) (sy_n_modules s)). split; [done|lia].
Qed.

Lemma position_size s f :
  sync_config s -> 0 <= module_id (common f) ->
  umod (module_id (common f)) (u64 (sy_n_modules s)) = Ret (position (sy_n_modules s) f).
Proof.
  intros (Hn & _) Hm. unfold mask_bits in Hn. rewrite u64_small by lia. rewrite umod_ret by lia. done.
Qed.

Lemma make_room_spec s h :
  sync_inv s h ->
  sync_config (make_room s) /\ sy_n_modules (make_room s) = sy_n_modules s /\
  n_images_buffer (make_room s) = n_images_buffer s /\
  new_image_mask (make_room s) = new_image_mask s /\
  sorted (cache (make_room s)) /\ om_size (cache (make_room s)) <= n_images_buffer s /\
  forall id v, om_find id (cache (make_room s)) = Some v -> om_find id (cache s) = Some v.
Proof.
  intros [Hc Hs Hz _]. unfold make_room, is_queue_too_long, om_size in *.
  destruct (Z.ltb_spec (n_images_buffer s) (zlen (cache s))); [|split_and!; done || lia].
  cbn [cache set_cache sy_n_modules n_images_buffer new_image_mask].
  destruct (cache s) as [|[k v] c]; simpl.
  - destruct Hc as (?&?&?). change (zlen []) with 0. split_and!; done || lia.
  - pose proof Hs as [Hs' Hk]%sorted_cons. rewrite zlen_cons in *. split_and!; try done; try lia.
    intros id w Hw. destruct (Z.eqb_spec id k) as [->|]; [|done].
    apply om_find_Some_keys, Hk in Hw. lia.
Qed.

(** The first frame of an image. *)
Lemma push_inv s h f :
  sync_inv s h -> 0 <= module_id (common f) -> om_find (image_id (common f)) (cache s) = None ->
  exists r s', push_new_image_to_queue s f = Ret (r, s') /\ sync_inv s' (h ++ [f]) /\
    new_image_mask s' = new_image_mask s /\ sy_n_modules s' = sy_n_modules s.
Proof.
  intros Hinv Hm Hnew. pose proof Hinv as [Hc Hs Hz He].
  destruct (make_room_spec s h Hinv) as (Hc1 & Hn1 & Hb1 & Hm1 & Hs1 & Hz1 & Hf1).
  destruct (position_int s f Hc Hm) as [Hp Hr].
  assert (Hnone : om_find (image_id (common f)) (cache (make_room s)) = None).
  { destruct (om_find _ (cache (make_room s))) eqn:E; [|done]. apply Hf1 in E. congruence. }
  unfold push_new_image_to_queue. rewrite Hp. cbn [obind]. rewrite mask_reset_ret by lia.
  cbn [obind]. unfold om_emplace. rewrite Hnone. eexists _, _. split; [done|].
  split; [|cbn; auto]. split; cbn [cache set_cache sy_n_modules n_images_buffer new_image_mask].
  - done.
  - by apply sorted_put.
  - rewrite om_size_put, Hnone by done. lia.
  - intros id mask g. rewrite om_find_put. case_decide as E.
    + intros [= <- <-]. destruct Hc as (_ & _ & Hmask). split.
      * apply clearbit_nonneg; lia.
      * set_solver.
      * cbn [new_image_mask set_cache sy_n_modules]. rewrite Hm1, Hn1. intros i Hi HA.
        rewrite testbit_clear, HA by lia. simpl.
        destruct (Z.eqb_spec (position (sy_n_modules s) f) i); [|done].
        intros _. exists f. set_solver.
    + intros Hg%Hf1%He. apply entry_ok_more with (g := f) in Hg. destruct Hg as [? ? Hb].
      split; [done|done|]. cbn [new_image_mask set_cache sy_n_modules]. by rewrite Hm1, Hn1.
Qed.

(** A further frame of an image. *)
Lemma update_inv s h f mask f0 :
  sync_inv s h -> 0 <= module_id (common f) ->
  om_find (image_id (common f)) (cache s) = Some (mask, f0) ->
  exists r s', update_module_mask_for_image s (image_id (common f)) (module_id (common f))
      = Ret (r, s') /\ sync_inv s' (h ++ [f]) /\
    new_image_mask s' = new_image_mask s /\ sy_n_modules s' = sy_n_modules s.
Proof.
  intros [Hc Hs Hz He] Hm Hf. destruct (position_int s f Hc Hm) as [_ Hr].
  unfold update_module_mask_for_image. rewrite Hf, position_size by done. cbn [obind].
  rewrite mask_test_ret by lia. cbn [obind]. destruct (Z.testbit mask _) eqn:Hb; cbn [negb].
  - rewrite mask_reset_ret by lia. cbn [obind]. eexists _, _. split; [done|]. split; [|done].
    split; cbn [cache set_cache sy_n_modules n_images_buffer new_image_mask]; auto with omap.
    + rewrite om_size_put, Hf by done. lia.
    + intros id mask' g. rewrite om_find_put. case_decide as E.
      * intros [= <- <-]. pose proof (He _ _ _ Hf) as [Hm0 [Hin Hid] Hbits]. subst id. split.
        -- apply clearbit_nonneg; lia.
        -- set_solver.
        -- intros i Hi HA. rewrite testbit_clear by lia.
           destruct (Z.eqb_spec (position (sy_n_modules s) f) i) as [Ei|Ei].
           ++ intros _. exists f. set_solver.
           ++ rewrite andb_true_r. intros HB. destruct (Hbits i Hi HA HB) as (x & ? & ? & ?).
              exists x. set_solver.
      * intros Hg%He. apply entry_ok_more with (g := f) in Hg. by destruct Hg.
  - eexists _, _. split; [done|]. split; [|done].
    split; cbn [cache set_cache sy_n_modules n_images_buffer new_image_mask]; auto with omap.
    + pose proof (om_size_erase (image_id (common f)) (cache s)). lia.
    + intros id mask' g. rewrite om_find_erase by done. case_decide; [done|].
      intros Hg%He. apply entry_ok_more with (g := f) in Hg. by destruct Hg.
Qed.

Lemma process_inv s h f :
  sync_inv s h -> 0 <= module_id (common f) ->
  exists r s', process_image_metadata s f = Ret (r, s') /\ sync_inv s' (h ++ [f]) /\
    new_image_mask s' = new_image_mask s /\ sy_n_modules s' = sy_n_modules s.
Proof.
  intros Hi Hm. unfold process_image_metadata, is_new_image.
  destruct (om_find (image_id (common f)) (cache s)) as [[mask f0]|] eqn:E.
  - by eapply update_inv.
  - by apply push_inv.
Qed.

(** All modules of the mask have sent their frame of the image of [f]. *)
Definition all_modules_sent (n mask : Z) (h : list T) f : Prop :=
  f ∈ h /\ forall i, 0 <= i -> Z.testbit mask i = true ->
    exists g, g ∈ h /\ image_id (common g) = image_id (common f) /\ position n g = i.

Lemma pop_inv s h o s' :
  sync_inv s h -> pop_next_full_image s = (o, s') ->
  sync_inv s' h /\ new_image_mask s' = new_image_mask s /\ sy_n_modules s' = sy_n_modules s /\
  forall f, o = Some f -> all_modules_sent (sy_n_modules s) (new_image_mask s) h f.
Proof.
  intros Hi. unfold pop_next_full_image. destruct (cache s) as [|[id [mask f]] c] eqn:Ec.
  - intros [= <- <-]. done.
  - destruct Hi as [Hc Hs Hz He]. rewrite Ec in *. destruct (Z.eqb_spec mask 0) as [->|].
    + intros [= <- <-]. pose proof Hs as [Hs' Hk]%sorted_cons. split_and!; try done.
      * split; simpl; [done|done| |].
        -- unfold om_size in *. rewrite zlen_cons in Hz. lia.
        -- intros id' m g Hg. enough (Hok : entry_ok s h id' m g) by (by destruct Hok).
           apply He. simpl. destruct (Z.eqb_spec id' id) as [->|]; [|done].
           apply om_find_Some_keys, Hk in Hg. lia.
      * intros g [= <-]. destruct (He id 0 f) as [_ [Hin <-] Hb]; [apply om_find_head|].
        split; [done|]. intros i Hpos Hb1. apply Hb; [done|done|]. apply Z.bits_0.
    + intros [= <- <-]. split_and!; try done. by split; rewrite ?Ec.
Qed.

Lemma all_modules_sent_more n mask h g f :
  all_modules_sent n mask h f -> all_modules_sent n mask (h ++ [g]) f.
Proof.
  intros [Hf Hg]. split; [set_solver|]. intros i Hi Hb.
  destruct (Hg i Hi Hb) as (x & ? & ? & ?). exists x. set_solver.
Qed.

Lemma sync_run_inv es s s0 h popped :
  sync_inv s h -> new_image_mask s = new_image_mask s0 -> sy_n_modules s = sy_n_modules s0 ->
  Forall (all_modules_sent (sy_n_modules s0) (new_image_mask s0) h) popped ->
  Forall (fun f => 0 <= module_id (common f)) (received es) ->
  exists s' popped', foldO sync_step es (s, popped) = Ret (s', popped') /\
    sync_inv s' (h ++ received es) /\
    Forall (all_modules_sent (sy_n_modules s0) (new_image_mask s0) (h ++ received es)) popped'.
Proof.
  revert s h popped. induction es as [|[f|] es IH]; intros s h popped Hi Hm Hn Hp Hr; simpl.
  - rewrite app_nil_r. eauto.
  - apply Forall_cons_1 in Hr as [Hf Hr].
    destruct (process_inv s h f Hi Hf) as (r & s' & -> & Hi' & Hm' & Hn'). cbn [obind].
    change (received (Recv f :: es)) with (f :: received es).
    replace (h ++ f :: received es) with ((h ++ [f]) ++ received es) by (by rewrite <- app_assoc).
    apply (IH s' (h ++ [f])); try done; try congruence.
    eapply Forall_impl; [|exact Hp]. intros g. apply all_modules_sent_more.
  - destruct (pop_next_full_image s) as [o s'] eqn:Ep.
    destruct (pop_inv s h o s' Hi Ep) as (Hi' & Hm' & Hn' & Ho).
    destruct o as [f|]; cbn [obind]; apply (IH s' h); try done; try congruence.
    apply Forall_app. split; [done|]. apply Forall_cons_2; [|done].
    rewrite <- Hm, <- Hn. by apply Ho.
Qed.

Lemma process_buffer s f r s' :
  process_image_metadata s f = Ret (r, s') -> n_images_buffer s' = n_images_buffer s.
Proof.
  unfold process_image_metadata, push_new_image_to_queue, update_module_mask_for_image, make_room.
  intros Hp. repeat case_match; repeat (apply obind_Ret_iff in Hp as (? & _ & Hp));
    repeat case_match; repeat (apply obind_Ret_iff in Hp as (? & _ & Hp)); simplify_eq; done.
Qed.

Lemma sync_run_buffer es s popped s' popped' :
  foldO sync_step es (s, popped) = Ret (s', popped') -> n_images_buffer s' = n_images_buffer s.
Proof.
  intros Hr. refine (foldO_ind (fun st => n_images_buffer (fst st) = n_images_buffer s)
                       sync_step es (s, popped) (s', popped') eq_refl _ Hr).
  intros [x p1] [f|] [y p2] _ Hx; simpl in *.
  - intros ([r z] & Hp & [= <- <-])%obind_Ret_iff. apply process_buffer in Hp. congruence.
  - unfold pop_next_full_image. repeat case_match; intros; simplify_eq; done.
Qed.
End Safety.

(** ** Completeness *)

Section Completeness.
Context {T : Type} `{DetFrame T}.
Implicit Types (s : Synchronizer T) (f g : T).
Variable (n N mask : Z).
Hypothesis (Hcfg : 1 <= n <= mask_bits /\ 0 <= N /\ 0 <= mask).

Definition frame_id f : Z := image_id (common f).

(** The modules that have not yet sent their frame of image [id]. *)
Definition remaining (id : Z) (fs : list T) : Z :=
  fold_left (fun m f => if frame_id f =? id then Z.clearbit m (position n f) else m) fs mask.

Definition first_frame (id : Z) (fs : list T) : option T := head (filter (fun f => frame_id f = id) fs).

(** The images of [h] that are not among [popped]. *)
Definition waiting_ids (h popped : list T) : list Z :=
  filter (fun id => id ∉ frame_id <$> popped) (remove_dups (frame_id <$> h)).

(** The cache after the frames [h] and the images [popped], with no image dropped: the images that
    wait, each with the modules that are missing and the frame that came first; an image was
    popped once, complete, with its first frame. *)
Record fed s (h popped : list T) : Prop := {
  fed_n : sy_n_modules s = n;
  fed_N : n_images_buffer s = N;
  fed_mask : new_image_mask s = mask;
  fed_sorted : sorted (cache s);
  fed_find : forall id, om_find id (cache s) =
    if decide (id ∈ frame_id <$> popped) then None
    else match first_frame id h with Some f => Some (remaining id h, f) | None => None end;
  fed_once : NoDup (frame_id <$> popped);
  fed_popped : Forall (fun f => first_frame (frame_id f) h = Some f /\ remaining (frame_id f) h = 0) popped
}.

(** At most one frame per image and module, from configured modules. *)
Record frames_ok (fs : list T) : Prop := {
  fr_once : NoDup ((fun f => (frame_id f, position n f)) <$> fs);
  fr_module : Forall (fun f => 0 <= module_id (common f) /\ Z.testbit mask (position n f) = true) fs
}.

(** With every frame that arrives, at most [N + 1] images wait that have not been popped. *)
Definition never_full s0 (es : list (sync_event T)) : Prop :=
  forall es1 f es2 s popped, es = es1 ++ Recv f :: es2 -> sync_run es1 s0 = Ret (s, popped) ->
    zlen (waiting_ids (received es1 ++ [f]) popped) <= N + 1.

Lemma first_frame_snoc id fs f :
  first_frame id (fs ++ [f]) =
  match first_frame id fs with
  | Some g => Some g
  | None => if frame_id f =? id then Some f else None
  end.
Proof using Type.
  clear n N mask Hcfg.
  unfold first_frame. rewrite list.filter_app, filter_cons, filter_nil.
  destruct (filter (fun f0 => frame_id f0 = id) fs); [|done]. simpl.
  case_decide; destruct (Z.eqb_spec (frame_id f) id); done.
Qed.

Lemma first_frame_Some id fs f : first_frame id fs = Some f -> f ∈ fs /\ frame_id f = id.
Proof using Type.
  clear n N mask Hcfg.
  unfold first_frame. destruct (filter _ fs) eqn:E; [done|]. intros [= ->].
  assert (Hin : f ∈ filter (fun f => frame_id f = id) fs) by (rewrite E; set_solver).
  apply list_elem_of_filter in Hin. tauto.
Qed.

Lemma first_frame_None id fs : first_frame id fs = None -> forall f, f ∈ fs -> frame_id f <> id.
Proof using Type.
  clear n N mask Hcfg.
  unfold first_frame. destruct (filter _ fs) eqn:E; [|done]. intros _ f Hf Hid.
  assert (Hin : f ∈ filter (fun f => frame_id f = id) fs) by (by apply list_elem_of_filter).
  rewrite E in Hin. set_solver.
Qed.

Lemma remaining_snoc id fs f :
  remaining id (fs ++ [f]) =
  if frame_id f =? id then Z.clearbit (remaining id fs) (position n f) else remaining id fs.
Proof. unfold remaining. by rewrite fold_left_app. Qed.

Lemma remaining_none id fs : first_frame id fs = None -> remaining id fs = mask.
Proof.
  induction fs as [|f fs IH] using rev_ind; [done|]. rewrite first_frame_snoc, remaining_snoc.
  destruct (first_frame id fs); [done|]. destruct (frame_id f =? id); [done|]. auto.
Qed.

Lemma position_range f : 0 <= module_id (common f) -> 0 <= position n f < mask_bits.
Proof. intros. unfold position. pose proof (Z.mod_pos_bound (module_id (common f)) n). lia. Qed.

(** A module's bit is still set as long as its frame has not been seen. *)
Lemma remaining_bit id fs i :
  0 <= i -> Forall (fun f => 0 <= module_id (common f)) fs ->
  Z.testbit (remaining id fs) i =
    Z.testbit mask i && negb (existsb (fun f => (frame_id f =? id) && (position n f =? i)) fs).
Proof.
  intros Hi. induction fs as [|f fs IH] using rev_ind; intros Hf.
  - simpl. by rewrite andb_true_r.
  - apply Forall_app in Hf as [Hfs [Hf _]%Forall_cons_1].
    rewrite remaining_snoc, existsb_app. simpl. rewrite orb_false_r.
    pose proof (position_range f Hf).
    destruct (frame_id f =? id); simpl; [rewrite testbit_clear by lia|];
      rewrite IH by done; rewrite ?orb_false_r; [|done].
    rewrite negb_orb, andb_assoc. done.
Qed.

Lemma frames_ok_snoc fs f :
  frames_ok (fs ++ [f]) ->
  frames_ok fs /\ 0 <= module_id (common f) /\ Z.testbit mask (position n f) = true /\
  forall g, g ∈ fs -> frame_id g = frame_id f -> position n g <> position n f.
Proof.
  intros [Hnd Hm]. rewrite fmap_app in Hnd.
  apply list.NoDup_app in Hnd as (Hnd & Hdis & _).
  apply Forall_app in Hm as [Hm [[Hf Hb] _]%Forall_cons_1].
  split; [by split|]. split_and!; try done. intros g Hg E1 E2.
  apply (Hdis (frame_id g, position n g)).
  - by apply (list_elem_of_fmap_2 (fun f => (frame_id f, position n f))).
  - rewrite E1, E2. set_solver.
Qed.

Lemma frames_modules fs : frames_ok fs -> Forall (fun f => 0 <= module_id (common f)) fs.
Proof. intros [_ Hm]. eapply Forall_impl; [|exact Hm]. naive_solver. Qed.

(** The bit of a frame that has not been seen is still set. *)
Lemma new_frame_bit fs f : frames_ok (fs ++ [f]) -> Z.testbit (remaining (frame_id f) fs) (position n f) = true.
Proof.
  intros (Hok & Hm & Hb & Honce)%frames_ok_snoc. pose proof (position_range f Hm).
  rewrite remaining_bit, Hb by (lia || by apply frames_modules). simpl. apply negb_true_iff, not_true_iff_false.
  intros (g & Hg & Hgb)%existsb_exists. apply list_elem_of_In in Hg.
  apply andb_true_iff in Hgb as [E1%Z.eqb_eq E2%Z.eqb_eq]. by apply (Honce g).
Qed.

Lemma sorted_NoDup_keys (c : omap_t (Z * T)) : sorted c -> NoDup (keys c).
Proof using Type.
  clear n N mask Hcfg.
  induction c as [|[k v] c IH]; intros Hs; [constructor|].
  apply sorted_cons in Hs as [Hs Hk]. apply NoDup_cons_2; [|by apply IH].
  intros Hin%Hk. simpl in Hin. lia.
Qed.

(** No frame of an image that was popped is still to come. *)
Lemma popped_done s h popped f :
  fed s h popped -> frames_ok (h ++ [f]) -> frame_id f ∉ frame_id <$> popped.
Proof.
  intros Hfed Hok (g & E & Hg)%list_elem_of_fmap. pose proof (fed_popped _ _ _ Hfed) as Hp.
  rewrite list.Forall_forall in Hp. destruct (Hp g Hg) as [_ Hz]. rewrite <- E in Hz.
  pose proof (new_frame_bit h f Hok) as Hb. rewrite Hz, Z.bits_0 in Hb. done.
Qed.

(** The images in the cache wait. *)
Lemma fed_keys s h popped id :
  fed s h popped -> id ∈ keys (cache s) -> id ∈ waiting_ids h popped.
Proof.
  intros Hfed Hid. destruct (om_find id (cache s)) eqn:E; [|by apply om_find_keys in E].
  rewrite (fed_find _ _ _ Hfed) in E. destruct (decide _) as [|Hn]; [done|].
  destruct (first_frame id h) as [g|] eqn:Eg; [|done]. apply first_frame_Some in Eg as [Hg <-].
  apply list_elem_of_filter. split; [done|]. apply elem_of_remove_dups. by apply list_elem_of_fmap_2.
Qed.

(** A new image always finds room. *)
Lemma fed_room s h popped f :
  fed s h popped -> frames_ok (h ++ [f]) -> zlen (waiting_ids (h ++ [f]) popped) <= N + 1 ->
  first_frame (frame_id f) h = None -> is_queue_too_long s = false.
Proof.
  intros Hfed Hok Hlen Hnew. unfold is_queue_too_long. rewrite (fed_N _ _ _ Hfed). apply Z.ltb_ge.
  assert (Hsub : incl (frame_id f :: keys (cache s)) (waiting_ids (h ++ [f]) popped)).
  { intros id Hid. apply list_elem_of_In in Hid. apply list_elem_of_In.
    apply elem_of_cons in Hid as [->|Hid].
    - apply list_elem_of_filter. split; [by eapply popped_done|]. apply elem_of_remove_dups.
      apply list_elem_of_fmap_2. set_solver.
    - eapply fed_keys in Hid; [|exact Hfed]. apply list_elem_of_filter in Hid as [? Hid].
      apply list_elem_of_filter. split; [done|]. rewrite elem_of_remove_dups in *.
      rewrite fmap_app, elem_of_app. by left. }
  assert (Hnd : NoDup (frame_id f :: keys (cache s))).
  { apply NoDup_cons_2; [|apply sorted_NoDup_keys, (fed_sorted _ _ _ Hfed)].
    apply om_find_keys. rewrite (fed_find _ _ _ Hfed), Hnew. by destruct (decide _). }
  apply NoDup_ListNoDup in Hnd. pose proof (NoDup_incl_length Hnd Hsub) as Hle.
  unfold om_size, zlen, keys in *. simpl in Hle. rewrite length_fmap in Hle. lia.
Qed.

(** What a new frame says of an image that was popped. *)
Lemma popped_snoc h f popped :
  frame_id f ∉ frame_id <$> popped ->
  Forall (fun g => first_frame (frame_id g) h = Some g /\ remaining (frame_id g) h = 0) popped ->
  Forall (fun g => first_frame (frame_id g) (h ++ [f]) = Some g /\ remaining (frame_id g) (h ++ [f]) = 0) popped.
Proof.
  intros Hni. rewrite !list.Forall_forall. intros Hp g Hg. destruct (Hp g Hg) as [E1 E2].
  rewrite first_frame_snoc, remaining_snoc, E1. split; [done|]. destruct (Z.eqb_spec (frame_id f) (frame_id g)) as [E|]; [|done].
  destruct Hni. rewrite E. by apply list_elem_of_fmap_2.
Qed.

Lemma fed_step s h popped f :
  fed s h popped -> frames_ok (h ++ [f]) -> zlen (waiting_ids (h ++ [f]) popped) <= N + 1 ->
  exists r s', process_image_metadata s f = Ret (r, s') /\ fed s' (h ++ [f]) popped.
Proof.
  intros Hfed Hok Hroom. pose proof (popped_done s h popped f Hfed Hok) as Hni.
  pose proof (new_frame_bit h f Hok) as Hbit. pose proof (frames_ok_snoc h f Hok) as (_ & Hm & Hb & _).
  pose proof Hfed as [Hn HN Hmk Hs Hf Hnd Hp].
  assert (Hc : sync_config s) by (unfold sync_config; rewrite Hn, HN, Hmk; done).
  destruct (position_int s f Hc Hm) as [Hpos Hr]. pose proof (position_size s f Hc Hm) as Hps.
  rewrite Hn in *. pose proof (Hf (frame_id f)) as Hff. rewrite decide_False in Hff by done.
  unfold process_image_metadata, is_new_image. fold (frame_id f). rewrite Hff.
  destruct (first_frame (frame_id f) h) as [f0|] eqn:Ef.
  - unfold update_module_mask_for_image. rewrite Hff, Hn, Hps. cbn [obind].
    rewrite mask_test_ret by lia. cbn [obind]. rewrite Hbit. cbn [negb]. rewrite mask_reset_ret by lia. cbn [obind].
    eexists _, _. split; [done|]. split; simpl; auto with omap; [|by apply popped_snoc]. intros id.
    rewrite om_find_put, Hf, first_frame_snoc, remaining_snoc. case_decide as E.
    + subst id. by rewrite decide_False, Ef, Z.eqb_refl by done.
    + apply not_eq_sym, Z.eqb_neq in E as ->. by destruct (decide _), (first_frame id h).
  - unfold push_new_image_to_queue, make_room.
    rewrite (fed_room s h popped f Hfed Hok Hroom Ef), Hn, Hpos. cbn [obind].
    rewrite Hmk, mask_reset_ret by lia. cbn [obind]. eexists _, _. split; [done|].
    unfold om_emplace. fold (frame_id f). rewrite Hff.
    split; simpl; auto with omap; [|by apply popped_snoc]. intros id.
    rewrite om_find_put, Hf, first_frame_snoc, remaining_snoc. case_decide as E.
    + subst id. by rewrite decide_False, Ef, Z.eqb_refl, (remaining_none _ _ Ef) by done.
    + apply not_eq_sym, Z.eqb_neq in E as ->. by destruct (decide _), (first_frame id h).
Qed.

(** The image in front of the queue, when it is complete. *)
Lemma fed_pop s h popped o s' :
  fed s h popped -> pop_next_full_image s = (o, s') -> fed s' h (popped ++ option_list o).
Proof.
  intros Hfed. pose proof Hfed as [Hn HN Hmk Hs Hf Hnd Hp]. unfold pop_next_full_image.
  destruct (cache s) as [|[id [m f]] c] eqn:Ec; [intros [= <- <-]; by rewrite app_nil_r|].
  destruct (Z.eqb_spec m 0) as [->|]; [|intros [= <- <-]; by rewrite app_nil_r]. intros [= <- <-].
  pose proof (Hf id) as Hid. simpl in Hid. rewrite Z.eqb_refl in Hid. destruct (decide (id ∈ _)) as [|Hni]; [done|].
  destruct (first_frame id h) as [g|] eqn:Eg; [|done]. injection Hid as Hz ->.
  pose proof (first_frame_Some _ _ _ Eg) as [_ E]. subst id. pose proof Hs as [Hs' Hk]%sorted_cons.
  split; simpl; try done.
  - intros id. rewrite fmap_app, decide_bool_decide. simpl. destruct (decide (id = frame_id g)) as [->|Hne].
    + rewrite bool_decide_eq_true_2 by set_solver. destruct (om_find (frame_id g) c) eqn:E; [|done].
      apply om_find_Some_keys, Hk in E. lia.
    + pose proof (Hf id) as Hid. simpl in Hid. apply Z.eqb_neq in Hne as Hne'. rewrite Hne' in Hid. rewrite Hid.
      destruct (decide (id ∈ frame_id <$> popped)); [by rewrite bool_decide_eq_true_2 by set_solver|].
      by rewrite bool_decide_eq_false_2 by set_solver.
  - rewrite fmap_app. apply list.NoDup_app. split_and!; [done|set_solver|apply NoDup_singleton].
  - apply Forall_app. split; [done|]. apply Forall_singleton. by rewrite Eg.
Qed.

Lemma received_app (es es' : list (sync_event T)) : received (es ++ es') = received es ++ received es'.
Proof using Type. clear n N mask Hcfg. unfold received. by rewrite omap_app. Qed.

Lemma run_fed es s0 :
  fed s0 [] [] -> frames_ok (received es) -> never_full s0 es ->
  exists s popped, sync_run es s0 = Ret (s, popped) /\ fed s (received es) popped.
Proof.
  intros Hz. induction es as [|e es IH] using rev_ind; intros Hok Hroom; [by exists s0, []|].
  assert (Hok1 : frames_ok (received es)).
  { rewrite received_app in Hok. destruct e as [f|]; [by destruct (frames_ok_snoc _ _ Hok)|].
    change (received [Pop]) with (@nil T) in Hok. by rewrite app_nil_r in Hok. }
  destruct IH as (s & popped & Hrun & Hfed); [done| |].
  { intros es1 f es2 s popped -> Hr. apply (Hroom es1 f (es2 ++ [e]) s popped); [|done]. by rewrite <- app_assoc. }
  unfold sync_run in *. rewrite foldO_app, Hrun, received_app in *. cbn [obind foldO]. destruct e as [f|]; cbn [sync_step].
  - change (received [Recv f]) with [f] in *. specialize (Hroom es f [] s popped eq_refl Hrun).
    destruct (fed_step s _ popped f Hfed Hok Hroom) as (r & s' & -> & Hfed'). by exists s', popped.
  - change (received [Pop]) with (@nil T). rewrite app_nil_r. destruct (pop_next_full_image s) as [o s'] eqn:E. pose proof (fed_pop _ _ _ _ _ Hfed E) as Hfed'.
    destruct o as [f|]; cbn in *; [by exists s', (popped ++ [f])|]. rewrite app_nil_r in Hfed'. by exists s', popped.
Qed.

(** The frames of all configured modules for all images [ids]. *)
Definition all_frames (ids : list Z) (fs : list T) : Prop :=
  forall id i, id ∈ ids -> 0 <= i -> Z.testbit mask i = true ->
    exists f, f ∈ fs /\ frame_id f = id /\ position n f = i.

Lemma all_frames_done ids fs id :
  frames_ok fs -> all_frames ids fs -> id ∈ ids -> remaining id fs = 0.
Proof.
  intros Hok Hall Hid. apply Z.bits_inj'. intros i Hi. rewrite Z.bits_0.
  rewrite remaining_bit by (done || by apply frames_modules).
  destruct (Z.testbit mask i) eqn:Hb; [|done]. simpl.
  destruct (Hall id i Hid Hi Hb) as (f & Hf & E1 & E2). apply negb_false_iff, existsb_exists.
  exists f. rewrite E1, E2, !Z.eqb_refl. split; [by apply list_elem_of_In|done].
Qed.

(** Popping a cache of complete images empties it in key order. *)
Lemma pop_all (c : omap_t (Z * T)) s popped :
  cache s = c -> Forall (fun kv => fst (snd kv) = 0) c ->
  exists s', foldO sync_step (replicate (length c) Pop) (s, popped)
      = Ret (s', popped ++ (snd ∘ snd <$> c)) /\ cache s' = [].
Proof using Type.
  clear n N mask Hcfg.
  revert s popped. induction c as [|[id [m f]] c IH]; intros s popped Hc Hm.
  - exists s. simpl. rewrite app_nil_r. done.
  - apply Forall_cons_1 in Hm as [Hm0 Hm]. simpl in Hm0. subst m. cbn [length replicate foldO].
    unfold sync_step at 1, pop_next_full_image. rewrite Hc. cbn [obind Z.eqb].
    destruct (IH (set_cache s c) (popped ++ [f]) eq_refl Hm) as (s' & Hr & Hs').
    exists s'. rewrite Hr. split; [|done]. rewrite <- app_assoc. done.
Qed.

(** Pops of an empty queue. *)
Lemma pop_empty k s popped : cache s = [] -> foldO sync_step (replicate k Pop) (s, popped) = Ret (s, popped).
Proof using Type.
  clear n N mask Hcfg. intros Hc. induction k as [|k IH]; [done|]. cbn [replicate foldO].
  unfold sync_step at 1, pop_next_full_image. by rewrite Hc.
Qed.

(** The cache once all frames are in: one complete entry per image that was not popped. *)
Lemma fed_complete s h popped :
  fed s h popped -> frames_ok h -> all_frames (frame_id <$> h) h ->
  Forall (fun kv => fst (snd kv) = 0 /\ first_frame (fst kv) h = Some (snd (snd kv))) (cache s) /\
  (frame_id <$> popped) ++ keys (cache s) ≡ₚ remove_dups (frame_id <$> h).
Proof.
  intros Hfed Hok Hall. pose proof Hfed as [_ _ _ Hs Hf Hnd Hp].
  assert (Hfirst : forall id, id ∈ frame_id <$> h -> exists f, first_frame id h = Some f).
  { intros id (f & -> & Hfh)%list_elem_of_fmap. destruct (first_frame (frame_id f) h) eqn:E; [eauto|].
    by edestruct (first_frame_None _ _ E f Hfh). }
  split.
  - apply list.Forall_forall. intros [id [m f]] Hin. assert (Hfind : om_find id (cache s) = Some (m, f)).
    { clear -Hin Hs. induction (cache s) as [|[k v] c IH]; [set_solver|].
      pose proof Hs as [Hs' Hk]%sorted_cons. simpl.
      apply elem_of_cons in Hin as [[= -> <-]|Hin]; [by rewrite Z.eqb_refl|].
      destruct (Z.eqb_spec id k) as [->|]; [|by apply IH].
      assert (Hkk : k ∈ keys c) by (by apply (list_elem_of_fmap_2 fst c (k, (m, f)))).
      apply Hk in Hkk. lia. }
    rewrite Hf in Hfind. destruct (decide _); [done|]. cbn. destruct (first_frame id h) as [g|] eqn:Eg; [|done].
    injection Hfind as <- <-. split; [|done]. apply first_frame_Some in Eg as [Hg <-].
    apply (all_frames_done (frame_id <$> h)); [done|done|]. by apply list_elem_of_fmap_2.
  - apply NoDup_Permutation; [|apply NoDup_remove_dups|].
    + apply list.NoDup_app. split_and!; [done| |by apply sorted_NoDup_keys].
      intros id Hid Hk. eapply fed_keys in Hk; [|exact Hfed]. by apply list_elem_of_filter in Hk as [? _].
    + intros id. rewrite elem_of_app, elem_of_remove_dups. split.
      * intros [(f & -> & Hfp)%list_elem_of_fmap|Hk].
        -- rewrite list.Forall_forall in Hp. destruct (Hp f Hfp) as [[? _]%first_frame_Some _]. by apply list_elem_of_fmap_2.
        -- eapply fed_keys in Hk; [|exact Hfed]. apply list_elem_of_filter in Hk as [_ Hk]. by rewrite elem_of_remove_dups in Hk.
      * intros Hid. destruct (decide (id ∈ frame_id <$> popped)) as [|Hni]; [by left|right].
        destruct (om_find id (cache s)) eqn:E; [by eapply om_find_Some_keys|]. rewrite Hf, decide_False in E by done.
        destruct (Hfirst id Hid) as [f Ef]. by rewrite Ef in E.
Qed.
End Completeness.

(** C3: whatever the interleaving of the two threads, the module synchronizer never hits
    undefined behaviour or an exception, keeps at most [n_images_buffer + 1] images, and hands
    an image to the sender only if every configured module has delivered its frame of that
    image. *)
Theorem module_sync_safe {T : Type} `{DetFrame T} n N mask s (es : list (sync_event T)) :
  Synchronizer_new n N mask = Ret s ->
  1 <= n <= mask_bits -> 0 <= N < 2 ^ 31 -> 0 <= mask ->
  Forall (fun f => 0 <= module_id (common f)) (received es) ->
  exists s' popped, sync_run es s = Ret (s', popped) /\
    om_size (cache s') <= N + 1 /\
    Forall (all_modules_sent n (new_image_mask s) (received es)) popped.
Proof.
  intros Hnew Hn HN Hmask Hes. unfold Synchronizer_new in Hnew.
  apply obind_Ret_iff in Hnew as (m & Hm & [= <-]).
  assert (Hm0 : 0 <= m).
  { destruct (Z.eqb_spec mask 0); [|naive_solver]. unfold set_all in Hm.
    refine (foldO_ind (fun m => 0 <= m) _ _ _ _ _ _ Hm); [done|].
    intros x a y Ha%elem_of_seqZ Hx. unfold mask_set. case_match; [|done]. intros [= <-].
    rewrite Z.setbit_spec'. apply Z.lor_nonneg. split; [done|]. apply Z.pow_nonneg. lia. }
  destruct (sync_run_inv es (Build_Synchronizer n (u64 N) m []) (Build_Synchronizer n (u64 N) m [])
              [] []) as (s' & popped & Hrun & Hinv & Hp); try done.
  { split; simpl; [unfold sync_config; simpl; rewrite u64_small by lia; lia|constructor| |done].
    rewrite u64_small by lia. unfold om_size, zlen. simpl. lia. }
  exists s', popped. split; [done|]. split; [|done].
  assert (HN' : n_images_buffer s' = N).
  { rewrite <- (u64_small N) by lia. change (u64 N) with
      (n_images_buffer (Build_Synchronizer (T := T) n (u64 N) m [])).
    exact (sync_run_buffer _ _ _ _ _ Hrun). }
  destruct Hinv as [_ _ Hsz _]. lia.
Qed.

(** C4: no image is lost in the synchronizer.  The frames that arrive come from configured
    modules, each once, and for every image that has one the frames of all configured modules
    arrive; receives and pops are interleaved in any way, as long as never more than
    [n_images_buffer + 1] images wait that have not been popped ([never_full]; one more and the
    oldest is dropped).  Once the sender has then popped as often as there are images, every image has
    been popped exactly once, with the frame of it that arrived first, and the queue is empty;
    the pops after the last frame hand out the images in increasing order of their ids. *)
Theorem module_sync_complete {T : Type} `{DetFrame T} n N mask (es : list (sync_event T)) k :
  1 <= n <= mask_bits -> 0 <= N -> 0 < mask ->
  frames_ok n mask (received es) -> all_frames n mask (frame_id <$> received es) (received es) ->
  never_full N (Build_Synchronizer n N mask []) es ->
  (length (remove_dups (frame_id <$> received es)) <= k)%nat ->
  exists s s' early late,
    sync_run es (Build_Synchronizer n N mask []) = Ret (s, early) /\
    sync_run (es ++ replicate k Pop) (Build_Synchronizer n N mask []) = Ret (s', early ++ late) /\
    cache s' = [] /\ StronglySorted Z.lt (frame_id <$> late) /\
    frame_id <$> (early ++ late) ≡ₚ remove_dups (frame_id <$> received es) /\
    Forall (fun f => first_frame (frame_id f) (received es) = Some f) (early ++ late).
Proof.
  intros Hn HN Hmask Hok Hall Hroom Hk.
  destruct (run_fed n N mask ltac:(lia) es (Build_Synchronizer n N mask [])) as (s & early & Hrun & Hfed); [|done|done|].
  { split; try done; [constructor|constructor]. }
  destruct (fed_complete n N mask ltac:(lia) s (received es) early Hfed Hok Hall) as (Hc & Hperm).
  destruct (pop_all (cache s) s early eq_refl) as (s' & Hpop & Hempty); [eapply Forall_impl; [|exact Hc]; naive_solver|].
  assert (Hids : frame_id <$> (snd ∘ snd <$> cache s) = keys (cache s)).
  { unfold keys. rewrite <- list_fmap_compose. apply list_fmap_ext. intros i kv Hkv.
    rewrite list.Forall_forall in Hc. destruct (Hc kv (list_elem_of_lookup_2 _ _ _ Hkv)) as [_ E].
    by apply first_frame_Some in E as [_ ?]. }
  assert (Hle : (length (cache s) <= k)%nat).
  { apply Permutation_length in Hperm. rewrite length_app in Hperm. unfold keys in Hperm. rewrite !length_fmap in Hperm. lia. }
  exists s, s', early, (snd ∘ snd <$> cache s). split_and!; try done.
  - unfold sync_run in *. rewrite foldO_app, Hrun. cbn [obind].
    replace k with (length (cache s) + (k - length (cache s)))%nat by lia. rewrite replicate_add, foldO_app, Hpop. cbn [obind].
    by apply pop_empty.
  - rewrite Hids. apply (fed_sorted _ _ _ _ _ _ Hfed).
  - by rewrite fmap_app, Hids.
  - apply Forall_app. split; [eapply Forall_impl; [|exact (fed_popped _ _ _ _ _ _ Hfed)]; naive_solver|].
    apply Forall_fmap. eapply Forall_impl; [|exact Hc]. intros kv [_ Hkv]. simpl.
    by pose proof (first_frame_Some _ _ _ Hkv) as [_ ->].
Qed.

(** ** Instances *)

(** The frame of module [m] of an Eiger image, with [k] missing packets. *)
Definition demo_module_frame (id m k : Z) : eg.EGFrame :=
  {| eg.eg_common := {| image_id := id; n_missing_packets := k; module_id := m |};
     eg.bit_depth := 16; eg.pos_y := 0; eg.pos_x := 0 |}.

(** Two modules, two images, interleaved; the second image is complete first. *)
Definition demo_frames : list eg.EGFrame :=
  [demo_module_frame 7 0 0; demo_module_frame 8 1 0; demo_module_frame 8 0 0;
   demo_module_frame 7 1 5].

Lemma module_sync_safe_witness :
  exists s' popped,
    sync_run ((Recv <$> demo_frames) ++ [Pop; Pop]) (Build_Synchronizer 2 50 3 []) = Ret (s', popped) /\
    om_size (cache s') <= 50 + 1 /\
    Forall (all_modules_sent 2 3 (received ((Recv <$> demo_frames) ++ [Pop; Pop]))) popped.
Proof.
  apply (module_sync_safe 2 50 0 (Build_Synchronizer 2 50 3 [])).
  - reflexivity.
  - unfold mask_bits. lia.
  - lia.
  - lia.
  - repeat (apply Forall_cons_2; [vm_compute; discriminate|]). constructor.
Defined.

(** The same frames and those of two further images through a queue for two: image 7 is popped
    between the frames of image 9, image 6 comes after it. *)
Definition demo_interleaved : list (sync_event eg.EGFrame) :=
  (Recv <$> demo_frames) ++ [Pop; Recv (demo_module_frame 9 0 0); Pop; Pop; Recv (demo_module_frame 6 1 0);
    Recv (demo_module_frame 9 1 0); Recv (demo_module_frame 6 0 0)].

Lemma demo_never_full : never_full 1 (Build_Synchronizer 2 1 3 []) demo_interleaved.
Proof.
  intros es1 f es2 s popped E Hr. unfold demo_interleaved, demo_frames in E. cbn in E.
  repeat (destruct es1 as [|e es1]; [first [discriminate E|injection E as <- <-; vm_compute in Hr; injection Hr as <- <-; vm_compute; discriminate]|];
    injection E as <- E).
  destruct es1; discriminate E.
Qed.

Lemma module_sync_complete_witness :
  exists s s' early late,
    sync_run demo_interleaved (Build_Synchronizer 2 1 3 []) = Ret (s, early) /\
    sync_run (demo_interleaved ++ replicate 4 Pop) (Build_Synchronizer 2 1 3 []) = Ret (s', early ++ late) /\
    cache s' = [] /\ StronglySorted Z.lt (frame_id <$> late) /\
    frame_id <$> (early ++ late) ≡ₚ remove_dups (frame_id <$> received demo_interleaved) /\
    Forall (fun f => first_frame (frame_id f) (received demo_interleaved) = Some f) (early ++ late).
Proof.
  apply (module_sync_complete 2 1 3 demo_interleaved 4).
  - unfold mask_bits. lia.
  - lia.
  - lia.
  - split.
    + apply (bool_decide_unpack (NoDup [(7, 0); (8, 1); (8, 0); (7, 1); (9, 0); (6, 1); (9, 1); (6, 0)])). vm_compute. exact I.
    + repeat (apply Forall_cons_2; [split; vm_compute; [discriminate|reflexivity]|]). constructor.
  - intros id i Hid Hi Hb.
    assert (Hi2 : i = 0 \/ i = 1).
    { destruct (decide (i < 2)); [lia|]. rewrite Z.bits_above_log2 in Hb; [done|lia|].
      change (Z.log2 3) with 1. lia. }
    assert (Hid4 : id ∈ [7; 8; 9; 6]) by (clear Hb Hi Hi2; revert Hid; vm_compute received; cbn; set_solver).
    exists (if decide (id = 7 /\ i = 1) then demo_module_frame 7 1 5 else demo_module_frame id i 0).
    destruct Hi2 as [->| ->]; repeat (apply elem_of_cons in Hid4 as [->|Hid4]);
      try (by apply elem_of_nil in Hid4); vm_compute received; vm_compute decide; cbn [demo_module_frame];
      (split; [set_solver|done]).
  - exact demo_never_full.
  - vm_compute. lia.
Defined.

(** The status of an image is that of the frame that arrived first: image 7 is announced
    as good although module 1 lost five packets. *)
Lemma missing_packets_of_later_modules_hidden :
  exists s s', sync_run (Recv <$> [demo_module_frame 7 0 0; demo_module_frame 7 1 5])
      (Build_Synchronizer 2 50 3 []) = Ret (s, []) /\
  send_synchronized_images_step pb_image_default s
    = (set_det (set_image_status pb_image_default 7 st_good_image) (dm_eg 0), s',
       Some (set_det (set_image_status pb_image_default 7 st_good_image) (dm_eg 0))).
Proof. eexists _, _. split; vm_compute; reflexivity. Qed.

(** The insertion that fills the queue to [n_images_buffer + 1] images is reported as one
    corrupted image although no image was dropped. *)
Lemma corrupted_without_drop :
  push_new_image_to_queue (Build_Synchronizer 2 1 3 [(7, (2, demo_module_frame 7 0 0))])
    (demo_module_frame 8 0 0)
  = Ret (1, Build_Synchronizer 2 1 3 [(7, (2, demo_module_frame 7 0 0));
                                      (8, (2, demo_module_frame 8 0 0))]).
Proof. vm_compute. reflexivity. Qed.

(** ** main *)

(** The synchronizer that [main] shares between its two threads, by the type of the detector; a program for another type
    ends. *)
Inductive started_sync : Type :=
| sync_gf (s : Synchronizer gf.GFFrame) | sync_eg (s : Synchronizer eg.EGFrame) | sync_jf (s : Synchronizer jf.JFFrame).

Definition make_sync {T} (config : DetectorConfig) : outcome (Synchronizer T) :=
  let! mask := get_modules_mask config in
  Synchronizer_new (n_modules config) (module_sync_queue_size config) mask.

Definition module_sync_main (config : DetectorConfig) : outcome (option started_sync) :=
  if is_type config "gigafrost" then let! s := make_sync config in Ret (Some (sync_gf s))
  else if is_type config "eiger" then let! s := make_sync config in Ret (Some (sync_eg s))
  else if String.prefix "jungfrau" (detector_type config) then let! s := make_sync config in Ret (Some (sync_jf s))
  else Ret None.

(** With configured modules the synchronizer waits for exactly these. *)
Lemma make_sync_mask {T} config k : 0 < n_modules config <= mask_bits -> k ∈ dom (modules config) -> 0 <= k ->
  exists s : Synchronizer T, make_sync config = Ret s /\ cache s = [] /\
    forall i, 0 <= i -> Z.testbit (new_image_mask s) i = true <-> exists k, k ∈ dom (modules config) /\ k mod n_modules config = i.
Proof.
  intros Hn Hk Hk0. unfold make_sync. destruct (get_modules_mask_bits config Hn) as (m & -> & Hm). cbn [obind].
  pose proof (Z.mod_pos_bound k (n_modules config) ltac:(lia)).
  assert (Hne : m <> 0) by (intros ->; pose proof (proj2 (Hm (k mod n_modules config) ltac:(lia)) ltac:(eauto)) as E; by rewrite Z.bits_0 in E).
  unfold Synchronizer_new. rewrite (proj2 (Z.eqb_neq m 0) Hne). cbn [obind]. eexists. split; [done|]. done.
Qed.

(** A detector of the type pco has no synchronizer of modules: the service ends at once. *)
Lemma module_sync_other_type config : is_type config "pco" = true -> module_sync_main config = Ret None.
Proof. unfold module_sync_main, is_type. intros E%bool_decide_eq_true. by rewrite E. Qed.
