(* ===== verification/StreamSync.v ===== *)
(** * Stream synchronizer

    [src/source/std-data-sync/std-data-sync-stream]: the parts of an image arrive on one
    socket, the synchronizer counts them and announces an image when all parts are there.
    [image_id_queue] is a list, [meta_cache] a finite map from ids to the parts seen. *)

From S2P Require Import Prelude Formats Protocol Stats.

Record ImageAndSync : Type := {
  ias_image_id : Z;
  ias_n_corrupted : Z
}.

Record StreamSynchronizer : Type := {
  n_parts : Z;
  n_images_buffer : Z;
  image_id_queue : list Z;
  meta_cache : gmap Z Z
}.

Definition StreamSynchronizer_new (parts n_images_buffer : Z) : StreamSynchronizer :=
  {| n_parts := u64 parts; n_images_buffer := u64 n_images_buffer; image_id_queue := [];
     meta_cache := ∅ |}.

Definition set_queue (s : StreamSynchronizer) (q : list Z) (c : gmap Z Z) : StreamSynchronizer :=
  {| n_parts := n_parts s; n_images_buffer := n_images_buffer s; image_id_queue := q;
     meta_cache := c |}.

Definition is_new_image (s : StreamSynchronizer) (id : Z) : bool :=
  match meta_cache s !! id with Some _ => false | None => true end.

Definition is_queue_too_long (s : StreamSynchronizer) : bool :=
  n_images_buffer s <? zlen (image_id_queue s).

(** [front()] of an empty queue is undefined. *)
Definition drop_oldest_incomplete_image (s : StreamSynchronizer) : outcome StreamSynchronizer :=
  match image_id_queue s with
  | [] => Undef end_deref
  | id :: q => Ret (set_queue s q (delete id (meta_cache s)))
  end.

Definition push_new_image_to_queue (s : StreamSynchronizer) (id : Z) :
  outcome (Z * StreamSynchronizer) :=
  let s1 := set_queue s (image_id_queue s ++ [id]) (<[id := 0]> (meta_cache s)) in
  if is_queue_too_long s1 then
    let! s2 := drop_oldest_incomplete_image s1 in Ret (1, s2)
  else Ret (0, s1).

(** The loop of [discard_stale_images] over the queue. *)
Fixpoint discard_loop (id : Z) (q : list Z) (c : gmap Z Z) (n : Z) : Z * list Z * gmap Z Z :=
  match q with
  | [] => (n, [], c)
  | x :: q' => if x =? id then (n, q, c) else discard_loop id q' (delete x c) (u32 (n + 1))
  end.

Definition discard_stale_images (s : StreamSynchronizer) (id : Z) : Z * StreamSynchronizer :=
  let '(n, q, c) := discard_loop id (image_id_queue s) (meta_cache s) 0 in
  (n, set_queue s q c).

Definition get_full_image (s : StreamSynchronizer) (id : Z) :
  outcome (ImageAndSync * StreamSynchronizer) :=
  let (n_corrupted_images, s1) := discard_stale_images s id in
  match image_id_queue s1 with
  | [] => Throw runtime_error
  | _ :: q => Ret ({| ias_image_id := id; ias_n_corrupted := n_corrupted_images |},
                   set_queue s1 q (delete id (meta_cache s1)))
  end.

Definition process_image_metadata (s : StreamSynchronizer) (id : Z) :
  outcome (ImageAndSync * StreamSynchronizer) :=
  let! '(n_corrupted, s1) := if is_new_image s id then push_new_image_to_queue s id
                             else Ret (0, s) in
  match meta_cache s1 !! id with
  | None => Undef end_deref
  | Some count =>
      let count' := u64 (count + 1) in
      let s2 := set_queue s1 (image_id_queue s1) (<[id := count']> (meta_cache s1)) in
      if count' =? n_parts s then get_full_image s2 id
      else Ret ({| ias_image_id := INVALID_IMAGE_ID; ias_n_corrupted := u32 n_corrupted |}, s2)
  end.

Definition get_queue_length (s : StreamSynchronizer) : Z := zlen (image_id_queue s).

(** One iteration of [stream_sync.cpp]'s loop for a parsed message: the message sent on. *)
Definition stream_sync_step (st : StreamSynchronizer * QueueStats.QueueStatsCollector)
  (msg : option pb_image) (now now_rate : Z) :
  outcome (StreamSynchronizer * QueueStats.QueueStatsCollector * option pb_image) :=
  let (s, stats) := st in
  match msg with
  | None => Ret (s, snd (print_stats now now_rate stats), None)
  | Some m =>
      let! '(r, s') := process_image_metadata s (pb_image_id m) in
      let complete := negb (ias_image_id r =? INVALID_IMAGE_ID) in
      let stats1 := if complete then QueueStats.process stats (ias_n_corrupted r) else stats in
      let stats2 := QueueStats.update_queue_length stats1 (get_queue_length s') in
      Ret (s', snd (print_stats now now_rate stats2), if complete then Some m else None)
  end.

(** ** Specification: one list of images with the parts seen, oldest first *)

Definition has (id : Z) (q : list (Z * Z)) : bool := existsb (fun e => fst e =? id) q.

Definition count_part (id : Z) (q : list (Z * Z)) : list (Z * Z) :=
  (fun e => if fst e =? id then (fst e, snd e + 1) else e) <$> q.

Fixpoint parts_of (id : Z) (q : list (Z * Z)) : Z :=
  match q with
  | [] => 0
  | (x, c) :: q' => if x =? id then c else parts_of id q'
  end.

(** The images behind [id]. *)
Fixpoint behind (id : Z) (q : list (Z * Z)) : list (Z * Z) :=
  match q with
  | [] => []
  | (x, c) :: q' => if x =? id then q' else behind id q'
  end.

(** [Some id] announces a complete image; everything older than it is given up. *)
Definition spec_step (n N : Z) (q : list (Z * Z)) (id : Z) : option Z * list (Z * Z) :=
  let q1 := if has id q then q
            else let q' := q ++ [(id, 0)] in if N <? zlen q' then tail q' else q' in
  let q2 := count_part id q1 in
  if parts_of id q2 =? n then (Some id, behind id q2) else (None, q2).

(** ** Refinement *)

Record refines (s : StreamSynchronizer) (n N : Z) (q : list (Z * Z)) : Prop := {
  ref_n : n_parts s = n;
  ref_N : n_images_buffer s = N;
  ref_queue : image_id_queue s = fst <$> q;
  ref_cache : meta_cache s = list_to_map q;
  ref_nodup : NoDup (fst <$> q);
  ref_len : zlen q <= N;
  ref_counts : Forall (fun e => 0 <= snd e < n) q
}.

Lemma has_spec id q : has id q = true <-> id ∈ fst <$> q.
Proof.
  unfold has. rewrite existsb_exists, list_elem_of_fmap. split.
  - intros (e & He & E%Z.eqb_eq). exists e. split; [done|by apply list_elem_of_In].
  - intros (e & -> & He). exists e. split; [by apply list_elem_of_In|]. apply Z.eqb_refl.
Qed.

Lemma is_new_image_ref s n N q id :
  refines s n N q -> is_new_image s id = negb (has id q).
Proof.
  intros [_ _ _ Hc _ _ _]. unfold is_new_image. rewrite Hc.
  destruct (list_to_map q !! id) as [c|] eqn:E.
  - symmetry. apply negb_false_iff, has_spec.
    apply (list_elem_of_fmap_2 fst q (id, c)). by apply elem_of_list_to_map_2.
  - symmetry. apply negb_true_iff, not_true_iff_false. rewrite has_spec.
    by apply not_elem_of_list_to_map.
Qed.

Lemma fst_count_part id q : fst <$> count_part id q = fst <$> q.
Proof.
  unfold count_part. rewrite <- list_fmap_compose. apply list_fmap_ext. intros i [x c] _. simpl.
  by destruct (x =? id).
Qed.

Lemma count_part_map id q c :
  NoDup (fst <$> q) -> (list_to_map q : gmap Z Z) !! id = Some c ->
  <[id := c + 1]> (list_to_map q : gmap Z Z) = list_to_map (count_part id q).
Proof.
  intros Hnd Hc. apply map_eq. intros x. induction q as [|[y d] q IH]; simpl in *; [done|].
  apply list.NoDup_cons in Hnd as [Hy Hnd].
  destruct (Z.eqb_spec y id) as [->|Hne].
  - simplify_map_eq. assert (Hq : count_part id q = q).
    { clear -Hy. induction q as [|[z e] q IH]; simpl; [done|].
      destruct (Z.eqb_spec z id); [subst; set_solver|]. f_equal. apply IH. set_solver. }
    rewrite Hq. destruct (decide (x = id)) as [->|]; simplify_map_eq; done.
  - rewrite lookup_insert_ne in Hc by done.
    destruct (decide (x = y)) as [->|].
    + by rewrite lookup_insert_ne, !lookup_insert_eq by done.
    + rewrite (lookup_insert_ne _ y x) by done. rewrite <- IH by done.
      destruct (decide (x = id)) as [->|]; [by rewrite !lookup_insert_eq|].
      by rewrite !lookup_insert_ne by done.
Qed.

Lemma parts_of_map id q :
  parts_of id q = default 0 ((list_to_map q : gmap Z Z) !! id).
Proof.
  induction q as [|[x c] q IH]; simpl; [done|].
  destruct (Z.eqb_spec x id) as [->|]; [by rewrite lookup_insert_eq|].
  by rewrite lookup_insert_ne by done.
Qed.

(** The loop stops at [id] and forgets what is in front of it. *)
Lemma discard_loop_spec id q n :
  NoDup (fst <$> q) -> id ∈ fst <$> q ->
  exists k c, discard_loop id (fst <$> q) (list_to_map q) n
    = (k, id :: (fst <$> behind id q), list_to_map ((id, c) :: behind id q)) /\
    NoDup (id :: (fst <$> behind id q)).
Proof.
  revert n. induction q as [|[x c] q IH]; intros n Hnd Hin; simpl in *; [set_solver|].
  destruct (Z.eqb_spec x id) as [->|Hne]; [by eexists _, _|].
  apply list.NoDup_cons in Hnd as [Hx Hnd].
  rewrite delete_insert_id by (by apply not_elem_of_list_to_map).
  apply IH; [done|]. set_solver.
Qed.

Lemma behind_sub id q e : e ∈ behind id q -> e ∈ q.
Proof.
  induction q as [|[x c] q IH]; simpl; [done|]. destruct (x =? id); set_solver.
Qed.

Lemma zlen_behind id q : zlen (behind id q) <= zlen q.
Proof.
  induction q as [|[x c] q IH]; simpl; [done|].
  destruct (x =? id); rewrite zlen_cons; lia.
Qed.

Lemma push_refines s n N q id :
  refines s n N q -> has id q = false -> 1 <= n -> 1 <= N ->
  exists r s1 q1, push_new_image_to_queue s id = Ret (r, s1) /\ refines s1 n N q1 /\
    id ∈ fst <$> q1 /\ (r = 0 \/ r = 1) /\
    q1 = (let q' := q ++ [(id, 0)] in if N <? zlen q' then tail q' else q').
Proof.
  intros [Hn HN Hq Hc Hnd Hl Hk] Hnew Hn1 HN1.
  assert (Hid : id ∉ fst <$> q) by (rewrite <- has_spec; by rewrite Hnew).
  assert (Hmap : <[id := 0]> (meta_cache s) = list_to_map (q ++ [(id, 0)]))
    by (rewrite Hc; by rewrite list_to_map_snoc).
  assert (Hnd' : NoDup (fst <$> q ++ [(id, 0)])).
  { rewrite fmap_app. apply list.NoDup_app. split_and!; [done|set_solver|].
    apply NoDup_singleton. }
  assert (Hk' : Forall (fun e => 0 <= snd e < n) (q ++ [(id, 0)])).
  { apply Forall_app. split; [done|]. apply Forall_cons_2; [simpl; lia|done]. }
  unfold push_new_image_to_queue, is_queue_too_long. cbn [image_id_queue n_images_buffer set_queue].
  rewrite Hq, HN, Hmap.
  replace (zlen ((fst <$> q) ++ [id])) with (zlen (q ++ [(id, 0)]))
    by (unfold zlen; by rewrite !length_app, length_fmap).
  cbv zeta. destruct (Z.ltb_spec N (zlen (q ++ [(id, 0)]))) as [Hlong|Hshort].
  - destruct q as [|[x c] q].
    { change (zlen ([] ++ [(id, 0)])) with 1 in Hlong. lia. }
    unfold drop_oldest_incomplete_image. simpl in *. apply list.NoDup_cons in Hnd' as [Hx Hnd'].
    apply Forall_cons_1 in Hk' as [_ Hk'].
    eexists 1, _, _. split; [done|]. split; [|split; [|by split; [right|]]].
    + split; simpl; try done.
      * by rewrite fmap_app.
      * rewrite delete_insert_id; [done|]. by apply not_elem_of_list_to_map.
      * rewrite zlen_cons in Hl. rewrite zlen_app. change (zlen [(id, 0)]) with 1. lia.
    + rewrite fmap_app. set_solver.
  - eexists 0, _, _. split; [done|]. split; [|split; [|by split; [left|]]].
    + split; simpl; try done. by rewrite fmap_app.
    + rewrite fmap_app. set_solver.
Qed.

(** Counting a part of an image that is in the queue. *)
Lemma count_refines s n N q id :
  refines s n N q -> id ∈ fst <$> q -> 1 <= n < 2 ^ 64 ->
  exists c, meta_cache s !! id = Some c /\ u64 (c + 1) = c + 1 /\
    parts_of id (count_part id q) = c + 1 /\
    let s2 := set_queue s (image_id_queue s) (<[id := c + 1]> (meta_cache s)) in
    if c + 1 =? n
    then exists k, get_full_image s2 id
           = Ret ({| ias_image_id := id; ias_n_corrupted := k |},
                  set_queue s2 (fst <$> behind id (count_part id q))
                    (list_to_map (behind id (count_part id q)))) /\
         refines (set_queue s2 (fst <$> behind id (count_part id q))
                    (list_to_map (behind id (count_part id q)))) n N (behind id (count_part id q))
    else refines s2 n N (count_part id q).
Proof.
  intros [Hn HN Hq Hc Hnd Hl Hk] Hid Hn64.
  destruct ((list_to_map q : gmap Z Z) !! id) as [c|] eqn:Ec;
    [|by apply not_elem_of_list_to_map in Ec].
  assert (Hcr : 0 <= c < n).
  { apply elem_of_list_to_map_2 in Ec. rewrite list.Forall_forall in Hk. by apply (Hk (id, c)). }
  exists c. rewrite Hc. split; [done|]. split; [apply u64_small; lia|].
  assert (Hmap := count_part_map id q c Hnd Ec).
  assert (Hp : parts_of id (count_part id q) = c + 1)
    by (rewrite parts_of_map, <- Hmap; by rewrite lookup_insert_eq).
  split; [done|]. cbv zeta. rewrite Hmap, Hq.
  assert (Hnd2 : NoDup (fst <$> count_part id q)) by (by rewrite fst_count_part).
  assert (Hlen : zlen (count_part id q) = zlen q) by (unfold zlen, count_part; by rewrite length_fmap).
  assert (Hkall : forall e, e ∈ count_part id q -> 0 <= snd e /\ (fst e <> id -> snd e < n)).
  { intros e (e0 & -> & He0)%list_elem_of_fmap. rewrite list.Forall_forall in Hk.
    specialize (Hk e0 He0). destruct (Z.eqb_spec (fst e0) id); simpl; lia. }
  assert (Hkid : forall e, e ∈ count_part id q -> fst e = id -> snd e = c + 1).
  { intros [x d] He E. simpl in E. subst x. apply (elem_of_list_to_map_1 (M := gmap Z)) in He; [|done].
    rewrite <- Hmap, lookup_insert_eq in He. by injection He as <-. }
  destruct (Z.eqb_spec (c + 1) n) as [Efull|Enot].
  - destruct (discard_loop_spec id (count_part id q) 0 Hnd2) as (k & d & Hloop & Hnd3).
    { by rewrite fst_count_part. }
    exists k. apply list.NoDup_cons in Hnd3 as [Hidn Hnd3]. split.
    + unfold get_full_image, discard_stale_images. cbn [image_id_queue meta_cache set_queue].
      rewrite <- (fst_count_part id q), Hloop. cbn [image_id_queue meta_cache set_queue].
      do 3 f_equal. simpl. apply delete_insert_id. by apply not_elem_of_list_to_map.
    + split; cbn [n_parts n_images_buffer image_id_queue meta_cache set_queue]; try done.
      * pose proof (zlen_behind id (count_part id q)). lia.
      * apply list.Forall_forall. intros e He. destruct (Hkall e) as [? Hlt]; [by eapply behind_sub|].
        split; [done|]. apply Hlt. intros E. apply Hidn.
        apply (list_elem_of_fmap_2 fst) in He. by rewrite E in He.
  - split; cbn [n_parts n_images_buffer image_id_queue meta_cache set_queue]; try done.
    + by rewrite fst_count_part.
    + lia.
    + apply list.Forall_forall. intros e He. destruct (Hkall e He) as [? Hlt].
      split; [done|]. destruct (decide (fst e = id)) as [E|E]; [|by apply Hlt].
      rewrite (Hkid e He E). lia.
Qed.

Lemma process_refines s n N q id :
  refines s n N q -> 1 <= n < 2 ^ 64 -> 1 <= N ->
  exists r s', process_image_metadata s id = Ret (r, s') /\
    refines s' n N (snd (spec_step n N q id)) /\
    ias_image_id r = default INVALID_IMAGE_ID (fst (spec_step n N q id)).
Proof.
  intros Href Hn HN. unfold process_image_metadata, spec_step.
  rewrite (is_new_image_ref s n N q id Href).
  assert (Hpush : exists k s1 q1,
    (if negb (has id q) then push_new_image_to_queue s id else Ret (0, s)) = Ret (k, s1) /\
    refines s1 n N q1 /\ id ∈ fst <$> q1 /\
    q1 = if has id q then q
         else (let q' := q ++ [(id, 0)] in if N <? zlen q' then tail q' else q')).
  { destruct (has id q) eqn:Eh; simpl.
    - exists 0, s, q. split_and!; try done. by apply has_spec.
    - destruct (push_refines s n N q id Href Eh ltac:(lia) HN) as (r & s1 & q1 & H1 & H2 & H3 & _ & H5).
      exists r, s1, q1. done. }
  destruct Hpush as (k & s1 & q1 & -> & Href1 & Hid & ->). cbn [obind].
  rewrite (ref_n _ _ _ _ Href). set (q1 := if has id q then q else _) in *.
  destruct (count_refines s1 n N q1 id Href1 Hid Hn) as (c & -> & -> & Hp & Hres).
  rewrite Hp. cbv zeta in Hres. destruct (c + 1 =? n).
  - destruct Hres as (j & Hg & Hr). rewrite Hg. eexists _, _. done.
  - eexists _, _. done.
Qed.

(** ** Runs *)

Definition stream_run1 (st : StreamSynchronizer * list Z) (id : Z) :
  outcome (StreamSynchronizer * list Z) :=
  let (s, announced) := st in
  let! '(r, s') := process_image_metadata s id in
  Ret (s', if ias_image_id r =? INVALID_IMAGE_ID then announced
           else announced ++ [ias_image_id r]).

(** The synchronizer after the part messages [msgs] and the images it announced. *)
Definition stream_run (msgs : list Z) (s : StreamSynchronizer) :
  outcome (StreamSynchronizer * list Z) := foldO stream_run1 msgs (s, []).

Fixpoint spec_run (n N : Z) (q : list (Z * Z)) (msgs : list Z) : list Z * list (Z * Z) :=
  match msgs with
  | [] => ([], q)
  | id :: msgs' =>
      let (o, q') := spec_step n N q id in
      let (out, q'') := spec_run n N q' msgs' in
      (match o with Some i => i :: out | None => out end, q'')
  end.

Lemma spec_step_id n N q id : fst (spec_step n N q id) = Some id \/ fst (spec_step n N q id) = None.
Proof. unfold spec_step. destruct (_ =? n); auto. Qed.

Lemma stream_run_refines msgs s n N q announced :
  refines s n N q -> 1 <= n < 2 ^ 64 -> 1 <= N ->
  Forall (fun id => id <> INVALID_IMAGE_ID) msgs ->
  exists s', foldO stream_run1 msgs (s, announced)
      = Ret (s', announced ++ fst (spec_run n N q msgs)) /\
    refines s' n N (snd (spec_run n N q msgs)).
Proof.
  revert s q announced. induction msgs as [|id msgs IH]; intros s q announced Href Hn HN Hm; simpl.
  - exists s. rewrite app_nil_r. done.
  - apply Forall_cons_1 in Hm as [Hid Hm].
    destruct (process_refines s n N q id Href Hn HN) as (r & s1 & -> & Href1 & Hr). cbn [obind].
    rewrite Hr. pose proof (spec_step_id n N q id) as Ho.
    destruct (spec_step n N q id) as [o q1]. simpl in Href1, Ho |- *.
    destruct (IH s1 q1 (if default INVALID_IMAGE_ID o =? INVALID_IMAGE_ID then announced
                 else announced ++ [default INVALID_IMAGE_ID o]) Href1 Hn HN Hm) as (s' & Hs' & Href').
    exists s'. destruct (spec_run n N q1 msgs) as [out q2]. simpl in *. rewrite Hs'.
    split; [|done]. destruct Ho as [->| ->]; simpl.
    + destruct (Z.eqb_spec id INVALID_IMAGE_ID); [done|]. by rewrite <- app_assoc.
    + done.
Qed.

Lemma new_refines parts N :
  0 <= parts < 2 ^ 31 -> 0 <= N < 2 ^ 31 ->
  refines (StreamSynchronizer_new parts N) parts N [].
Proof.
  intros Hp HN. split; simpl; try done; try (apply u64_small; lia).
  - constructor.
  - change (zlen []) with 0. lia.
Qed.

(** C5: the stream synchronizer implements its specification, a list of incomplete images
    in the order of their first part: for every sequence of part messages it never hits
    undefined behaviour or its "impossible" exception, announces exactly the images the
    specification announces, and its queue never exceeds [n_images_buffer]. *)
Theorem stream_sync_refines parts N msgs :
  1 <= parts < 2 ^ 31 -> 1 <= N < 2 ^ 31 ->
  Forall (fun id => id <> INVALID_IMAGE_ID) msgs ->
  exists s', stream_run msgs (StreamSynchronizer_new parts N)
      = Ret (s', fst (spec_run parts N [] msgs)) /\
    image_id_queue s' = fst <$> snd (spec_run parts N [] msgs) /\
    get_queue_length s' <= N.
Proof.
  intros Hp HN Hm.
  destruct (stream_run_refines msgs (StreamSynchronizer_new parts N) parts N [] [])
    as (s' & Hr & Href); [apply new_refines; lia|lia|lia|done|].
  exists s'. split; [exact Hr|]. destruct Href as [_ _ Hq _ _ Hl _]. split; [done|].
  unfold get_queue_length. rewrite Hq. unfold zlen in *. by rewrite length_fmap.
Qed.

Lemma stream_sync_refines_witness :
  exists s', stream_run [5; 6; 6; 5; 7] (StreamSynchronizer_new 2 1000)
      = Ret (s', fst (spec_run 2 1000 [] [5; 6; 6; 5; 7])) /\
    image_id_queue s' = fst <$> snd (spec_run 2 1000 [] [5; 6; 6; 5; 7]) /\
    get_queue_length s' <= 1000.
Proof.
  apply (stream_sync_refines 2 1000); [lia|lia|].
  repeat (apply Forall_cons_2; [vm_compute; discriminate|]). constructor.
Defined.

(** With an empty buffer the first part of an image would be dropped before it is counted. *)
Lemma stream_sync_zero_buffer :
  process_image_metadata (StreamSynchronizer_new 2 0) 5 = Undef end_deref.
Proof. vm_compute. reflexivity. Qed.

(** ** Senders that send the same images in the same order *)

Section Fifo.
Variable (ids : list Z) (N : Z).
Hypothesis (Hids : NoDup ids).

(** [pos !! j] is the number of images sender [j] has sent. *)
Definition slowest (pos : list nat) : nat := foldr Nat.min (length ids) pos.
Definition fastest (pos : list nat) : nat := foldr Nat.max 0%nat pos.

(** The senders that have sent image number [k]. *)
Definition senders_past (pos : list nat) (k : nat) : Z := zlen (filter (fun p => (k < p)%nat) pos).

(** The messages when the senders [js] send their next image one after the other. *)
Fixpoint fifo_messages (pos : list nat) (js : list nat) : list Z :=
  match js with
  | [] => []
  | j :: js' => let k := pos !!! j in ids !!! k :: fifo_messages (<[j := S k]> pos) js'
  end.

Definition fifo_end (pos : list nat) (js : list nat) : list nat :=
  fold_left (fun pos j => <[j := S (pos !!! j)]> pos) js pos.

(** Every sender in [js] has an image left, and no sender runs more than [N] images ahead of
    the slowest one. *)
Fixpoint fifo_ok (pos : list nat) (js : list nat) : Prop :=
  match js with
  | [] => True
  | j :: js' => exists k, pos !! j = Some k /\ (k < length ids)%nat /\
      Z.of_nat (S k) <= Z.of_nat (slowest pos) + N /\ fifo_ok (<[j := S k]> pos) js'
  end.

(** The incomplete images. *)
Definition open_images (pos : list nat) (m M : nat) : list (Z * Z) :=
  (fun k => (ids !!! k, senders_past pos k)) <$> seq m (M - m).

Lemma slowest_le pos p : p ∈ pos -> (slowest pos <= p)%nat.
Proof. unfold slowest. induction pos; simpl; [set_solver|]. intros [->|?]%elem_of_cons; [lia|]. specialize (IHpos H). lia. Qed.

Lemma fastest_ge pos p : p ∈ pos -> (p <= fastest pos)%nat.
Proof. unfold fastest. induction pos; simpl; [set_solver|]. intros [->|?]%elem_of_cons; [lia|]. specialize (IHpos H). lia. Qed.

Lemma slowest_spec pos m :
  (forall p, p ∈ pos -> (m <= p)%nat) -> (m <= length ids)%nat ->
  m ∈ pos -> slowest pos = m.
Proof.
  intros Hall Hm Hin. pose proof (slowest_le pos m Hin).
  enough (m <= slowest pos)%nat by lia. clear Hin H. unfold slowest.
  induction pos as [|p pos IH]; simpl; [done|].
  assert (m <= p)%nat by (apply Hall; set_solver).
  assert (m <= foldr Nat.min (length ids) pos)%nat by (apply IH; set_solver). lia.
Qed.

Lemma slowest_in pos :
  pos <> [] -> Forall (fun p => (p <= length ids)%nat) pos -> slowest pos ∈ pos.
Proof.
  unfold slowest. induction pos as [|p pos IH]; [done|]. intros _ [Hp Hf]%Forall_cons_1. simpl.
  destruct pos as [|p' pos]; [simpl; rewrite Nat.min_l by done; set_solver|].
  assert (Hin := IH ltac:(done) Hf).
  destruct (Nat.min_spec p (foldr Nat.min (length ids) (p' :: pos))) as [[_ ->]|[_ ->]]; set_solver.
Qed.

Lemma fastest_insert pos j k :
  pos !! j = Some k -> fastest (<[j := S k]> pos) = Nat.max (fastest pos) (S k).
Proof.
  unfold fastest. revert j. induction pos as [|p pos IH]; intros [|j]; simpl; [done|done| |].
  - intros [= ->]. lia.
  - intros Hj. rewrite IH by done. lia.
Qed.

Lemma senders_past_insert pos j k i :
  pos !! j = Some k ->
  senders_past (<[j := S k]> pos) i = senders_past pos i + (if (i =? k)%nat then 1 else 0).
Proof.
  unfold senders_past. revert j. induction pos as [|p pos IH]; intros [|j]; simpl; [done|done| |].
  - intros [= ->]. rewrite !filter_cons. destruct (Nat.eqb_spec i k) as [E|E]; [subst i|].
    + rewrite decide_True, decide_False by lia. rewrite zlen_cons. lia.
    + destruct (decide (i < k)%nat); [rewrite decide_True by lia|rewrite decide_False by lia];
        rewrite ?zlen_cons; lia.
  - intros Hj. rewrite !filter_cons. case_decide; rewrite ?zlen_cons, IH by done; lia.
Qed.

Lemma senders_past_full pos k : senders_past pos k = zlen pos <-> Forall (fun p => (k < p)%nat) pos.
Proof.
  unfold senders_past. induction pos as [|p pos IH]; [done|]. rewrite filter_cons.
  assert (Hle : zlen (filter (fun p => (k < p)%nat) pos) <= zlen pos).
  { unfold zlen. pose proof (length_filter (fun p => (k < p)%nat) pos). lia. }
  case_decide; rewrite !zlen_cons, list.Forall_cons.
  - rewrite <- IH. lia.
  - split; [lia|tauto].
Qed.

Lemma senders_past_zero pos k : (fastest pos <= k)%nat -> senders_past pos k = 0.
Proof.
  unfold senders_past, fastest. induction pos as [|p pos IH]; [done|]. simpl. intros Hk.
  rewrite filter_cons, decide_False by lia. apply IH. lia.
Qed.

Lemma ids_inj i k : (i < length ids)%nat -> (k < length ids)%nat -> ids !!! i = ids !!! k -> i = k.
Proof.
  intros Hi Hk E. eapply NoDup_lookup; [exact Hids|apply list_lookup_lookup_total_lt, Hi|].
  rewrite E. by apply list_lookup_lookup_total_lt.
Qed.

Definition positions_ok (pos : list nat) : Prop :=
  pos <> [] /\ Forall (fun p => (p <= length ids)%nat) pos.

Lemma positions_insert pos j k :
  positions_ok pos -> pos !! j = Some k -> (k < length ids)%nat -> positions_ok (<[j := S k]> pos).
Proof.
  intros [Hne Hf] Hj Hk. split.
  - intros E. apply Hne. apply nil_length_inv. by rewrite <- (length_insert pos j (S k)), E.
  - apply Forall_insert; [done|lia].
Qed.

Lemma zlen_insert (pos : list nat) j k : zlen (<[j := k]> pos) = zlen pos.
Proof. unfold zlen. by rewrite length_insert. Qed.

(** The slowest sender after a message: it moves on only if it was the last one at its
    position. *)
Lemma slowest_insert pos j k :
  positions_ok pos -> pos !! j = Some k -> (k < length ids)%nat ->
  let pos' := <[j := S k]> pos in
  if senders_past pos' k =? zlen pos
  then slowest pos = k /\ slowest pos' = S k
  else slowest pos' = slowest pos.
Proof.
  intros Hok Hj Hk pos'. assert (Hjl := lookup_lt_Some _ _ _ Hj).
  assert (Hj' : pos' !! j = Some (S k)) by (by apply list_lookup_insert_eq).
  assert (Hin' : S k ∈ pos') by (by eapply list_elem_of_lookup_2).
  destruct (Z.eqb_spec (senders_past pos' k) (zlen pos)) as [E|E].
  - rewrite <- (zlen_insert pos j (S k)) in E. apply senders_past_full in E.
    rewrite list.Forall_forall in E. split.
    + apply slowest_spec; [|lia|by eapply list_elem_of_lookup_2].
      intros p (i & Hi)%list_elem_of_lookup. destruct (decide (i = j)) as [->|Hne]; [naive_solver|].
      assert (k < p)%nat; [|lia]. apply E, list_elem_of_lookup. exists i.
      unfold pos'. by rewrite list_lookup_insert_ne.
    + apply slowest_spec; [|lia|done]. intros p Hp. apply E in Hp. lia.
  - pose proof (slowest_in pos (proj1 Hok) (proj2 Hok)) as Hm. set (m := slowest pos) in *.
    assert (Hle : forall p, p ∈ pos' -> (m <= p)%nat).
    { intros p (i & Hi)%list_elem_of_lookup. destruct (decide (i = j)) as [->|Hne].
      - rewrite Hj' in Hi. injection Hi as <-.
        pose proof (slowest_le pos k ltac:(by eapply list_elem_of_lookup_2)). lia.
      - unfold pos' in Hi. rewrite list_lookup_insert_ne in Hi by done.
        apply slowest_le. by eapply list_elem_of_lookup_2. }
    destruct Hok as [Hne Hf]. rewrite list.Forall_forall in Hf.
    apply slowest_spec; [done|by apply Hf|].
    apply list_elem_of_lookup in Hm as (i & Hi). destruct (decide (i = j)) as [->|Hij].
    + assert (m = k) by congruence.
      destruct (decide (Forall (fun p => (k < p)%nat) pos')) as [Hall|Hall].
      * apply senders_past_full in Hall. unfold pos' in Hall. rewrite zlen_insert in Hall. done.
      * apply not_Forall_Exists in Hall; [|apply _]. apply list.Exists_exists in Hall as (p & Hp & Hlt).
        simpl in Hlt. assert (Hpm : p = m) by (pose proof (Hle p Hp); lia). by rewrite <- Hpm.
    + apply list_elem_of_lookup. exists i. unfold pos'. by rewrite list_lookup_insert_ne.
Qed.

Lemma open_images_keys pos m M : fst <$> open_images pos m M = (fun k => ids !!! k) <$> seq m (M - m).
Proof. unfold open_images. by rewrite <- list_fmap_compose. Qed.

Lemma has_open pos m M k :
  (M <= length ids)%nat -> (k < length ids)%nat -> (m <= k)%nat ->
  has (ids !!! k) (open_images pos m M) = bool_decide (k < M)%nat.
Proof.
  intros HM Hk Hm. apply eq_bool_prop_intro. rewrite bool_decide_spec.
  rewrite Is_true_true, has_spec, open_images_keys, list_elem_of_fmap. split.
  - intros (i & E & Hi%elem_of_seq). apply ids_inj in E; lia.
  - intros HkM. exists k. split; [done|]. apply elem_of_seq. lia.
Qed.

Lemma count_open pos j k m M :
  pos !! j = Some k -> (k < length ids)%nat -> (M <= length ids)%nat ->
  count_part (ids !!! k) (open_images pos m M) = open_images (<[j := S k]> pos) m M.
Proof.
  intros Hj Hk HM. unfold count_part, open_images. rewrite <- list_fmap_compose.
  apply list_fmap_ext. intros x i Hi. apply lookup_seq in Hi as [-> Hx]. simpl.
  rewrite (senders_past_insert pos j k) by done.
  destruct (Z.eqb_spec (ids !!! (m + x)%nat) (ids !!! k)) as [E|E].
  - apply ids_inj in E; [|lia|done]. subst k. by rewrite Nat.eqb_refl.
  - destruct (Nat.eqb_spec (m + x) k) as [E2|]; [by rewrite E2 in E|]. by rewrite Z.add_0_r.
Qed.

Lemma open_snoc pos m M :
  (m <= M)%nat -> open_images pos m (S M) = open_images pos m M ++ [(ids !!! M, senders_past pos M)].
Proof.
  intros Hm. unfold open_images. rewrite Nat.sub_succ_l, seq_S, fmap_app by lia.
  replace (m + (M - m))%nat with M by lia. done.
Qed.

Lemma parts_open pos m M k :
  (m <= k < M)%nat -> (M <= length ids)%nat ->
  parts_of (ids !!! k) (open_images pos m M) = senders_past pos k.
Proof.
  intros Hk HM. unfold open_images. remember (M - m)%nat as d eqn:Hd. revert m Hk Hd.
  induction d as [|d IH]; intros m Hk Hd; [lia|]. simpl.
  destruct (Z.eqb_spec (ids !!! m) (ids !!! k)) as [E|E].
  - apply ids_inj in E; [by subst|lia..].
  - apply IH; [|lia]. destruct (decide (m = k)); [by subst|]. lia.
Qed.

Lemma behind_open pos m M :
  (m < M)%nat -> behind (ids !!! m) (open_images pos m M) = open_images pos (S m) M.
Proof.
  intros Hm. unfold open_images. replace (M - m)%nat with (S (M - S m)) by lia. simpl.
  by rewrite Z.eqb_refl.
Qed.

Lemma zlen_open pos m M : zlen (open_images pos m M) = Z.of_nat (M - m).
Proof. unfold open_images, zlen. by rewrite length_fmap, length_seq. Qed.

Lemma fastest_le pos : positions_ok pos -> (fastest pos <= length ids)%nat.
Proof.
  intros [_ Hf]. unfold fastest. induction pos as [|p pos IH]; simpl; [lia|].
  apply Forall_cons_1 in Hf as [Hp Hf]. apply IH in Hf. lia.
Qed.

Lemma fifo_step pos j k :
  positions_ok pos -> pos !! j = Some k -> (k < length ids)%nat ->
  Z.of_nat (S k) <= Z.of_nat (slowest pos) + N ->
  let pos' := <[j := S k]> pos in
  spec_step (zlen pos) N (open_images pos (slowest pos) (fastest pos)) (ids !!! k) =
    (if senders_past pos' k =? zlen pos then Some (ids !!! k) else None,
     open_images pos' (slowest pos') (fastest pos')).
Proof.
  intros Hok Hj Hk Hskew pos'.
  assert (Hkin : k ∈ pos) by (by eapply list_elem_of_lookup_2).
  pose proof (slowest_le pos k Hkin) as Hmk. pose proof (fastest_ge pos k Hkin) as HkM.
  pose proof (fastest_le pos Hok) as HMl.
  pose proof (slowest_insert pos j k Hok Hj Hk) as Hsl. cbv zeta in Hsl. fold pos' in Hsl.
  assert (HM' : fastest pos' = Nat.max (fastest pos) (S k)) by (by apply fastest_insert).
  unfold spec_step. rewrite has_open by (done || lia).
  set (m := slowest pos) in *. set (M := fastest pos) in *.
  assert (Hq1 : (if bool_decide (k < M)%nat then open_images pos m M
     else let q' := open_images pos m M ++ [(ids !!! k, 0)] in if N <? zlen q' then tail q' else q')
     = open_images pos m (fastest pos')).
  { rewrite HM'. case_bool_decide as Hb.
    - by rewrite Nat.max_l by lia.
    - assert (k = M) by lia. subst k. rewrite Nat.max_r by lia. cbv zeta.
      rewrite <- (senders_past_zero pos M), <- open_snoc, zlen_open by (subst M; lia).
      destruct (Z.ltb_spec N (Z.of_nat (S M - m))); [lia|done]. }
  cbv zeta in Hq1 |- *. rewrite Hq1, (count_open pos j) by (done || lia). fold pos'.
  rewrite parts_open by lia.
  destruct (senders_past pos' k =? zlen pos).
  - destruct Hsl as [Hm Hm']. rewrite Hm'. f_equal. rewrite Hm. apply behind_open. lia.
  - by rewrite Hsl.
Qed.

Lemma take_S_ids m : (m < length ids)%nat -> take (S m) ids = take m ids ++ [ids !!! m].
Proof. intros Hm. apply take_S_r. by apply list_lookup_lookup_total_lt. Qed.

(** The images announced are those every sender has sent. *)
Lemma fifo_run js pos :
  positions_ok pos -> fifo_ok pos js ->
  take (slowest pos) ids ++
    fst (spec_run (zlen pos) N (open_images pos (slowest pos) (fastest pos)) (fifo_messages pos js))
  = take (slowest (fifo_end pos js)) ids.
Proof.
  revert pos. induction js as [|j js IH]; intros pos Hok Hjs; simpl.
  - by rewrite app_nil_r.
  - destruct Hjs as (k & Hj & Hk & Hskew & Hjs).
    assert (Hjt : pos !!! j = k) by (by apply list_lookup_total_correct).
    rewrite Hjt, (fifo_step pos j k Hok Hj Hk Hskew).
    pose proof (slowest_insert pos j k Hok Hj Hk) as Hsl. cbv zeta in Hsl.
    pose proof (positions_insert pos j k Hok Hj Hk) as Hok'.
    specialize (IH (<[j := S k]> pos) Hok' Hjs). rewrite zlen_insert in IH. unfold fifo_end in *.
    destruct (spec_run _ _ _ _) as [out q]. simpl in *. rewrite <- IH.
    destruct (senders_past _ k =? zlen pos).
    + destruct Hsl as [Hm ->]. rewrite Hm, take_S_ids, <- app_assoc by done. done.
    + by rewrite Hsl.
Qed.
End Fifo.

(** C6: with [n] senders that each send the parts of the same images in the same order,
    no image is lost or announced twice: whatever the interleaving, as long as no sender is
    more than [n_images_buffer] images ahead of the slowest, the images announced are
    exactly, in order, those of which all parts have arrived. *)
Theorem stream_sync_fifo_complete ids N n js :
  NoDup ids -> Forall (fun id => id <> INVALID_IMAGE_ID) (fifo_messages ids (replicate n 0%nat) js) ->
  1 <= Z.of_nat n < 2 ^ 31 -> 1 <= N < 2 ^ 31 ->
  fifo_ok ids N (replicate n 0%nat) js ->
  exists s', stream_run (fifo_messages ids (replicate n 0%nat) js)
               (StreamSynchronizer_new (Z.of_nat n) N)
    = Ret (s', take (slowest ids (fifo_end (replicate n 0%nat) js)) ids).
Proof.
  intros Hnd Hm Hn HN Hjs.
  destruct (stream_run_refines (fifo_messages ids (replicate n 0%nat) js)
              (StreamSynchronizer_new (Z.of_nat n) N) (Z.of_nat n) N [] [])
    as (s' & Hr & _); [apply new_refines; lia|lia|lia|done|].
  exists s'. unfold stream_run. rewrite Hr. do 3 f_equal.
  assert (Hz : slowest ids (replicate n 0%nat) = 0%nat).
  { destruct n; [lia|]. done. }
  assert (Hf : fastest (replicate n 0%nat) = 0%nat).
  { clear. unfold fastest. induction n; simpl; lia. }
  pose proof (fifo_run ids N Hnd js (replicate n 0%nat)) as Hfifo.
  rewrite Hz, Hf, zlen_replicate in Hfifo. apply Hfifo; [|done]. split.
  - destruct n; [lia|done].
  - apply Forall_replicate. lia.
Qed.

(** Two senders, three images; the second sender is up to two images behind. *)
Lemma stream_sync_fifo_complete_witness :
  exists s', stream_run (fifo_messages [11; 12; 13] [0; 0]%nat [0; 0; 1; 0; 1; 1]%nat)
               (StreamSynchronizer_new 2 1000)
    = Ret (s', take (slowest [11; 12; 13] (fifo_end [0; 0]%nat [0; 0; 1; 0; 1; 1]%nat)) [11; 12; 13]).
Proof.
  apply (stream_sync_fifo_complete [11; 12; 13] 1000 2 [0; 0; 1; 0; 1; 1]%nat).
  - apply (bool_decide_unpack (NoDup [11; 12; 13])). vm_compute. exact I.
  - repeat (apply Forall_cons_2; [vm_compute; discriminate|]). constructor.
  - lia.
  - lia.
  - repeat (eexists; split; [reflexivity|]; split; [vm_compute; lia|];
            split; [vm_compute; discriminate|]). exact I.
Defined.
