(* ===== verification/MetadataSync.v ===== *)
(** * Metadata synchronizer

    [src/source/std-data-sync/std-data-sync-metadata]: metadata and image ids arrive on two
    sockets, and an image is announced when both are there.  [add_metadata] and
    [get_next_received_image] hold the mutexes of what they access; [add_received_image] holds
    [mutex_images] and reads [metadata_cache] without its mutex, so its three accesses are steps
    of their own ([access]), between and beside the steps of the thread of the metadata.
    [meta_event] are the operations when they do not overlap.  [received_images] is a
    [std::set]: the keys of an ordered map. *)

From S2P Require Import Prelude Formats Protocol OrderedMap.

Record MetadataSynchronizer : Type := {
  n_images_buffer : Z;
  received_images : omap_t unit;
  metadata_cache : omap_t pb_image
}.

Definition MetadataSynchronizer_new (n : Z) : MetadataSynchronizer :=
  {| n_images_buffer := n; received_images := []; metadata_cache := [] |}.

Definition add_metadata (s : MetadataSynchronizer) (metadata : pb_image) :
  bool * MetadataSynchronizer :=
  let c := om_put (pb_image_id metadata) metadata (metadata_cache s) in
  if n_images_buffer s <? om_size c then
    (true, {| n_images_buffer := n_images_buffer s; received_images := received_images s;
              metadata_cache := tail c |})
  else
    (false, {| n_images_buffer := n_images_buffer s; received_images := received_images s;
               metadata_cache := c |}).

Definition set_received (s : MetadataSynchronizer) (r : omap_t unit) : MetadataSynchronizer :=
  {| n_images_buffer := n_images_buffer s; received_images := r; metadata_cache := metadata_cache s |}.

(** The three accesses of [add_received_image]: the insertion, the read of
    [metadata_cache.begin()->first], which is undefined for an empty map, and the erasure. *)
Definition insert_received (s : MetadataSynchronizer) (id : Z) : MetadataSynchronizer :=
  set_received s (om_put id tt (received_images s)).

Definition first_metadata (s : MetadataSynchronizer) : outcome Z :=
  match metadata_cache s with [] => Undef end_deref | (k, _) :: _ => Ret k end.

Definition erase_received (s : MetadataSynchronizer) (k : Z) : MetadataSynchronizer :=
  set_received s (om_erase_below k (received_images s)).

Definition add_received_image (s : MetadataSynchronizer) (id : Z) : outcome MetadataSynchronizer :=
  let s1 := insert_received s id in
  let! k := first_metadata s1 in
  Ret (erase_received s1 k).

Definition get_next_received_image (s : MetadataSynchronizer) :
  option pb_image * MetadataSynchronizer :=
  match metadata_cache s, received_images s with
  | (k, data) :: mc, (r, _) :: ri =>
      if k =? r then
        (Some data, {| n_images_buffer := n_images_buffer s; received_images := ri;
                       metadata_cache := mc |})
      else (None, s)
  | _, _ => (None, s)
  end.

Definition get_queue_length (s : MetadataSynchronizer) : Z := om_size (metadata_cache s).

(** ** Runs of the three threads *)

Inductive meta_event : Type :=
| AddMetadata (m : pb_image)
| AddImage (id : Z)
| GetNext.

Definition meta_step (st : MetadataSynchronizer * list pb_image) (e : meta_event) :
  outcome (MetadataSynchronizer * list pb_image) :=
  let (s, out) := st in
  match e with
  | AddMetadata m => Ret (snd (add_metadata s m), out)
  | AddImage id => let! s' := add_received_image s id in Ret (s', out)
  | GetNext => match get_next_received_image s with
               | (Some m, s') => Ret (s', out ++ [m])
               | (None, s') => Ret (s', out)
               end
  end.

Definition meta_run (es : list meta_event) (s : MetadataSynchronizer) :
  outcome (MetadataSynchronizer * list pb_image) := foldO meta_step es (s, []).

Definition metadata_in (es : list meta_event) : list pb_image :=
  omap (fun e => match e with AddMetadata m => Some m | _ => None end) es.
Definition images_in (es : list meta_event) : list Z :=
  omap (fun e => match e with AddImage id => Some id | _ => None end) es.

(** ** The threads, access by access *)

(** [f_meta]: the metadata of the thread that holds [mutex_metadata].  [f_image]: the image of the
    thread that holds [mutex_images], with the key it read. *)
Record threads : Type := {
  f_sync : MetadataSynchronizer;
  f_meta : option pb_image;
  f_image : option (Z * option Z);
  f_sent : list pb_image
}.

Definition threads_new (n : Z) : threads :=
  {| f_sync := MetadataSynchronizer_new n; f_meta := None; f_image := None; f_sent := [] |}.

Inductive access : Type :=
| MetaLock (m : pb_image)    (* add_metadata takes its mutex *)
| MetaDone (m : pb_image)    (* it has changed the cache and gives the mutex back *)
| ImageInsert (id : Z)       (* add_received_image takes its mutex and inserts the id *)
| ImageRead (id : Z)         (* it reads the first key of the cache *)
| ImageErase (id : Z)        (* it erases the ids below and gives the mutex back *)
| SenderNext.                (* get_next_received_image, with both mutexes *)

(** A thread waits for a mutex that another one holds. *)
Definition enabled (st : threads) (e : access) : Prop :=
  match e with
  | MetaLock _ => f_meta st = None
  | MetaDone m => f_meta st = Some m
  | ImageInsert _ => f_image st = None
  | ImageRead id => f_image st = Some (id, None)
  | ImageErase id => exists k, f_image st = Some (id, Some k)
  | SenderNext => f_meta st = None /\ f_image st = None
  end.

(** Reading the cache while the other thread may change it is a data race. *)
Definition access_step (st : threads) (e : access) : outcome threads :=
  match e with
  | MetaLock m => Ret {| f_sync := f_sync st; f_meta := Some m; f_image := f_image st; f_sent := f_sent st |}
  | MetaDone m => Ret {| f_sync := snd (add_metadata (f_sync st) m); f_meta := None; f_image := f_image st; f_sent := f_sent st |}
  | ImageInsert id => Ret {| f_sync := insert_received (f_sync st) id; f_meta := f_meta st; f_image := Some (id, None); f_sent := f_sent st |}
  | ImageRead id =>
      match f_meta st with
      | Some _ => Undef data_race
      | None => let! k := first_metadata (f_sync st) in
                Ret {| f_sync := f_sync st; f_meta := None; f_image := Some (id, Some k); f_sent := f_sent st |}
      end
  | ImageErase id =>
      match f_image st with
      | Some (_, Some k) => Ret {| f_sync := erase_received (f_sync st) k; f_meta := f_meta st; f_image := None; f_sent := f_sent st |}
      | _ => Ret st
      end
  | SenderNext =>
      let (o, s) := get_next_received_image (f_sync st) in
      Ret {| f_sync := s; f_meta := f_meta st; f_image := f_image st; f_sent := f_sent st ++ option_list o |}
  end.

Definition accesses_run (es : list access) (st : threads) : outcome threads := foldO access_step es st.

(** Every step is taken by a thread that has its mutexes. *)
Fixpoint legal (st : threads) (es : list access) : Prop :=
  match es with
  | [] => True
  | e :: es' => enabled st e /\ match access_step st e with Ret st' => legal st' es' | _ => True end
  end.

(** No read of the first key falls between the lock and the unlock of [add_metadata]. *)
Fixpoint race_free (locked : bool) (es : list access) : Prop :=
  match es with
  | [] => True
  | MetaLock _ :: es' => race_free true es'
  | MetaDone _ :: es' => race_free false es'
  | ImageRead _ :: es' => locked = false /\ race_free locked es'
  | _ :: es' => race_free locked es'
  end.

(** The operations in the order in which they take effect: metadata at the unlock, an image at
    the read. *)
Definition operations (es : list access) : list meta_event :=
  omap (fun e => match e with
                 | MetaDone m => Some (AddMetadata m)
                 | ImageRead id => Some (AddImage id)
                 | SenderNext => Some GetNext
                 | _ => None
                 end) es.

(** *** Without a race the operations are atomic *)

(** What the thread of the images has done to the set, against the set of the atomic operations. *)
Definition same_received (image : option (Z * option Z)) (r atomic : omap_t unit) : Prop :=
  match image with
  | None => r = atomic
  | Some (id, None) => r = om_put id tt atomic
  | Some (_, Some k) => om_erase_below k r = atomic
  end.

Record simulates (st : threads) (s : MetadataSynchronizer) (out : list pb_image) : Prop := {
  si_sent : f_sent st = out;
  si_buffer : n_images_buffer (f_sync st) = n_images_buffer s;
  si_cache : metadata_cache (f_sync st) = metadata_cache s;
  si_received : same_received (f_image st) (received_images (f_sync st)) (received_images s)
}.

Lemma add_metadata_parts s m :
  n_images_buffer (snd (add_metadata s m)) = n_images_buffer s /\
  received_images (snd (add_metadata s m)) = received_images s.
Proof. unfold add_metadata. by destruct (_ <? _). Qed.

Lemma add_metadata_cache s s' m :
  n_images_buffer s = n_images_buffer s' -> metadata_cache s = metadata_cache s' ->
  metadata_cache (snd (add_metadata s m)) = metadata_cache (snd (add_metadata s' m)).
Proof. unfold add_metadata. intros -> ->. by destruct (_ <? _). Qed.

(** A step simulates its operation, when the operation has a result. *)
Lemma access_step_simulates st s out e s' out' :
  simulates st s out -> enabled st e -> (match e with ImageRead _ => f_meta st = None | _ => True end) ->
  foldO meta_step (operations [e]) (s, out) = Ret (s', out') ->
  exists st', access_step st e = Ret st' /\ simulates st' s' out'.
Proof.
  intros [Hs Hb Hc Hr] He Hrf Hrun. destruct e as [m|m|id|id|id|]; cbn in He, Hrf, Hrun.
  - injection Hrun as <- <-. eexists. split; [reflexivity|]. by split.
  - injection Hrun as <- <-. eexists. split; [reflexivity|].
    destruct (add_metadata_parts (f_sync st) m) as [E1 E2], (add_metadata_parts s m) as [E3 E4].
    split; cbn; [done|by rewrite E1, E3|by apply add_metadata_cache|by rewrite E2, E4].
  - injection Hrun as <- <-. eexists. split; [reflexivity|]. rewrite He in Hr. cbn in Hr. split; cbn; try done. by rewrite Hr.
  - cbn [access_step]. rewrite Hrf. rewrite He in Hr. cbn in Hr. unfold add_received_image, first_metadata in *.
    cbn [insert_received set_received metadata_cache] in Hrun. rewrite Hc.
    destruct (metadata_cache s) as [|[k v] c] eqn:Ec; [done|]. cbn in Hrun. injection Hrun as <- <-.
    eexists. split; [reflexivity|]. split; cbn; try done; [by rewrite Hc, Ec|by rewrite Hr].
  - injection Hrun as <- <-. destruct He as [k He]. cbn [access_step]. rewrite He in *. cbn in Hr.
    eexists. split; [reflexivity|]. by split.
  - destruct He as [Hm Hi]. cbn [access_step]. rewrite Hi in Hr. cbn in Hr.
    assert (E : f_sync st = s) by (destruct (f_sync st), s; cbn in *; congruence). rewrite E.
    destruct (get_next_received_image s) as [[x|] s1]; cbn in Hrun; injection Hrun as <- <-; eexists; (split; [reflexivity|]);
      (split; cbn; [|done|done|by rewrite Hi]); by rewrite Hs, ?app_nil_r.
Qed.

Lemma operations_cons e es : operations (e :: es) = operations [e] ++ operations es.
Proof. unfold operations. cbn. by destruct e. Qed.

Lemma operations_app es es' : operations (es ++ es') = operations es ++ operations es'.
Proof. unfold operations. induction es as [|e es IH]; [done|]. cbn. rewrite IH. by destruct e. Qed.

Lemma accesses_simulate es : forall st s out s' out',
  simulates st s out -> legal st es -> race_free (bool_decide (is_Some (f_meta st))) es ->
  foldO meta_step (operations es) (s, out) = Ret (s', out') ->
  exists st', accesses_run es st = Ret st' /\ simulates st' s' out'.
Proof.
  unfold accesses_run. induction es as [|e es IH]; intros st s out s' out' Hsim Hl Hrf Hrun.
  { injection Hrun as <- <-. by exists st. }
  destruct Hl as [He Hl].
  rewrite operations_cons, foldO_app in Hrun. apply obind_Ret_iff in Hrun as ([s1 out1] & H1 & H2).
  assert (Hno : match e with ImageRead _ => f_meta st = None | _ => True end).
  { destruct e; try done. destruct Hrf as [Hb _]. apply bool_decide_eq_false in Hb. by apply eq_None_not_Some. }
  destruct (access_step_simulates st s out e s1 out1 Hsim He Hno H1) as (st1 & Hst & Hsim1). rewrite Hst in Hl.
  cbn [foldO]. rewrite Hst. cbn [obind]. apply (IH st1 s1 out1); [done|done| |done].
  assert (Hm : f_meta st1 = match e with MetaLock m => Some m | MetaDone _ => None | _ => f_meta st end).
  { destruct e; cbn in Hst, Hno, He; try (by injection Hst as <-).
    - rewrite Hno in Hst. apply obind_Ret_iff in Hst as (? & _ & [= <-]). by rewrite Hno.
    - destruct He as [k Hk]. rewrite Hk in Hst. by injection Hst as <-.
    - destruct (get_next_received_image _). by injection Hst as <-. }
  rewrite Hm. destruct e; cbn in Hrf; try done. by destruct Hrf.
Qed.

(** A read that overlaps [add_metadata] is undefined. *)
Lemma overlapping_read_races n m id :
  let es := [MetaLock m; ImageInsert id; ImageRead id] in
  legal (threads_new n) es /\ accesses_run es (threads_new n) = Undef data_race.
Proof. by split. Qed.

(** ** Invariant *)

Record meta_inv (s : MetadataSynchronizer) (ms : list pb_image) (imgs : list Z) : Prop := {
  mi_sorted : sorted (metadata_cache s);
  mi_sorted_r : sorted (received_images s);
  mi_size : om_size (metadata_cache s) <= n_images_buffer s;
  mi_meta : forall k m, om_find k (metadata_cache s) = Some m -> m ∈ ms /\ pb_image_id m = k;
  mi_images : forall k, k ∈ keys (received_images s) -> k ∈ imgs
}.

Lemma find_tail {V} k (v w : V) x m :
  sorted ((x, w) :: m) -> om_find k m = Some v -> om_find k ((x, w) :: m) = Some v.
Proof.
  intros [_ Hk]%sorted_cons Hf. simpl. destruct (Z.eqb_spec k x) as [E|]; [|done].
  subst x. apply om_find_Some_keys, Hk in Hf. lia.
Qed.

Lemma add_metadata_inv s ms imgs m :
  0 <= n_images_buffer s -> meta_inv s ms imgs ->
  meta_inv (snd (add_metadata s m)) (ms ++ [m]) imgs /\
  n_images_buffer (snd (add_metadata s m)) = n_images_buffer s.
Proof.
  intros Hn [Hs Hr Hz Hm Hi]. unfold add_metadata.
  assert (Hput : forall k x, om_find k (om_put (pb_image_id m) m (metadata_cache s)) = Some x ->
            x ∈ ms ++ [m] /\ pb_image_id x = k).
  { intros k x. rewrite om_find_put. case_decide.
    - intros [= <-]. set_solver.
    - intros [? ?]%Hm. set_solver. }
  assert (Hsz := om_size_put (pb_image_id m) m (metadata_cache s) Hs).
  pose proof (sorted_put (pb_image_id m) m _ Hs) as Hsp.
  destruct (Z.ltb_spec (n_images_buffer s) (om_size (om_put (pb_image_id m) m (metadata_cache s))));
    (split; [|done]); split; simpl; try done.
  - by destruct (om_put _ _ _) as [|[]]; [|eapply sorted_tail].
  - destruct (om_put _ _ _) as [|kv c]; simpl; [unfold om_size, zlen; simpl; lia|].
    unfold om_size in *. rewrite zlen_cons in Hsz.
    destruct (om_find (pb_image_id m) (metadata_cache s)); lia.
  - intros k x Hf. destruct (om_put _ _ _) as [|[y w] c]; [done|]. simpl in Hf.
    apply Hput. by apply find_tail.
Qed.

Lemma add_image_inv s ms imgs id s' :
  meta_inv s ms imgs -> add_received_image s id = Ret s' ->
  meta_inv s' ms (imgs ++ [id]) /\ n_images_buffer s' = n_images_buffer s.
Proof.
  intros [Hs Hr Hz Hm Hi]. unfold add_received_image, first_metadata. cbn [insert_received set_received metadata_cache].
  destruct (metadata_cache s) as [|[k v] c] eqn:Ec; [done|]. intros [= <-].
  split; [|done]. split; simpl; rewrite ?Ec; try done.
  - unfold om_erase_below. apply sorted_filter. by apply sorted_put.
  - intros x [Hx _]%om_erase_below_keys. apply keys_put in Hx. set_solver.
Qed.

Lemma get_next_inv s ms imgs o s' :
  meta_inv s ms imgs -> get_next_received_image s = (o, s') ->
  meta_inv s' ms imgs /\ n_images_buffer s' = n_images_buffer s /\
  forall m, o = Some m -> m ∈ ms /\ pb_image_id m ∈ imgs.
Proof.
  intros Hinv. pose proof Hinv as [Hs Hr Hz Hm Hi]. unfold get_next_received_image.
  destruct (metadata_cache s) as [|[k v] c] eqn:Ec; [intros [= <- <-]; done|].
  destruct (received_images s) as [|[r u] ri] eqn:Er; [intros [= <- <-]; done|].
  destruct (Z.eqb_spec k r) as [E|]; [subst r|intros [= <- <-]; done]. intros [= <- <-]. split_and!.
  - split; simpl.
    + by eapply sorted_tail.
    + by eapply sorted_tail.
    + unfold om_size in *. rewrite zlen_cons in Hz. lia.
    + intros x m Hf. apply Hm. by apply find_tail.
    + intros x Hx. apply Hi. simpl. set_solver.
  - done.
  - intros m [= <-]. destruct (Hm k v) as [? ?]; [apply om_find_head|]. subst k.
    split; [done|]. apply Hi. simpl. set_solver.
Qed.

(** The announced images and the reason of a run that is undefined. *)
Definition meta_result (es : list meta_event) (n : Z) (ms : list pb_image) (imgs : list Z)
  (r : outcome (MetadataSynchronizer * list pb_image)) : Prop :=
  match r with
  | Ret (s, out) => get_queue_length s <= n /\
      Forall (fun m => m ∈ ms ++ metadata_in es /\ pb_image_id m ∈ imgs ++ images_in es) out
  | Undef u => u = end_deref
  | Throw _ => False
  end.

Lemma meta_run_inv es s out ms imgs :
  0 <= n_images_buffer s -> meta_inv s ms imgs ->
  Forall (fun m => m ∈ ms /\ pb_image_id m ∈ imgs) out ->
  meta_result es (n_images_buffer s) ms imgs (foldO meta_step es (s, out)).
Proof.
  revert s out ms imgs. induction es as [|e es IH]; intros s out ms imgs Hn Hinv Hout.
  - simpl. rewrite !app_nil_r. split; [apply Hinv|done].
  - destruct e as [m|id|]; cbn [foldO meta_step].
    + destruct (add_metadata_inv s ms imgs m Hn Hinv) as [Hi' Hn']. cbn [obind].
      specialize (IH (snd (add_metadata s m)) out (ms ++ [m]) imgs).
      rewrite Hn' in IH. unfold meta_result in *.
      change (metadata_in (AddMetadata m :: es)) with (m :: metadata_in es).
      change (images_in (AddMetadata m :: es)) with (images_in es).
      rewrite <- (app_assoc ms [m]) in IH. apply IH; [done|done|].
      eapply Forall_impl; [|exact Hout]. set_solver.
    + destruct (add_received_image s id) as [s'|x|u] eqn:Ea; cbn [obind].
      * destruct (add_image_inv s ms imgs id s' Hinv Ea) as [Hi' Hn'].
        specialize (IH s' out ms (imgs ++ [id])). rewrite Hn' in IH. unfold meta_result in *.
        change (metadata_in (AddImage id :: es)) with (metadata_in es).
        change (images_in (AddImage id :: es)) with (id :: images_in es).
        rewrite <- (app_assoc imgs [id]) in IH. apply IH; [done|done|].
        eapply Forall_impl; [|exact Hout]. set_solver.
      * unfold add_received_image, first_metadata in Ea. cbn in Ea. by destruct (metadata_cache s) as [|[]].
      * unfold add_received_image, first_metadata in Ea. cbn in Ea. destruct (metadata_cache s) as [|[]]; [|done].
        by injection Ea as <-.
    + destruct (get_next_received_image s) as [o s'] eqn:Eg.
      destruct (get_next_inv s ms imgs o s' Hinv Eg) as (Hi' & Hn' & Ho).
      destruct o as [m|]; cbn [obind]; rewrite <- Hn';
        change (meta_result (GetNext :: es)) with (meta_result es); apply IH; try lia; try done.
      apply Forall_app. split; [done|]. apply Forall_cons_2; [by apply Ho|done].
Qed.

(** Whatever the order of the operations of its three threads, the metadata synchronizer
    announces an image only with metadata it received for that id and after it received the
    image itself, its cache stays within [n_images_buffer], and the only undefined step is an
    image that arrives while no metadata is cached. *)
Lemma metadata_sync_safe n es :
  0 <= n -> meta_result es n [] [] (meta_run es (MetadataSynchronizer_new n)).
Proof.
  intros Hn. apply (meta_run_inv es (MetadataSynchronizer_new n) [] [] []); [done| |done].
  split; simpl; try done; try constructor. all: set_solver.
Qed.

Definition demo_meta (id : Z) : pb_image :=
  {| pb_image_id := id; pb_height := 2; pb_width := 2; pb_size := 8; pb_dt := dt_uint16;
     pb_st := st_good_image; pb_cp := cp_none; pb_det := dm_not_set |}.

Lemma metadata_sync_safe_witness :
  meta_result [AddMetadata (demo_meta 4); AddMetadata (demo_meta 5); AddImage 4; GetNext; AddImage 5;
               GetNext] 10000 [] []
    (meta_run [AddMetadata (demo_meta 4); AddMetadata (demo_meta 5); AddImage 4; GetNext; AddImage 5;
               GetNext] (MetadataSynchronizer_new 10000)).
Proof. apply (metadata_sync_safe 10000). lia. Defined.

(** The image that arrives before any metadata. *)
Lemma metadata_sync_image_first :
  meta_run [AddImage 4] (MetadataSynchronizer_new 10000) = Undef end_deref.
Proof. reflexivity. Qed.

(** Metadata of an image that never arrives blocks all later images until the cache
    overflows. *)
Lemma metadata_sync_head_blocks s k m c r u ri :
  metadata_cache s = (k, m) :: c -> received_images s = (r, u) :: ri -> k < r ->
  get_next_received_image s = (None, s).
Proof.
  intros Hm Hr Hlt. unfold get_next_received_image. rewrite Hm, Hr.
  destruct (Z.eqb_spec k r); [lia|done].
Qed.
