(* ===== verification/MetadataLoop.v ===== *)
(** * The metadata synchronizer as a service

    [src/source/std-data-sync/std-data-sync-metadata/src/metadata_sync.cpp]: one thread takes metadata from the
    stream of the detector, one the ids of the images that arrived, one announces the images that have both.
    They share the synchronizer of [MetadataSync].  Messages are parsed metadata, [None] when nothing came
    within the timeout.  In what order the threads take their turns is the argument; a turn is one operation on the
    synchronizer.  What becomes of operations that overlap is stated on their accesses ([metadata_sync_complete]). *)

From Stdlib Require Import Sorted.
From S2P Require Import Prelude Formats Protocol OrderedMap Config Stats MetadataSync Sockets.

(** ** metadata_sync.cpp *)

Definition zmq_socket_connect (ok : zmq_call -> bool) (stream_address : string) : outcome zmq_sock :=
  let! s := create_socket ok ZMQ_SUB in zmq_do ok (zmq_connect stream_address) s.

Record service : Type := {
  sv_syncer : MetadataSynchronizer;
  sv_stats : QueueStats.QueueStatsCollector;
  sv_dropped : option bool;      (* metadata that was added and not counted yet *)
  sv_printed : list (list stat);
  sv_sent : list pb_image
}.

Inductive turn : Type :=
| MetadataTurn (now now_rate : Z) (msg : option pb_image)
| ImageTurn (msg : option pb_image)
| SendTurn.

Definition set_syncer (st : service) (s : MetadataSynchronizer) : service :=
  {| sv_syncer := s; sv_stats := sv_stats st; sv_dropped := sv_dropped st; sv_printed := sv_printed st; sv_sent := sv_sent st |}.

Definition print_queue_stats (now now_rate : Z) (st : service) (stats : QueueStats.QueueStatsCollector) : service :=
  let (printed, stats) := print_stats now now_rate stats in
  {| sv_syncer := sv_syncer st; sv_stats := stats; sv_dropped := None;
     sv_printed := sv_printed st ++ option_list printed; sv_sent := sv_sent st |}.

(** [process_incoming_metadata_stream]: the synchronizer is locked twice, other threads may run in between. *)
Definition metadata_turn (now now_rate : Z) (msg : option pb_image) (st : service) : service :=
  match sv_dropped st with
  | Some dropped =>
      let stats := QueueStats.process (sv_stats st) (if dropped then 1 else 0) in
      print_queue_stats now now_rate st (QueueStats.update_queue_length stats (get_queue_length (sv_syncer st)))
  | None =>
      match msg with
      | Some image_meta =>
          let (dropped, s) := add_metadata (sv_syncer st) image_meta in
          {| sv_syncer := s; sv_stats := sv_stats st; sv_dropped := Some dropped; sv_printed := sv_printed st; sv_sent := sv_sent st |}
      | None => print_queue_stats now now_rate st (sv_stats st)
      end
  end.

(** [process_incoming_image_stream]. *)
Definition image_turn (msg : option pb_image) (st : service) : outcome service :=
  match msg with
  | Some image_meta =>
      let! s := add_received_image (sv_syncer st) (pb_image_id image_meta) in Ret (set_syncer st s)
  | None => Ret st
  end.

(** [send_synchronized_images]. *)
Definition send_turn (st : service) : service :=
  match get_next_received_image (sv_syncer st) with
  | (Some meta, s) => {| sv_syncer := s; sv_stats := sv_stats st; sv_dropped := sv_dropped st; sv_printed := sv_printed st;
                         sv_sent := sv_sent st ++ [meta] |}
  | (None, s) => set_syncer st s
  end.

Definition service_turn (st : service) (t : turn) : outcome service :=
  match t with
  | MetadataTurn now now_rate msg => Ret (metadata_turn now now_rate msg st)
  | ImageTurn msg => image_turn msg st
  | SendTurn => Ret (send_turn st)
  end.

(** [main]: the service does nothing unless the senders send full images. *)
Definition service_main (config : DetectorConfig) (now : Z) : option service :=
  if sender_sends_full_images config then
    Some {| sv_syncer := MetadataSynchronizer_new 10000;
            sv_stats := QueueStats.Build_QueueStatsCollector
              (SyncStats.Build_SyncStatsCollector (TimedStatsCollector_new (Config.detector_name config) (stats_collection_period config) "" now) 0) 0;
            sv_dropped := None; sv_printed := []; sv_sent := [] |}
  else None.

(** ** The service refines the synchronizer *)

(** The operation that a turn is. *)
Definition turn_event (dropped : option bool) (t : turn) : list meta_event :=
  match t with
  | MetadataTurn _ _ (Some m) => match dropped with Some _ => [] | None => [AddMetadata m] end
  | MetadataTurn _ _ None => []
  | ImageTurn (Some m) => [AddImage (pb_image_id m)]
  | ImageTurn None => []
  | SendTurn => [GetNext]
  end.

Lemma turn_refines st t :
  foldO meta_step (turn_event (sv_dropped st) t) (sv_syncer st, sv_sent st) =
    omap_out (fun st' => (sv_syncer st', sv_sent st')) (service_turn st t).
Proof.
  destruct t as [now now_rate msg|msg|]; cbn [service_turn turn_event].
  - unfold metadata_turn. destruct msg as [m|], (sv_dropped st); cbn; unfold print_queue_stats; repeat case_match; done.
  - destruct msg as [m|]; [|done]. cbn. by destruct (add_received_image _ _).
  - unfold send_turn. cbn. by destruct (get_next_received_image _) as [[m|] s'].
Qed.

Lemma turns_refine ts st : exists es,
  foldO meta_step es (sv_syncer st, sv_sent st) = omap_out (fun st' => (sv_syncer st', sv_sent st')) (foldO service_turn ts st).
Proof.
  revert st. induction ts as [|t ts IH]; intros st; [by exists []|]. cbn [foldO].
  pose proof (turn_refines st t) as E. destruct (service_turn st t) as [st1|?|?]; cbn [obind omap_out] in *.
  - destruct (IH st1) as (es & Ees). exists (turn_event (sv_dropped st) t ++ es). by rewrite foldO_app, E.
  - by exists (turn_event (sv_dropped st) t).
  - by exists (turn_event (sv_dropped st) t).
Qed.

(** ** Completeness *)

(** The metadata in front of the first image that is missing. *)
Fixpoint up_to_missing (imgs : list Z) (ms : list pb_image) : list pb_image :=
  match ms with
  | [] => []
  | m :: ms' => if decide (pb_image_id m ∈ imgs) then m :: up_to_missing imgs ms' else []
  end.

Definition entries (ms : list pb_image) : omap_t pb_image := (fun m => (pb_image_id m, m)) <$> ms.

(** *** The specification: a queue of metadata in the order of the ids, and the images that arrived *)

Record queue : Type := { q_rest : list pb_image; q_images : list Z; q_sent : list pb_image }.

Definition spec_step (q : queue) (e : meta_event) : queue :=
  match e with
  | AddMetadata m => {| q_rest := q_rest q ++ [m]; q_images := q_images q; q_sent := q_sent q |}
  | AddImage id => {| q_rest := q_rest q; q_images := q_images q ++ [id]; q_sent := q_sent q |}
  | GetNext => match q_rest q with
               | m :: rest => if decide (pb_image_id m ∈ q_images q)
                              then {| q_rest := rest; q_images := q_images q; q_sent := q_sent q ++ [m] |} else q
               | [] => q
               end
  end.

(** Metadata come in the order of the ids and fit into the buffer; an image comes once, after its metadata. *)
Fixpoint orderly (n : Z) (q : queue) (es : list meta_event) : Prop :=
  match es with
  | [] => True
  | e :: es' =>
      match e with
      | AddMetadata m => Forall (fun x => pb_image_id x < pb_image_id m) (q_sent q ++ q_rest q) /\ zlen (q_rest q) < n
      | AddImage id => id ∈ pb_image_id <$> (q_sent q ++ q_rest q) /\ id ∉ q_images q
      | GetNext => True
      end /\ orderly n (spec_step q e) es'
  end.

#[global] Instance orderly_dec n q es : Decision (orderly n q es).
Proof.
  revert q. induction es as [|e es IH]; intros q; cbn; [apply _|]. apply and_dec; [destruct e; apply _|apply IH].
Defined.

Definition ids_sorted (ms : list pb_image) : Prop := StronglySorted Z.lt (pb_image_id <$> ms).

Record queue_ok (q : queue) : Prop := {
  qo_sorted : ids_sorted (q_sent q ++ q_rest q);
  qo_sent : Forall (fun m => pb_image_id m ∈ q_images q) (q_sent q);
  qo_images : forall k, k ∈ q_images q -> k ∈ pb_image_id <$> (q_sent q ++ q_rest q) }.

(** The synchronizer holds the queue. *)
Record represents (n : Z) (q : queue) (s : MetadataSynchronizer) : Prop := {
  re_buffer : n_images_buffer s = n;
  re_cache : metadata_cache s = entries (q_rest q);
  re_sorted : sorted (received_images s);
  re_images : forall k, k ∈ keys (received_images s) <-> k ∈ q_images q /\ k ∈ pb_image_id <$> q_rest q }.

Lemma keys_entries ms : keys (entries ms) = pb_image_id <$> ms.
Proof. unfold keys, entries. rewrite <- list_fmap_compose. done. Qed.

Lemma put_last ms m : Forall (fun x => pb_image_id x < pb_image_id m) ms -> om_put (pb_image_id m) m (entries ms) = entries (ms ++ [m]).
Proof.
  induction 1 as [|x ms Hx _ IH]; [done|]. unfold entries in *. cbn.
  destruct (Z.ltb_spec (pb_image_id m) (pb_image_id x)); [lia|]. destruct (Z.eqb_spec (pb_image_id m) (pb_image_id x)); [lia|]. by f_equal.
Qed.

Lemma ids_sorted_snoc ms m : ids_sorted ms -> Forall (fun x => pb_image_id x < pb_image_id m) ms -> ids_sorted (ms ++ [m]).
Proof.
  unfold ids_sorted. induction ms as [|x ms IH]; intros Hs Hf; cbn; [by repeat constructor|].
  apply StronglySorted_inv in Hs as [Hs Hx]. apply Forall_cons_1 in Hf as [Hxm Hf]. constructor; [by apply IH|].
  rewrite fmap_app. apply Forall_app. split; [done|]. by constructor.
Qed.

Lemma ids_sorted_app a b : ids_sorted (a ++ b) -> ids_sorted b.
Proof. unfold ids_sorted. induction a as [|x a IH]; [done|]. cbn. intros [Hs _]%StronglySorted_inv. by apply IH. Qed.

Lemma ids_sorted_head m ms k : ids_sorted (m :: ms) -> k ∈ pb_image_id <$> m :: ms -> pb_image_id m <= k.
Proof.
  unfold ids_sorted. cbn. intros [_ Hf]%StronglySorted_inv [->|Hk]%elem_of_cons; [lia|]. rewrite list.Forall_forall in Hf. apply Hf in Hk. lia.
Qed.

Lemma ids_sorted_notin m ms : ids_sorted (m :: ms) -> pb_image_id m ∉ pb_image_id <$> ms.
Proof. unfold ids_sorted. cbn. intros [_ Hf]%StronglySorted_inv Hk. rewrite list.Forall_forall in Hf. apply Hf in Hk. lia. Qed.

(** An image that has not arrived waits with its metadata. *)
Lemma image_in_rest q id : queue_ok q -> id ∈ pb_image_id <$> (q_sent q ++ q_rest q) -> id ∉ q_images q -> id ∈ pb_image_id <$> q_rest q.
Proof.
  intros [_ Hs _] Hin Hni. rewrite fmap_app, elem_of_app in Hin. destruct Hin as [Hin|]; [|done]. exfalso. apply Hni.
  apply list_elem_of_fmap in Hin as (m & -> & Hm). by rewrite list.Forall_forall in Hs; apply Hs.
Qed.

Lemma get_next_tracks n q s : queue_ok q -> represents n q s ->
  exists s', get_next_received_image s = (match q_rest q with m :: _ => if decide (pb_image_id m ∈ q_images q) then Some m else None | [] => None end, s') /\
    represents n (spec_step q GetNext) s'.
Proof.
  intros [Hso Hse _] Hrep. pose proof Hrep as [Hn Hc Hr Hk]. apply ids_sorted_app in Hso. unfold get_next_received_image, spec_step. rewrite Hc.
  destruct (q_rest q) as [|m rest] eqn:Er; [by exists s|]. change (entries (m :: rest)) with ((pb_image_id m, m) :: entries rest).
  destruct (received_images s) as [|[x u] ri] eqn:Ei.
  - exists s. destruct (decide (pb_image_id m ∈ q_images q)) as [Hm|]; [exfalso|by split].
    assert (pb_image_id m ∈ keys (@nil (Z * unit))) as []%elem_of_nil. apply Hk. split; [done|]. set_solver.
  - pose proof Hr as [Hr' Hx]%sorted_cons. pose proof (proj1 (Hk x)) as Hxk. destruct Hxk as [Hxi Hxr]; [set_solver|].
    destruct (Z.eqb_spec (pb_image_id m) x) as [E|Hne].
    + destruct (decide (pb_image_id m ∈ q_images q)) as [Hm|Hm]; [|destruct Hm; by rewrite E]. eexists. split; [done|]. split; cbn; [done|done|done|]. intros k. split.
      * intros Hki. destruct (proj1 (Hk k)) as [? Hkr]; [set_solver|]. split; [done|]. apply Hx in Hki. cbn in Hkr. apply elem_of_cons in Hkr as [->|]; [lia|done].
      * intros [Hki Hkr]. assert (Hkk : k ∈ keys ((x, u) :: ri)) by (apply Hk; split; [done|set_solver]).
        apply elem_of_cons in Hkk as [->|]; [|done]. exfalso. apply (ids_sorted_notin m rest Hso). by rewrite E.
    + exists s. destruct (decide (pb_image_id m ∈ q_images q)) as [Hm|Hm]; [exfalso; apply Hne|by split].
      assert (Hmk : pb_image_id m ∈ keys ((x, u) :: ri)) by (apply Hk; split; [done|set_solver]).
      pose proof (ids_sorted_head m rest x Hso Hxr). apply elem_of_cons in Hmk as [|Hmk]; [done|]. apply Hx in Hmk. cbn in *. lia.
Qed.

(** One operation. *)
Lemma step_tracks n q s e : queue_ok q -> represents n q s -> orderly n q [e] ->
  exists s', meta_step (s, q_sent q) e = Ret (s', q_sent (spec_step q e)) /\ queue_ok (spec_step q e) /\ represents n (spec_step q e) s'.
Proof.
  intros Hok Hrep [He _]. pose proof Hok as [Hso Hse Him]. destruct e as [m|id|]; cbn [meta_step].
  - destruct He as [Hlt Hz]. destruct Hrep as [Hn Hc Hr Hk]. assert (Hlt' := Hlt). apply Forall_app in Hlt' as [_ Hlr]. unfold add_metadata. rewrite Hc, put_last, Hn by done.
    assert (Hsz : om_size (entries (q_rest q ++ [m])) = zlen (q_rest q) + 1) by (unfold om_size, zlen, entries; rewrite length_fmap, length_app; cbn; lia).
    assert (Hnew : pb_image_id m ∉ q_images q).
    { intros Hm%Him. apply list_elem_of_fmap in Hm as (x & E & Hx). rewrite list.Forall_forall in Hlt. apply Hlt in Hx. lia. }
    rewrite (proj2 (Z.ltb_ge _ _)) by lia. eexists. split; [done|]. split.
    + split; cbn; [rewrite app_assoc; by apply ids_sorted_snoc|done|]. intros k Hki%Him. rewrite app_assoc, fmap_app, elem_of_app. by left.
    + split; cbn; [done|done|done|]. intros k. rewrite Hk, fmap_app, elem_of_app. cbn. rewrite list_elem_of_singleton. naive_solver.
  - destruct He as [Hin Hni]. pose proof (image_in_rest q id Hok Hin Hni) as Hrest. destruct Hrep as [Hn Hc Hr Hk]. apply ids_sorted_app in Hso as Hsr.
    unfold add_received_image, first_metadata. cbn [insert_received set_received metadata_cache]. rewrite Hc. destruct (q_rest q) as [|m rest] eqn:Er; [by apply elem_of_nil in Hrest|].
    change (entries (m :: rest)) with ((pb_image_id m, m) :: entries rest). cbn [obind]. eexists. split; [done|]. split.
    + split; cbn [spec_step q_rest q_images q_sent]; rewrite ?Er; [done|eapply Forall_impl; [|exact Hse]; set_solver|].
      intros k [Hki%Him| ->%list_elem_of_singleton]%elem_of_app; done.
    + split; cbn [spec_step q_rest q_images q_sent n_images_buffer metadata_cache received_images insert_received erase_received set_received]; rewrite ?Er; [done|done|apply sorted_filter, sorted_put; done|].
      intros k. rewrite om_erase_below_keys, keys_put, Hk, elem_of_app, list_elem_of_singleton. split; [naive_solver|]. intros [Hki Hkr].
      split; [naive_solver|]. by apply (ids_sorted_head m rest).
  - destruct (get_next_tracks n q s Hok Hrep) as (s' & -> & Hrep'). cbn [spec_step] in *. destruct (q_rest q) as [|m rest] eqn:Er; [by exists s'|].
    destruct (decide (pb_image_id m ∈ q_images q)) as [Hm|Hm]; exists s'; (split; [done|]); [|by split; rewrite ?Er].
    split; [|done]. split; cbn; [by rewrite <- app_assoc| |by rewrite <- app_assoc]. apply Forall_app. split; [done|]. by constructor.
Qed.

Lemma run_tracks n es q s : queue_ok q -> represents n q s -> orderly n q es ->
  exists s', foldO meta_step es (s, q_sent q) = Ret (s', q_sent (foldl spec_step q es)) /\ queue_ok (foldl spec_step q es) /\ represents n (foldl spec_step q es) s'.
Proof.
  revert q s. induction es as [|e es IH]; intros q s Hok Hrep Hord; [by exists s|]. cbn [foldl foldO]. destruct Hord as [He Hord].
  destruct (step_tracks n q s e Hok Hrep (conj He I)) as (s1 & -> & Hok1 & Hrep1). cbn [obind]. by apply IH.
Qed.

Lemma orderly_drain n q k : orderly n q (replicate k GetNext).
Proof. revert q. induction k as [|k IH]; intros q; cbn; [done|]. split; [done|]. apply IH. Qed.

Lemma orderly_app n q es es' : orderly n q es -> orderly n (foldl spec_step q es) es' -> orderly n q (es ++ es').
Proof. revert q. induction es as [|e es IH]; intros q; [done|]. cbn. intros [? ?] ?. split; [done|]. by apply IH. Qed.

(** Turns of the sender until nothing can be announced. *)
Lemma drain k q : (length (q_rest q) <= k)%nat ->
  q_sent (foldl spec_step q (replicate k GetNext)) = q_sent q ++ up_to_missing (q_images q) (q_rest q).
Proof.
  revert q. induction k as [|k IH]; intros q Hk.
  - destruct (q_rest q) eqn:E; [|cbn in Hk; lia]. cbn. by rewrite app_nil_r.
  - cbn [replicate foldl]. cbn [spec_step]. destruct (q_rest q) as [|m rest] eqn:E; [by rewrite IH, E by (rewrite E; cbn; lia)|].
    cbn [up_to_missing]. destruct (decide (pb_image_id m ∈ q_images q)) as [Hm|Hm].
    + rewrite IH by (cbn in *; lia). cbn. by rewrite <- app_assoc.
    + clear IH Hk. rewrite app_nil_r. induction k as [|k IH]; [done|]. cbn [replicate foldl]. cbn [spec_step]. rewrite E, decide_False by done. exact IH.
Qed.

Lemma spec_contents es q :
  q_images (foldl spec_step q es) = q_images q ++ images_in es /\
  q_sent (foldl spec_step q es) ++ q_rest (foldl spec_step q es) = (q_sent q ++ q_rest q) ++ metadata_in es.
Proof.
  revert q. induction es as [|e es IH]; intros q; [cbn; by rewrite !app_nil_r|]. cbn [foldl]. destruct (IH (spec_step q e)) as [-> ->].
  destruct e as [m|id|]; cbn.
  - split; [done|]. rewrite app_assoc. by rewrite <- app_assoc.
  - split; [by rewrite <- app_assoc|done].
  - destruct (q_rest q) eqn:E; [by rewrite E|]. case_decide; cbn; rewrite ?E; [by rewrite <- (app_assoc (q_sent q))|done].
Qed.

Lemma up_to_missing_app imgs a b : Forall (fun m => pb_image_id m ∈ imgs) a -> up_to_missing imgs (a ++ b) = a ++ up_to_missing imgs b.
Proof. induction 1 as [|m a Hm _ IH]; [done|]. cbn. by rewrite decide_True, IH. Qed.

Definition empty_queue : queue := {| q_rest := []; q_images := []; q_sent := [] |}.

(** The operations one after the other. *)
Lemma atomic_complete (n : Z) (es : list meta_event) (k : nat) :
  orderly n empty_queue es -> (length (metadata_in es) <= k)%nat ->
  exists s, meta_run (es ++ replicate k GetNext) (MetadataSynchronizer_new n) = Ret (s, up_to_missing (images_in es) (metadata_in es)).
Proof.
  intros Hord Hk.
  assert (Hok : queue_ok empty_queue) by (split; cbn; [constructor|done|intros ? []%elem_of_nil]).
  assert (Hrep : represents n empty_queue (MetadataSynchronizer_new n)).
  { split; cbn; [done|done|constructor|]. intros x. split; [intros []%elem_of_nil|intros [[]%elem_of_nil _]]. }
  destruct (run_tracks n (es ++ replicate k GetNext) empty_queue (MetadataSynchronizer_new n) Hok Hrep) as (s & E & _).
  { apply orderly_app; [done|]. apply orderly_drain. }
  exists s. unfold meta_run. change (@nil pb_image) with (q_sent empty_queue) at 1. rewrite E, foldl_app.
  destruct (run_tracks n es empty_queue (MetadataSynchronizer_new n) Hok Hrep Hord) as (s1 & _ & Hok1 & _).
  destruct (spec_contents es empty_queue) as [Ei Em]. cbn in Ei, Em. set (q := foldl spec_step empty_queue es) in *.
  rewrite drain; [|rewrite <- Hk, <- Em, length_app; lia]. do 2 f_equal. rewrite <- Em, <- Ei. symmetry. apply up_to_missing_app, Hok1.
Qed.

Lemma race_free_drain es k b : race_free b es -> race_free b (es ++ replicate k SenderNext).
Proof.
  revert b. induction es as [|e es IH]; intros b; cbn.
  - intros _. induction k; [done|]. done.
  - destruct e; try (by apply IH). intros [? ?]. split; [done|]. by apply IH.
Qed.

Lemma operations_drain k : operations (replicate k SenderNext) = replicate k GetNext.
Proof. unfold operations. induction k as [|k IH]; [done|]. cbn. by rewrite IH. Qed.


(** Metadata 6 is added while image 5 is between its read and its erasure, and image 6 is inserted while metadata 7 is
    being added; image 7 never comes, so image 8 waits. *)
Definition demo_accesses : list access :=
  [MetaLock (demo_meta 5); MetaDone (demo_meta 5); ImageInsert 5; ImageRead 5; MetaLock (demo_meta 6); MetaDone (demo_meta 6);
   ImageErase 5; MetaLock (demo_meta 7); ImageInsert 6; MetaDone (demo_meta 7); ImageRead 6; ImageErase 6; SenderNext;
   MetaLock (demo_meta 8); MetaDone (demo_meta 8); ImageInsert 8; ImageRead 8; ImageErase 8].


(** When the operations do not overlap, the service announces only what the synchronizer announces: an image with metadata for its id that arrived itself. *)
Lemma service_safe config now st0 ts st :
  service_main config now = Some st0 -> foldO service_turn ts st0 = Ret st ->
  exists es, meta_run es (MetadataSynchronizer_new 10000) = Ret (sv_syncer st, sv_sent st).
Proof.
  intros Hm E. destruct (turns_refine ts st0) as (es & Ees). exists es. rewrite E in Ees. cbn [omap_out obind] in Ees. unfold meta_run.
  rewrite <- Ees. unfold service_main in Hm. destruct (sender_sends_full_images config); [|done]. injection Hm as <-. done.
Qed.
