(* ===== verification/StreamForward.v ===== *)
(** * Forwarding images over the network in parts

    [src/source/std-stream-send/src/sender.cpp] and
    [src/source/std-stream-receive/src/receiver.cpp].  Several senders each publish one part
    of every image of a ring, or every n-th full image; the matching receivers on another
    host write the parts into their ring and announce the image to the stream synchronizer.
    The two services are modelled on parsed metadata; results of [zmq_send] and messages of
    [zmq_recv] are arguments. *)

From S2P Require Import Prelude Formats Protocol Config RamBuffer Stats Scatter.

(** What both [main] functions compute from the configuration: the part's place in the
    image.  [None]: the part is empty and the program ends at once. *)
Record image_part_range : Type := { part : Z; start_index : Z; data_bytes_sent : Z }.

Definition part_main (config : DetectorConfig) (image_part : Z) : outcome (option image_part_range) :=
  let! converted_bytes := converted_image_n_bytes config in
  let! start := calculate_image_offset config image_part in
  if converted_bytes <=? start then Ret None
  else
    let! n := calculate_image_bytes_sent config image_part in
    Ret (Some {| part := image_part; start_index := start; data_bytes_sent := n |}).

(** ** sender.cpp *)

(** The test in front of the two [zmq_send] calls. *)
Definition sends_image (config : DetectorConfig) (image_part id : Z) : outcome bool :=
  if sender_sends_full_images config then
    let! r := umod id (forwarders config) in Ret (r =? u64 image_part)
  else Ret true.

(** One iteration: the two-part message published, if any.  [sent_meta] and [sent_data] are
    the results of [zmq_send]; the code counts results of 0 as failures. *)
Definition sender_step (config : DetectorConfig) (r : image_part_range) (ring : RamBuffer)
  (now now_rate sent_meta sent_data : Z) (m : list Z) (stats : SenderStats.SenderStatsCollector)
  (msg : option pb_image) :
  outcome (option (pb_image * list Z) * SenderStats.SenderStatsCollector) :=
  let! '(out, stats') :=
    match msg with
    | None => Ret (None, stats)
    | Some meta =>
        let! yes := sends_image config (part r) (pb_image_id meta) in
        if yes : bool then
          let! off := get_data ring (pb_image_id meta) in
          let! data := mem_read m (off + start_index r) (data_bytes_sent r) in
          let zmq_failed := (if sent_meta =? 0 then 1 else 0) + (if sent_data =? 0 then 1 else 0) in
          Ret (Some (meta, data), SenderStats.process stats zmq_failed)
        else Ret (None, stats)
    end in
  Ret (out, snd (print_stats now now_rate stats')).

(** ** receiver.cpp *)

(** [received_successfully_data]: [None] when the option or the data cannot be read; a
    longer message is cut at the size of the part. *)
Definition received_successfully_data (m : list Z) (at_ size : Z) (data : option (list Z)) :
  outcome (bool * list Z) :=
  match data with
  | None => Ret (false, m)
  | Some d =>
      let! m' := mem_write m at_ (take (Z.to_nat size) d) in
      Ret (0 <? zlen d, m')
  end.

(** One iteration: the announcement to the synchronizer, if any, and the ring. *)
Definition receiver_step (r : image_part_range) (ring : RamBuffer) (now now_rate : Z) (m : list Z)
  (stats : ReceiverStats.ReceiverStatsCollector) (msg : option (pb_image * option (list Z))) :
  outcome (option pb_image * list Z * ReceiverStats.ReceiverStatsCollector) :=
  let! '(out, m', stats') :=
    match msg with
    | None => Ret (None, m, stats)
    | Some (meta, data) =>
        let! off := get_data ring (pb_image_id meta) in
        let! '(ok, m') := received_successfully_data m (off + start_index r) (data_bytes_sent r) data in
        let zmq_fails := if ok : bool then 0 else 1 in
        Ret (if ok then Some meta else None, m',
             ReceiverStats.process stats zmq_fails (pb_image_id meta))
    end in
  Ret (out, m', snd (print_stats now now_rate stats')).

(** ** Image parts *)

(** An image of [B] bytes split into parts of [k] bytes.  The forwarders share [S] bytes
    evenly: those of the image, or those of the detector's largest image. *)
Record split_ok (config : DetectorConfig) (B S k : Z) : Prop := {
  split_parts : sender_sends_full_images config = false;
  split_B : converted_image_n_bytes config = Ret B;
  split_S : split_base config = Ret S;
  split_k : 0 < k /\ S = k * forwarders config /\ 0 < forwarders config;
  split_le : 0 < B <= S;
  split_wide : (forwarders config + 1) * S < 2 ^ 64
}.

Definition n_parts (B k : Z) : Z := (B + k - 1) / k.

Lemma n_parts_spec B k p : 0 < k -> 0 <= p -> (p < n_parts B k <-> p * k < B).
Proof.
  intros Hk Hp. unfold n_parts. pose proof (Z.div_mod (B + k - 1) k ltac:(lia)).
  pose proof (Z.mod_pos_bound (B + k - 1) k Hk). nia.
Qed.

Section Split.
Context (config : DetectorConfig) (B S k : Z) (Hsp : split_ok config B S k).

Lemma part_fits p : 0 <= p -> p * k < B -> p < forwarders config /\ p * S < 2 ^ 64.
Proof using All.
  intros Hp Hlt. destruct Hsp as [_ _ _ (Hk & HS & Hf) Hle Hw].
  assert (p < forwarders config) by nia. split; [done|]. nia.
Qed.

Lemma part_main_some p :
  0 <= p -> p * k < B ->
  part_main config p = Ret (Some {| part := p; start_index := p * k; data_bytes_sent := Z.min (B - p * k) k |}).
Proof using All.
  intros Hp Hlt. destruct (part_fits p Hp Hlt) as [_ Hw].
  destruct Hsp as [H1 H2 H3 (Hk & HS & Hf) Hle _]. unfold part_main. rewrite H2. cbn [obind].
  rewrite (split_offset config B S k) by done. cbn [obind].
  rewrite (proj2 (Z.leb_gt _ _)) by lia. rewrite (split_bytes config B S k) by done. done.
Qed.

Lemma part_main_none p : 0 <= p -> p * S < 2 ^ 64 -> B <= p * k -> part_main config p = Ret None.
Proof using All.
  intros Hp Hw Hge. destruct Hsp as [H1 H2 H3 (Hk & HS & Hf) Hle _]. unfold part_main. rewrite H2.
  cbn [obind]. rewrite (split_offset config B S k) by done. cbn [obind].
  by rewrite (proj2 (Z.leb_le _ _)) by lia.
Qed.

Lemma senders_are_parts : number_of_senders config = Ret (n_parts B k).
Proof using All.
  destruct Hsp as [H1 H2 H3 (Hk & HS & Hf) Hle Hw].
  destruct (use_all_forwarders config) eqn:Hu.
  - unfold number_of_senders. rewrite H1, Hu. f_equal. unfold split_base in H3. rewrite Hu, H2 in H3.
    injection H3 as <-. unfold n_parts. rewrite HS. symmetry.
    replace (k * forwarders config + k - 1) with (forwarders config * k + (k - 1)) by lia.
    rewrite Z.div_add_l, Z.div_small by lia. lia.
  - assert (k <= S) by nia. assert (2 * S <= (forwarders config + 1) * S) by (apply Z.mul_le_mono_nonneg_r; lia).
    apply (split_senders config B S k); try done; lia.
Qed.
End Split.

(** ** From ring to ring *)

(** Part [p] of image [meta] on its way: published from the source ring, received into the
    destination ring. *)
Definition forward_part (config : DetectorConfig) (ring : RamBuffer) (src : list Z) (meta : pb_image)
  (sstats : SenderStats.SenderStatsCollector) (rstats : ReceiverStats.ReceiverStatsCollector)
  (st : list Z * list pb_image) (p : Z) : outcome (list Z * list pb_image) :=
  let (dst, announced) := st in
  let! r := part_main config p in
  match r with
  | None => Ret st
  | Some r =>
      let! '(out, _) := sender_step config r ring 0 0 1 1 src sstats (Some meta) in
      let! '(a, dst', _) := receiver_step r ring 0 0 dst rstats
                              ((fun o => (fst o, Some (snd o))) <$> out) in
      Ret (dst', announced ++ option_list a)
  end.

Section Forward.
Context (config : DetectorConfig) (B S k : Z) (Hsp : split_ok config B S k).
Context (ring : RamBuffer) (Hring : wf_ram ring) (HB : data_bytes_ ring = B).
Context (meta : pb_image) (sstats : SenderStats.SenderStatsCollector)
        (rstats : ReceiverStats.ReceiverStatsCollector).
Context (src : list Z) (Hsrc : zlen src = buffer_bytes_ ring).
Notation slot := (pb_image_id meta mod n_slots_ ring * data_bytes_ ring).

Definition part_block (p : Z) : block :=
  {| doff := slot + p * k; soff := slot + p * k; len := Z.min (B - p * k) k |}.

(** Forwarding one part is one copy between the rings. *)
Lemma forward_part_copy dst ann p :
  zlen dst = buffer_bytes_ ring -> 0 <= p < n_parts B k ->
  forward_part config ring src meta sstats rstats (dst, ann) p =
    let! dst' := memcpy dst (doff (part_block p)) src (soff (part_block p)) (len (part_block p)) in
    Ret (dst', ann ++ [meta]).
Proof using All.
  intros Hdst Hp. pose proof Hsp as [Hfull _ _ (Hk & _) Hle _].
  assert (HpB : p * k < B) by (apply (n_parts_spec B k p); lia).
  destruct (slot_offset ring (pb_image_id meta) Hring) as (Ho & Ho0 & Ho1).
  pose proof (ring_fits _ Hring) as Hfit.
  unfold forward_part. rewrite (part_main_some config B S k Hsp) by lia. cbn [obind].
  unfold sender_step, sends_image. rewrite Hfull. cbn [obind]. rewrite Ho. cbn [obind].
  cbn [start_index data_bytes_sent part]. unfold memcpy, part_block. cbn [doff soff len].
  set (n := Z.min (B - p * k) k).
  assert (Hn : 0 < n /\ n <= B - p * k) by (unfold n; lia).
  assert (Hn2 : slot + p * k + n <= zlen src) by lia.
  destruct (mem_read src (slot + p * k) n) as [d|?|?] eqn:Hr; [|rewrite mem_read_ret in Hr by nia; done..].
  pose proof (mem_read_zlen _ _ _ _ Hr) as Hd. cbn [obind fmap option_fmap option_map fst snd].
  unfold receiver_step. rewrite Ho. cbn [obind]. unfold received_successfully_data.
  cbn [start_index data_bytes_sent]. fold n. rewrite take_ge by (unfold zlen in Hd; lia).
  destruct (mem_write dst (slot + p * k) d) as [m'|?|?]; cbn [obind]; [|done..].
  by rewrite (proj2 (Z.ltb_lt _ _)) by lia.
Qed.

Lemma forward_parts_copy ps dst ann :
  zlen dst = buffer_bytes_ ring -> (forall p, p ∈ ps -> 0 <= p < n_parts B k) ->
  foldO (forward_part config ring src meta sstats rstats) ps (dst, ann) =
    let! dst' := copy_blocks src (part_block <$> ps) dst in Ret (dst', ann ++ replicate (length ps) meta).
Proof using All.
  revert dst ann. induction ps as [|p ps IH]; intros dst ann Hdst Hps.
  - simpl. by rewrite app_nil_r.
  - unfold copy_blocks in *. cbn [foldO fmap list_fmap length replicate].
    rewrite forward_part_copy by (done || (apply Hps; set_solver)).
    destruct (memcpy dst _ src _ _) as [m'|?|?] eqn:E; cbn [obind]; [|done..].
    unfold memcpy in E. apply obind_Ret_iff in E as (d & _ & E).
    rewrite IH; [|by rewrite (mem_write_zlen _ _ _ _ E)|set_solver].
    destruct (foldO _ _ m'); cbn [obind]; [|done..]. by rewrite <- app_assoc.
Qed.

Lemma forward_image_spec ps dst :
  zlen dst = buffer_bytes_ ring -> ps ≡ₚ seqZ 0 (n_parts B k) ->
  exists dst', foldO (forward_part config ring src meta sstats rstats) ps (dst, []) =
      Ret (dst', replicate (Z.to_nat (n_parts B k)) meta) /\
    forall id, slot_data ring dst' id =
      if decide (id mod n_slots_ ring = pb_image_id meta mod n_slots_ ring)
      then slot_data ring src id else slot_data ring dst id.
Proof using All.
  intros Hdst Hps. pose proof Hsp as [_ _ _ (Hk & _) Hle _].
  assert (Hin : forall p, p ∈ ps <-> 0 <= p /\ p * k < B).
  { intros p. rewrite Hps, elem_of_seqZ, Z.add_0_l. split.
    - intros [H1 H2]. split; [done|]. by apply n_parts_spec.
    - intros [H1 H2]. split; [done|]. by apply n_parts_spec. }
  destruct (slot_offset ring (pb_image_id meta) Hring) as (Ho & Ho0 & Ho1).
  pose proof (ring_fits _ Hring) as Hfit. pose proof Hring as (_ & Hd0 & _).
  rewrite forward_parts_copy; [|done|intros p Hp; rewrite Hps, elem_of_seqZ in Hp; lia].
  destruct (copy_blocks_spec src (part_block <$> ps) dst) as (dst' & Hc & Hl & Hv & Hf).
  - intros b (p & -> & Hp%Hin)%list_elem_of_fmap. cbn [part_block doff soff len]. nia.
  - intros b b' j j' (p & -> & _)%list_elem_of_fmap (p' & -> & _)%list_elem_of_fmap.
    cbn [part_block doff soff len]. lia.
  - exists dst'. rewrite Hc. cbn [obind app]. split.
    { do 3 f_equal. rewrite (Permutation_length Hps). rewrite length_seqZ. done. }
    intros id. unfold slot_data. destruct (slot_offset ring id Hring) as (-> & Hi0 & Hi1). cbn [obind].
    case_decide as Heq.
    + rewrite Heq. apply mem_read_ext; [congruence|done|]. intros i Hi.
      set (o := Z.of_nat i - slot). pose proof (Z.div_mod o k ltac:(lia)).
      pose proof (Z.mod_pos_bound o k Hk).
      assert (Hq : 0 <= o / k) by (apply Z.div_pos; lia).
      assert (Hp : part_block (o / k) ∈ part_block <$> ps).
      { apply list_elem_of_fmap. exists (o / k). split; [done|]. apply Hin. nia. }
      specialize (Hv _ (o mod k) Hp). cbn [part_block doff soff len] in Hv.
      replace (Z.to_nat (slot + o / k * k + o mod k)) with i in Hv by lia. apply Hv. lia.
    + apply mem_read_ext; [congruence|done|]. intros i Hi. apply Hf.
      intros b (p & -> & Hp%Hin)%list_elem_of_fmap. cbn [part_block doff soff len].
      pose proof (slots_disjoint (data_bytes_ ring) _ _ Hd0 Heq). nia.
Qed.
End Forward.

(** C20: forwarding in parts restores the image when the bytes that are split (those of the image,
    or of the detector's largest image) are divisible by the number of forwarders: the parts of an
    image published by all senders and received in any order give in the destination slot exactly the
    bytes of the source slot, no other slot changes, and the image is announced once for each of the
    [number_of_senders] parts the stream synchronizer counts.  The senders do not send full images,
    and the sizes do not wrap ([split_ok]).  (The service does not check that the size is divisible; the last
    bytes of one that is not are never sent: [indivisible_image_truncated].) *)
Theorem stream_parts_reassemble config B S k ring meta sstats rstats src dst ps n :
  split_ok config B S k -> wf_ram ring -> data_bytes_ ring = B ->
  zlen src = buffer_bytes_ ring -> zlen dst = buffer_bytes_ ring ->
  number_of_senders config = Ret n -> ps ≡ₚ seqZ 0 n ->
  exists dst', foldO (forward_part config ring src meta sstats rstats) ps (dst, []) =
      Ret (dst', replicate (Z.to_nat n) meta) /\
    forall id, slot_data ring dst' id =
      if decide (id mod n_slots_ ring = pb_image_id meta mod n_slots_ ring)
      then slot_data ring src id else slot_data ring dst id.
Proof.
  intros Hsp Hr HB Hs Hd Hn Hps. rewrite (senders_are_parts _ _ _ _ Hsp) in Hn. injection Hn as <-.
  by apply (forward_image_spec config B S k).
Qed.

(** When the senders forward full images, each image is published by exactly one of
    them, and every sender uses the whole image as its part. *)
Lemma full_images_round_robin config id :
  sender_sends_full_images config = true -> 0 < forwarders config ->
  (exists p, 0 <= p < forwarders config /\
     forall q, 0 <= q < 2 ^ 64 -> sends_image config q id = Ret (bool_decide (q = p))) /\
  forall q B, converted_image_n_bytes config = Ret B -> 0 < B ->
    part_main config q = Ret (Some {| part := q; start_index := 0; data_bytes_sent := B |}).
Proof.
  intros Hfull Hf. split.
  - exists (id mod forwarders config). split; [by apply Z.mod_pos_bound|]. intros q Hq.
    unfold sends_image. rewrite Hfull, umod_ret by lia. cbn [obind]. rewrite u64_small by done.
    f_equal. destruct (Z.eqb_spec (id mod forwarders config) q) as [E|E].
    + by rewrite bool_decide_eq_true_2.
    + rewrite bool_decide_eq_false_2 by congruence. done.
  - intros q B HB HB0. pose proof (converted_image_n_bytes_range _ _ HB) as HBr.
    unfold part_main, calculate_image_bytes_sent, calculate_image_offset, max_single_sender_size.
    rewrite HB, Hfull. cbn [obind].
    rewrite (proj2 (Z.leb_gt _ _)) by lia. cbn [obind].
    rewrite Z.sub_0_r, u64_small, Z.min_id by lia. done.
Qed.

Definition demo_forward_ring : RamBuffer :=
  {| buffer_name_ := "EG-image"; n_slots_ := 3; data_bytes_ := 16; buffer_bytes_ := 2097152; shm_fd_ := 0 |}.
Definition demo_meta : pb_image :=
  {| pb_image_id := 7; pb_height := 2; pb_width := 4; pb_size := 16; pb_dt := dt_uint16;
     pb_st := st_good_image; pb_cp := cp_none; pb_det := dm_not_set |}.
Definition demo_sstats : SenderStats.SenderStatsCollector :=
  SenderStats.Build_SenderStatsCollector (TimedStatsCollector_new "EG" 10 "" 0) 0 0.
Definition demo_rstats : ReceiverStats.ReceiverStatsCollector :=
  ReceiverStats.Build_ReceiverStatsCollector (TimedStatsCollector_new "EG" 10 "" 0) 0 0 0 0.

Lemma stream_parts_reassemble_witness :
  let src := replicate (Z.to_nat 2097152) 5 in let dst := replicate (Z.to_nat 2097152) 0 in
  exists dst', foldO (forward_part small_eiger demo_forward_ring src demo_meta demo_sstats demo_rstats)
      [3; 1; 0; 2; 7; 6; 5; 4] (dst, []) = Ret (dst', replicate (Z.to_nat 8) demo_meta) /\
    forall id, slot_data demo_forward_ring dst' id =
      if decide (id mod 3 = 7 mod 3)
      then slot_data demo_forward_ring src id else slot_data demo_forward_ring dst id.
Proof.
  intros src dst.
  apply (stream_parts_reassemble small_eiger 16 16 2 demo_forward_ring demo_meta demo_sstats demo_rstats
           src dst [3; 1; 0; 2; 7; 6; 5; 4] 8).
  - split; vm_compute; repeat split; discriminate || reflexivity.
  - vm_compute. repeat split; discriminate || reflexivity.
  - reflexivity.
  - unfold src. by rewrite zlen_replicate, Z2Nat.id by lia.
  - unfold dst. by rewrite zlen_replicate, Z2Nat.id by lia.
  - vm_compute. reflexivity.
  - change (seqZ 0 8) with [0; 1; 2; 3; 4; 5; 6; 7].
    apply (bool_decide_unpack ([3; 1; 0; 2; 7; 6; 5; 4] ≡ₚ [0; 1; 2; 3; 4; 5; 6; 7])). vm_compute. exact I.
Defined.

(** The same detector, forwarding full images. *)
Definition full_eiger : DetectorConfig :=
  {| Config.detector_name := "EG"; detector_type := "eiger"; n_modules := 2; bit_depth := 16;
     image_pixel_height := 2; image_pixel_width := 4; start_udp_port := 50000;
     log_level := "info"; stats_collection_period := 10;
     max_number_of_forwarders_spawned := 8; use_all_forwarders := true;
     gpfs_block_size := 16777216; sender_sends_full_images := true;
     module_sync_queue_size := 50; number_of_writers := 0; ram_buffer_gb := 0;
     delay_filter_timeout := 10; switch_user_active := false; ls_configs := ∅;
     modules := ∅ |}.

Lemma full_images_round_robin_witness :
  exists p, 0 <= p < forwarders full_eiger /\
    forall q, 0 <= q < 2 ^ 64 -> sends_image full_eiger q 21 = Ret (bool_decide (q = p)).
Proof. apply (full_images_round_robin full_eiger 21); vm_compute; reflexivity. Defined.

(** The same detector with three forwarders: 16 bytes are not divisible by 3, and the last
    byte of the image belongs to no part. *)
Definition three_forwarders : DetectorConfig :=
  {| Config.detector_name := "EG"; detector_type := "eiger"; n_modules := 2; bit_depth := 16;
     image_pixel_height := 2; image_pixel_width := 4; start_udp_port := 50000;
     log_level := "info"; stats_collection_period := 10;
     max_number_of_forwarders_spawned := 3; use_all_forwarders := true;
     gpfs_block_size := 16777216; sender_sends_full_images := false;
     module_sync_queue_size := 50; number_of_writers := 0; ram_buffer_gb := 0;
     delay_filter_timeout := 10; switch_user_active := false; ls_configs := ∅;
     modules := ∅ |}.

Lemma indivisible_image_truncated :
  converted_image_n_bytes three_forwarders = Ret 16 /\ number_of_senders three_forwarders = Ret 3 /\
  part_main three_forwarders 0 = Ret (Some {| part := 0; start_index := 0; data_bytes_sent := 5 |}) /\
  part_main three_forwarders 1 = Ret (Some {| part := 1; start_index := 5; data_bytes_sent := 5 |}) /\
  part_main three_forwarders 2 = Ret (Some {| part := 2; start_index := 10; data_bytes_sent := 5 |}).
Proof. vm_compute. repeat split; reflexivity. Qed.
