(* ===== verification/DelayFilter.v ===== *)
(** * Delay filter

    [src/source/std-delay-filter]: [meta_buffer.cpp] is a ring of metadata with the time of
    arrival, [main.cpp] pushes every received message and then sends at most one that is
    old enough, or the oldest one when the ring is full.  Times are nanoseconds of the
    steady clock, arguments of the operations. *)

From S2P Require Import Prelude Formats Protocol Config RamBuffer Stats.

Definition min_history_needed_for_operation : Z := 998.

(** A [std::chrono::seconds] is compared with a nanosecond duration in nanoseconds. *)
Definition ns_per_s : Z := 1000000000.

Record meta_buffer : Type := {
  period_ : Z;
  buffer_ : list (Z * pb_image);
  begin_ : Z;
  end_ : Z
}.

Definition meta_buffer_new (slots period : Z) : meta_buffer :=
  {| period_ := period;
     buffer_ := replicate (Z.to_nat (u64 (slots - min_history_needed_for_operation))) (0, pb_image_default);
     begin_ := 0; end_ := 0 |}.

Definition increment (b : meta_buffer) (index : Z) : outcome Z :=
  umod (u64 (index + 1)) (zlen (buffer_ b)).

Definition push (now : Z) (meta : pb_image) (b : meta_buffer) : outcome meta_buffer :=
  let! buf := mem_write (buffer_ b) (end_ b) [(now, meta)] in
  let b1 := {| period_ := period_ b; buffer_ := buf; begin_ := begin_ b; end_ := end_ b |} in
  let! e := increment b1 (end_ b1) in
  Ret {| period_ := period_ b; buffer_ := buf; begin_ := begin_ b; end_ := e |}.

(** [buffer_[index]] outside the vector is undefined; the left operand of [||] is tested
    first. *)
Definition pop (now : Z) (b : meta_buffer) : outcome (option pb_image * meta_buffer) :=
  let index := begin_ b in
  let! due :=
    if index =? end_ b then Ret true
    else let! x := mem_read (buffer_ b) index 1 in
         Ret (match x with [(t, _)] => period_ b * ns_per_s <? now - t | _ => false end) in
  if due : bool then
    let! i := increment b index in
    let! x := mem_read (buffer_ b) index 1 in
    Ret (snd <$> head x, {| period_ := period_ b; buffer_ := buffer_ b; begin_ := i; end_ := end_ b |})
  else Ret (None, b).

(** ** main.cpp *)

Definition delay_main (config : DetectorConfig) : outcome meta_buffer :=
  let! _ := converted_image_n_bytes config in
  let! slots := slots_number config in
  Ret (meta_buffer_new slots (delay_filter_timeout config)).

(** One iteration: the message sent on, if any. *)
Definition delay_step (now_push now_pop now now_rate : Z) (msg : option pb_image)
  (st : meta_buffer * TimedStatsCollector) :
  outcome (option pb_image * (meta_buffer * TimedStatsCollector)) :=
  let (b, stats) := st in
  let! '(out, b', stats') :=
    match msg with
    | None => Ret (None, b, stats)
    | Some meta =>
        let! b1 := push now_push meta b in
        let! '(to_send, b2) := pop now_pop b1 in
        Ret (to_send, b2, timed_process stats)
    end in
  Ret (out, (b', snd (print_stats now now_rate stats'))).

(** ** Specification: a queue *)

Record arrival : Type := { a_push : Z; a_pop : Z; a_now : Z; a_rate : Z; a_msg : option pb_image }.

Definition queue_step (size period : Z) (q : list (Z * pb_image)) (a : arrival) :
  option pb_image * list (Z * pb_image) :=
  match a_msg a with
  | None => (None, q)
  | Some m =>
      match q ++ [(a_push a, m)] with
      | [] => (None, [])
      | (t, x) :: r =>
          if (zlen ((t, x) :: r) =? size) || (period <? a_pop a - t) then (Some x, r)
          else (None, (t, x) :: r)
      end
  end.

Fixpoint queue_run (size period : Z) (q : list (Z * pb_image)) (l : list arrival) :
  list pb_image * list (Z * pb_image) :=
  match l with
  | [] => ([], q)
  | a :: l' =>
      let (o, q1) := queue_step size period q a in
      let (os, q2) := queue_run size period q1 l' in
      (option_list o ++ os, q2)
  end.

(** The loop of [main], with the messages it sends. *)
Definition delay_run (l : list arrival) (st : meta_buffer * TimedStatsCollector) :
  outcome (list pb_image * (meta_buffer * TimedStatsCollector)) :=
  foldO (fun acc a =>
           let! '(o, st') := delay_step (a_push a) (a_pop a) (a_now a) (a_rate a) (a_msg a) (snd acc) in
           Ret (fst acc ++ option_list o, st')) l ([], st).

(** ** The ring represents a queue *)

Record represents (b : meta_buffer) (q : list (Z * pb_image)) : Prop := {
  rep_wide : zlen (buffer_ b) < 2 ^ 64;
  rep_begin : 0 <= begin_ b < zlen (buffer_ b);
  rep_end : end_ b = (begin_ b + zlen q) mod zlen (buffer_ b);
  rep_cells : forall (i : nat) x, q !! i = Some x ->
    buffer_ b !! Z.to_nat ((begin_ b + Z.of_nat i) mod zlen (buffer_ b)) = Some x
}.

Lemma increment_ret b i :
  zlen (buffer_ b) < 2 ^ 64 -> 0 <= i < zlen (buffer_ b) ->
  increment b i = Ret ((i + 1) mod zlen (buffer_ b)).
Proof. intros Hw Hi. unfold increment. rewrite umod_ret by lia. by rewrite u64_small by lia. Qed.

Lemma ring_distinct n b i j :
  0 < n -> 0 <= i < j -> j < i + n -> (b + i) mod n <> (b + j) mod n.
Proof.
  intros Hn Hij Hj E. assert (D : (j - i) mod n = 0).
  { replace (j - i) with (b + j - (b + i)) by lia. rewrite Zminus_mod, E, Z.sub_diag. done. }
  rewrite Z.mod_small in D by lia. lia.
Qed.

Lemma push_spec b q now m :
  represents b q -> zlen q < zlen (buffer_ b) ->
  exists b', push now m b = Ret b' /\ represents b' (q ++ [(now, m)]) /\
    zlen (buffer_ b') = zlen (buffer_ b) /\ period_ b' = period_ b.
Proof.
  intros [Hw Hb He Hc] Hq. set (n := zlen (buffer_ b)) in *.
  assert (Hn : 0 < n) by lia. pose proof (Z.mod_pos_bound (begin_ b + zlen q) n Hn) as Hend.
  unfold push. rewrite He. pose proof (zlen_nonneg q) as Hq0.
  destruct (mem_write (buffer_ b) ((begin_ b + zlen q) mod n) [(now, m)]) as [buf|?|?] eqn:W.
  2,3: rewrite mem_write_ret in W by (change (zlen [(now, m)]) with 1; fold n; lia); done.
  pose proof (mem_write_zlen _ _ _ _ W) as Hl. cbn [obind]. rewrite increment_ret by (cbn [buffer_ end_]; rewrite Hl; fold n; lia).
  cbn [obind buffer_]. eexists. split; [done|]. cbn [buffer_ period_]. split_and!; try done.
  split; cbn [buffer_ begin_ end_]; rewrite Hl; fold n; [lia|lia| |].
  - rewrite zlen_app. change (zlen [(now, m)]) with 1. rewrite Zplus_mod_idemp_l. f_equal. lia.
  - intros i x Hx. rewrite (mem_write_lookup _ _ _ _ _ W). change (zlen [(now, m)]) with 1.
    pose proof (Z.mod_pos_bound (begin_ b + Z.of_nat i) n Hn) as Hi. rewrite Z2Nat.id by lia.
    apply lookup_app_Some in Hx as [Hx|[Hge Hx]].
    + rewrite decide_False; [by apply Hc|]. apply lookup_lt_Some in Hx.
      assert (Hd : (begin_ b + Z.of_nat i) mod n <> (begin_ b + zlen q) mod n)
        by (apply ring_distinct; unfold zlen in *; lia). lia.
    + apply list_lookup_singleton_Some in Hx as [Hi0 <-].
      assert (Z.of_nat i = zlen q) as -> by (unfold zlen; lia).
      rewrite decide_True by lia. by rewrite Z.sub_diag.
Qed.

Lemma mem_read_cell {A} (m : list A) i x :
  0 <= i -> m !! Z.to_nat i = Some x -> mem_read m i 1 = Ret [x].
Proof.
  intros Hi Hx. pose proof (lookup_lt_Some _ _ _ Hx). rewrite mem_read_ret by (unfold zlen; lia).
  change (Z.to_nat 1) with 1%nat. f_equal. by rewrite (drop_S _ _ _ Hx).
Qed.

(** [pop] behind a [push]: the queue is not empty, and full exactly when the indices meet. *)
Lemma pop_spec b t x r now :
  represents b ((t, x) :: r) -> zlen ((t, x) :: r) <= zlen (buffer_ b) ->
  let due := (zlen ((t, x) :: r) =? zlen (buffer_ b)) || (period_ b * ns_per_s <? now - t) in
  exists b', pop now b = Ret (if due then Some x else None, b') /\
    represents b' (if due then r else (t, x) :: r) /\
    zlen (buffer_ b') = zlen (buffer_ b) /\ period_ b' = period_ b.
Proof.
  intros [Hw Hb He Hc] Hq due. set (n := zlen (buffer_ b)) in *. pose proof (zlen_nonneg r) as Hr0.
  assert (Hlen : zlen ((t, x) :: r) = zlen r + 1) by (rewrite zlen_cons; lia).
  pose proof (Hc 0%nat (t, x) eq_refl) as H0. change (Z.of_nat 0) with 0 in H0.
  rewrite Z.add_0_r, Z.mod_small in H0 by lia.
  assert (Hmeet : (begin_ b =? end_ b) = (zlen ((t, x) :: r) =? n)).
  { rewrite He. destruct (Z.eqb_spec (zlen ((t, x) :: r)) n) as [E|E].
    - rewrite E. apply Z.eqb_eq, (Z.mod_unique _ _ 1); lia.
    - apply Z.eqb_neq. intros E2. apply (ring_distinct n (begin_ b) 0 (zlen ((t, x) :: r))); [lia..|].
      by rewrite Z.add_0_r, Z.mod_small by lia. }
  unfold pop. rewrite Hmeet, (mem_read_cell (buffer_ b) (begin_ b) (t, x) (proj1 Hb) H0). cbn [obind].
  assert (Hdue : (if zlen ((t, x) :: r) =? n then Ret true else Ret (period_ b * ns_per_s <? now - t)) = Ret due)
    by (unfold due; by destruct (zlen ((t, x) :: r) =? n)).
  rewrite Hdue. cbn [obind]. destruct due.
  - rewrite increment_ret by done. cbn [obind head fmap option_fmap option_map snd]. fold n.
    eexists. split; [done|]. cbn [buffer_ period_]. split_and!; try done.
    split; cbn [buffer_ begin_ end_]; fold n; [done|by apply Z.mod_pos_bound; lia| |].
    + rewrite He, Hlen, Zplus_mod_idemp_l. f_equal. lia.
    + intros i y Hy. rewrite Zplus_mod_idemp_l.
      replace (begin_ b + 1 + Z.of_nat i) with (begin_ b + Z.of_nat (S i)) by lia. by apply Hc.
  - exists b. split_and!; try done.
Qed.

(** ** Correctness *)

(** One iteration of the loop is one step of the queue. *)
Lemma delay_step_spec b stats q a :
  represents b q -> zlen q < zlen (buffer_ b) ->
  let (o, q') := queue_step (zlen (buffer_ b)) (period_ b * ns_per_s) q a in
  exists b' stats', delay_step (a_push a) (a_pop a) (a_now a) (a_rate a) (a_msg a) (b, stats)
      = Ret (o, (b', stats')) /\
    represents b' q' /\ zlen q' < zlen (buffer_ b) /\
    zlen (buffer_ b') = zlen (buffer_ b) /\ period_ b' = period_ b.
Proof.
  intros Hrep Hq. unfold queue_step, delay_step. destruct (a_msg a) as [m|]; [|cbn [obind]; eauto 10].
  destruct (push_spec b q (a_push a) m Hrep Hq) as (b1 & -> & Hrep1 & Hl1 & Hp1). cbn [obind].
  assert (Hlen : zlen (q ++ [(a_push a, m)]) = zlen q + 1) by (rewrite zlen_app; done).
  destruct (q ++ [(a_push a, m)]) as [|[t x] r]; [pose proof (zlen_nonneg q); change (zlen []) with 0 in Hlen; lia|].
  destruct (pop_spec b1 t x r (a_pop a) Hrep1 ltac:(lia)) as (b2 & Hpop & Hrep2 & Hl2 & Hp2).
  rewrite Hpop, <- Hl1, <- Hp1. cbn [obind]. pose proof (zlen_cons (t, x) r) as Hcons.
  destruct (Z.eqb_spec (zlen ((t, x) :: r)) (zlen (buffer_ b1))); cbn [orb] in *.
  - eexists _, _. split_and!; try done; lia.
  - destruct (period_ b1 * ns_per_s <? a_pop a - t); eexists _, _; split_and!; try done; lia.
Qed.

Lemma delay_run_from l : forall b stats q out,
  represents b q -> zlen q < zlen (buffer_ b) ->
  let (os, q') := queue_run (zlen (buffer_ b)) (period_ b * ns_per_s) q l in
  exists b' stats',
    foldO (fun acc a =>
           let! '(o, st') := delay_step (a_push a) (a_pop a) (a_now a) (a_rate a) (a_msg a) (snd acc) in
           Ret (fst acc ++ option_list o, st')) l (out, (b, stats)) = Ret (out ++ os, (b', stats')) /\
    represents b' q' /\ zlen q' < zlen (buffer_ b).
Proof.
  induction l as [|a l IH]; intros b stats q out Hrep Hq; cbn [queue_run foldO].
  - exists b, stats. by rewrite app_nil_r.
  - pose proof (delay_step_spec b stats q a Hrep Hq) as Hs.
    destruct (queue_step (zlen (buffer_ b)) (period_ b * ns_per_s) q a) as [o q1].
    destruct Hs as (b1 & stats1 & Hst & Hrep1 & Hq1 & Hl1 & Hp1).
    cbn [fst snd]. rewrite Hst. cbn [obind].
    specialize (IH b1 stats1 q1 (out ++ option_list o) Hrep1 ltac:(lia)). rewrite Hl1, Hp1 in IH.
    destruct (queue_run (zlen (buffer_ b)) (period_ b * ns_per_s) q1 l) as [os q2].
    destruct IH as (b2 & stats2 & -> & Hrep2 & Hq2). exists b2, stats2.
    by rewrite app_assoc.
Qed.

(** The queue loses and reorders nothing. *)
Lemma queue_run_fifo size period l : forall q,
  let (os, q') := queue_run size period q l in
  (snd <$> q) ++ omap a_msg l = os ++ (snd <$> q').
Proof.
  induction l as [|a l IH]; intros q; cbn [queue_run omap list_omap].
  - by rewrite app_nil_r.
  - unfold queue_step. destruct (a_msg a) as [m|].
    + destruct (q ++ [(a_push a, m)]) as [|[t x] r] eqn:E; [by destruct q|].
      assert (Hq : (snd <$> q) ++ [m] = x :: (snd <$> r))
        by (apply (f_equal (fmap snd)) in E; by rewrite fmap_app in E).
      destruct (_ || _); [specialize (IH r)|specialize (IH ((t, x) :: r))];
        destruct (queue_run size period _ l) as [os q2];
        rewrite (cons_middle m), app_assoc, Hq; first [exact (f_equal (cons x) IH)|exact IH].
    + specialize (IH q). by destruct (queue_run size period q l) as [os q2].
Qed.

Lemma meta_buffer_new_represents slots period :
  min_history_needed_for_operation < slots < 2 ^ 64 ->
  let b := meta_buffer_new slots period in
  represents b [] /\ zlen (buffer_ b) = slots - min_history_needed_for_operation /\ period_ b = period.
Proof.
  unfold min_history_needed_for_operation. intros Hs. cbv zeta.
  assert (Hl : zlen (buffer_ (meta_buffer_new slots period)) = slots - 998).
  { cbn [meta_buffer_new buffer_]. unfold min_history_needed_for_operation.
    rewrite zlen_replicate, u64_small by lia. lia. }
  split; [|done]. split; rewrite ?Hl; cbn [meta_buffer_new begin_ end_]; try lia; [|done].
  by rewrite Z.mod_small by (change (zlen []) with 0; lia).
Qed.

(** C29: the delay filter never leaves its ring and refines a bounded queue: for any sequence
    of arrivals and any clock readings it sends exactly what the queue sends, so the messages
    are forwarded in order, none is lost or duplicated, and fewer than
    [slots - min_history_needed_for_operation] are held back at any time, which leaves the
    announced images in the RAM buffer of [slots] slots. *)
Theorem delay_filter_fifo config b stats l :
  delay_main config = Ret b ->
  exists sent held slots b' stats',
    slots_number config = Ret slots /\
    delay_run l (b, stats) = Ret (sent, (b', stats')) /\
    queue_run (slots - min_history_needed_for_operation) (delay_filter_timeout config * ns_per_s) [] l = (sent, held) /\
    omap a_msg l = sent ++ (snd <$> held) /\
    zlen held < slots - min_history_needed_for_operation.
Proof.
  unfold delay_main. intros (bytes & Hb & (slots & Hs & [= <-])%obind_Ret_iff)%obind_Ret_iff.
  pose proof (slots_number_min _ _ Hs) as Hmin. pose proof (slots_number_range _ _ Hs) as Hmax.
  destruct (meta_buffer_new_represents slots (delay_filter_timeout config)) as (Hrep & Hl & Hp);
    [unfold MIN_RAM_BUFFER_N_SLOTS, min_history_needed_for_operation in *; lia|].
  assert (Hpos : 0 < slots - min_history_needed_for_operation)
    by (unfold MIN_RAM_BUFFER_N_SLOTS, min_history_needed_for_operation in *; lia).
  pose proof (delay_run_from l _ stats [] [] Hrep ltac:(change (zlen []) with 0; lia)) as Hrun.
  rewrite Hl, Hp in Hrun.
  pose proof (queue_run_fifo (slots - min_history_needed_for_operation) (delay_filter_timeout config * ns_per_s) l []) as Hfifo.
  destruct (queue_run _ _ [] l) as [sent held] eqn:Hq.
  destruct Hrun as (b' & stats' & Hr & _ & Hh). exists sent, held, slots, b', stats'.
  split_and!; [done|exact Hr|exact Hq|exact Hfifo|exact Hh].
Qed.

Lemma delay_filter_fifo_witness :
  exists b, delay_main small_eiger = Ret b /\
  exists sent (held : list (Z * pb_image)) slots b' stats',
    slots_number small_eiger = Ret slots /\
    delay_run [{| a_push := 0; a_pop := 1; a_now := 2; a_rate := 2; a_msg := Some pb_image_default |}]
      (b, TimedStatsCollector_new "EG" 10 "image" 0) = Ret (sent, (b', stats')) /\
    omap a_msg [{| a_push := 0; a_pop := 1; a_now := 2; a_rate := 2; a_msg := Some pb_image_default |}]
      = sent ++ (snd <$> held) /\
    zlen held < slots - 998.
Proof.
  exists (meta_buffer_new 1000 10). split; [vm_compute; reflexivity|].
  destruct (delay_filter_fifo small_eiger (meta_buffer_new 1000 10) (TimedStatsCollector_new "EG" 10 "image" 0)
    [{| a_push := 0; a_pop := 1; a_now := 2; a_rate := 2; a_msg := Some pb_image_default |}])
    as (sent & held & slots & b' & stats' & Hs & Hr & _ & Hm & Hh); [vm_compute; reflexivity|].
  exists sent, held, slots, b', stats'. split; [exact Hs|]. split; [exact Hr|]. split; [exact Hm|exact Hh].
Defined.
