(* ===== verification/Publishers.v ===== *)
(** * Publishing services

    [src/source/std-live-stream], [src/source/std-gf-filter], [src/source/std-metadata-stream]
    and the stream headers of [src/source/utils/stream].  Each service receives image
    metadata and publishes the image, or the metadata, of those it selects.  They are
    modelled on parsed metadata.  MD5 comes from a library and is the argument [md5] of the
    bsread header. *)

From stdpp Require Import pretty.
From S2P Require Import Prelude Formats Protocol Config RamBuffer Stats.

(** ** utils/stream *)

Definition map_dtype_to_stream_type (t : pb_dtype) : outcome string :=
  match t with
  | dt_float32 => Ret "float32"%string
  | dt_uint8 => Ret "uint8"%string
  | dt_uint16 => Ret "uint16"%string
  | dt_uint32 => Ret "uint32"%string
  | dt_uint64 => Ret "uint64"%string
  | _ => Throw runtime_error
  end.

(** The quotation mark. *)
Definition dq : string := String (Ascii.ascii_of_nat 34) EmptyString.

(** [fmt::format] of its pieces. *)
Definition quoted (s : string) : string := (dq +:+ s +:+ dq)%string.

Definition prepare_array10_header (meta : pb_image) : outcome string :=
  let! t := map_dtype_to_stream_type (pb_dt meta) in
  Ret ("{" +:+ quoted "htype" +:+ ":" +:+ quoted "array-1.0" +:+ ", " +:+ quoted "shape" +:+ ":["
       +:+ pretty (pb_height meta) +:+ "," +:+ pretty (pb_width meta) +:+ "], " +:+ quoted "type" +:+ ":"
       +:+ quoted t +:+ ", " +:+ quoted "frame" +:+ ":" +:+ pretty (pb_image_id meta) +:+ "}")%string.

(** [meta.pco()]: the default message when the detector is another one. *)
Definition pco_of (meta : pb_image) : PcoImageMetadata :=
  match pb_det meta with
  | dm_pco m => m
  | _ => {| pco_global_timestamp_sec := 0; pco_global_timestamp_ns := 0; pco_bsread_name := "" |}
  end.

(** ** arguments.hpp, live_stream_stats_collector.hpp *)

Inductive stream_type : Type := bsread | array10.

Module LiveStats.
Record LiveStreamStatsCollector : Type := { base : TimedStatsCollector; stype : string; port : string }.

(** [s.substr(s.rfind(':') + 1)]: the whole string when there is no colon. *)
Fixpoint after_last_colon (s : string) : string :=
  match s with
  | EmptyString => EmptyString
  | String a r =>
      match String.index 0 ":" r with
      | Some _ => after_last_colon r
      | None => if Ascii.eqb a (Ascii.ascii_of_nat 58) then r else s
      end
  end.

Definition new (config : DetectorConfig) (stream_address suffix : string) (t : stream_type) (now : Z) :
  LiveStreamStatsCollector :=
  {| base := TimedStatsCollector_new (Config.detector_name config) (stats_collection_period config) suffix now;
     stype := match t with array10 => "array10" | bsread => "bsread" end;
     port := after_last_colon stream_address |}.

Definition process (s : LiveStreamStatsCollector) : LiveStreamStatsCollector :=
  {| base := timed_process (base s); stype := stype s; port := port s |}.

Definition message (now : Z) (s : LiveStreamStatsCollector) : list stat * LiveStreamStatsCollector :=
  let (m, t) := timed_message now (base s) in
  (SText "port" (port s) :: SText "type" (stype s) :: m, Build_LiveStreamStatsCollector t (stype s) (port s)).
End LiveStats.

#[global] Instance LiveStats_collector : Collector LiveStats.LiveStreamStatsCollector := {|
  timed := LiveStats.base;
  set_timed t s := LiveStats.Build_LiveStreamStatsCollector t (LiveStats.stype s) (LiveStats.port s);
  additional_message := LiveStats.message
|}.

(** ** bsread headers and the live stream *)

Section Bsread.
Variable (md5 : string -> string).

Definition prepare_bsread_headers (meta : pb_image) : outcome (string * string) :=
  let! t := map_dtype_to_stream_type (pb_dt meta) in
  let p := pco_of meta in
  let data_header :=
    ("{" +:+ quoted "htype" +:+ ":" +:+ quoted "bsr_d-1.1" +:+ "," +:+ quoted "channels" +:+ ":[{"
     +:+ quoted "name" +:+ ":" +:+ quoted (pco_bsread_name p) +:+ "," +:+ quoted "shape" +:+ ":["
     +:+ pretty (pb_width meta) +:+ "," +:+ pretty (pb_height meta) +:+ "]," +:+ quoted "type" +:+ ":"
     +:+ quoted t +:+ "," +:+ quoted "compression" +:+ ":" +:+ quoted "bitshuffle_lz4" +:+ "}]}")%string in
  let main_header :=
    ("{" +:+ quoted "htype" +:+ ":" +:+ quoted "bsr_m-1.1" +:+ "," +:+ quoted "pulse_id" +:+ ":"
     +:+ pretty (pb_image_id meta) +:+ "," +:+ quoted "global_timestamp" +:+ ":{" +:+ quoted "sec" +:+ ":"
     +:+ pretty (pco_global_timestamp_sec p) +:+ "," +:+ quoted "ns" +:+ ":"
     +:+ pretty (pco_global_timestamp_ns p) +:+ "}," +:+ quoted "hash" +:+ ":"
     +:+ quoted (md5 data_header) +:+ "}")%string in
  Ret (main_header, data_header).

(** ** live_stream.cpp *)

(** The frames of a published message. *)
Inductive zmq_frame : Type :=
| FText (s : string)
| FData (bs : list Z).

Definition send_array_1_0_stream (meta : pb_image) (m : list Z) (image_data : Z) :
  outcome (list zmq_frame) :=
  let! header := prepare_array10_header meta in
  let! d := mem_read m image_data (pb_size meta) in
  Ret [FText header; FData d].

Definition send_bsread_stream (meta : pb_image) (m : list Z) (image_data : Z) :
  outcome (list zmq_frame) :=
  let! '(main_header, data_header) := prepare_bsread_headers meta in
  let! d := mem_read m image_data (pb_size meta) in
  Ret [FText main_header; FText data_header; FData d; FData []].

(** The closure [select_sending_condition] returns, with its captured variables.  Times are
    nanoseconds. *)
Inductive sending_condition : Type :=
| SendPeriodic (first data_period next_time count : Z)
| SendBatch (first second : Z)
| SendAlways.

(** [1000ms / (int)conf.value.second] in milliseconds, an integer division. *)
Definition select_sending_condition (now : Z) (conf : live_stream_config) : outcome sending_condition :=
  match ls_type conf with
  | periodic =>
      let n := to_i32 (snd (ls_value conf)) in
      if n =? 0 then Undef div_by_zero
      else let p := Z.quot 1000 n * 1000000 in Ret (SendPeriodic (fst (ls_value conf)) p (now + p) 0)
  | batch => Ret (SendBatch (fst (ls_value conf)) (snd (ls_value conf)))
  | forward => Ret SendAlways
  end.

(** A call of the closure: the answer and the captured variables afterwards. *)
Definition should_send_image (now id : Z) (c : sending_condition) : outcome (bool * sending_condition) :=
  match c with
  | SendPeriodic first p next count =>
      if (0 <? count) && (count <? first) then Ret (true, SendPeriodic first p next (u32 (count + 1)))
      else if next <? now then Ret (true, SendPeriodic first p (now + p) 1)
      else Ret (false, SendPeriodic first p next 0)
  | SendBatch first second =>
      let! r := umod id second in Ret (r <? first, c)
  | SendAlways => Ret (true, c)
  end.

(** One iteration of the loop. *)
Definition live_stream_step (type : stream_type) (ring : RamBuffer) (now_cond now now_rate : Z)
  (m : list Z) (msg : option pb_image)
  (st : sending_condition * LiveStats.LiveStreamStatsCollector) :
  outcome (list zmq_frame * (sending_condition * LiveStats.LiveStreamStatsCollector)) :=
  let (cond, stats) := st in
  let! '(out, cond', stats') :=
    match msg with
    | None => Ret ([], cond, stats)
    | Some meta =>
        let! image_data := get_data ring (pb_image_id meta) in
        let! '(yes, cond') := should_send_image now_cond (pb_image_id meta) cond in
        let! out := if yes : bool then
                      match type with
                      | array10 => send_array_1_0_stream meta m image_data
                      | bsread => send_bsread_stream meta m image_data
                      end
                    else Ret [] in
        Ret (out, cond', LiveStats.process stats)
    end in
  Ret (out, (cond', snd (print_stats now now_rate stats'))).
End Bsread.

(** ** std-gf-filter/src/main.cpp *)

Definition store_image (meta : pb_image) : bool :=
  match pb_det meta with dm_gf g => gf_store_image g | _ => false end.

Definition gf_filter_step (always_forward : bool) (now now_rate : Z) (msg : option pb_image)
  (stats : FilterStats.FilterStatsCollector) : option pb_image * FilterStats.FilterStatsCollector :=
  let '(out, stats') :=
    match msg with
    | None => (None, stats)
    | Some meta =>
        if always_forward || store_image meta
        then (Some meta, FilterStats.process (FilterStats.forward stats))
        else (None, FilterStats.process stats)
    end in
  (out, snd (print_stats now now_rate stats')).

(** ** std-metadata-stream/src/metadata_stream.cpp *)

Definition metadata_stream_step (now now_rate : Z) (msg : option pb_image) (stats : TimedStatsCollector) :
  option pb_image * TimedStatsCollector :=
  let '(out, stats') :=
    match msg with
    | None => (None, stats)
    | Some meta => (Some meta, timed_process stats)
    end in
  (out, snd (print_stats now now_rate stats')).

(** ** Which images are published *)

(** The answers for a sequence of (clock reading, image id). *)
Fixpoint answers (l : list (Z * Z)) (c : sending_condition) : outcome (list bool * sending_condition) :=
  match l with
  | [] => Ret ([], c)
  | (now, id) :: l' =>
      let! '(b, c1) := should_send_image now id c in
      let! '(bs, c2) := answers l' c1 in
      Ret (b :: bs, c2)
  end.

Lemma answers_app l1 l2 c :
  answers (l1 ++ l2) c =
    let! '(b1, c1) := answers l1 c in let! '(b2, c2) := answers l2 c1 in Ret (b1 ++ b2, c2).
Proof.
  revert c. induction l1 as [|[now id] l1 IH]; intros c; cbn [answers app].
  - cbn [obind]. by destruct (answers l2 c) as [[? ?]|?|?].
  - destruct (should_send_image now id c) as [[b c1]|?|?]; cbn [obind]; [|done..].
    rewrite IH. destruct (answers l1 c1) as [[b1 c2]|?|?]; cbn [obind]; [|done..].
    destruct (answers l2 c2) as [[b2 c3]|?|?]; done.
Qed.

(** Inside a burst every image is published, whatever the clock says. *)
Lemma burst_continues first p next l : forall count,
  0 < count -> count + zlen l <= first -> first < 2 ^ 32 ->
  answers l (SendPeriodic first p next count) =
    Ret (replicate (length l) true, SendPeriodic first p next (count + zlen l)).
Proof.
  induction l as [|[now id] l IH]; intros count Hc Hl Hf; cbn [answers length replicate].
  - by rewrite Z.add_0_r.
  - rewrite zlen_cons in *. pose proof (zlen_nonneg l). cbn [should_send_image].
    rewrite (proj2 (Z.ltb_lt 0 count)), (proj2 (Z.ltb_lt count first)) by lia. cbn [andb obind].
    rewrite u32_small, IH by lia. cbn [obind]. by rewrite Z.add_assoc.
Qed.

(** Outside a burst nothing is published before its time. *)
Lemma silence first p next l : forall count,
  count = 0 \/ first <= count -> Forall (fun x => fst x <= next) l ->
  exists count', answers l (SendPeriodic first p next count) =
    Ret (replicate (length l) false, SendPeriodic first p next count') /\
    (count' = 0 \/ first <= count').
Proof.
  induction l as [|[now id] l IH]; intros count Hc Hl; cbn [answers length replicate]; [eauto|].
  apply Forall_cons_1 in Hl as [Hn Hl]. cbn [fst] in Hn. cbn [should_send_image].
  assert (Hb : (0 <? count) && (count <? first) = false).
  { apply andb_false_iff. destruct Hc as [->|Hc]; [by left|right; apply Z.ltb_ge; lia]. }
  rewrite Hb, (proj2 (Z.ltb_ge _ _)) by lia. cbn [obind].
  destruct (IH 0 (or_introl eq_refl) Hl) as (c' & -> & Hc'). cbn [obind]. eauto.
Qed.

(** The periodic live stream publishes in bursts: the first image that arrives later than
    the scheduled time and the [first - 1] images behind it are published, whatever the clock
    says then; afterwards nothing is published until one period after the start of the
    burst, and the next image behind that time starts the next burst. *)
Lemma live_stream_periodic first p next now id burst gap now' id' count :
  0 < first < 2 ^ 32 -> zlen burst = first - 1 -> count = 0 \/ first <= count ->
  next < now -> Forall (fun x => fst x <= now + p) gap -> now + p < now' ->
  answers ((now, id) :: burst ++ gap ++ [(now', id')]) (SendPeriodic first p next count) =
    Ret (true :: replicate (length burst) true ++ replicate (length gap) false ++ [true],
         SendPeriodic first p (now' + p) 1).
Proof.
  intros Hf Hb Hc Hnow Hgap Hnow'. cbn [answers should_send_image].
  assert (Hidle : forall k, k = 0 \/ first <= k -> (0 <? k) && (k <? first) = false).
  { intros k [->|Hk]; apply andb_false_iff; [by left|right; apply Z.ltb_ge; lia]. }
  rewrite Hidle by done. rewrite (proj2 (Z.ltb_lt _ _)) by lia. cbn [obind].
  rewrite answers_app, (burst_continues first p (now + p) burst 1) by lia. cbn [obind].
  rewrite answers_app. destruct (silence first p (now + p) gap (1 + zlen burst)) as (k & -> & Hk);
    [lia|done|]. cbn [obind answers should_send_image]. rewrite Hidle by done.
  rewrite (proj2 (Z.ltb_lt _ _)) by lia. done.
Qed.

Lemma live_stream_periodic_witness :
  exists c, select_sending_condition 0 {| ls_type := periodic; ls_value := (3, 10) |} = Ret c /\
    answers [(150000000, 1); (150000001, 2); (150000002, 3); (200000000, 4); (250000001, 5)] c
      = Ret ([true; true; true; false; true], SendPeriodic 3 100000000 350000001 1).
Proof.
  eexists. split; [vm_compute; reflexivity|].
  apply (live_stream_periodic 3 100000000 100000000 150000000 1 [(150000001, 2); (150000002, 3)]
           [(200000000, 4)] 250000001 5 0).
  - lia.
  - reflexivity.
  - by left.
  - lia.
  - apply Forall_cons_2; [vm_compute; discriminate|apply Forall_nil_2].
  - lia.
Defined.

Lemma answers_batch first second l :
  0 < second ->
  answers l (SendBatch first second) =
    Ret ((fun x => snd x mod second <? first) <$> l, SendBatch first second).
Proof.
  intros Hs. induction l as [|[now id] l IH]; cbn [answers fmap list_fmap snd]; [done|].
  cbn [should_send_image]. rewrite umod_ret by lia. cbn [obind]. by rewrite IH.
Qed.

Lemma fmap_constant {A B} (f : A -> B) l y :
  (forall x, x ∈ l -> f x = y) -> f <$> l = replicate (length l) y.
Proof.
  induction l as [|x l IH]; intros Hf; [done|]. cbn [fmap list_fmap length replicate].
  rewrite Hf by set_solver. f_equal. apply IH. set_solver.
Qed.

(** The batch live stream divides the image ids into rounds of [second] and publishes
    exactly the first [first] images of every round, independently of the clock. *)
Lemma live_stream_batch first second k l :
  0 <= first <= second -> 0 < second -> l.*2 = seqZ (k * second) second ->
  answers l (SendBatch first second) =
    Ret (replicate (Z.to_nat first) true ++ replicate (Z.to_nat (second - first)) false,
         SendBatch first second).
Proof.
  intros Hf Hs Hl. rewrite answers_batch by done.
  replace ((fun x : Z * Z => x.2 mod second <? first) <$> l)
    with ((fun id => id mod second <? first) <$> l.*2) by (by rewrite <- list_fmap_compose).
  assert (E : seqZ (k * second) second =
              seqZ (k * second) first ++ seqZ (k * second + first) (second - first))
    by (rewrite <- seqZ_app by lia; f_equal; lia).
  rewrite Hl, E, fmap_app. do 3 f_equal.
  - rewrite (fmap_constant _ _ true); [by rewrite length_seqZ|].
    intros i Hi%elem_of_seqZ. apply Z.ltb_lt. rewrite <- (Z.mod_unique i second k (i - k * second)); lia.
  - rewrite (fmap_constant _ _ false); [by rewrite length_seqZ|].
    intros i Hi%elem_of_seqZ. apply Z.ltb_ge. rewrite <- (Z.mod_unique i second k (i - k * second)); lia.
Qed.

Lemma live_stream_batch_witness :
  answers [(0, 10); (7, 11); (8, 12); (9, 13); (9, 14)] (SendBatch 2 5)
    = Ret ([true; true; false; false; false], SendBatch 2 5).
Proof. apply (live_stream_batch 2 5 2); [lia|lia|reflexivity]. Defined.
