(* ===== verification/FileStore.v ===== *)
(** * The image store of std-buffer

    [src/source/std-buffer/std-buffer-common]: [FileHandler] appends compressed images to
    files of a thousand ids each and reads them back, [RedisHandler] keeps the metadata with
    the place of the image; [std-buffer-writer/src/writer.cpp] fills the store and
    [std-buffer-reader/src/buffer_handler.cpp] reads it.

    A file system is a map from paths to bytes.  [files] of a writer is what it has written; as
    many as [file_pending] of the last bytes of the open file may still be in the buffer of its
    [std::fstream] ([visible]), which is flushed when the stream is closed.  The database is the
    map of its string keys and the sorted set of ids, whose scores are [double].  Records that
    expire are [redis_expire]; the runs below are shorter than the time to live.  The blosc2
    library is represented by its two functions and its overhead. *)

From stdpp Require Import pretty sorting.
From S2P Require Import Prelude Formats Protocol OrderedMap Config RamBuffer Stats.

(** [std_daq_protocol::BufferedMetadata]. *)
Record pb_buffered : Type := { pb_metadata : pb_image; pb_offset : Z }.

Definition set_size_compression (meta : pb_image) (size : Z) (c : pb_compression) : pb_image :=
  {| pb_image_id := pb_image_id meta; pb_height := pb_height meta; pb_width := pb_width meta;
     pb_size := size; pb_dt := pb_dt meta; pb_st := pb_st meta; pb_cp := c; pb_det := pb_det meta |}.

(** ** file_handler.cpp *)

Notation files := (gmap string (list Z)).

Record FileHandler : Type := {
  root_directory_ : string;
  current_filename_ : string;
  file_is_open : bool;
  file_good : bool;
  current_offset_ : Z;
  file_pending : Z
}.

Definition FileHandler_new (root_directory : string) : FileHandler :=
  {| root_directory_ := root_directory; current_filename_ := ""; file_is_open := false;
     file_good := true; current_offset_ := 0; file_pending := 0 |}.

Definition get_folder_path (h : FileHandler) (image_id : Z) : string :=
  (root_directory_ h +:+ "/" +:+ pretty (image_id / 1000000) +:+ "000000")%string.

Definition get_filename (h : FileHandler) (image_id : Z) : string :=
  (get_folder_path h image_id +:+ "/" +:+ pretty (image_id / 1000) +:+ "000.dat")%string.

(** The previous file is flushed and closed.  The new one is opened for appending: an existing
    file keeps its bytes, the offset starts at 0. *)
Definition open_new_file (h : FileHandler) (fs : files) (filename : string) : FileHandler * files :=
  ({| root_directory_ := root_directory_ h; current_filename_ := filename; file_is_open := true;
      file_good := true; current_offset_ := 0; file_pending := 0 |},
   <[filename := default [] (fs !! filename)]> fs).

(** The bytes are behind those in the file; how many of them are still in the stream is up to the
    stream. *)
Definition write_data_and_update_offset (h : FileHandler) (fs : files) (data : list Z) :
  Z * Z * FileHandler * files :=
  let fs' := <[current_filename_ h := default [] (fs !! current_filename_ h) ++ data]> fs in
  (current_offset_ h, zlen data,
   {| root_directory_ := root_directory_ h; current_filename_ := current_filename_ h;
      file_is_open := file_is_open h; file_good := file_good h;
      current_offset_ := u64 (current_offset_ h + zlen data);
      file_pending := file_pending h + zlen data |}, fs').

(** The destructor of the stream: it is flushed and closed. *)
Definition close_stream (h : FileHandler) : FileHandler :=
  {| root_directory_ := root_directory_ h; current_filename_ := current_filename_ h; file_is_open := false;
     file_good := file_good h; current_offset_ := current_offset_ h; file_pending := 0 |}.

(** The files when the last [k] bytes of the open one are in the stream, and what other processes
    may see. *)
Definition on_disk (h : FileHandler) (fs : files) (k : Z) : files :=
  alter (fun content => take (Z.to_nat (zlen content - k)) content) (current_filename_ h) fs.

Definition visible (h : FileHandler) (fs disk : files) : Prop :=
  exists k, 0 <= k <= file_pending h /\ disk = on_disk h fs k.

Definition open_read_file (h : FileHandler) (fs : files) (image_id : Z) : FileHandler :=
  let filename := get_filename h image_id in
  if decide (filename = current_filename_ h) then h
  else
    let found := bool_decide (is_Some (fs !! filename)) in
    {| root_directory_ := root_directory_ h; current_filename_ := filename; file_is_open := found;
       file_good := found; current_offset_ := current_offset_ h; file_pending := 0 |}.

(** [std::ranges::sort] and [std::ranges::lower_bound] on the sorted result. *)
Definition sorted_ids (l : list Z) : list Z := merge_sort Z.le l.

Definition lower_bound (l : list Z) (x : Z) : list Z := base.filter (fun y => x <= y) l.

(** The directory below the root as [directory_iterator] shows it, in any order: the numbers
    of the folders, and those of the files of a folder. *)
Definition get_first_matching_root_id (folders : list Z) (files_of : Z -> list Z) (image_id : Z) :
  outcome (option Z) :=
  let folder_ids := sorted_ids folders in
  match folder_ids with
  | [] => Ret None
  | _ =>
      let target_folder := image_id / 1000000 * 1000000 in
      let block_id := image_id / 1000 * 1000 in
      let folder_it := lower_bound folder_ids target_folder in
      let front (it : list Z) :=
        match it with
        | [] => Ret None
        | f :: _ => match sorted_ids (files_of f) with
                    | [] => Undef out_of_bounds
                    | x :: _ => Ret (Some x)
                    end
        end in
      match folder_it with
      | f :: rest =>
          if f =? target_folder then
            match lower_bound (sorted_ids (files_of f)) block_id with
            | x :: _ => Ret (Some x)
            | [] => front rest
            end
          else front folder_it
      | [] => Ret None
      end
  end.

Section Blosc.
(** [blosc2_compress_ctx], [None] for a result that is not positive; [blosc2_decompress_ctx]
    with the size of the destination; [BLOSC2_MAX_OVERHEAD]. *)
Variable (blosc2_compress : list Z -> option (list Z)).
Variable (blosc2_decompress : list Z -> Z -> option (list Z)).
Variable (max_overhead : Z).

Definition compress (data : list Z) : list Z :=
  match blosc2_compress data with Some c => c | None => data end.

Definition fh_write (h : FileHandler) (fs : files) (image_id : Z) (data : list Z) :
  Z * Z * FileHandler * files :=
  let filename := get_filename h image_id in
  let '(h1, fs1) := if decide (filename = current_filename_ h) then (h, fs)
                    else open_new_file h fs filename in
  write_data_and_update_offset h1 fs1 (compress data).

(** The result and the destination afterwards.  Reading at the end of the file clears
    [good()], which only opening another file sets again. *)
Definition fh_read (h : FileHandler) (fs : files) (image_id : Z) (dest : list Z)
  (offset compressed_size : Z) : outcome (bool * list Z * FileHandler) :=
  let h1 := open_read_file h fs image_id in
  if negb (file_is_open h1) then Ret (false, dest, h1)
  else if negb (file_good h1) then Ret (false, dest, h1)
  else if zlen dest + max_overhead <? compressed_size then Undef out_of_bounds
  else
    match mem_read (default [] (fs !! current_filename_ h1)) offset compressed_size with
    | Ret bytes =>
        match blosc2_decompress bytes (zlen dest) with
        | Some d => let! dest' := mem_write dest 0 d in Ret (true, dest', h1)
        | None => Ret (false, dest, h1)
        end
    | _ => Ret (false, dest,
                {| root_directory_ := root_directory_ h1; current_filename_ := current_filename_ h1;
                   file_is_open := true; file_good := false; current_offset_ := current_offset_ h1;
                   file_pending := file_pending h1 |})
    end.

(** ** redis_handler.cpp *)

Record redis : Type := { redis_kv : gmap string pb_buffered; redis_ids : omap_t unit }.

Definition redis_empty : redis := {| redis_kv := ∅; redis_ids := [] |}.

Definition strip_replay_prefix (cfg : string) : string :=
  if String.prefix "REPLAY-" cfg then String.substring 7 (String.length cfg - 7) cfg else cfg.

Definition redis_key_prefix (detector_name : string) : string :=
  ("camera:" +:+ strip_replay_prefix detector_name +:+ ":")%string.

Definition make_meta_key (key_prefix : string) (image_id : Z) : string :=
  (key_prefix +:+ pretty image_id)%string.

Definition redis_send (key_prefix : string) (r : redis) (meta : pb_buffered) : redis :=
  let id := pb_image_id (pb_metadata meta) in
  {| redis_kv := <[make_meta_key key_prefix id := meta]> (redis_kv r);
     redis_ids := om_put id tt (redis_ids r) |}.

(** The time to live of a key runs out; the id stays in the sorted set. *)
Definition redis_expire (key : string) (r : redis) : redis :=
  {| redis_kv := delete key (redis_kv r); redis_ids := redis_ids r |}.

Definition get_metadata (key_prefix : string) (r : redis) (image_id : Z) : option pb_buffered :=
  redis_kv r !! make_meta_key key_prefix image_id.

(** [std::uint64_t] converted to [double]: the nearest one, the even one of two. *)
Definition to_double (x : Z) : Z :=
  if x <? 2 ^ 53 then x
  else
    let unit := 2 ^ (Z.log2 x - 52) in
    let q := x / unit in
    let r := x mod unit in
    (if (unit <? 2 * r) || ((unit =? 2 * r) && Z.odd q) then q + 1 else q) * unit.

(** The members whose score is in the range, in the order of the scores (of the ids, where scores
    are the same). *)
Definition get_image_ids_in_file_range (r : redis) (file_base_id : Z) : list Z :=
  let end_id := u64 (file_base_id + 999) in
  base.filter (fun id => to_double file_base_id <= to_double id <= to_double end_id) (keys (redis_ids r)).

Definition get_metadatas_in_file_range (key_prefix : string) (r : redis) (file_base_id : Z) :
  list pb_buffered :=
  omap (get_metadata key_prefix r) (get_image_ids_in_file_range r file_base_id).

(** ** writer.cpp *)

Definition calculate_size (meta : pb_image) : outcome Z :=
  let! b := get_bytes_from_metadata_dtype (pb_dt meta) in
  Ret (u64 (u64 (pb_height meta * pb_width meta) * b)).

Record writer_state : Type := { ws_handler : FileHandler; ws_files : files; ws_redis : redis }.

(** One iteration for a received message; [m] are the bytes of the image ring. *)
Definition writer_step (key_prefix : string) (ring : RamBuffer) (m : list Z) (meta : pb_image)
  (st : writer_state) : outcome writer_state :=
  let! image_data := get_data ring (pb_image_id meta) in
  let! size := calculate_size meta in
  let! data := mem_read m image_data size in
  let '(offset, compressed_size, h, fs) := fh_write (ws_handler st) (ws_files st) (pb_image_id meta) data in
  Ret {| ws_handler := h; ws_files := fs;
         ws_redis := redis_send key_prefix (ws_redis st)
           {| pb_metadata := set_size_compression meta compressed_size cp_blosc2; pb_offset := offset |} |}.

(** ** buffer_handler.cpp: the loader's work *)

Definition fetch_next_metadatas (key_prefix : string) (r : redis) (folders : list Z)
  (files_of : Z -> list Z) (image_id : Z) : outcome (option (list pb_buffered)) :=
  let! root := get_first_matching_root_id folders files_of image_id in
  Ret (match root with
       | None => None
       | Some id => match get_metadatas_in_file_range key_prefix r id with
                    | [] => None
                    | l => Some l
                    end
       end).

(** [read_single_image]: the ring's bytes, the handler, and the metadata queued.  The result
    of [read] is not used. *)
Definition read_single_image (ring : RamBuffer) (fs : files) (m : list Z) (h : FileHandler)
  (bm : pb_buffered) : outcome (list Z * FileHandler * pb_image) :=
  let meta := pb_metadata bm in
  let! size := calculate_size meta in
  let! off := get_data ring (pb_image_id meta) in
  let! dest := mem_read m off size in
  let! '(_, dest', h') := fh_read h fs (pb_image_id meta) dest (pb_offset bm) (pb_size meta) in
  let! m' := mem_write m off dest' in
  Ret (m', h', set_size_compression meta size cp_none).
End Blosc.

(** ** File names *)

Fixpoint after_slash (s : string) : string :=
  match s with
  | EmptyString => EmptyString
  | String a r => if Ascii.eqb a (Ascii.ascii_of_nat 47) then r else after_slash r
  end.

Lemma after_slash_go x : forall s t, after_slash (pretty_N_go x s +:+ t) = after_slash (s +:+ t).
Proof.
  induction (N.lt_wf_0 x) as [x _ IH]; intros s t.
  assert (x = 0 \/ 0 < x)%N as [->|Hx] by lia; [by rewrite pretty_N_go_0|].
  rewrite pretty_N_go_step by done. rewrite IH by (by apply N.div_lt).
  unfold pretty_N_char. by repeat case_match.
Qed.

Lemma after_slash_pretty x t : 0 <= x -> after_slash (pretty x +:+ t) = after_slash t.
Proof.
  intros Hx. destruct x as [|p|p]; [done| |lia].
  exact (after_slash_go (N.pos p) "" t).
Qed.

Lemma length_string_app (s t : string) :
  String.length (s +:+ t) = (String.length s + String.length t)%nat.
Proof. induction s as [|a s IH]; [done|]. exact (f_equal S IH). Qed.

Lemma string_app_assoc (s t u : string) : (s +:+ t) +:+ u = s +:+ (t +:+ u).
Proof. induction s as [|a s IH]; [done|]. exact (f_equal (String a) IH). Qed.

Lemma string_app_inv_r (s1 s2 t : string) : s1 +:+ t = s2 +:+ t -> s1 = s2.
Proof.
  intros E. assert (Hl : String.length s1 = String.length s2).
  { apply (f_equal String.length) in E. rewrite !length_string_app in E. lia. }
  revert s2 E Hl. induction s1 as [|a s1 IH]; intros [|b s2] E Hl; try done.
  injection E as -> E. injection Hl as Hl. f_equal. by apply IH.
Qed.

Lemma get_filename_inj h h' i j :
  root_directory_ h = root_directory_ h' -> 0 <= i -> 0 <= j ->
  get_filename h i = get_filename h' j <-> i / 1000 = j / 1000.
Proof.
  intros Hroot Hi Hj. unfold get_filename, get_folder_path. rewrite Hroot, !string_app_assoc.
  assert (0 <= i / 1000000 /\ 0 <= j / 1000000) as [Hi6 Hj6] by (split; apply Z.div_pos; lia).
  split.
  - intros E. apply (inj (String.append _)), (inj (String.append _)) in E.
    apply (f_equal after_slash) in E. rewrite !after_slash_pretty in E by done.
    apply (string_app_inv_r (pretty (i / 1000)) (pretty (j / 1000))) in E. by apply (inj pretty) in E.
  - intros E. replace 1000000 with (1000 * 1000) by done. by rewrite <- !Z.div_div, E by lia.
Qed.

(** ** The files hold what was written *)

(** An image in the store: its id, its place in its file, its compressed bytes. *)
Record entry : Type := { e_id : Z; e_off : Z; e_bytes : list Z }.

Definition held (h : FileHandler) (fs : files) (x : entry) : Prop :=
  exists content, fs !! get_filename h (e_id x) = Some content /\
    mem_read content (e_off x) (zlen (e_bytes x)) = Ret (e_bytes x).

(** [log]: the images written so far, the last one first. *)
Record stored (h : FileHandler) (fs : files) (log : list entry) : Prop := {
  stored_ids : StronglySorted (fun x y => e_id y < e_id x) log;
  stored_nonneg : Forall (fun x => 0 <= e_id x) log;
  stored_held : Forall (held h fs) log;
  stored_files : forall p, is_Some (fs !! p) -> exists x, x ∈ log /\ p = get_filename h (e_id x);
  stored_current : match log with
    | [] => current_filename_ h = ""%string
    | x :: _ => current_filename_ h = get_filename h (e_id x) /\
                zlen (default [] (fs !! current_filename_ h)) = current_offset_ h
    end
}.

Lemma mem_read_app_l {A} (m1 m2 : list A) off len d :
  mem_read m1 off len = Ret d -> mem_read (m1 ++ m2) off len = Ret d.
Proof.
  intros (? & ? & Hl & ->)%mem_read_inv. rewrite mem_read_ret by (rewrite ?zlen_app; pose proof (zlen_nonneg m2); lia).
  f_equal. unfold zlen in Hl. rewrite drop_app_le, take_app_le by (rewrite ?length_drop; lia). done.
Qed.

Lemma mem_write_full {A} (m d : list A) : zlen d = zlen m -> mem_write m 0 d = Ret d.
Proof.
  intros Hl. destruct (mem_write m 0 d) as [m'|?|?] eqn:W; [|rewrite mem_write_ret in W by lia; done..].
  f_equal. apply list_eq. intros i. rewrite (mem_write_lookup _ _ _ _ _ W). case_decide.
  - f_equal. lia.
  - unfold zlen in *. rewrite !lookup_ge_None_2 by lia. done.
Qed.

Lemma mem_read_app_r {A} (m1 m2 : list A) : mem_read (m1 ++ m2) (zlen m1) (zlen m2) = Ret m2.
Proof.
  rewrite mem_read_ret by (rewrite ?zlen_app; pose proof (zlen_nonneg m1); pose proof (zlen_nonneg m2); lia).
  unfold zlen. rewrite !Nat2Z.id, drop_app_length, take_ge by lia. done.
Qed.

(** Appending to a file keeps the images that are in the store. *)
Lemma held_append h fs fn d x :
  held h fs x -> held h (<[fn := default [] (fs !! fn) ++ d]> fs) x.
Proof.
  intros (content & Hc & Hr). unfold held.
  destruct (decide (fn = get_filename h (e_id x))) as [->|Hne].
  - rewrite lookup_insert_eq, Hc. eexists. split; [done|]. by apply mem_read_app_l.
  - rewrite lookup_insert_ne by done. eauto.
Qed.

Section Store.
Variable (blosc2_compress : list Z -> option (list Z)).
Notation write := (fh_write blosc2_compress).

(** The file of a new image is the open one, or does not exist yet. *)
Lemma new_file_is_new h fs log id :
  stored h fs log -> 0 <= id -> Forall (fun x => e_id x < id) log ->
  get_filename h id <> current_filename_ h -> fs !! get_filename h id = None.
Proof.
  intros [Hs Hn _ Hf Hc] Hid Hlt Hne. destruct (fs !! get_filename h id) eqn:E; [|done]. exfalso.
  destruct (Hf (get_filename h id)) as (x & Hx & Hp); [by rewrite E|].
  rewrite list.Forall_forall in Hn, Hlt. pose proof (Hn _ Hx). pose proof (Hlt _ Hx) as Hxl.
  apply get_filename_inj in Hp; [|done..].
  destruct log as [|y log]; [by apply elem_of_nil in Hx|]. destruct Hc as [Hc _].
  assert (Hy : y ∈ y :: log) by set_solver. pose proof (Hlt _ Hy) as Hyl. pose proof (Hn _ Hy).
  assert (e_id x <= e_id y).
  { apply elem_of_cons in Hx as [->|Hx]; [done|]. apply StronglySorted_inv in Hs as [_ Hs].
    rewrite list.Forall_forall in Hs. specialize (Hs _ Hx). lia. }
  apply Hne. rewrite Hc. apply get_filename_inj; [done..|].
  pose proof (Z.div_le_mono (e_id x) (e_id y) 1000). pose proof (Z.div_le_mono (e_id y) id 1000). lia.
Qed.

Lemma same_root_filename h h' x :
  root_directory_ h' = root_directory_ h -> get_filename h' x = get_filename h x.
Proof. intros E. unfold get_filename, get_folder_path. by rewrite E. Qed.

(** The store with one more image. *)
Lemma stored_cons h h' fs fs' log x :
  stored h fs log -> root_directory_ h' = root_directory_ h ->
  0 <= e_id x -> Forall (fun y => e_id y < e_id x) log ->
  held h fs' x -> (forall y, y ∈ log -> held h fs y -> held h fs' y) ->
  (forall p, is_Some (fs' !! p) -> p = get_filename h (e_id x) \/ is_Some (fs !! p)) ->
  current_filename_ h' = get_filename h (e_id x) ->
  zlen (default [] (fs' !! get_filename h (e_id x))) = current_offset_ h' ->
  stored h' fs' (x :: log).
Proof.
  intros [Hs Hn Hh Hf _] Hr Hid Hlt Hx Hkeep Hdom Hcur Hoff.
  assert (Hheld : forall y, held h fs' y -> held h' fs' y)
    by (intros y; unfold held; by rewrite (same_root_filename h h') by done).
  split.
  - by apply SSorted_cons.
  - by constructor.
  - constructor; [by apply Hheld|]. rewrite list.Forall_forall in Hh |- *. intros y Hy.
    apply Hheld, Hkeep; auto.
  - intros p Hp. destruct (Hdom p Hp) as [->|Hp'].
    + exists x. rewrite (same_root_filename h h') by done. split; [set_solver|done].
    + destruct (Hf p Hp') as (y & Hy & ->). exists y. rewrite (same_root_filename h h') by done.
      split; [set_solver|done].
  - rewrite (same_root_filename h h'), Hcur by done. done.
Qed.

Lemma open_offset_nonneg h fs log :
  stored h fs log -> 0 <= match log with [] => 0 | _ => current_offset_ h end.
Proof. intros [_ _ _ _ Hc]. destruct log; [done|]. destruct Hc as [_ <-]. apply zlen_nonneg. Qed.

Lemma fh_write_spec h fs log id data :
  stored h fs log -> 0 <= id -> Forall (fun x => e_id x < id) log ->
  let c := compress blosc2_compress data in
  let pos := match log with [] => 0 | _ => current_offset_ h end in
  pos + zlen c < 2 ^ 64 ->
  exists off h' fs', write h fs id data = (off, zlen c, h', fs') /\
    root_directory_ h' = root_directory_ h /\ current_offset_ h' = off + zlen c /\ off <= pos /\
    stored h' fs' ({| e_id := id; e_off := off; e_bytes := c |} :: log).
Proof.
  intros Hst Hid Hlt c pos Hwide. pose proof (zlen_nonneg c) as Hc0.
  pose proof (open_offset_nonneg h fs log Hst) as Hpos. fold pos in Hpos.
  unfold fh_write. fold c. destruct (decide (get_filename h id = current_filename_ h)) as [E|E].
  - pose proof (stored_current _ _ _ Hst) as Hc. destruct log as [|y log].
    { exfalso. rewrite Hc in E. unfold get_filename, get_folder_path in E.
      apply (f_equal String.length) in E. rewrite !length_string_app in E. simpl in E. lia. }
    destruct Hc as [Hc Ho]. unfold write_data_and_update_offset, pos in *.
    eexists _, _, _. split; [done|]. cbn [root_directory_ current_offset_]. rewrite u64_small by lia.
    split_and!; try done. apply (stored_cons h _ fs); cbn [e_id e_off e_bytes]; try done.
    + exists (default [] (fs !! current_filename_ h) ++ c). cbn [e_id e_off e_bytes].
      rewrite E, lookup_insert_eq. split; [done|]. rewrite <- Ho. apply mem_read_app_r.
    + intros x _. apply held_append.
    + intros p Hp. rewrite E. destruct (decide (p = current_filename_ h)) as [->|Hne]; [by left|].
      right. by rewrite lookup_insert_ne in Hp.
    + rewrite E, lookup_insert_eq. cbn [current_offset_].
      change (zlen (default [] (fs !! current_filename_ h) ++ c) = current_offset_ h + zlen c).
      rewrite zlen_app. lia.
  - pose proof (new_file_is_new h fs log id Hst Hid Hlt E) as Hnone.
    unfold open_new_file, write_data_and_update_offset. rewrite Hnone.
    cbn [current_filename_ current_offset_ root_directory_ file_is_open file_good].
    rewrite lookup_insert_eq, insert_insert_eq. eexists _, _, _. split; [done|].
    cbn [root_directory_ current_offset_]. rewrite Z.add_0_l, u64_small by lia.
    split_and!; try done. apply (stored_cons h _ fs); cbn [e_id e_off e_bytes]; try done.
    + exists c. cbn [e_id e_off e_bytes]. rewrite lookup_insert_eq. split; [done|]. by apply mem_read_full.
    + intros x _ (content & Hx & Hr). exists content. split; [|done].
      rewrite lookup_insert_ne; [done|congruence].
    + intros p Hp. destruct (decide (p = get_filename h id)) as [->|Hne]; [by left|].
      right. by rewrite lookup_insert_ne in Hp.
    + by rewrite lookup_insert_eq.
Qed.
End Store.

(** ** Write and read back *)

Lemma make_meta_key_inj prefix i j : make_meta_key prefix i = make_meta_key prefix j -> i = j.
Proof. unfold make_meta_key. intros E%(inj (String.append _)). by apply (inj pretty) in E. Qed.

(** The bytes of the image [meta] announces, in the ring with contents [m]. *)
Definition image_bytes (ring : RamBuffer) (m : list Z) (meta : pb_image) : outcome (list Z) :=
  let! image_data := get_data ring (pb_image_id meta) in
  let! size := calculate_size meta in
  mem_read m image_data size.

(** The handler has opened no file yet, or has a file open that it can read. *)
Definition reads_well (h : FileHandler) : Prop :=
  current_filename_ h = ""%string \/ (file_is_open h = true /\ file_good h = true).

Section RoundTrip.
Variable (blosc2_compress : list Z -> option (list Z)).
Variable (prefix : string) (ring : RamBuffer).
Notation compress := (compress blosc2_compress).
Notation step := (fun st it => writer_step blosc2_compress prefix ring (snd it) (fst it) st).

(** The size an image takes in the store. *)
Definition stored_size (it : pb_image * list Z) : Z :=
  match image_bytes ring (snd it) (fst it) with Ret d => zlen (compress d) | _ => 0 end.

Definition total_size (items : list (pb_image * list Z)) : Z :=
  foldr (fun it acc => stored_size it + acc) 0 items.

Lemma total_size_app l1 l2 : total_size (l1 ++ l2) = total_size l1 + total_size l2.
Proof. induction l1 as [|it l1 IH]; [done|]. cbn [app total_size foldr]. unfold total_size in *. lia. Qed.

Lemma stored_size_nonneg it : 0 <= stored_size it.
Proof. unfold stored_size. destruct (image_bytes _ _ _); [apply zlen_nonneg|done..]. Qed.

(** The image is in the files and its metadata says where. *)
Definition recorded (log : list entry) (r : redis) (it : pb_image * list Z) : Prop :=
  exists d x, image_bytes ring (snd it) (fst it) = Ret d /\ x ∈ log /\
    e_id x = pb_image_id (fst it) /\ e_bytes x = compress d /\
    get_metadata prefix r (pb_image_id (fst it)) =
      Some {| pb_metadata := set_size_compression (fst it) (zlen (compress d)) cp_blosc2;
              pb_offset := e_off x |}.

(** Later images do not touch the record of an earlier one. *)
Lemma recorded_send log r it x meta off :
  recorded log r it -> pb_image_id (fst it) <> pb_image_id meta ->
  recorded (x :: log) (redis_send prefix r {| pb_metadata := meta; pb_offset := off |}) it.
Proof.
  intros (d & y & ? & Hy & ? & ? & Hg) Hne. exists d, y. split_and!; try done; [set_solver|].
  unfold get_metadata, redis_send in *. cbn [redis_kv pb_metadata].
  rewrite lookup_insert_ne; [done|]. by intros E%make_meta_key_inj.
Qed.

Lemma writer_run_spec root items :
  StronglySorted Z.lt (pb_image_id ∘ fst <$> items) ->
  Forall (fun it => 0 <= pb_image_id (fst it)) items ->
  Forall (fun it => exists d, image_bytes ring (snd it) (fst it) = Ret d) items ->
  total_size items < 2 ^ 64 ->
  exists st log,
    foldO step items {| ws_handler := FileHandler_new root; ws_files := ∅; ws_redis := redis_empty |} = Ret st /\
    root_directory_ (ws_handler st) = root /\
    stored (ws_handler st) (ws_files st) log /\
    (forall x, x ∈ log -> exists it, it ∈ items /\ e_id x = pb_image_id (fst it)) /\
    match log with [] => 0 | _ => current_offset_ (ws_handler st) end <= total_size items /\
    Forall (recorded log (ws_redis st)) items.
Proof.
  induction items as [|it items IH] using rev_ind; intros Hsort Hnn Hok Hsz.
  - eexists _, []. split; [done|]. split_and!;
      [done| |intros x Hx; by apply elem_of_nil in Hx|done|constructor].
    split; try done; try constructor. intros p [x Hx]. cbn [ws_files] in Hx. by rewrite lookup_empty in Hx.
  - rewrite total_size_app in Hsz. change (total_size [it]) with (stored_size it + 0) in Hsz.
    pose proof (stored_size_nonneg it) as Hs0. rewrite fmap_app in Hsort.
    apply Forall_app in Hnn as [Hnn Hid]. apply Forall_app in Hok as [Hok Hd].
    apply Forall_cons_1 in Hid as [Hid _]. apply Forall_cons_1 in Hd as [[d Hd] _].
    destruct IH as (st & log & Hrun & Hroot & Hst & Hlog & Hpos & Hrec);
      [by eapply StronglySorted_app_1_l|done|done|lia|].
    assert (Hlt : forall it', it' ∈ items -> pb_image_id (fst it') < pb_image_id (fst it)).
    { intros it' Hit. eapply (StronglySorted_app_1_elem_of Z.lt); [exact Hsort| |by apply list_elem_of_singleton].
      apply list_elem_of_fmap. by exists it'. }
    assert (Hlog_lt : Forall (fun x => e_id x < pb_image_id (fst it)) log).
    { apply list.Forall_forall. intros x Hx. destruct (Hlog x Hx) as (it' & Hit & ->). auto. }
    assert (Hsd : stored_size it = zlen (compress d)) by (unfold stored_size; by rewrite Hd).
    destruct (fh_write_spec blosc2_compress _ _ log (pb_image_id (fst it)) d Hst Hid Hlog_lt)
      as (off & h' & fs' & Hw & Hr' & Ho' & Hoff & Hst'); [lia|].
    eexists _, _. rewrite foldO_app, Hrun. cbn [obind foldO]. split.
    { unfold writer_step. unfold image_bytes in Hd.
      apply obind_Ret_iff in Hd as (o & Ho & Hd). apply obind_Ret_iff in Hd as (sz & Hs & Hd).
      rewrite Ho. cbn [obind]. rewrite Hs. cbn [obind]. rewrite Hd. cbn [obind]. rewrite Hw. done. }
    cbn [ws_handler ws_files ws_redis]. split_and!; [congruence|exact Hst'| | |].
    + intros x [->|Hx]%elem_of_cons; [exists it; set_solver|].
      destruct (Hlog x Hx) as (it' & ? & ?). exists it'. set_solver.
    + rewrite Ho', total_size_app. change (total_size [it]) with (stored_size it + 0). lia.
    + apply Forall_app. split; [|constructor; [|constructor]].
      * apply list.Forall_forall. intros it' Hit. rewrite list.Forall_forall in Hrec.
        apply recorded_send; [by apply Hrec|]. cbn [set_size_compression pb_image_id].
        specialize (Hlt it' Hit). lia.
      * eexists d, _. split; [done|]. split; [by apply list_elem_of_here|]. split_and!; try done.
        unfold get_metadata, redis_send. cbn [redis_kv pb_metadata set_size_compression pb_image_id].
        by rewrite lookup_insert_eq.
Qed.
Variable (blosc2_decompress : list Z -> Z -> option (list Z)).
Variable (max_overhead : Z).
(** Compression into a buffer with [BLOSC2_MAX_OVERHEAD] spare bytes succeeds, and
    decompression inverts it. *)
Hypothesis (blosc2_ok : forall d, 0 < zlen d ->
  exists c, blosc2_compress d = Some c /\ zlen c <= zlen d + max_overhead /\
    blosc2_decompress c (zlen d) = Some d).

(** A reader opens the file, or has it open, and gets the image back. *)
Lemma read_recorded h fs log r it d rh dest :
  stored h fs log -> recorded log r it -> image_bytes ring (snd it) (fst it) = Ret d -> 0 < zlen d ->
  root_directory_ rh = root_directory_ h -> reads_well rh -> zlen dest = zlen d ->
  exists bm rh', get_metadata prefix r (pb_image_id (fst it)) = Some bm /\
    (exists size, pb_metadata bm = set_size_compression (fst it) size cp_blosc2) /\
    fh_read blosc2_decompress max_overhead rh fs (pb_image_id (fst it)) dest (pb_offset bm)
      (pb_size (pb_metadata bm)) = Ret (true, d, rh') /\
    root_directory_ rh' = root_directory_ h /\ reads_well rh'.
Proof.
  intros Hst (d' & x & Hd' & Hx & Hid & Hb & Hg) Hd Hpos Hroot Hcur Hdest.
  rewrite Hd in Hd'. injection Hd' as <-. destruct (blosc2_ok d Hpos) as (c & Hc & Hlen & Hdec).
  unfold compress in *. rewrite Hc in *.
  pose proof (stored_held _ _ _ Hst) as Hheld. rewrite list.Forall_forall in Hheld.
  destruct (Hheld x Hx) as (content & Hf & Hread). rewrite Hid, Hb in *.
  exists {| pb_metadata := set_size_compression (fst it) (zlen c) cp_blosc2; pb_offset := e_off x |}.
  set (rh' := open_read_file rh fs (pb_image_id (fst it))).
  assert (Hopen : file_is_open rh' = true /\ file_good rh' = true /\ root_directory_ rh' = root_directory_ h /\
    current_filename_ rh' = get_filename h (pb_image_id (fst it))).
  { subst rh'. unfold open_read_file. rewrite (same_root_filename h rh) by done. case_decide as E.
    - destruct Hcur as [Hcur|[? ?]]; [|done]. exfalso. rewrite Hcur in E. unfold get_filename, get_folder_path in E.
      apply (f_equal String.length) in E. rewrite !length_string_app in E. simpl in E. lia.
    - cbn. by rewrite Hf. }
  destruct Hopen as (Ho & Hgood & Hroot' & Hname).
  exists rh'. split; [done|]. split; [by eexists|]. cbn [pb_metadata pb_offset set_size_compression pb_size].
  unfold fh_read. change (open_read_file rh fs (pb_image_id (fst it))) with rh'.
  split; [|split; [done|by right]]. rewrite Ho, Hgood, Hname, Hf.
  cbn [negb]. rewrite (proj2 (Z.ltb_ge _ _)) by lia.
  change (default [] (Some content)) with content. rewrite Hread, Hdest, Hdec.
  rewrite mem_write_full by done. done.
Qed.
End RoundTrip.

(** *** The stream of the writer *)

Lemma on_disk_other h fs k p : p <> current_filename_ h -> on_disk h fs k !! p = fs !! p.
Proof. intros Hp. unfold on_disk. by rewrite lookup_alter_ne. Qed.

Lemma closed_on_disk h fs disk : visible (close_stream h) fs disk -> disk = fs.
Proof.
  intros (k & Hk & ->). cbn in Hk. assert (k = 0) as -> by lia. apply map_eq. intros p. unfold on_disk. cbn.
  destruct (decide (p = current_filename_ h)) as [->|Hne]; [|by rewrite lookup_alter_ne].
  rewrite lookup_alter_eq. destruct (fs !! current_filename_ h) as [c|]; [|done]. cbn. f_equal.
  unfold zlen. rewrite take_ge by lia. done.
Qed.

(** Reading an image depends on its file only. *)
Lemma fh_read_file dec ovh h fs fs' id dest off n :
  fs !! get_filename h id = fs' !! get_filename h id ->
  fh_read dec ovh h fs id dest off n = fh_read dec ovh h fs' id dest off n.
Proof.
  intros E. unfold fh_read, open_read_file. rewrite E.
  destruct (decide (get_filename h id = current_filename_ h)) as [Ec|Ec]; cbn [current_filename_]; [|by rewrite E].
  by rewrite <- Ec, E.
Qed.

(** C21: the buffer store gives back what was put into it.  Images written with increasing ids by
    the buffer writer into an empty store, from any contents of the RAM buffer that have them, are all
    recorded in the database, and a reader that opens the store finds each of them at the recorded place of
    its file and decompresses it to the bytes the RAM buffer held, as soon as the writer has gone
    on to another file or closed its stream (before that the bytes may be in the stream:
    [unflushed_image_unreadable]).  The compressor never fails and the decompressor inverts it
    (otherwise: [uncompressed_image_unreadable]; ids that go back: [reopened_file_offset]); the
    files have less than 2^64 bytes, and no record has expired. *)
Theorem store_roundtrip blosc2_compress blosc2_decompress max_overhead prefix ring root items it d dest :
  (forall d, 0 < zlen d -> exists c, blosc2_compress d = Some c /\
     zlen c <= zlen d + max_overhead /\ blosc2_decompress c (zlen d) = Some d) ->
  StronglySorted Z.lt (pb_image_id ∘ fst <$> items) ->
  Forall (fun it => 0 <= pb_image_id (fst it)) items ->
  Forall (fun it => exists d, image_bytes ring (snd it) (fst it) = Ret d) items ->
  total_size blosc2_compress ring items < 2 ^ 64 ->
  it ∈ items -> image_bytes ring (snd it) (fst it) = Ret d -> 0 < zlen d -> zlen dest = zlen d ->
  exists st bm,
    foldO (fun st it => writer_step blosc2_compress prefix ring (snd it) (fst it) st) items
      {| ws_handler := FileHandler_new root; ws_files := ∅; ws_redis := redis_empty |} = Ret st /\
    get_metadata prefix (ws_redis st) (pb_image_id (fst it)) = Some bm /\
    forall disk,
      (visible (ws_handler st) (ws_files st) disk /\
       current_filename_ (ws_handler st) <> get_filename (ws_handler st) (pb_image_id (fst it))) \/
      visible (close_stream (ws_handler st)) (ws_files st) disk ->
      exists h', fh_read blosc2_decompress max_overhead (FileHandler_new root) disk
        (pb_image_id (fst it)) dest (pb_offset bm) (pb_size (pb_metadata bm)) = Ret (true, d, h').
Proof.
  intros Hblosc Hsort Hnn Hok Hsz Hit Hd Hpos Hdest.
  destruct (writer_run_spec blosc2_compress prefix ring root items Hsort Hnn Hok Hsz)
    as (st & log & Hrun & Hroot & Hst & _ & _ & Hrec).
  rewrite list.Forall_forall in Hrec.
  destruct (read_recorded blosc2_compress prefix ring blosc2_decompress max_overhead Hblosc
              _ _ log _ it d (FileHandler_new root) dest Hst (Hrec _ Hit) Hd Hpos)
    as (bm & h' & Hg & _ & Hr & _); [by rewrite Hroot|by left|done|].
  exists st, bm. split_and!; [done|done|]. intros disk Hdisk. exists h'. rewrite <- Hr. apply fh_read_file.
  rewrite (same_root_filename (ws_handler st)) by done.
  destruct Hdisk as [[(k & _ & ->) Hne]|E%closed_on_disk]; [by apply on_disk_other|by subst].
Qed.

(** An instance: a compressor that adds one byte, two images in different files. *)
Definition demo_compress (d : list Z) : option (list Z) := Some (1 :: d).
Definition demo_decompress (c : list Z) (n : Z) : option (list Z) := Some (tail c).
Definition demo_store_ring : RamBuffer :=
  {| buffer_name_ := "CAM-image"; n_slots_ := 2; data_bytes_ := 2; buffer_bytes_ := 4; shm_fd_ := 0 |}.
Definition demo_store_meta (id : Z) : pb_image :=
  {| pb_image_id := id; pb_height := 1; pb_width := 1; pb_size := 2; pb_dt := dt_uint16;
     pb_st := st_good_image; pb_cp := cp_none; pb_det := dm_not_set |}.

Lemma store_roundtrip_witness :
  exists st bm,
    foldO (fun st it => writer_step demo_compress "camera:CAM:" demo_store_ring (snd it) (fst it) st)
      [(demo_store_meta 999, [1; 2; 3; 4]); (demo_store_meta 1000, [5; 6; 7; 8])]
      {| ws_handler := FileHandler_new "/data/CAM"; ws_files := ∅; ws_redis := redis_empty |} = Ret st /\
    get_metadata "camera:CAM:" (ws_redis st) 1000 = Some bm /\
    forall disk,
      (visible (ws_handler st) (ws_files st) disk /\
       current_filename_ (ws_handler st) <> get_filename (ws_handler st) 1000) \/
      visible (close_stream (ws_handler st)) (ws_files st) disk ->
      exists h', fh_read demo_decompress 32 (FileHandler_new "/data/CAM") disk 1000 [0; 0] (pb_offset bm)
        (pb_size (pb_metadata bm)) = Ret (true, [5; 6], h').
Proof.
  apply (store_roundtrip demo_compress demo_decompress 32 "camera:CAM:" demo_store_ring "/data/CAM"
    [(demo_store_meta 999, [1; 2; 3; 4]); (demo_store_meta 1000, [5; 6; 7; 8])]
    (demo_store_meta 1000, [5; 6; 7; 8]) [5; 6] [0; 0]).
  - intros d Hd. exists (1 :: d). split; [reflexivity|]. rewrite zlen_cons. split; [lia|reflexivity].
  - repeat constructor.
  - repeat constructor; discriminate.
  - repeat constructor; eexists; vm_compute; reflexivity.
  - vm_compute. reflexivity.
  - set_solver.
  - vm_compute. reflexivity.
  - reflexivity.
  - reflexivity.
Defined.

(** An image that is in the database but still in the stream of the writer: the reader does not get
    it, and does not get any other image of the file until it has opened another one. *)
Lemma unflushed_image_unreadable :
  let '(off, n, h, fs) := fh_write demo_compress (FileHandler_new "/d") ∅ 0 [5; 6] in
  visible h fs (on_disk h fs n) /\
  exists h', fh_read demo_decompress 32 (FileHandler_new "/d") (on_disk h fs n) 0 [0; 0] off n = Ret (false, [0; 0], h') /\
    fh_read demo_decompress 32 h' fs 0 [0; 0] off n = Ret (false, [0; 0], h').
Proof.
  split; [exists 3; split; [vm_compute; split; discriminate|reflexivity]|]. eexists. split; vm_compute; reflexivity.
Qed.

(** When the writer returns to an earlier file, the file is opened for appending but the
    offset starts at 0: the recorded place of the image is wrong. *)
Lemma reopened_file_offset :
  let w h fs id d := fh_write demo_compress h fs id d in
  let '(_, _, h1, fs1) := w (FileHandler_new "/d") ∅ 999 [7] in
  let '(_, _, h2, fs2) := w h1 fs1 1000 [8] in
  let '(off, n, _, fs3) := w h2 fs2 999 [9] in
  off = 0 /\ n = 2 /\ fs3 !! get_filename (FileHandler_new "/d") 999 = Some [1; 7; 1; 9].
Proof. vm_compute. repeat split. Qed.

(** An image that cannot be compressed is stored as it is, but read as compressed data. *)
Lemma uncompressed_image_unreadable :
  let '(off, n, _, fs) := fh_write (fun _ => None) (FileHandler_new "/d") ∅ 0 [5; 6] in
  exists h, fh_read (fun c _ => if bool_decide (head c = Some 1) then Some (tail c) else None) 32
              (FileHandler_new "/d") fs 0 [0; 0] off n = Ret (false, [0; 0], h).
Proof. eexists. vm_compute. reflexivity. Qed.

(** ** Finding the first file *)

Lemma elem_of_sorted_ids l x : x ∈ sorted_ids l <-> x ∈ l.
Proof. unfold sorted_ids. by rewrite (merge_sort_Permutation Z.le l). Qed.

Lemma sorted_ids_sorted l : StronglySorted Z.le (sorted_ids l).
Proof. apply StronglySorted_merge_sort; apply _. Qed.

(** What [lower_bound] points to. *)
Lemma lower_bound_spec l b :
  StronglySorted Z.le l -> StronglySorted Z.le (lower_bound l b) /\
  (forall x, x ∈ lower_bound l b <-> b <= x /\ x ∈ l).
Proof.
  intros Hs. split; [|intros x; unfold lower_bound; apply list_elem_of_filter].
  unfold lower_bound. induction Hs as [|x l Hs IH Hall]; [constructor|].
  rewrite filter_cons. case_decide; [|done]. constructor; [done|].
  rewrite list.Forall_forall in Hall |- *. intros y [_ Hy]%list_elem_of_filter. auto.
Qed.

Lemma sorted_head (x : Z) l y : StronglySorted Z.le (x :: l) -> y ∈ x :: l -> x <= y.
Proof.
  intros [_ Hall]%StronglySorted_inv [->|Hy]%elem_of_cons; [done|].
  rewrite list.Forall_forall in Hall. auto.
Qed.

(** The directory the writer creates: a folder for every million of ids, none empty. *)
Record store_tree (folders : list Z) (files_of : Z -> list Z) : Prop := {
  tree_nodup : NoDup folders;
  tree_folder : forall f, f ∈ folders -> f mod 1000000 = 0 /\ files_of f <> [];
  tree_file : forall f x, f ∈ folders -> x ∈ files_of f -> f <= x < f + 1000000
}.

Section Find.
Context (folders : list Z) (files_of : Z -> list Z) (Htree : store_tree folders files_of).

(** The least file of the store that is not below [b]. *)
Definition least_file (b : Z) (r : option Z) : Prop :=
  match r with
  | Some x => b <= x /\ (exists f, f ∈ folders /\ x ∈ files_of f) /\
      forall f y, f ∈ folders -> y ∈ files_of f -> b <= y -> x <= y
  | None => forall f y, f ∈ folders -> y ∈ files_of f -> y < b
  end.

(** The first file of the first of the remaining folders [it], when all others end below
    [b]. *)
Lemma front_spec it b :
  StronglySorted Z.le it -> (forall f, f ∈ it -> f ∈ folders /\ b <= f) ->
  (forall f y, f ∈ folders -> y ∈ files_of f -> b <= y -> f ∈ it) ->
  exists r, (match it with
             | [] => Ret None
             | f :: _ => match sorted_ids (files_of f) with
                         | [] => Undef out_of_bounds
                         | x :: _ => Ret (Some x)
                         end
             end) = Ret r /\ least_file b r.
Proof using All.
  intros Hs Hin Hrest. destruct it as [|f it].
  - exists None. split; [done|]. intros f y Hf Hy. destruct (Z.lt_ge_cases y b) as [?|Hb]; [done|].
    by apply (Hrest f y Hf Hy) in Hb as ?%elem_of_nil.
  - destruct (Hin f) as [Hf Hbf]; [set_solver|]. destruct (tree_folder _ _ Htree f Hf) as [Hfm Hne].
    destruct (sorted_ids (files_of f)) as [|x l] eqn:E.
    { exfalso. destruct (files_of f) as [|y ys] eqn:Ef; [done|].
      assert (Hy : y ∈ sorted_ids (y :: ys)) by (apply elem_of_sorted_ids; set_solver).
      rewrite E in Hy. by apply elem_of_nil in Hy. }
    assert (Hx : x ∈ files_of f) by (apply elem_of_sorted_ids; rewrite E; set_solver).
    pose proof (tree_file _ _ Htree f x Hf Hx) as Hfx.
    exists (Some x). split; [done|]. split_and!; [lia|by exists f|]. intros f' y Hf' Hy Hby.
    pose proof (tree_file _ _ Htree f' y Hf' Hy) as Hfy.
    assert (Hle : f <= f') by (eapply sorted_head; [exact Hs|by eapply Hrest]).
    destruct (decide (f = f')) as [<-|Hneq].
    + eapply sorted_head; [rewrite <- E; apply sorted_ids_sorted|]. rewrite <- E. by apply elem_of_sorted_ids.
    + destruct (tree_folder _ _ Htree f' Hf') as [Hfm' _].
      pose proof (Z.div_mod f 1000000 ltac:(lia)). pose proof (Z.div_mod f' 1000000 ltac:(lia)). lia.
Qed.
End Find.

Lemma million_step f g : f mod 1000000 = 0 -> g mod 1000000 = 0 -> f < g -> f + 1000000 <= g.
Proof.
  intros Hf Hg Hlt. pose proof (Z.div_mod f 1000000 ltac:(lia)). pose proof (Z.div_mod g 1000000 ltac:(lia)). lia.
Qed.

(** The block of an image lies in its folder. *)
Lemma block_in_folder id :
  let T := id / 1000000 * 1000000 in let b := id / 1000 * 1000 in
  T mod 1000000 = 0 /\ T <= b < T + 1000000.
Proof.
  intros T b. split; [apply Z_mod_mult|]. unfold T, b.
  assert (E : id / 1000000 = id / 1000 / 1000) by (rewrite Z.div_div by lia; done).
  rewrite E. pose proof (Z.div_mod (id / 1000) 1000 ltac:(lia)).
  pose proof (Z.mod_pos_bound (id / 1000) 1000 ltac:(lia)). lia.
Qed.

Section FindIn.
Context (folders : list Z) (files_of : Z -> list Z) (Htree : store_tree folders files_of).
Context (T b : Z) (HT : T mod 1000000 = 0) (HTb : T <= b < T + 1000000).

Lemma folder_of_file f y : f ∈ folders -> y ∈ files_of f -> b <= y -> T <= f.
Proof using All.
  intros Hf Hy Hby. destruct (tree_folder _ _ Htree f Hf) as [Hfm _].
  pose proof (tree_file _ _ Htree f y Hf Hy). destruct (Z.lt_ge_cases f T) as [Hlt|]; [|done].
  pose proof (million_step f T Hfm HT Hlt). lia.
Qed.

(** The folder of the image exists and has a file at or behind the block. *)
Lemma target_file x l :
  T ∈ folders -> lower_bound (sorted_ids (files_of T)) b = x :: l ->
  least_file folders files_of b (Some x).
Proof using All.
  intros HTf Ex.
  destruct (lower_bound_spec (sorted_ids (files_of T)) b (sorted_ids_sorted _)) as [Hs2 Hin2].
  rewrite Ex in Hs2, Hin2. destruct (Hin2 x) as [[Hbx Hx] _]; [set_solver|].
  rewrite elem_of_sorted_ids in Hx.
  split_and!; [done|by exists T|]. intros g y Hg Hy Hby. pose proof (folder_of_file g y Hg Hy Hby).
  destruct (decide (g = T)) as [->|Hgt].
  - eapply sorted_head; [exact Hs2|]. apply Hin2. split; [done|]. by apply elem_of_sorted_ids.
  - destruct (tree_folder _ _ Htree g Hg) as [Hgm _]. pose proof (million_step T g HT Hgm ltac:(lia)).
    pose proof (tree_file _ _ Htree g y Hg Hy). pose proof (tree_file _ _ Htree T x HTf Hx). lia.
Qed.

(** The folders behind the image's one, when it has no such file. *)
Lemma later_folder rest g :
  lower_bound (sorted_ids folders) T = T :: rest -> g ∈ rest -> g ∈ folders /\ b <= g.
Proof using All.
  intros El Hg.
  destruct (lower_bound_spec (sorted_ids folders) T (sorted_ids_sorted folders)) as [_ Hin].
  rewrite El in Hin. destruct (Hin g) as [[HTg Hgf] _]; [set_solver|].
  rewrite elem_of_sorted_ids in Hgf.
  split; [done|]. assert (Hnd : NoDup (lower_bound (sorted_ids folders) T)).
  { apply list.NoDup_filter. unfold sorted_ids. rewrite (merge_sort_Permutation Z.le folders).
    apply (tree_nodup _ _ Htree). }
  rewrite El in Hnd. apply list.NoDup_cons in Hnd as [Hnot _].
  assert (g <> T) by (intros ->; done). destruct (tree_folder _ _ Htree g Hgf) as [Hgm _].
  pose proof (million_step T g HT Hgm ltac:(lia)). lia.
Qed.
End FindIn.

Lemma first_file_least folders files_of id :
  store_tree folders files_of ->
  exists r, get_first_matching_root_id folders files_of id = Ret r /\
    least_file folders files_of (id / 1000 * 1000) r.
Proof.
  intros Htree. unfold get_first_matching_root_id.
  destruct (block_in_folder id) as [HT HTb].
  set (T := id / 1000000 * 1000000) in *. set (b := id / 1000 * 1000) in *.
  destruct (lower_bound_spec (sorted_ids folders) T (sorted_ids_sorted folders)) as [Hs Hin].
  assert (Hfold : forall f y, f ∈ folders -> y ∈ files_of f -> b <= y ->
    f ∈ lower_bound (sorted_ids folders) T).
  { intros f y Hf Hy Hby. apply Hin. rewrite elem_of_sorted_ids. split; [|done].
    by apply (folder_of_file folders files_of Htree T b HT HTb f y). }
  pose proof (later_folder folders files_of Htree T b HT HTb) as Hlater.
  destruct (sorted_ids folders) as [|f0 fs0] eqn:Efs.
  { exists None. split; [done|]. intros f y Hf. rewrite <- elem_of_sorted_ids, Efs in Hf. by apply elem_of_nil in Hf. }
  destruct (lower_bound (f0 :: fs0) T) as [|f rest] eqn:El.
  { exists None. split; [done|]. intros f y Hf Hy. destruct (Z.lt_ge_cases y b) as [?|Hb]; [done|].
    specialize (Hfold f y Hf Hy Hb). by apply elem_of_nil in Hfold. }
  destruct (Hin f) as [[HTf Hf] _]; [set_solver|]. rewrite <- Efs, elem_of_sorted_ids in Hf.
  destruct (Z.eqb_spec f T) as [->|Hne].
  - destruct (lower_bound (sorted_ids (files_of T)) b) as [|x l] eqn:Ex.
    + apply (front_spec folders files_of Htree rest b).
      * by apply StronglySorted_inv in Hs as [Hs _].
      * intros g Hg. by apply (Hlater rest).
      * intros g y Hg Hy Hby. pose proof (Hfold g y Hg Hy Hby) as [->|?]%elem_of_cons; [|done]. exfalso.
        assert (Hyx : y ∈ lower_bound (sorted_ids (files_of T)) b)
          by (apply lower_bound_spec; [apply sorted_ids_sorted|]; split; [done|by apply elem_of_sorted_ids]).
        rewrite Ex in Hyx. by apply elem_of_nil in Hyx.
    + exists (Some x). split; [done|]. by apply (target_file folders files_of Htree T b HT HTb x l).
  - apply (front_spec folders files_of Htree (f :: rest) b); [done| |done].
    intros g Hg. assert (Hfg : f <= g) by (by eapply sorted_head).
    destruct (Hin g) as [[_ Hgf] _]; [set_solver|]. rewrite <- Efs, elem_of_sorted_ids in Hgf.
    split; [done|]. destruct (tree_folder _ _ Htree f Hf) as [Hfm _].
    pose proof (million_step T f HT Hfm ltac:(lia)). lia.
Qed.

(** In a directory as the writer creates it, [get_first_matching_root_id] returns the least
    file at or behind the block of the requested image, over all folders, and nothing only
    when there is none. *)
Lemma first_matching_file_least folders files_of id :
  store_tree folders files_of ->
  exists r, get_first_matching_root_id folders files_of id = Ret r /\
    least_file folders files_of (id / 1000 * 1000) r.
Proof. apply first_file_least. Qed.

Lemma first_matching_file_least_witness :
  exists r, get_first_matching_root_id [2000000; 0] (fun f => [f + 5000; f]) 1002345 = Ret r /\
    least_file [2000000; 0] (fun f => [f + 5000; f]) (1002345 / 1000 * 1000) r.
Proof.
  apply (first_matching_file_least [2000000; 0] (fun f => [f + 5000; f]) 1002345).
  split.
  - apply (bool_decide_unpack (NoDup [2000000; 0])). vm_compute. exact I.
  - intros f Hf. split; [|discriminate]. repeat (apply elem_of_cons in Hf as [->|Hf]; [reflexivity|]).
    by apply elem_of_nil in Hf.
  - intros f x _ Hx. apply elem_of_cons in Hx as [->|Hx]; [lia|].
    apply list_elem_of_singleton in Hx as ->. lia.
Defined.
