(* ===== verification/BufferReader.v ===== *)
(** * std-buffer-reader: the loader and the request loop

    [src/source/std-buffer/std-buffer-reader/src]: [buffer_handler.cpp] (class [BufferHandler])
    and [main.cpp].  A loader thread reads the images of one file after the other into the RAM
    buffer and queues their metadata; the thread of the request loop takes them from the queue.
    The two threads are a step relation: a step is what a thread does while it holds the mutex,
    or between two times it does.  What the loader gets from the store is the interface
    [ImageStore], which [FileStore] provides ([file_image_store]). *)

From stdpp Require Import pretty sorting.
From S2P Require Import Prelude Protocol Config RamBuffer Stats Sockets FileStore.

(** ** What the loader relies on *)

(** [world]: the RAM buffer and the position in the files.  [catalog] are the ids of the stored
    images; [shows w meta]: [meta] describes a stored image whose pixels its slot has. *)
Class ImageStore (world : Type) : Type := {
  fetch : Z -> outcome (option (list pb_buffered));
  load : world -> pb_buffered -> outcome (world * pb_image);
  catalog : list Z;
  n_slots : Z;
  shows : world -> pb_image -> Prop;
  world_ok : world -> Prop;
  known : pb_buffered -> Prop
}.

Definition buffered_id (bm : pb_buffered) : Z := pb_image_id (pb_metadata bm).

(** The images of the file that starts at [first]. *)
Definition file_ids (ids : list Z) (first : Z) : list Z := base.filter (fun x => first <= x < first + 1000) ids.

Class ImageStoreLaws (world : Type) `{ImageStore world} : Prop := {
  catalog_sorted : StronglySorted Z.lt catalog;
  catalog_range : Forall (fun x => 0 <= x < 2 ^ 64 - 1000) catalog;
  slots_enough : 1000 <= n_slots;
  fetch_total id : exists r, fetch id = Ret r;
  fetch_file id l : fetch id = Ret (Some l) ->
    l <> [] /\ Forall known l /\
    exists first, first mod 1000 = 0 /\ id < first + 1000 /\ buffered_id <$> l = file_ids catalog first /\
      forall x, x ∈ catalog -> id <= x -> first <= x;
  fetch_none id : fetch id = Ret None -> forall x, x ∈ catalog -> x < id;
  load_image w bm : world_ok w -> known bm ->
    exists w' meta, load w bm = Ret (w', meta) /\ world_ok w' /\ pb_image_id meta = buffered_id bm /\
      shows w' meta /\
      forall other, shows w other -> pb_image_id other mod n_slots <> buffered_id bm mod n_slots -> shows w' other
}.

(** ** The handler *)

Record BufferHandler : Type := {
  metadatas_ : list pb_image;
  running_ : bool;
  loader_active_ : bool;
  no_more_data_ : bool;
  loader_image_id_ : Z
}.

(** The constructor with [start_loader]. *)
Definition BufferHandler_new : BufferHandler :=
  {| metadatas_ := []; running_ := true; loader_active_ := false; no_more_data_ := false; loader_image_id_ := 0 |}.

(** [stop_loader], and the destructor before it joins the thread. *)
Definition stop_loader (b : BufferHandler) : BufferHandler :=
  {| metadatas_ := metadatas_ b; running_ := false; loader_active_ := loader_active_ b;
     no_more_data_ := no_more_data_ b; loader_image_id_ := loader_image_id_ b |}.

Definition set_metadatas (b : BufferHandler) (q : list pb_image) : BufferHandler :=
  {| metadatas_ := q; running_ := running_ b; loader_active_ := loader_active_ b;
     no_more_data_ := no_more_data_ b; loader_image_id_ := loader_image_id_ b |}.

Definition try_pop_image (image_id : Z) (b : BufferHandler) : option pb_image * BufferHandler :=
  match metadatas_ b with
  | metadata :: rest =>
      if image_id <=? pb_image_id metadata then (Some metadata, set_metadatas b rest) else (None, b)
  | [] => (None, b)
  end.

Definition request_loader_if_needed (image_id : Z) (b : BufferHandler) : BufferHandler :=
  if negb (loader_active_ b) || negb (loader_image_id_ b =? image_id) then
    {| metadatas_ := metadatas_ b; running_ := running_ b; loader_active_ := true;
       no_more_data_ := no_more_data_ b; loader_image_id_ := image_id |}
  else b.

(** The condition [get_image] waits for. *)
Definition woken (b : BufferHandler) : bool := negb (bool_decide (metadatas_ b = [])) || no_more_data_ b.

(** The loader takes a request. *)
Definition take_request (b : BufferHandler) : BufferHandler :=
  {| metadatas_ := []; running_ := running_ b; loader_active_ := false; no_more_data_ := false;
     loader_image_id_ := loader_image_id_ b |}.

Definition set_no_more_data (b : BufferHandler) : BufferHandler :=
  {| metadatas_ := metadatas_ b; running_ := running_ b; loader_active_ := loader_active_ b;
     no_more_data_ := true; loader_image_id_ := loader_image_id_ b |}.

(** The second half of [read_single_image]. *)
Definition push_metadata (meta : pb_image) (b : BufferHandler) : BufferHandler :=
  {| metadatas_ := metadatas_ b ++ [meta]; running_ := running_ b;
     loader_active_ := if bool_decide (metadatas_ b = []) then false else loader_active_ b;
     no_more_data_ := no_more_data_ b; loader_image_id_ := loader_image_id_ b |}.

(** ** The threads *)

(** [get_image]: not called, or waiting. *)
Inductive reader_pc : Type := GIdle | GWait (image_id : Z).

(** [loader_loop]: waiting; about to fetch; with images to read; with an image that is read but
    not queued; with nothing found; ended. *)
Inductive loader_pc : Type :=
| LWait | LFetch | LLoad (todo : list pb_buffered) | LPush (meta : pb_image) (todo : list pb_buffered)
| LNone | LEnd.

(** [answers]: the calls of [get_image] that returned, the last one first. *)
Record reader (world : Type) : Type := {
  r_handler : BufferHandler;
  r_world : world;
  r_reader : reader_pc;
  r_loader : loader_pc;
  r_answers : list (Z * option pb_image)
}.
Arguments r_handler {world} _.
Arguments r_world {world} _.
Arguments r_reader {world} _.
Arguments r_loader {world} _.
Arguments r_answers {world} _.
Arguments Build_reader {world} _ _ _ _ _.

Section Threads.
Context {world : Type} `{ImageStore world}.

Definition reader_new (w : world) : reader world := Build_reader BufferHandler_new w GIdle LWait [].

(** Steps of [get_image(id)]. *)
Inductive get_image_step (id : Z) : reader world -> reader world -> Prop :=
| get_now b w l a meta b' :
    try_pop_image id b = (Some meta, b') ->
    get_image_step id (Build_reader b w GIdle l a) (Build_reader b' w GIdle l ((id, Some meta) :: a))
| get_wait b w l a b' :
    try_pop_image id b = (None, b') ->
    get_image_step id (Build_reader b w GIdle l a)
                      (Build_reader (request_loader_if_needed id b') w (GWait id) l a)
| get_woken b w l a r b' :
    woken b = true -> try_pop_image id b = (r, b') ->
    get_image_step id (Build_reader b w (GWait id) l a) (Build_reader b' w GIdle l ((id, r) :: a)).

(** Steps of [loader_loop]. *)
Inductive loader_step : reader world -> reader world -> Prop :=
| loader_take b w g a :
    loader_active_ b = true -> running_ b = true ->
    loader_step (Build_reader b w g LWait a) (Build_reader (take_request b) w g LFetch a)
| loader_end b w g a :
    running_ b = false -> loader_step (Build_reader b w g LWait a) (Build_reader b w g LEnd a)
| loader_found b w g a l :
    fetch (loader_image_id_ b) = Ret (Some l) ->
    loader_step (Build_reader b w g LFetch a) (Build_reader b w g (LLoad l) a)
| loader_nothing b w g a :
    fetch (loader_image_id_ b) = Ret None ->
    loader_step (Build_reader b w g LFetch a) (Build_reader b w g LNone a)
| loader_report b w g a :
    loader_step (Build_reader b w g LNone a) (Build_reader (set_no_more_data b) w g LWait a)
| loader_read b w g a bm todo w' meta :
    load w bm = Ret (w', meta) ->
    loader_step (Build_reader b w g (LLoad (bm :: todo)) a) (Build_reader b w' g (LPush meta todo) a)
| loader_push b w g a meta todo :
    loader_step (Build_reader b w g (LPush meta todo) a) (Build_reader (push_metadata meta b) w g (LLoad todo) a)
| loader_file_done b w g a :
    loader_step (Build_reader b w g (LLoad []) a) (Build_reader b w g LWait a)
| loader_stopped b w g a todo :
    running_ b = false -> loader_step (Build_reader b w g (LLoad todo) a) (Build_reader b w g LEnd a).

(** The client that replays: it starts at image [start], asks for the one behind the last it got,
    and stops when there is none. *)
Definition next_request (start : Z) (s : reader world) (id : Z) : Prop :=
  match r_answers s with
  | [] => id = start
  | (_, Some meta) :: _ => id = pb_image_id meta + 1
  | (_, None) :: _ => False
  end.

Inductive replay_step (start : Z) : reader world -> reader world -> Prop :=
| replay_get id s s' :
    get_image_step id s s' -> (r_reader s = GIdle -> next_request start s id) -> replay_step start s s'
| replay_loader s s' : loader_step s s' -> replay_step start s s'.
End Threads.

(** ** Parts of a sorted list *)

Lemma list_filter_nil (P : Z -> Prop) `{!forall x, Decision (P x)} (l : list Z) :
  (forall x, x ∈ l -> ~ P x) -> base.filter P l = [].
Proof.
  induction l as [|a l IH]; intros Hp; [done|]. rewrite filter_cons, decide_False by (apply Hp; by left).
  apply IH. intros x Hx. apply Hp. by right.
Qed.

Lemma filter_ext_in (P Q : Z -> Prop) `{!forall x, Decision (P x), !forall x, Decision (Q x)} (l : list Z) :
  (forall x, x ∈ l -> P x <-> Q x) -> base.filter P l = base.filter Q l.
Proof.
  induction l as [|a l IH]; intros Hpq; [done|]. rewrite !filter_cons, IH by set_solver.
  destruct (Hpq a) as [H1 H2]; [set_solver|]. destruct (decide (P a)), (decide (Q a)); naive_solver.
Qed.

Lemma sorted_filter_cons (P : Z -> Prop) `{!forall x, Decision (P x)} (l : list Z) a r :
  StronglySorted Z.lt l -> base.filter P l = a :: r ->
  P a /\ a ∈ l /\ (forall x, x ∈ l -> P x -> a <= x) /\ r = base.filter (fun x => P x /\ a < x) l.
Proof.
  induction 1 as [|b l Hs IH Hall]; [done|]. rewrite !filter_cons. rewrite list.Forall_forall in Hall.
  destruct (decide (P b)) as [Hb|Hb].
  - intros [= -> <-]. split_and!; [done|set_solver| |].
    + intros x [->|Hx]%elem_of_cons _; [done|]. specialize (Hall x Hx). lia.
    + rewrite decide_False by lia. apply filter_ext_in. intros x Hx. specialize (Hall x Hx). naive_solver.
  - intros E. destruct (IH E) as (Ha & Hin & Hmin & ->). split_and!; [done|set_solver| |].
    + intros x [->|Hx]%elem_of_cons Px; [done|]. auto.
    + rewrite decide_False by naive_solver. done.
Qed.

(** The least element from [n] on comes behind those in front of [n]. *)
Lemma sorted_filter_snoc (l : list Z) a n m :
  StronglySorted Z.lt l -> m ∈ l -> n <= m -> a <= n -> (forall x, x ∈ l -> n <= x -> m <= x) ->
  base.filter (fun x => a <= x < n) l ++ [m] = base.filter (fun x => a <= x < m + 1) l.
Proof.
  intros Hs Hin Hn Ha Hmin. induction Hs as [|b l Hs IH Hall]; [by apply elem_of_nil in Hin|].
  rewrite list.Forall_forall in Hall. rewrite !filter_cons. apply elem_of_cons in Hin as [->|Hin].
  - rewrite (decide_False (P := a <= b < n)), (decide_True (P := a <= b < b + 1)) by lia.
    rewrite !list_filter_nil; [done|intros x Hx; specialize (Hall x Hx); lia..].
  - assert (Hb : b < m) by auto. assert (b < n).
    { destruct (Z.lt_ge_cases b n) as [|Hge]; [done|]. assert (m <= b); [|lia]. apply Hmin; [by left|done]. }
    rewrite <- IH; [|done|intros x Hx; apply Hmin; by right].
    destruct (decide (a <= b < n)), (decide (a <= b < m + 1)); [done|lia|lia|done].
Qed.

(** ** The queue is what is left of a file *)

Section Invariant.
Context {world : Type} `{ImageStoreLaws world}.

(** The images the loader still has to queue, and all that are queued or will be. *)
Definition pending (l : loader_pc) : list Z :=
  match l with
  | LLoad todo => buffered_id <$> todo
  | LPush meta todo => pb_image_id meta :: (buffered_id <$> todo)
  | _ => []
  end.

Definition upcoming (s : reader world) : list Z :=
  (pb_image_id <$> metadatas_ (r_handler s)) ++ pending (r_loader s).

(** The image the client asks for, or is to ask for; [None] after the end, and at the start. *)
Definition wanted (s : reader world) : option Z :=
  match r_reader s with
  | GWait id => Some id
  | GIdle => match r_answers s with (_, Some meta) :: _ => Some (pb_image_id meta + 1) | _ => None end
  end.

Definition finished (s : reader world) : Prop :=
  match r_answers s with (_, None) :: _ => True | _ => False end.

(** [n] is wanted: what is to come is the part of a file from [lo] on, and no image in front of it
    is at or behind [n]. *)
Definition window (s : reader world) (n : Z) : Prop :=
  exists first lo, first mod 1000 = 0 /\ first <= lo /\
    upcoming s = base.filter (fun x => lo <= x < first + 1000) catalog /\
    (forall x, x ∈ catalog -> n <= x -> lo <= x) /\
    (r_reader s = GIdle -> first < n <= lo).

(** The slots that have to show their image: those queued or read, and the one just returned. *)
Definition visible (s : reader world) : list pb_image :=
  metadatas_ (r_handler s) ++
  match r_loader s with LPush meta _ => [meta] | _ => [] end ++
  match r_reader s, r_answers s with GIdle, (_, Some meta) :: _ => [meta] | _, _ => [] end.

(** An answer: the first stored image at or behind the requested one. *)
Definition right_answer (x : Z * option pb_image) : Prop :=
  match snd x with
  | Some meta => fst x <= pb_image_id meta /\ pb_image_id meta ∈ catalog /\
      forall y, y ∈ catalog -> fst x <= y -> pb_image_id meta <= y
  | None => True
  end.

Record reader_inv (s : reader world) : Prop := {
  ri_answers : Forall right_answer (r_answers s);
  ri_world : world_ok (r_world s);
  ri_running : running_ (r_handler s) = true /\ r_loader s <> LEnd;
  ri_known : Forall known (match r_loader s with LLoad t | LPush _ t => t | _ => [] end);
  ri_start : r_answers s = [] -> r_reader s = GIdle -> upcoming s = [] /\ r_loader s = LWait /\
    loader_active_ (r_handler s) = false;
  ri_window : forall n, wanted s = Some n -> ~ finished s -> r_loader s <> LFetch -> window s n;
  ri_fetch : forall n, wanted s = Some n -> ~ finished s -> r_loader s = LFetch ->
    metadatas_ (r_handler s) = [] /\ r_reader s = GWait n /\ loader_image_id_ (r_handler s) = n;
  ri_active : ~ finished s -> loader_active_ (r_handler s) = true ->
    exists n, r_reader s = GWait n /\ loader_image_id_ (r_handler s) = n /\
      match metadatas_ (r_handler s) with m :: _ => pb_image_id m < n | [] => True end;
  ri_shows : ~ finished s -> Forall (shows (r_world s)) (visible s);
  ri_live : forall n, r_reader s = GWait n -> ~ finished s;
  ri_waiting : forall n, r_reader s = GWait n -> woken (r_handler s) = false ->
    (r_loader s = LWait \/ r_loader s = LLoad []) -> loader_active_ (r_handler s) = true
}.

Lemma window_empty s n : upcoming s = [] -> window s n.
Proof.
  intros Hu. pose proof (Z.div_mod (n - 1) 1000 ltac:(lia)) as E. pose proof (Z.mod_pos_bound (n - 1) 1000 ltac:(lia)).
  exists (((n - 1) / 1000 - 1) * 1000), n. split_and!; [by apply Z.mod_mul|lia| |done|lia]. rewrite Hu. symmetry.
  induction catalog as [|x l IH]; [done|]. rewrite filter_cons, decide_False by lia. done.
Qed.

(** The first of the upcoming images is the wanted one, unless it is in front of it. *)
Lemma window_pop s n m rest :
  window s n -> upcoming s = pb_image_id m :: rest -> n <= pb_image_id m ->
  right_answer (n, Some m) /\
  forall s', upcoming s' = rest -> window s' (pb_image_id m + 1).
Proof.
  intros (first & lo & H1000 & Hlo & Hup & Hin & _) E Hn. rewrite E in Hup. symmetry in Hup.
  apply sorted_filter_cons in Hup as (Hm & Hc & Hmin & ->); [|apply catalog_sorted]. split.
  - split_and!; cbn; [done..|]. intros y Hy Hny. specialize (Hin y Hy Hny).
    destruct (decide (y < first + 1000)); [by apply Hmin|lia].
  - intros s' E'. exists first, (pb_image_id m + 1). split_and!; [done|lia| |done|lia]. rewrite E'.
    apply list_filter_iff. intros x. lia.
Qed.

(** Images of one file have different slots. *)
Lemma window_slots s n : window s n ->
  forall x y, x ∈ upcoming s -> (y ∈ upcoming s \/ (r_reader s = GIdle /\ y = n - 1)) -> x <> y ->
  y mod n_slots <> x mod n_slots.
Proof.
  intros (first & lo & _ & Hlo & Hup & Hin & Hidle) x y Hx Hy Hne. pose proof slots_enough as Hs.
  rewrite Hup in Hx, Hy. apply list_elem_of_filter in Hx as [Hx _].
  assert (Hb : first <= y < first + 1000).
  { destruct Hy as [[Hy _]%list_elem_of_filter|[Hr ->]]; [lia|]. specialize (Hidle Hr). lia. }
  intros E. destruct (Z.lt_total x y) as [Hlt|[->|Hlt]]; [|done|].
  - apply (near_ids_differ n_slots x y); [lia|lia|done].
  - apply (near_ids_differ n_slots y x); [lia|lia|done].
Qed.

Lemma upcoming_nodup s n : window s n -> NoDup (upcoming s).
Proof.
  intros (first & lo & _ & _ & -> & _). apply list.NoDup_filter. pose proof catalog_sorted as Hs.
  induction Hs as [|a l Hs IH Hall]; constructor; [|done]. rewrite list.Forall_forall in Hall.
  intros Ha. specialize (Hall a Ha). lia.
Qed.

(** An image leaves the queue: [get_now], or [get_woken] with an image. *)
Lemma inv_pop b w g l a n m q :
  let s := Build_reader b w g l a in
  reader_inv s -> wanted s = Some n -> ~ finished s -> metadatas_ b = m :: q -> n <= pb_image_id m ->
  (g = GIdle -> loader_active_ b = false) ->
  reader_inv (Build_reader (set_metadatas b q) w GIdle l ((n, Some m) :: a)).
Proof.
  intros s Hi Hw Hf Hq Hn Hact. pose proof Hi as [I1 I2 I3 I4 I5 I6 I7 I8 I9 I11 I10]. cbn in *.
  assert (Hl : l <> LFetch) by (intros ->; destruct (I7 n Hw Hf eq_refl) as (E & _); congruence).
  assert (Hu : upcoming s = pb_image_id m :: ((pb_image_id <$> q) ++ pending l)).
  { unfold upcoming, s. cbn. by rewrite Hq. }
  destruct (window_pop s n m _ (I6 n Hw Hf Hl) Hu Hn) as [Hans Hwin].
  assert (Hoff : loader_active_ b = false).
  { destruct (loader_active_ b) eqn:E; [|done]. destruct (I8 Hf eq_refl) as (n' & Hg & _ & Hlt). rewrite Hq in Hlt.
    unfold wanted, s in Hw. cbn in Hw. rewrite Hg in Hw. injection Hw as ->. lia. }
  split; cbn; try done.
  - by constructor.
  - intros n' [= <-] _ _. by apply Hwin.
  - intros _ E. congruence.
  - intros _. specialize (I9 Hf). rewrite list.Forall_forall in I9 |- *. intros x Hx. apply I9.
    unfold visible, s in *. cbn in *. rewrite Hq. set_solver.
Qed.

Lemma try_pop_inv id b r b' : try_pop_image id b = (r, b') ->
  match r with
  | Some m => exists q, metadatas_ b = m :: q /\ id <= pb_image_id m /\ b' = set_metadatas b q
  | None => b' = b /\ match metadatas_ b with m :: _ => pb_image_id m < id | [] => True end
  end.
Proof.
  unfold try_pop_image. destruct (metadatas_ b) as [|m q] eqn:Eq; [by intros [= <- <-]|].
  destruct (Z.leb_spec id (pb_image_id m)); intros [= <- <-]; eauto.
Qed.

Lemma inv_get_image start id s s' :
  reader_inv s -> get_image_step id s s' -> (r_reader s = GIdle -> next_request start s id) -> reader_inv s'.
Proof.
  intros Hi Hs Hnext. pose proof Hi as [I1 I2 I3 I4 I5 I6 I7 I8 I9 I11 I10].
  destruct Hs as [b w l a m b' E%try_pop_inv|b w l a b' E%try_pop_inv|b w l a r b' Hwk E%try_pop_inv]; cbn in *.
  - destruct E as (q & Hq & Hle & ->). specialize (Hnext eq_refl). unfold next_request in Hnext. cbn in Hnext.
    destruct a as [|[i0 [m0|]] a]; [| |done].
    { destruct (I5 eq_refl eq_refl) as [Hu _]. unfold upcoming in Hu. cbn in Hu. by rewrite Hq in Hu. }
    subst id. eapply (inv_pop b w GIdle l ((i0, Some m0) :: a)); try done; [by cbn; auto|].
    intros _. destruct (loader_active_ b) eqn:E; [|done]. by destruct (I8 (fun x => x) eq_refl) as (? & ? & _).
  - destruct E as [-> Hq]. specialize (Hnext eq_refl). unfold next_request in Hnext. cbn in Hnext.
    assert (Hnf : ~ finished (Build_reader b w GIdle l a)) 
      by (intros Hf; unfold finished in Hf; cbn in Hf; by destruct a as [|[? []] ?]).
    assert (Hreq : metadatas_ (request_loader_if_needed id b) = metadatas_ b /\
      running_ (request_loader_if_needed id b) = running_ b /\
      loader_active_ (request_loader_if_needed id b) = true /\ loader_image_id_ (request_loader_if_needed id b) = id).
    { unfold request_loader_if_needed. destruct (loader_active_ b) eqn:Ea, (Z.eqb_spec (loader_image_id_ b) id); cbn; auto. }
    destruct Hreq as (Hm & Hr & Ha & Hid).
    assert (Hl : l <> LFetch /\ window (Build_reader (request_loader_if_needed id b) w (GWait id) l a) id).
    { destruct a as [|[i0 [m0|]] a]; [| |done].
      - destruct (I5 eq_refl eq_refl) as (Hu & -> & _). split; [done|]. apply window_empty. unfold upcoming in *. cbn in *. by rewrite Hm.
      - assert (Hw : wanted (Build_reader b w GIdle l ((i0, Some m0) :: a)) = Some id) by (cbn; congruence).
        assert (Hl : l <> LFetch) by (intros ->; by destruct (I7 id Hw Hnf eq_refl) as (_ & ? & _)).
        split; [done|]. destruct (I6 id Hw Hnf Hl) as (first & lo & E0 & E1 & E2 & E3 & _). exists first, lo.
        split_and!; [done..| |done|done]. unfold upcoming in *. cbn in *. by rewrite Hm. }
    destruct Hl as [Hl Hwin]. split; cbn; try done.
    + by rewrite Hr.
    + intros n [= <-] _ _. exact Hwin.
    + intros _ _. exists id. by rewrite Hm.
    + intros _. specialize (I9 Hnf). rewrite list.Forall_forall in I9 |- *. intros x Hx. apply I9.
      unfold visible in *. cbn in *. rewrite Hm in Hx. set_solver.
  - destruct r as [m|].
    + destruct E as (q & Hq & Hle & ->).
      pose proof (I11 id eq_refl) as Hnf.
      by eapply (inv_pop b w (GWait id) l a id m q).
    + destruct E as [-> Hq]. split; cbn; try done; [by constructor|..]; intros; exfalso; auto.
Qed.

(** The loader moves without touching what is to come, the requests, or the slots. *)
Lemma inv_move b b' w g l l' a :
  reader_inv (Build_reader b w g l a) ->
  metadatas_ b' = metadatas_ b -> running_ b' = running_ b -> loader_active_ b' = loader_active_ b ->
  loader_image_id_ b' = loader_image_id_ b ->
  l <> LWait -> l <> LFetch -> l' <> LFetch -> l' <> LEnd -> pending l' = pending l ->
  (forall m t, l <> LPush m t) -> (forall m t, l' <> LPush m t) ->
  Forall known (match l' with LLoad t | LPush _ t => t | _ => [] end) ->
  (forall n, g = GWait n -> woken b' = false -> (l' = LWait \/ l' = LLoad []) -> loader_active_ b' = true) ->
  reader_inv (Build_reader b' w g l' a).
Proof.
  intros [I1 I2 I3 I4 I5 I6 I7 I8 I9 I11 I10] Em Er Ea Ei Hw Hf Hf' He Hp Hnp Hnp' Hk Hwait. cbn in *.
  assert (Hv : visible (Build_reader b' w g l' a) = visible (Build_reader b w g l a)).
  { unfold visible. cbn. rewrite Em. destruct l, l'; naive_solver. }
  split; cbn; try done.
  - rewrite Er. by destruct I3.
  - intros E1 E2. by destruct (I5 E1 E2) as (_ & ? & _).
  - intros n Hn Hfin _. destruct (I6 n Hn Hfin Hf) as (first & lo & E0 & E1 & E2 & E3 & E4). exists first, lo.
    split_and!; try done. unfold upcoming in *. cbn in *. by rewrite Em, Hp.
  - intros Hfin. rewrite Ea, Ei, Em. by apply I8.
  - intros Hfin. rewrite Hv. by apply I9.
Qed.

Lemma inv_take b w g a :
  reader_inv (Build_reader b w g LWait a) -> loader_active_ b = true -> running_ b = true ->
  reader_inv (Build_reader (take_request b) w g LFetch a).
Proof.
  intros [I1 I2 I3 I4 I5 I6 I7 I8 I9 I11 I10] Ha Hr. cbn in *. split; cbn; try done.
  - intros E1 E2. destruct (I5 E1 E2) as (_ & _ & E). congruence.
  - intros n Hn Hfin _. destruct (I8 Hfin Ha) as (n' & -> & <- & _). by injection Hn as <-.
  - intros Hfin. specialize (I9 Hfin). rewrite list.Forall_forall in I9 |- *. intros x Hx. apply I9.
    unfold visible in *. cbn in *. set_solver.
  - by intros n _ _ [|].
Qed.

Lemma inv_found b w g a l :
  reader_inv (Build_reader b w g LFetch a) -> fetch (loader_image_id_ b) = Ret (Some l) ->
  reader_inv (Build_reader b w g (LLoad l) a).
Proof.
  intros [I1 I2 I3 I4 I5 I6 I7 I8 I9 I11 I10] Hl. cbn in *.
  destruct (fetch_file _ _ Hl) as (Hne & Hk & first & H1000 & _ & Hids & Hmin). split; cbn; try done.
  - by destruct I3.
  - intros E1 E2. by destruct (I5 E1 E2) as (_ & ? & _).
  - intros n Hn Hfin _. destruct (I7 n Hn Hfin eq_refl) as (Hq & -> & <-). exists first, first.
    split_and!; try done. unfold upcoming. cbn. by rewrite Hq, Hids.
  - by intros n _ _ [|[= ->]].
Qed.

Lemma inv_nothing b w g a :
  reader_inv (Build_reader b w g LFetch a) -> reader_inv (Build_reader b w g LNone a).
Proof.
  intros [I1 I2 I3 I4 I5 I6 I7 I8 I9 I11 I10]. cbn in *. split; cbn; try done.
  - by destruct I3.
  - intros E1 E2. by destruct (I5 E1 E2) as (_ & ? & _).
  - intros n Hn Hfin _. apply window_empty. unfold upcoming. cbn. by destruct (I7 n Hn Hfin eq_refl) as (-> & _).
  - by intros n _ _ [|].
Qed.

Lemma inv_read b w g a bm todo w' meta :
  reader_inv (Build_reader b w g (LLoad (bm :: todo)) a) -> load w bm = Ret (w', meta) ->
  reader_inv (Build_reader b w' g (LPush meta todo) a).
Proof.
  intros [I1 I2 I3 I4 I5 I6 I7 I8 I9 I11 I10] Hl. cbn in *. apply Forall_cons_1 in I4 as [Hk Hks].
  destruct (load_image w bm I2 Hk) as (w1 & m1 & E & Hok & Hid & Hsh & Hfr). rewrite Hl in E. injection E as <- <-.
  split; cbn; try done.
  - by destruct I3.
  - intros E1 E2. by destruct (I5 E1 E2) as (_ & ? & _).
  - intros n Hn Hfin _. destruct (I6 n Hn Hfin) as (first & lo & E0 & E1 & E2 & E3 & E4); [done|]. exists first, lo.
    split_and!; try done. unfold upcoming in *. cbn in *. by rewrite Hid.
  - intros Hfin. specialize (I9 Hfin). rewrite list.Forall_forall in I9 |- *.
    assert (Hwanted : exists n, wanted (Build_reader b w g (LLoad (bm :: todo)) a) = Some n /\
      (g = GIdle -> exists i m r, a = (i, Some m) :: r /\ n = pb_image_id m + 1)).
    { destruct g as [|n]; [|by exists n]. destruct a as [|[i [m|]] r]; [by destruct (I5 eq_refl eq_refl) as (_ & ? & _)| |done].
      exists (pb_image_id m + 1). split; [done|]. eauto 6. }
    destruct Hwanted as (n & Hn & Hlast). pose proof (I6 n Hn Hfin) as Hwin. specialize (Hwin ltac:(done)).
    pose proof (upcoming_nodup _ _ Hwin) as Hnd. unfold upcoming in Hnd. cbn in Hnd.
    intros x Hx.
    assert (Hx' : x = meta \/ x ∈ visible (Build_reader b w g (LLoad (bm :: todo)) a)).
    { unfold visible in *. cbn in *. set_solver. }
    destruct Hx' as [->|Hx']; [done|]. apply Hfr; [by apply I9|]. unfold visible in Hx'. cbn in Hx'.
    apply elem_of_app in Hx' as [Hx'|Hx'].
    + apply (window_slots _ n Hwin); unfold upcoming; cbn; [set_solver| |].
      * left. apply elem_of_app. left. by apply list_elem_of_fmap_2.
      * intros E. apply list.NoDup_app in Hnd as (_ & Hdis & _). apply (Hdis (pb_image_id x)); [by apply list_elem_of_fmap_2|].
        rewrite <- E. by left.
    + destruct g; [|by apply elem_of_nil in Hx']. destruct (Hlast eq_refl) as (i & m & r & -> & ->). cbn in Hx'.
      apply list_elem_of_singleton in Hx' as ->.
      apply (window_slots _ _ Hwin); [unfold upcoming; cbn; set_solver|right; split; [done|lia]|].
      destruct Hwin as (first & lo & _ & _ & Hu & _ & Hidle). specialize (Hidle eq_refl).
      assert (Hb : buffered_id bm ∈ upcoming (Build_reader b w GIdle (LLoad (bm :: todo)) ((i, Some m) :: r)))
        by (unfold upcoming; cbn; set_solver).
      rewrite Hu in Hb. apply list_elem_of_filter in Hb as [Hb _]. lia.
  - by intros n _ _ [|].
Qed.

Lemma inv_push b w g a meta todo :
  reader_inv (Build_reader b w g (LPush meta todo) a) ->
  reader_inv (Build_reader (push_metadata meta b) w g (LLoad todo) a).
Proof.
  intros [I1 I2 I3 I4 I5 I6 I7 I8 I9 I11 I10]. cbn in *. split; cbn; try done.
  - by destruct I3.
  - intros E1 E2. by destruct (I5 E1 E2) as (_ & ? & _).
  - intros n Hn Hfin _. destruct (I6 n Hn Hfin) as (first & lo & E0 & E1 & E2 & E3 & E4); [done|]. exists first, lo.
    split_and!; try done. unfold upcoming in *. cbn in *. by rewrite fmap_app, <- app_assoc.
  - intros Hfin Ha. destruct (metadatas_ b) as [|m q] eqn:Eq.
    + rewrite bool_decide_eq_true_2 in Ha by done. done.
    + rewrite bool_decide_eq_false_2 in Ha by done. destruct (I8 Hfin Ha) as (n & Hg & Hi & Hlt). by exists n.
  - intros Hfin. specialize (I9 Hfin). unfold visible in *. cbn in *. rewrite <- app_assoc. exact I9.
  - intros n _ Hwk. unfold woken in Hwk. cbn in Hwk. rewrite bool_decide_eq_false_2 in Hwk by (by destruct (metadatas_ b)).
    done.
Qed.

Lemma inv_loader s s' : reader_inv s -> loader_step s s' -> reader_inv s'.
Proof.
  intros Hi Hs. pose proof Hi as [I1 I2 I3 I4 I5 I6 I7 I8 I9 I11 I10].
  destruct Hs as [b w g a Ha Hr|b w g a Hr|b w g a l Hl|b w g a Hl|b w g a|b w g a bm todo w' m Hl|b w g a m todo|b w g a|b w g a todo Hr]; cbn in *.
  - by apply inv_take.
  - destruct I3. congruence.
  - by apply inv_found.
  - by apply inv_nothing.
  - eapply (inv_move b); try done. intros n _ Hwk. unfold woken in Hwk. cbn in Hwk. by rewrite orb_true_r in Hwk.
  - by eapply inv_read.
  - by apply inv_push.
  - eapply (inv_move b); try done. intros n Hg Hwk _. by apply (I10 n); [| |right].
  - destruct I3. congruence.
Qed.

Lemma inv_new w : world_ok w -> reader_inv (reader_new w).
Proof. intros Hw. by split. Qed.

Lemma replay_inv start w s : world_ok w -> rtc (replay_step start) (reader_new w) s -> reader_inv s.
Proof.
  intros Hw Hr. assert (Hi : reader_inv (reader_new w)) by (by apply inv_new).
  induction Hr as [|s1 s2 s3 [id x y Hg Hn|x y Hl] _ IH]; [done| |]; apply IH; [by eapply inv_get_image|by eapply inv_loader].
Qed.
End Invariant.

(** ** When the reader reports the end *)

Section Complete.
Context {world : Type} `{ImageStoreLaws world}.

(** The last image of every file has the last id of the file's range: the writer went on to the
    next file when it did. *)
Definition full_files : Prop :=
  forall x, x ∈ catalog -> (x + 1) mod 1000 = 0 \/ exists y, y ∈ catalog /\ x < y /\ y / 1000 = x / 1000.

(** No image of the file of [n] is in front of [n]. *)
Definition at_file_start (n : Z) : Prop := forall x, x ∈ catalog -> ~ (n / 1000 * 1000 <= x < n).

Definition right_end (x : Z * option pb_image) : Prop :=
  snd x = None -> forall y, y ∈ catalog -> y < fst x.

(** What of the file of [n - 1] is left from [n] on is to come. *)
Definition rest_comes (s : reader world) (n : Z) : Prop :=
  n - 1 ∈ catalog /\ forall x, x ∈ catalog -> n <= x -> x / 1000 = (n - 1) / 1000 -> x ∈ upcoming s.

Record complete_inv (s : reader world) : Prop := {
  ci_answers : Forall right_end (r_answers s);
  ci_ahead : forall n, wanted s = Some n -> ~ finished s -> r_loader s <> LFetch ->
    forall x, x ∈ upcoming s -> n <= x;
  ci_rest : forall n, wanted s = Some n -> ~ finished s -> at_file_start n \/ rest_comes s n;
  ci_none : ~ finished s -> no_more_data_ (r_handler s) = true \/ r_loader s = LNone ->
    exists n, r_reader s = GWait n /\ forall x, x ∈ catalog -> x < n
}.

Context (Hfull : full_files).

Lemma rest_file_start s n : at_file_start n \/ rest_comes s n -> upcoming s = [] -> at_file_start n.
Proof.
  intros [Hn|[Hc Hr]] Hu; [done|]. rewrite Hu in Hr. intros x Hx Hb.
  destruct (Hfull _ Hc) as [E|(y & Hy & Hlt & E)].
  - replace (n - 1 + 1) with n in E by lia. pose proof (Z.div_mod n 1000 ltac:(lia)). lia.
  - assert (Hy' : y ∈ (@nil Z)) by (apply Hr; [done|lia|done]). by apply elem_of_nil in Hy'.
Qed.

(** Steps that leave what is to come, the reader and the answers as they are. *)
Lemma complete_move b b' w w' g l l' a :
  complete_inv (Build_reader b w g l a) ->
  upcoming (Build_reader b' w' g l' a) = upcoming (Build_reader b w g l a) ->
  l <> LFetch ->
  (no_more_data_ b' = true \/ l' = LNone -> no_more_data_ b = true \/ l = LNone) ->
  complete_inv (Build_reader b' w' g l' a).
Proof.
  intros [C1 C2 C3 C4] Hu Hl Hn. cbn in *. split; cbn; try done.
  - intros n Hw Hf _. rewrite Hu. by apply C2.
  - intros n Hw Hf. unfold rest_comes. rewrite Hu. by apply C3.
  - intros Hf Hd. by apply C4; [|apply Hn].
Qed.

Lemma complete_pop b w g l a n m q :
  let s := Build_reader b w g l a in
  reader_inv s -> complete_inv s -> wanted s = Some n -> ~ finished s -> metadatas_ b = m :: q ->
  n <= pb_image_id m -> l <> LFetch ->
  (no_more_data_ b = true \/ l = LNone -> False) ->
  complete_inv (Build_reader (set_metadatas b q) w GIdle l ((n, Some m) :: a)).
Proof.
  intros s Hi [C1 C2 C3 C4] Hw Hf Hq Hn Hl Hno.
  assert (Hu : upcoming s = pb_image_id m :: ((pb_image_id <$> q) ++ pending l)).
  { unfold upcoming, s. cbn. by rewrite Hq. }
  pose proof (ri_window s Hi n Hw Hf Hl) as Hwin.
  destruct (window_pop s n m _ Hwin Hu Hn) as [(_ & Hc & _) Hwin'].
  split; cbn; try done.
  - by constructor.
  - intros n' [= <-] _ _ x Hx.
    destruct (Hwin' (Build_reader (set_metadatas b q) w GIdle l ((n, Some m) :: a)) eq_refl)
      as (first & lo & _ & _ & E & _ & Hidle). unfold upcoming in E, Hx. cbn in E, Hx. rewrite E in Hx. apply list_elem_of_filter in Hx as [Hx _]. specialize (Hidle eq_refl). lia.
  - intros n' [= <-] _. right. unfold rest_comes. replace (pb_image_id m + 1 - 1) with (pb_image_id m) by lia.
    split; [done|]. intros x Hx Hlt Hb. destruct Hwin as (first & lo & H1000 & Hlo & E & _). unfold upcoming at 1. cbn.
    assert (Hm : pb_image_id m ∈ upcoming s) by (rewrite Hu; left). rewrite E in Hm.
    apply list_elem_of_filter in Hm as [Hm _].
    assert (Hxu : x ∈ upcoming s).
    { rewrite E. apply list_elem_of_filter. split; [|done]. pose proof (Z.div_mod first 1000 ltac:(lia)).
      assert (pb_image_id m / 1000 = first / 1000) by (symmetry; apply (Z.div_unique _ _ _ (pb_image_id m - first)); lia).
      pose proof (Z.div_mod x 1000 ltac:(lia)). pose proof (Z.mod_pos_bound x 1000 ltac:(lia)). lia. }
    rewrite Hu in Hxu. apply elem_of_cons in Hxu as [->|Hxu]; [lia|done].
Qed.

Lemma complete_get_image start id s s' : at_file_start start ->
  reader_inv s -> complete_inv s -> get_image_step id s s' -> (r_reader s = GIdle -> next_request start s id) ->
  complete_inv s'.
Proof.
  intros Hst Hi Hc Hs Hnext. pose proof Hi as [I1 I2 I3 I4 I5 I6 I7 I8 I9 I11 I10]. pose proof Hc as [C1 C2 C3 C4].
  destruct Hs as [b w l a m b' E%try_pop_inv|b w l a b' E%try_pop_inv|b w l a r b' Hwk E%try_pop_inv]; cbn in *.
  - destruct E as (q & Hq & Hle & ->). specialize (Hnext eq_refl). unfold next_request in Hnext. cbn in Hnext.
    destruct a as [|[i0 [m0|]] a]; [| |done].
    { destruct (I5 eq_refl eq_refl) as [Hu _]. unfold upcoming in Hu. cbn in Hu. by rewrite Hq in Hu. }
    subst id. eapply (complete_pop b w GIdle l ((i0, Some m0) :: a)); try done.
    + by cbn; auto.
    + intros ->. by destruct (I7 _ eq_refl (fun x => x) eq_refl) as (_ & ? & _).
    + intros Hd. by destruct (C4 (fun x => x) Hd) as (? & ? & _).
  - destruct E as [-> Hq]. specialize (Hnext eq_refl). unfold next_request in Hnext. cbn in Hnext.
    assert (Hu : upcoming (Build_reader (request_loader_if_needed id b) w (GWait id) l a) =
      upcoming (Build_reader b w GIdle l a)).
    { unfold upcoming, request_loader_if_needed. cbn. by destruct (_ || _). }
    assert (Hn : no_more_data_ (request_loader_if_needed id b) = no_more_data_ b)
      by (unfold request_loader_if_needed; by destruct (_ || _)).
    assert (Hnf : ~ finished (Build_reader b w GIdle l a))
      by (intros Hf; unfold finished in Hf; cbn in Hf; by destruct a as [|[? []] ?]).
    split; cbn; try done.
    + intros n [= <-] _ Hl. rewrite Hu. destruct a as [|[i0 [m0|]] a]; [| |done].
      * destruct (I5 eq_refl eq_refl) as (-> & _). intros x Hx. by apply elem_of_nil in Hx.
      * subst id. by apply C2.
    + intros n [= <-] _. unfold rest_comes. rewrite Hu. destruct a as [|[i0 [m0|]] a]; [left; by subst id| |done].
      subst id. by apply C3.
    + intros _. rewrite Hn. intros Hd. by destruct (C4 Hnf Hd) as (? & ? & _).
  - pose proof (I11 id eq_refl) as Hnf. destruct r as [m|].
    + destruct E as (q & Hq & Hle & ->). eapply (complete_pop b w (GWait id) l a id m q); try done.
      * intros ->. destruct (I7 _ eq_refl Hnf eq_refl) as (E & _). congruence.
      * intros Hd. destruct (C4 Hnf Hd) as (n & [= <-] & Hno).
        assert (Hl : l <> LFetch) by (intros ->; destruct (I7 _ eq_refl Hnf eq_refl) as (E & _); congruence).
        destruct (window_pop _ _ m ((pb_image_id <$> q) ++ pending l) (I6 id eq_refl Hnf Hl)) as [(_ & Hin & _) _]; [|done|].
        { unfold upcoming. cbn. by rewrite Hq. }
        specialize (Hno _ Hin). lia.
    + destruct E as [-> Hq]. split; cbn; try done.
      * constructor; [|done]. intros _. cbn. unfold woken in Hwk.
        assert (Hd : no_more_data_ b = true).
        { destruct (metadatas_ b) as [|m q] eqn:Eq; [by rewrite bool_decide_eq_true_2 in Hwk|].
          assert (Hl : l <> LFetch) by (intros ->; by destruct (I7 _ eq_refl Hnf eq_refl) as (? & _)).
          assert (id <= pb_image_id m); [|lia]. apply (C2 id eq_refl Hnf Hl). unfold upcoming. cbn. rewrite Eq. by left. }
        by destruct (C4 Hnf (or_introl Hd)) as (n & [= <-] & Hno).
Qed.

Lemma complete_loader s s' : reader_inv s -> complete_inv s -> loader_step s s' -> complete_inv s'.
Proof.
  intros Hi Hc Hs. pose proof Hi as [I1 I2 I3 I4 I5 I6 I7 I8 I9 I11 I10]. pose proof Hc as [C1 C2 C3 C4].
  destruct Hs as [b w g a Ha Hr|b w g a Hr|b w g a l Hl|b w g a Hl|b w g a|b w g a bm todo w' m Hl|b w g a m todo|b w g a|b w g a todo Hr]; cbn in *.
  - split; cbn; try done.
    + intros n Hn Hfin. left. destruct (I8 Hfin Ha) as (n' & -> & <- & Hq). injection Hn as <-.
      apply (rest_file_start _ _ (C3 _ eq_refl Hfin)). unfold upcoming. cbn.
      destruct (metadatas_ b) as [|m q] eqn:Eq; [done|].
      assert (loader_image_id_ b <= pb_image_id m); [|lia]. apply (C2 _ eq_refl Hfin ltac:(done)).
      unfold upcoming. cbn. rewrite Eq. by left.
    + by intros _ [|].
  - destruct I3. congruence.
  - destruct (fetch_file _ _ Hl) as (_ & _ & first & H1000 & Hid & Hids & Hmin).
    assert (Hst : forall n, wanted (Build_reader b w g LFetch a) = Some n ->
      ~ finished (Build_reader b w g LFetch a) -> at_file_start n /\ loader_image_id_ b = n /\ metadatas_ b = []).
    { intros n Hn Hfin. destruct (I7 n Hn Hfin eq_refl) as (Hq & _ & Hn'). split; [|done].
      apply (rest_file_start _ _ (C3 n Hn Hfin)). unfold upcoming. cbn. by rewrite Hq. }
    split; cbn; try done.
    + intros n Hn Hfin _ x. destruct (Hst n Hn Hfin) as (Hs & <- & Hq). unfold upcoming. cbn. rewrite Hq, Hids.
      intros [Hx Hin]%list_elem_of_filter. destruct (Z.le_gt_cases (loader_image_id_ b) x) as [|Hgt]; [done|].
      destruct (Hs x Hin). split; [|lia]. pose proof (Z.div_mod first 1000 ltac:(lia)).
      assert (loader_image_id_ b / 1000 = first / 1000); [|lia].
      symmetry. apply (Z.div_unique _ _ _ (loader_image_id_ b - first)); lia.
    + intros n Hn Hfin. left. by apply Hst.
    + intros Hfin [Hd|]; [|done]. by apply C4; [|left].
  - assert (Hg : ~ finished (Build_reader b w g LFetch a) -> forall n, wanted (Build_reader b w g LFetch a) = Some n -> g = GWait n /\ (forall x, x ∈ catalog -> x < n) /\ metadatas_ b = []).
    { intros Hfin n Hn. destruct (I7 n Hn Hfin eq_refl) as (Hq & -> & <-). split; [done|]. split; [|done].
      by apply fetch_none. }
    split; cbn; try done.
    + intros n Hn Hfin _ x. unfold upcoming. cbn. destruct (Hg Hfin n Hn) as (_ & _ & ->). intros Hx. by apply elem_of_nil in Hx.
    + intros Hfin _. destruct g as [|n]; [|exists n; by destruct (Hg Hfin n eq_refl) as (_ & ? & _)].
      destruct a as [|[i [m|]] a]; [by destruct (I5 eq_refl eq_refl) as (_ & ? & _)| |done].
      by destruct (Hg Hfin _ eq_refl) as (? & _).
  - apply (complete_move b _ w _ g LNone); try done. by right.
  - apply (complete_move b _ w _ g (LLoad (bm :: todo))); try done.
    + apply Forall_cons_1 in I4 as [Hk _]. destruct (load_image w bm I2 Hk) as (w1 & m1 & E & _ & Hid & _).
      rewrite Hl in E. injection E as <- <-. unfold upcoming. cbn. by rewrite Hid.
    + intros [|]; [by left|done].
  - apply (complete_move b _ w _ g (LPush m todo)); try done.
    + unfold upcoming. cbn. by rewrite fmap_app, <- app_assoc.
    + intros [|]; [by left|done].
  - apply (complete_move b _ w _ g (LLoad [])); try done. intros [|]; [by left|done].
  - destruct I3. congruence.
Qed.

Lemma replay_complete start w s : at_file_start start -> world_ok w ->
  rtc (replay_step start) (reader_new w) s -> complete_inv s.
Proof.
  intros Hst Hw Hr. assert (Hi : reader_inv (reader_new w) /\ complete_inv (reader_new w)).
  { split; [by apply inv_new|]. split; cbn; try done. by intros _ [|]. }
  induction Hr as [|s1 s2 s3 [id x y Hg Hn|x y Hl] _ IH]; [apply Hi| |]; apply IH; destruct Hi as [Hi Hc];
    split; [by eapply inv_get_image|by eapply complete_get_image|by eapply inv_loader|by eapply complete_loader].
Qed.
End Complete.

(** ** The wait of [get_image] ends *)

Section Wake.
Context {world : Type} `{ImageStoreLaws world}.

(** A request the loader has not taken finds an empty queue; [no_more_data_] is only set while
    the reader waits and the loader has nothing to do. *)
Record wake_inv (s : reader world) : Prop := {
  wi_active : ~ finished s -> loader_active_ (r_handler s) = true -> metadatas_ (r_handler s) = [];
  wi_quiet : ~ finished s -> no_more_data_ (r_handler s) = true ->
    r_loader s = LWait /\ metadatas_ (r_handler s) = [] /\ loader_active_ (r_handler s) = false /\
    exists n, r_reader s = GWait n;
  wi_busy : ~ finished s -> r_loader s = LFetch \/ r_loader s = LNone ->
    metadatas_ (r_handler s) = [] /\ loader_active_ (r_handler s) = false /\
    no_more_data_ (r_handler s) = false /\ exists n, r_reader s = GWait n
}.

Lemma wake_pop b w g l a n m q :
  wake_inv (Build_reader b w g l a) -> ~ finished (Build_reader b w g l a) -> metadatas_ b = m :: q ->
  wake_inv (Build_reader (set_metadatas b q) w GIdle l ((n, Some m) :: a)).
Proof.
  intros [W1 W2 W3] Hf Hq. cbn in *. rewrite Hq in *.
  split; cbn; intros _ E; exfalso; [by specialize (W1 Hf E)|by destruct (W2 Hf E) as (_ & ? & _)|by destruct (W3 Hf E) as (? & _)].
Qed.

Lemma wake_get_image start id s s' :
  reader_inv s -> wake_inv s -> get_image_step id s s' -> (r_reader s = GIdle -> next_request start s id) -> wake_inv s'.
Proof.
  intros Hi Hc Hs Hnext. pose proof Hi as [I1 I2 I3 I4 I5 I6 I7 I8 I9 I11 I10]. pose proof Hc as [W1 W2 W3].
  destruct Hs as [b w l a m b' E%try_pop_inv|b w l a b' E%try_pop_inv|b w l a r b' Hwk E%try_pop_inv]; cbn in *;
    try (specialize (Hnext eq_refl); unfold next_request in Hnext; cbn in Hnext).
  - destruct E as (q & Hq & _ & ->). eapply wake_pop; [done| |done].
    by destruct a as [|[i0 [m0|]] a]; cbn; auto.
  - destruct E as [-> Hq].
    assert (Hnf : ~ finished (Build_reader b w GIdle l a))
      by (intros Hf; unfold finished in Hf; cbn in Hf; by destruct a as [|[? []] ?]).
    assert (Hreq : metadatas_ (request_loader_if_needed id b) = metadatas_ b /\
      no_more_data_ (request_loader_if_needed id b) = no_more_data_ b).
    { unfold request_loader_if_needed. by destruct (_ || _). }
    destruct Hreq as [Hm Hn]. split; cbn; intros _ E; rewrite ?Hm, ?Hn in *.
    + destruct a as [|[i0 [m0|]] a]; [| |done].
      { destruct (I5 eq_refl eq_refl) as [Hu _]. unfold upcoming in Hu. cbn in Hu. by apply app_eq_nil in Hu as [?%fmap_nil_inv _]. }
      destruct (metadatas_ b) as [|m q] eqn:Eq; [done|exfalso].
      assert (Hl : l <> LFetch) by (intros ->; by destruct (I7 _ eq_refl Hnf eq_refl) as (? & _)).
      destruct (I6 _ eq_refl Hnf Hl) as (first & lo & _ & _ & Hu & _ & Hidle). specialize (Hidle eq_refl).
      assert (Hx : pb_image_id m ∈ upcoming (Build_reader b w GIdle l ((i0, Some m0) :: a)))
        by (unfold upcoming; cbn; rewrite Eq; by left).
      rewrite Hu in Hx. apply list_elem_of_filter in Hx as [Hx _]. lia.
    + by destruct (W2 Hnf E) as (_ & _ & _ & ? & ?).
    + by destruct (W3 Hnf E) as (_ & _ & _ & ? & ?).
  - pose proof (I11 id eq_refl) as Hnf. destruct r as [m|]; [|by split; cbn; intros []].
    destruct E as (q & Hq & _ & ->). by eapply wake_pop.
Qed.

Lemma wake_loader s s' : reader_inv s -> wake_inv s -> loader_step s s' -> wake_inv s'.
Proof.
  intros Hi [W1 W2 W3] Hs. pose proof Hi as [I1 I2 I3 I4 I5 I6 I7 I8 I9 I11 I10].
  destruct Hs as [b w g a Ha Hr|b w g a Hr|b w g a l Hl|b w g a Hl|b w g a|b w g a bm todo w' m Hl|b w g a m todo|b w g a|b w g a todo Hr]; cbn in *;
    try (destruct I3; congruence); split; cbn; try done; intros Hf E;
    try (by destruct E); try (by destruct (W2 Hf E) as (? & _)); try (by apply W1).
  - destruct (I8 Hf Ha) as (n & ? & _). eauto.
  - apply (W3 Hf). by left.
  - destruct (W3 Hf (or_intror eq_refl)) as (? & ? & _ & ?). auto.
  - destruct (bool_decide _) eqn:Eb; [done|]. apply bool_decide_eq_false in Eb. by destruct (Eb (W1 Hf E)).
Qed.

Lemma wake_inv_replay start w s : world_ok w -> rtc (replay_step start) (reader_new w) s -> wake_inv s.
Proof.
  intros Hw Hr. assert (Hi : reader_inv (reader_new w) /\ wake_inv (reader_new w)).
  { split; [by apply inv_new|]. split; cbn; try done. by intros _ [|]. }
  induction Hr as [|s1 s2 s3 [id x y Hg Hn|x y Hl] _ IH]; [apply Hi| |]; apply IH; destruct Hi as [Hi Hc];
    split; [by eapply inv_get_image|by eapply wake_get_image|by eapply inv_loader|by eapply wake_loader].
Qed.

(** While the reader waits only the loader steps.  [wakes_within k s]: it has a step as long as
    the condition does not hold, and after [k] steps at most it holds and stays. *)
Inductive wakes_within : nat -> reader world -> Prop :=
| wakes_now k s :
    (forall s', rtc loader_step s s' -> woken (r_handler s') = true) -> wakes_within k s
| wakes_later k s :
    (exists s', loader_step s s') -> (forall s', loader_step s s' -> wakes_within k s') ->
    wakes_within (S k) s.

Lemma woken_step n s s' : reader_inv s -> wake_inv s -> r_reader s = GWait n ->
  woken (r_handler s) = true -> loader_step s s' -> woken (r_handler s') = true /\ r_reader s' = GWait n.
Proof.
  intros Hi [W1 W2 W3] Hg Hwk Hs. pose proof (ri_live s Hi n Hg) as Hf. unfold woken in *.
  destruct Hs as [b w g a Ha Hr|b w g a Hr|b w g a l Hl|b w g a Hl|b w g a|b w g a bm todo w' m Hl|b w g a m todo|b w g a|b w g a todo Hr];
    cbn in *; try done.
  - rewrite (W1 Hf Ha) in Hwk. cbn in Hwk. destruct (W2 Hf Hwk) as (_ & _ & ? & _). congruence.
  - split; [by rewrite orb_true_r|done].
  - split; [|done]. by rewrite bool_decide_eq_false_2 by (by destruct (metadatas_ b)).
Qed.

Lemma woken_stays n s s' : reader_inv s -> wake_inv s -> r_reader s = GWait n ->
  woken (r_handler s) = true -> rtc loader_step s s' -> woken (r_handler s') = true.
Proof.
  intros Hi Hwi Hg Hwk Hr. induction Hr as [|s1 s2 s3 Hs _ IH]; [done|].
  destruct (woken_step n s1 s2 Hi Hwi Hg Hwk Hs) as [Hwk' Hg'].
  apply IH; [by eapply inv_loader|by eapply wake_loader|done|done].
Qed.

Definition loader_distance (l : loader_pc) : nat :=
  match l with
  | LLoad [] => 5 | LWait => 4 | LFetch => 3 | LLoad (_ :: _) => 2 | LPush _ _ => 1 | LNone => 1 | LEnd => 0
  end.

(** The loader has a step, and each of its steps brings it closer. *)
Lemma loader_progress n s : reader_inv s -> r_reader s = GWait n -> woken (r_handler s) = false ->
  (exists s', loader_step s s') /\
  forall s', loader_step s s' -> r_reader s' = GWait n /\
    (woken (r_handler s') = true \/ (loader_distance (r_loader s') < loader_distance (r_loader s))%nat).
Proof.
  intros Hi Hg Hwk. pose proof Hi as [I1 I2 [I3 I3'] I4 I5 I6 I7 I8 I9 I11 I10].
  destruct s as [b w g l a]. cbn in *. specialize (I10 n Hg Hwk). split.
  - destruct l as [| |[|bm todo]|m todo| |]; try done; eauto using @loader_step.
    + destruct (fetch_total (loader_image_id_ b)) as [[x|] Hx]; eauto using @loader_step.
    + apply Forall_cons_1 in I4 as [Hk _]. destruct (load_image w bm I2 Hk) as (w' & m & E & _). eauto using @loader_step.
  - intros s' Hs. inversion Hs; subst; cbn; split; try done; try (right; lia); try congruence.
    + match goal with Hx : fetch _ = _ |- _ => destruct (fetch_file _ _ Hx) as (Hne & _) end.
      right. match goal with l0 : list pb_buffered |- _ => by destruct l0; [|cbn; lia] end.
    + left. unfold woken. cbn. by rewrite orb_true_r.
    + left. unfold woken. cbn. by rewrite bool_decide_eq_false_2 by (by destruct (metadatas_ b)).
Qed.

Lemma wait_ends n k s : reader_inv s -> wake_inv s -> r_reader s = GWait n ->
  (loader_distance (r_loader s) <= k)%nat -> wakes_within k s.
Proof.
  revert s. induction k as [|k IH]; intros s Hi Hwi Hg Hd;
    (destruct (woken (r_handler s)) eqn:Hwk; [apply wakes_now; intros s'; by apply (woken_stays n)|]);
    destruct (loader_progress n s Hi Hg Hwk) as [Hex Hall].
  - destruct Hex as (s' & Hs). destruct (ri_running s Hi) as [_ Hne].
    by destruct (r_loader s) as [| |[|]| | |]; cbn in Hd; try lia.
  - apply wakes_later; [done|]. intros s' Hs. destruct (Hall s' Hs) as [Hg' Hor].
    assert (Hi' : reader_inv s') by (by apply (inv_loader s)). assert (Hwi' : wake_inv s') by (by apply (wake_loader s)).
    destruct Hor as [Hwk'|Hlt]; [apply wakes_now; intros s''; by apply (woken_stays n)|]. apply IH; auto; lia.
Qed.
End Wake.

(** ** The answers of a replay *)

Section Answers.
Context {world : Type} `{ImageStoreLaws world} (start : Z).

(** The image to ask for after the answers [a]. *)
Definition next_id (a : list (Z * option pb_image)) : Z :=
  match a with (_, Some meta) :: _ => pb_image_id meta + 1 | (id, None) :: _ => id | [] => start end.

(** Every request is for the image behind the last answer. *)
Fixpoint chained (a : list (Z * option pb_image)) : Prop :=
  match a with
  | [] => True
  | (id, _) :: rest => id = next_id rest /\ chained rest /\ match rest with (_, None) :: _ => False | _ => True end
  end.

(** The images returned, the first one first. *)
Definition returned (a : list (Z * option pb_image)) : list pb_image := omap snd (rev a).

Lemma next_request_chained (s : reader world) id r :
  next_request start s id -> chained (r_answers s) -> chained ((id, r) :: r_answers s).
Proof using Type.
  unfold next_request. cbn. intros Hn Hc. destruct (r_answers s) as [|[i [m|]] rest]; [by subst|by subst|done].
Qed.

Lemma replay_chained w s : rtc (replay_step start) (reader_new w) s ->
  chained (r_answers s) /\ forall n, r_reader s = GWait n -> next_request start s n.
Proof using Type.
  intros Hr. assert (Hi : chained (r_answers (reader_new w)) /\
    forall n, r_reader (reader_new w) = GWait n -> next_request start (reader_new w) n) by done.
  induction Hr as [|s1 s2 s3 Hs _ IH]; [done|]. apply IH. clear IH. destruct Hi as [Hc Hw].
  destruct Hs as [id s s' Hg Hn|s s' Hl].
  - destruct Hg as [b w0 l a m b' _|b w0 l a b' _|b w0 l a r b' _ _]; cbn in *.
    + split; [|done]. exact (next_request_chained (Build_reader b w0 GIdle l a) id (Some m) (Hn eq_refl) Hc).
    + split; [done|]. intros n [= <-]. by apply Hn.
    + split; [|done]. exact (next_request_chained (Build_reader b w0 (GWait id) l a) id r (Hw _ eq_refl) Hc).
  - by destruct Hl.
Qed.

(** What was returned is what is stored from the start on, up to the last image. *)
Lemma returned_ids a : chained a -> Forall right_answer a ->
  pb_image_id <$> returned a = base.filter (fun x => start <= x < next_id a) catalog /\ start <= next_id a.
Proof.
  induction a as [|[id r] a IH]; intros Hc Hr.
  - split; [|cbn; lia]. cbn. symmetry. apply list_filter_nil. intros x _. lia.
  - cbn in Hc. destruct Hc as (-> & Hc & Hrest). apply Forall_cons_1 in Hr as [Hr Hrs].
    destruct (IH Hc Hrs) as [E Hle]. unfold returned in *. cbn [rev]. rewrite omap_app, fmap_app, E. destruct r as [m|]; cbn.
    + destruct Hr as (Hm & Hin & Hmin). cbn in *. split; [|lia]. rewrite <- (sorted_filter_snoc catalog start (next_id a) (pb_image_id m));
        [done|apply catalog_sorted|done|done|lia|].
      intros x Hx Hnx. by apply Hmin.
    + rewrite app_nil_r. done.
Qed.
End Answers.

(** ** One request, start to end *)

Section OneRequest.
Context {world : Type} `{ImageStoreLaws world}.

Definition idle_handler (q : list pb_image) (i : Z) : BufferHandler :=
  {| metadatas_ := q; running_ := true; loader_active_ := false; no_more_data_ := false; loader_image_id_ := i |}.

(** The loader sleeps and nothing is queued: the request is answered from the first image of the
    file that is found, with nothing when that image is in front of the requested one. *)
Lemma request_run start id w a i bm l w' meta :
  next_request start (Build_reader (idle_handler [] i) w GIdle LWait a) id ->
  fetch id = Ret (Some (bm :: l)) -> load w bm = Ret (w', meta) ->
  rtc (replay_step start)
    (Build_reader (idle_handler [] i) w GIdle LWait a)
    (if id <=? pb_image_id meta then Build_reader (idle_handler [] id) w' GIdle (LLoad l) ((id, Some meta) :: a)
     else Build_reader (idle_handler [meta] id) w' GIdle (LLoad l) ((id, None) :: a)).
Proof.
  intros Hnext Hf Hl.
  eapply rtc_l; [apply (replay_get start id); [by apply get_wait|done]|].
  eapply rtc_l; [apply replay_loader, loader_take; reflexivity|]. cbn [request_loader_if_needed idle_handler loader_active_ negb orb].
  eapply rtc_l; [apply replay_loader, loader_found; exact Hf|].
  eapply rtc_l; [apply replay_loader, loader_read; exact Hl|].
  eapply rtc_l; [apply replay_loader, loader_push|].
  eapply rtc_l; [|reflexivity]. apply (replay_get start id); [|done].
  destruct (id <=? pb_image_id meta) eqn:E; (apply get_woken; [reflexivity|]); unfold try_pop_image; cbn; by rewrite E.
Qed.

(** A replay that starts in the middle of a file ends at once, although the image is stored. *)
Lemma replay_inside_file start w bm l : world_ok w ->
  fetch start = Ret (Some (bm :: l)) -> buffered_id bm < start ->
  exists s, rtc (replay_step start) (reader_new w) s /\ r_answers s = [(start, None)].
Proof.
  intros Hw Hf Hlt. destruct (fetch_file _ _ Hf) as (_ & [Hk _]%Forall_cons_1 & _).
  destruct (load_image w bm Hw Hk) as (w' & meta & Hl & _ & Hid & _).
  pose proof (request_run start start w [] 0 bm l w' meta eq_refl Hf Hl) as Hr.
  rewrite (proj2 (Z.leb_gt _ _)) in Hr by lia. eexists. split; [exact Hr|done].
Qed.

(** And one that reaches the last image of a file that is not full ends there: the same file is
    loaded again, whatever later files hold. *)
Lemma replay_short_file start w bm bm' l' : world_ok w ->
  fetch start = Ret (Some [bm]) -> start <= buffered_id bm ->
  fetch (buffered_id bm + 1) = Ret (Some (bm' :: l')) -> buffered_id bm' <= buffered_id bm ->
  exists s meta, rtc (replay_step start) (reader_new w) s /\
    r_answers s = [(buffered_id bm + 1, None); (start, Some meta)] /\ pb_image_id meta = buffered_id bm.
Proof.
  intros Hw Hf Hle Hf' Hlt. destruct (fetch_file _ _ Hf) as (_ & [Hk _]%Forall_cons_1 & _).
  destruct (fetch_file _ _ Hf') as (_ & [Hk' _]%Forall_cons_1 & _).
  destruct (load_image w bm Hw Hk) as (w' & meta & Hl & Hw' & Hid & _).
  destruct (load_image w' bm' Hw' Hk') as (w'' & meta' & Hl' & _ & Hid' & _).
  pose proof (request_run start start w [] 0 bm [] w' meta eq_refl Hf Hl) as Hr.
  rewrite (proj2 (Z.leb_le _ _)) in Hr by lia.
  pose proof (request_run start (buffered_id bm + 1) w' [(start, Some meta)] start bm' l' w'' meta'
    ltac:(cbn; lia) Hf' Hl') as Hr'.
  rewrite (proj2 (Z.leb_gt _ _)) in Hr' by lia.
  eexists _, meta. split; [|split; [|exact Hid]].
  - etransitivity; [exact Hr|]. eapply rtc_l; [apply replay_loader, loader_file_done|]. exact Hr'.
  - done.
Qed.
End OneRequest.
