(* ===== verification/ReplayStore.v ===== *)
(** * The files of the buffer writer as the reader's store

    The interface [ImageStore] of [BufferReader] implemented with [FileStore]: what
    std-buffer-writer recorded ([writer_step] over a list of images) is the catalogue, [fetch] is
    [fetch_next_metadatas] on the directory and the database it left, [load] is the first half of
    [read_single_image] into the reader's RAM buffer.  With it, the theorems on the threads of
    the reader are theorems on recording and replaying. *)

From stdpp Require Import pretty sorting.
From S2P Require Import Prelude OrderedMap Protocol Config RamBuffer FileStore BufferReader.

(** ** The ids in the database *)

Lemma keys_put_last k (m : omap_t unit) :
  Forall (fun x => x < k) (keys m) -> keys (om_put k tt m) = keys m ++ [k].
Proof.
  induction m as [|[x []] m IH]; [done|]. intros [Hx Hall]%Forall_cons_1. cbn in *.
  rewrite (proj2 (Z.ltb_ge _ _)), (proj2 (Z.eqb_neq _ _)) by lia. cbn. f_equal. by apply IH.
Qed.

Lemma writer_step_ids compress prefix ring m meta st st' :
  writer_step compress prefix ring m meta st = Ret st' ->
  redis_ids (ws_redis st') = om_put (pb_image_id meta) tt (redis_ids (ws_redis st)).
Proof.
  unfold writer_step. intros (? & _ & H)%obind_Ret_iff. apply obind_Ret_iff in H as (? & _ & H).
  apply obind_Ret_iff in H as (? & _ & H). destruct (fh_write _ _ _ _ _) as [[[? ?] ?] ?]. by injection H as <-.
Qed.

Lemma writer_run_ids compress prefix ring items st0 st :
  StronglySorted Z.lt (pb_image_id ∘ fst <$> items) -> keys (redis_ids (ws_redis st0)) = [] ->
  foldO (fun st it => writer_step compress prefix ring (snd it) (fst it) st) items st0 = Ret st ->
  keys (redis_ids (ws_redis st)) = pb_image_id ∘ fst <$> items.
Proof.
  revert st. induction items as [|it items IH] using rev_ind; intros st Hs H0; [by intros [= <-]|].
  rewrite foldO_app. intros (st1 & H1 & H)%obind_Ret_iff. cbn [foldO] in H.
  apply obind_Ret_iff in H as (st2 & H2 & [= <-]). rewrite fmap_app in Hs |- *.
  apply writer_step_ids in H2 as ->. specialize (IH st1 ltac:(by eapply StronglySorted_app_1_l) H0 H1).
  rewrite keys_put_last; [by rewrite IH|]. rewrite IH. apply list.Forall_forall. intros x Hx.
  by eapply (StronglySorted_app_1_elem_of Z.lt); [exact Hs|done|apply list_elem_of_singleton].
Qed.

Lemma to_double_exact x : x < 2 ^ 53 -> to_double x = x.
Proof. intros Hx. unfold to_double. by rewrite (proj2 (Z.ltb_lt _ _)). Qed.

(** Two filters that agree on the elements of a list. *)
Lemma list_filter_iff_strong (P Q : Z -> Prop) `{!forall x, Decision (P x)} `{!forall x, Decision (Q x)} l :
  Forall (fun x => P x <-> Q x) l -> base.filter P l = base.filter Q l.
Proof.
  induction 1 as [|x l Hx _ IH]; [done|]. rewrite !filter_cons. do 2 case_decide; try tauto; by rewrite IH.
Qed.

(** ** The store *)

Section FileImages.
Variable (blosc2_compress : list Z -> option (list Z)).
Variable (blosc2_decompress : list Z -> Z -> option (list Z)).
Variable (max_overhead : Z).
Variable (prefix root : string).
(** The RAM buffers of the writer and of the reader. *)
Variable (writer_ring reader_ring : RamBuffer).
(** What was recorded: metadata with the contents of the writer's RAM buffer at that time. *)
Variable (items : list (pb_image * list Z)).
(** What the recording left, and the directory the reader lists. *)
Variable (st : writer_state) (folders : list Z) (files_of : Z -> list Z).

Definition item_id (it : pb_image * list Z) : Z := pb_image_id (fst it).
Definition item_bytes (it : pb_image * list Z) : outcome (list Z) := image_bytes writer_ring (snd it) (fst it).

Definition load_image_from_file (w : list Z * FileHandler) (bm : pb_buffered) :
  outcome ((list Z * FileHandler) * pb_image) :=
  let! '(m, h, meta) := read_single_image blosc2_decompress max_overhead reader_ring (ws_files st) (fst w) (snd w) bm in
  Ret ((m, h), meta).

(** [meta] describes a recorded image, uncompressed, and its slot has the bytes the writer's RAM
    buffer had when it was recorded. *)
Definition replayed (m : list Z) (meta : pb_image) : Prop :=
  exists it d off, it ∈ items /\ item_bytes it = Ret d /\
    meta = set_size_compression (fst it) (zlen d) cp_none /\
    get_data reader_ring (pb_image_id meta) = Ret off /\ mem_read m off (zlen d) = Ret d.

#[local] Instance file_image_store : ImageStore (list Z * FileHandler) := {|
  fetch := fetch_next_metadatas prefix (ws_redis st) folders files_of;
  load := load_image_from_file;
  catalog := item_id <$> items;
  n_slots := n_slots_ reader_ring;
  shows w := replayed (fst w);
  world_ok w := zlen (fst w) = buffer_bytes_ reader_ring /\ root_directory_ (snd w) = root /\ reads_well (snd w);
  known bm := exists it, it ∈ items /\ get_metadata prefix (ws_redis st) (item_id it) = Some bm
|}.

(** A recording: the images come in order, with ids that are exact as [double], are complete, and fit
    the slots of the reader.  The writer has closed its stream, so that its files are on disk
    ([closed_on_disk]), and no record of the database has expired. *)
Record recording : Prop := {
  rec_sorted : StronglySorted Z.lt (item_id <$> items);
  rec_ids : Forall (fun it => 0 <= item_id it < 2 ^ 53 - 1000) items;
  rec_bytes : Forall (fun it => exists d, item_bytes it = Ret d /\ 0 < zlen d <= data_bytes_ reader_ring) items;
  rec_size : total_size blosc2_compress writer_ring items < 2 ^ 64;
  rec_run : foldO (fun st it => writer_step blosc2_compress prefix writer_ring (snd it) (fst it) st) items
      {| ws_handler := FileHandler_new root; ws_files := ∅; ws_redis := redis_empty |} = Ret st
}.

(** The directory as the recording leaves it, listed in any order. *)
Record listing : Prop := {
  list_nodup : NoDup folders;
  list_folder f : f ∈ folders <-> exists it, it ∈ items /\ f = item_id it / 1000000 * 1000000;
  list_file f x : f ∈ folders ->
    x ∈ files_of f <-> exists it, it ∈ items /\ f = item_id it / 1000000 * 1000000 /\ x = item_id it / 1000 * 1000
}.

Hypothesis (blosc2_ok : forall d, 0 < zlen d ->
  exists c, blosc2_compress d = Some c /\ zlen c <= zlen d + max_overhead /\
    blosc2_decompress c (zlen d) = Some d).
Hypothesis (reader_ring_ok : wf_ram reader_ring).
Hypothesis (reader_slots : MIN_RAM_BUFFER_N_SLOTS <= n_slots_ reader_ring).
Hypothesis (Hrec : recording).
Hypothesis (Hdir : listing).

Lemma listing_tree : store_tree folders files_of.
Proof using Hdir.
  split.
  - apply (list_nodup Hdir).
  - intros f Hf. pose proof Hf as (it & Hit & E)%(list_folder Hdir). split; [subst f; apply Z_mod_mult|].
    intros E'. assert (Hx : item_id it / 1000 * 1000 ∈ files_of f) by (apply (list_file Hdir); eauto).
    rewrite E' in Hx. by apply elem_of_nil in Hx.
  - intros f x Hf (it & _ & -> & ->)%(list_file Hdir); [|done].
    destruct (block_in_folder (item_id it)) as [_ ?]. done.
Qed.

(** A file of the store is the file of one of its images. *)
Lemma listed_file x : (exists f, f ∈ folders /\ x ∈ files_of f) <-> exists it, it ∈ items /\ x = item_id it / 1000 * 1000.
Proof using Hdir.
  split.
  - intros (f & Hf & (it & ? & _ & ?)%(list_file Hdir)); [eauto|done].
  - intros (it & Hit & ->). exists (item_id it / 1000000 * 1000000).
    assert (Hf : item_id it / 1000000 * 1000000 ∈ folders) by (apply (list_folder Hdir); eauto).
    split; [done|]. apply (list_file Hdir); eauto.
Qed.

Lemma item_ids_elem x : x ∈ item_id <$> items <-> exists it, it ∈ items /\ item_id it = x.
Proof using Type. rewrite list_elem_of_fmap. naive_solver. Qed.

(** Every recorded image: its metadata in the database, its bytes in the files. *)
Lemma recorded_image it : it ∈ items ->
  exists d bm, item_bytes it = Ret d /\ 0 < zlen d <= data_bytes_ reader_ring /\
    get_metadata prefix (ws_redis st) (item_id it) = Some bm /\
    (exists size, pb_metadata bm = set_size_compression (fst it) size cp_blosc2) /\
    forall rh dest, root_directory_ rh = root -> reads_well rh -> zlen dest = zlen d ->
      exists rh', fh_read blosc2_decompress max_overhead rh (ws_files st) (item_id it) dest (pb_offset bm)
        (pb_size (pb_metadata bm)) = Ret (true, d, rh') /\ root_directory_ rh' = root /\ reads_well rh'.
Proof using Hrec blosc2_ok.
  intros Hit. destruct Hrec as [Hs Hids Hb Hsz Hrun].
  destruct (writer_run_spec blosc2_compress prefix writer_ring root items Hs) as (st' & log & E & Hroot & Hst & _ & _ & Hall).
  { eapply Forall_impl; [|exact Hids]. cbn. unfold item_id. lia. }
  { eapply Forall_impl; [|exact Hb]. intros x (d & ? & _). by exists d. }
  { done. }
  rewrite Hrun in E. injection E as <-. rewrite list.Forall_forall in Hall, Hb.
  destruct (Hb it Hit) as (d & Hd & Hpos). exists d.
  destruct (read_recorded blosc2_compress prefix writer_ring blosc2_decompress max_overhead blosc2_ok _ _ log _ it d
    (FileHandler_new root) d Hst (Hall it Hit) Hd) as (bm & _ & Hg & Hm & _); [lia|by rewrite Hroot|by left|done|].
  exists bm. split_and!; try done; try lia. intros rh dest Hr Hw Hz.
  destruct (read_recorded blosc2_compress prefix writer_ring blosc2_decompress max_overhead blosc2_ok _ _ log _ it d
    rh dest Hst (Hall it Hit) Hd) as (bm' & rh' & Hg' & _ & Hread & Hr' & Hw'); [lia|by rewrite Hroot|done|done|].
  rewrite Hg in Hg'. injection Hg' as <-. exists rh'. by rewrite <- Hroot.
Qed.

Lemma known_id bm : known bm -> exists it, it ∈ items /\ buffered_id bm = item_id it /\
  get_metadata prefix (ws_redis st) (item_id it) = Some bm.
Proof using Hrec blosc2_ok.
  intros (it & Hit & Hg). exists it. split_and!; try done.
  destruct (recorded_image it Hit) as (d & bm' & _ & _ & Hg' & (sz & Hm) & _). rewrite Hg in Hg'. injection Hg' as <-.
  unfold buffered_id. by rewrite Hm.
Qed.

(** The metadata of a file: those of its images, in order. *)
Lemma file_metadatas first : 0 <= first < 2 ^ 53 - 1000 ->
  let l := get_metadatas_in_file_range prefix (ws_redis st) first in
  buffered_id <$> l = file_ids (item_id <$> items) first /\ Forall known l.
Proof using Hrec blosc2_ok.
  intros Hf. unfold get_metadatas_in_file_range, get_image_ids_in_file_range, file_ids.
  rewrite (writer_run_ids blosc2_compress prefix writer_ring items
    {| ws_handler := FileHandler_new root; ws_files := ∅; ws_redis := redis_empty |} st (rec_sorted Hrec) eq_refl (rec_run Hrec)).
  change (pb_image_id ∘ fst <$> items) with (item_id <$> items). rewrite u64_small by lia.
  pose proof (rec_ids Hrec) as Hids.
  assert (Hext : base.filter (fun x => to_double first <= to_double x <= to_double (first + 999)) (item_id <$> items) =
    base.filter (fun x => first <= x < first + 1000) (item_id <$> items)).
  { apply list_filter_iff_strong. apply Forall_fmap. eapply Forall_impl; [|exact Hids]. cbn. intros it Hi.
    rewrite !to_double_exact by lia. lia. }
  rewrite Hext. clear Hext Hids.
  assert (Hin : forall x, x ∈ base.filter (fun x => first <= x < first + 1000) (item_id <$> items) ->
    exists bm, get_metadata prefix (ws_redis st) x = Some bm /\ buffered_id bm = x /\ known bm).
  { intros x [_ (it & Hit & <-)%item_ids_elem]%list_elem_of_filter.
    destruct (recorded_image it Hit) as (d & bm & _ & _ & Hg & (sz & Hm) & _). exists bm. split_and!; try done.
    - unfold buffered_id. by rewrite Hm.
    - by exists it. }
  induction (base.filter _ _) as [|x l IH]; [by split|]. destruct (Hin x) as (bm & Hg & Hid & Hk); [by left|].
  destruct IH as [E Hl]; [intros y Hy; apply Hin; by right|]. cbn. rewrite Hg. cbn. split; [by rewrite Hid, E|by constructor].
Qed.

Lemma fetch_least id : exists r, fetch_next_metadatas prefix (ws_redis st) folders files_of id = Ret r /\
  match r with
  | None => forall x, x ∈ item_id <$> items -> x < id
  | Some l => l <> [] /\ Forall known l /\
      exists first, first mod 1000 = 0 /\ id < first + 1000 /\ buffered_id <$> l = file_ids (item_id <$> items) first /\
        forall x, x ∈ item_id <$> items -> id <= x -> first <= x
  end.
Proof using Hrec Hdir blosc2_ok.
  destruct (first_file_least folders files_of id listing_tree) as (r & Hr & Hleast).
  unfold fetch_next_metadatas. rewrite Hr. cbn [obind]. eexists. split; [done|].
  pose proof (Z.div_mod id 1000 ltac:(lia)) as Hdiv. pose proof (Z.mod_pos_bound id 1000 ltac:(lia)) as Hmod.
  assert (Hblock : forall x, id <= x -> id / 1000 * 1000 <= x / 1000 * 1000).
  { intros x Hx. pose proof (Z.div_le_mono id x 1000 ltac:(lia) Hx). lia. }
  assert (Hbelow : forall x, x / 1000 * 1000 <= x) by (intros x; pose proof (Z.mul_div_le x 1000); lia).
  destruct r as [first|].
  - destruct Hleast as (Hb & Hex & Hmin). apply listed_file in Hex as (it & Hit & ->).
    pose proof (rec_ids Hrec) as Hids. rewrite list.Forall_forall in Hids. specialize (Hids it Hit) as Hi. cbn in Hi.
    assert (Hrange : 0 <= item_id it / 1000 * 1000 < 2 ^ 53 - 1000).
    { specialize (Hbelow (item_id it)). pose proof (Z.div_pos (item_id it) 1000). lia. }
    destruct (file_metadatas _ Hrange) as [E Hk].
    assert (Hne : get_metadatas_in_file_range prefix (ws_redis st) (item_id it / 1000 * 1000) <> []).
    { intros E'. rewrite E' in E. symmetry in E. cbn in E.
      assert (Hx : item_id it ∈ file_ids (item_id <$> items) (item_id it / 1000 * 1000)).
      { apply list_elem_of_filter. split; [|apply item_ids_elem; eauto].
        pose proof (Z.div_mod (item_id it) 1000 ltac:(lia)). pose proof (Z.mod_pos_bound (item_id it) 1000 ltac:(lia)). lia. }
      rewrite E in Hx. by apply elem_of_nil in Hx. }
    destruct (get_metadatas_in_file_range _ _ _) as [|bm l] eqn:El; [done|]. split_and!; [done..|].
    exists (item_id it / 1000 * 1000). split_and!; [apply Z_mod_mult|lia|done|].
    intros x (it' & Hit' & <-)%item_ids_elem Hx. etransitivity; [|apply Hbelow].
    assert (Hf : exists f, f ∈ folders /\ item_id it' / 1000 * 1000 ∈ files_of f) by (apply listed_file; eauto).
    destruct Hf as (f & Hf & Hfile). by apply (Hmin f); [| |apply Hblock].
  - intros x (it & Hit & <-)%item_ids_elem. destruct (Z.lt_ge_cases (item_id it) id) as [|Hge]; [done|].
    assert (Hf : exists f, f ∈ folders /\ item_id it / 1000 * 1000 ∈ files_of f) by (apply listed_file; eauto).
    destruct Hf as (f & Hf & Hfile). specialize (Hleast f _ Hf Hfile). specialize (Hblock _ Hge). lia.
Qed.

(** Reading an image fills its slot and leaves the others alone. *)
Lemma load_fills_slot w bm : world_ok w -> known bm ->
  exists w' meta, load_image_from_file w bm = Ret (w', meta) /\ world_ok w' /\ pb_image_id meta = buffered_id bm /\
    shows w' meta /\
    forall other, shows w other -> pb_image_id other mod n_slots_ reader_ring <> buffered_id bm mod n_slots_ reader_ring ->
      shows w' other.
Proof using Hrec blosc2_ok reader_ring_ok.
  intros (Hz & Hroot & Hrw) (it & Hit & Hid & Hg)%known_id.
  destruct (recorded_image it Hit) as (d & bm' & Hd & Hpos & Hg' & (sz & Hm) & Hread).
  rewrite Hg in Hg'. injection Hg' as <-. set (off := item_id it mod n_slots_ reader_ring * data_bytes_ reader_ring).
  destruct (slot_offset reader_ring (item_id it) reader_ring_ok) as (Hoff & Hoff0 & Hofft).
  pose proof (ring_fits reader_ring reader_ring_ok) as Hfit. change (0 <= off) in Hoff0. fold off in Hofft, Hoff.
  assert (Hsize : calculate_size (pb_metadata bm) = Ret (zlen d)).
  { rewrite Hm. unfold item_bytes, image_bytes in Hd. apply obind_Ret_iff in Hd as (o & _ & Hd).
    apply obind_Ret_iff in Hd as (n & Hn & Hd). apply mem_read_zlen in Hd as ->. done. }
  assert (Hiid : pb_image_id (pb_metadata bm) = item_id it) by done.
  assert (Hdest : exists dest, mem_read (fst w) off (zlen d) = Ret dest /\ zlen dest = zlen d).
  { eexists. split; [apply mem_read_ret; lia|]. eapply mem_read_zlen, mem_read_ret; lia. }
  destruct Hdest as (dest & Hdest & Hdl). destruct (Hread (snd w) dest Hroot Hrw Hdl) as (rh' & Hfr & Hroot' & Hrw').
  destruct (mem_write (fst w) off d) as [m'|?|?] eqn:Hw; [|rewrite mem_write_ret in Hw by lia; done..].
  exists ((m', rh')), (set_size_compression (pb_metadata bm) (zlen d) cp_none). split_and!.
  - unfold load_image_from_file, read_single_image. rewrite Hsize. cbn [obind]. rewrite Hiid, Hoff. cbn [obind].
    rewrite Hdest. cbn [obind]. rewrite Hfr. cbn [obind]. by rewrite Hw.
  - cbn. apply mem_write_zlen in Hw as ->. done.
  - done.
  - exists it, d, off. split_and!; [done|done|by rewrite Hm|by cbn; rewrite Hiid|]. by apply (mem_read_write_same _ _ _ _ _ Hw).
  - intros other (it' & d' & off' & Hit' & Hd' & Ho & Hoff' & Hr) Hne. exists it', d', off'. split_and!; [done..|].
    cbn. rewrite (mem_read_write_disjoint _ _ _ _ _ _ Hw); [done|].
    pose proof (rec_bytes Hrec) as Hb. rewrite list.Forall_forall in Hb. destruct (Hb it' Hit') as (d'' & Hd'' & Hl).
    rewrite Hd' in Hd''. injection Hd'' as <-. rewrite Hid in Hne. unfold off.
    destruct (slot_offset reader_ring (pb_image_id other) reader_ring_ok) as (E & _). rewrite Hoff' in E. injection E as ->.
    destruct (slots_disjoint (data_bytes_ reader_ring) _ _ ltac:(lia) Hne); lia.
Qed.

Lemma file_image_laws : ImageStoreLaws (list Z * FileHandler).
Proof using Hrec Hdir blosc2_ok reader_ring_ok reader_slots.
  split.
  - apply (rec_sorted Hrec).
  - apply Forall_fmap. eapply Forall_impl; [|exact (rec_ids Hrec)]. cbn. lia.
  - apply reader_slots.
  - intros id. destruct (fetch_least id) as (r & Hr & _). by exists r.
  - intros id l Hl. destruct (fetch_least id) as (r & Hr & H). cbn in Hl. rewrite Hr in Hl. by injection Hl as ->.
  - intros id Hl. destruct (fetch_least id) as (r & Hr & H). cbn in Hl. rewrite Hr in Hl. by injection Hl as ->.
  - intros w bm Hw Hk. by apply load_fills_slot.
Qed.

(** The image [meta] is returned: it is the first of the recording at or behind [id]. *)
Definition next_recorded (id : Z) (meta : pb_image) : Prop :=
  exists it, it ∈ items /\ pb_image_id meta = item_id it /\ id <= item_id it /\
    forall it', it' ∈ items -> id <= item_id it' -> item_id it <= item_id it'.

Lemma answer_next_recorded id meta : right_answer (id, Some meta) -> next_recorded id meta.
Proof using Type.
  intros (Hle & (it & Hit & Hid)%item_ids_elem & Hmin). cbn in *. exists it. rewrite Hid. split_and!; try done.
  intros it' Hit' Hle'. apply Hmin; [|done]. apply item_ids_elem. eauto.
Qed.

Lemma replay_run_spec start w s : world_ok w -> rtc (replay_step start) (reader_new w) s ->
  (forall id meta, (id, Some meta) ∈ r_answers s -> next_recorded id meta) /\
  (forall id meta rest, r_reader s = GIdle -> r_answers s = (id, Some meta) :: rest -> replayed (fst (r_world s)) meta) /\
  (full_files -> at_file_start start ->
   forall id, (id, None) ∈ r_answers s -> forall it, it ∈ items -> item_id it < id) /\
  (forall id, r_reader s = GWait id -> wakes_within 5 s).
Proof using Hrec Hdir blosc2_ok reader_ring_ok reader_slots.
  intros Hw Hr. pose proof file_image_laws as Hlaws. pose proof (replay_inv start w s Hw Hr) as Hi.
  pose proof (ri_answers s Hi) as Hans. rewrite list.Forall_forall in Hans. split_and!.
  - intros id meta Hin. apply answer_next_recorded. exact (Hans _ Hin).
  - intros id meta rest Hg Ha.
    assert (Hf : ~ finished s) by (unfold finished; rewrite Ha; by intros []).
    pose proof (ri_shows s Hi Hf) as Hsh. rewrite list.Forall_forall in Hsh.
    apply (Hsh meta). unfold visible. rewrite Hg, Ha. set_solver.
  - intros Hfull Hst id Hin it Hit.
    pose proof (ci_answers s (replay_complete Hfull start w s Hst Hw Hr)) as Hends. rewrite list.Forall_forall in Hends.
    apply (Hends _ Hin eq_refl). apply item_ids_elem. eauto.
  - intros id Hg. apply (wait_ends id); [done|by eapply wake_inv_replay|done|].
    destruct (r_loader s) as [| |[|]| | |]; cbn; lia.
Qed.
End FileImages.

(** ** Recording and replaying *)

(** C11: recording and replaying.  Images recorded by std-buffer-writer into an empty store ([recording]: increasing
    ids below 2^53 - 1000, images that are not empty, fit the slots of the reader and take less than 2^64 bytes when
    compressed) with a compressor that never fails and is inverted by the decompressor, in any number of files, which are
    closed and whose records have not expired, are read by the loader of std-buffer-reader, which has at least
    [MIN_RAM_BUFFER_N_SLOTS] slots, while a client replays them (any start, every interleaving of the two threads).  Every image that
    [get_image] returns is the first recorded one at or behind the requested id, and until the next
    request its slot of the RAM buffer has exactly the bytes the writer's RAM buffer had when it
    was recorded.  Where every file was filled up to its last id and, besides, the replay starts at
    the first image of a file (otherwise: [replay_inside_file]), nothing is missed: the end is reported
    only behind the last recorded image. *)
Theorem replay_returns_recorded blosc2_compress blosc2_decompress max_overhead prefix root
    writer_ring reader_ring items st folders files_of start w s :
  (forall d, 0 < zlen d -> exists c, blosc2_compress d = Some c /\
     zlen c <= zlen d + max_overhead /\ blosc2_decompress c (zlen d) = Some d) ->
  wf_ram reader_ring -> MIN_RAM_BUFFER_N_SLOTS <= n_slots_ reader_ring ->
  recording blosc2_compress prefix root writer_ring reader_ring items st -> listing items folders files_of ->
  zlen (fst w) = buffer_bytes_ reader_ring -> snd w = FileHandler_new root ->
  let store := file_image_store blosc2_decompress max_overhead prefix root writer_ring reader_ring items st
                 folders files_of in
  rtc (replay_step start) (reader_new w) s ->
  (forall id meta, (id, Some meta) ∈ r_answers s -> next_recorded items id meta) /\
  (forall id meta rest, r_reader s = GIdle -> r_answers s = (id, Some meta) :: rest ->
     replayed writer_ring reader_ring items (fst (r_world s)) meta) /\
  (full_files -> at_file_start start ->
   forall id, (id, None) ∈ r_answers s -> forall it, it ∈ items -> item_id it < id).
Proof.
  intros Hb Hram Hslots Hrec Hdir Hz Hh store Hr.
  assert (Hw : world_ok w) by (cbn; rewrite Hh; split; [done|split; [done|by left]]).
  destruct (replay_run_spec _ _ _ _ _ _ _ _ _ _ _ Hb Hram Hslots Hrec Hdir start w s Hw Hr) as (H1 & H2 & H3 & _). done.
Qed.

(** C12: the wait of [get_image] ends.  In every state of a replay of a recording (as in
    [replay_run_spec]: [recording], with the directory that it leaves) in which the request loop waits for
    the loader, the loader has a step, and after five of its steps at most the condition waited for
    holds, and no further step of the loader undoes it. *)
Theorem get_image_wait_ends blosc2_compress blosc2_decompress max_overhead prefix root
    writer_ring reader_ring items st folders files_of start w s id :
  (forall d, 0 < zlen d -> exists c, blosc2_compress d = Some c /\
     zlen c <= zlen d + max_overhead /\ blosc2_decompress c (zlen d) = Some d) ->
  wf_ram reader_ring -> MIN_RAM_BUFFER_N_SLOTS <= n_slots_ reader_ring ->
  recording blosc2_compress prefix root writer_ring reader_ring items st -> listing items folders files_of ->
  zlen (fst w) = buffer_bytes_ reader_ring -> snd w = FileHandler_new root ->
  let store := file_image_store blosc2_decompress max_overhead prefix root writer_ring reader_ring items st
                 folders files_of in
  rtc (replay_step start) (reader_new w) s -> r_reader s = GWait id -> wakes_within 5 s.
Proof.
  intros Hb Hram Hslots Hrec Hdir Hz Hh store Hr.
  assert (Hw : world_ok w) by (cbn; rewrite Hh; split; [done|split; [done|by left]]).
  destruct (replay_run_spec _ _ _ _ _ _ _ _ _ _ _ Hb Hram Hslots Hrec Hdir start w s Hw Hr) as (_ & _ & _ & H4). apply H4.
Qed.

(** ** A recording of two images in two files *)

Definition demo_items : list (pb_image * list Z) :=
  [(demo_store_meta 999, [1; 2; 3; 4]); (demo_store_meta 1999, [5; 6; 7; 8])].

Definition demo_written : writer_state :=
  match foldO (fun st it => writer_step demo_compress "camera:CAM:" demo_store_ring (snd it) (fst it) st) demo_items
    {| ws_handler := FileHandler_new "/data/CAM"; ws_files := ∅; ws_redis := redis_empty |} with
  | Ret st => st
  | _ => {| ws_handler := FileHandler_new ""; ws_files := ∅; ws_redis := redis_empty |}
  end.

Definition demo_reader_ring : RamBuffer :=
  {| buffer_name_ := "REPLAY-CAM-image"; n_slots_ := 1000; data_bytes_ := 2; buffer_bytes_ := 2097152; shm_fd_ := 0 |}.

Definition demo_world : list Z * FileHandler := (replicate (Z.to_nat 2097152) 0, FileHandler_new "/data/CAM").

Definition demo_image_store : ImageStore (list Z * FileHandler) :=
  file_image_store demo_decompress 32 "camera:CAM:" "/data/CAM" demo_store_ring demo_reader_ring demo_items
    demo_written [0] (fun _ => [1000; 0]).

Lemma demo_blosc_ok d : 0 < zlen d ->
  exists c, demo_compress d = Some c /\ zlen c <= zlen d + 32 /\ demo_decompress c (zlen d) = Some d.
Proof. intros _. exists (1 :: d). split; [reflexivity|]. rewrite zlen_cons. split; [lia|reflexivity]. Qed.

Lemma demo_recording :
  recording demo_compress "camera:CAM:" "/data/CAM" demo_store_ring demo_reader_ring demo_items demo_written.
Proof.
  split.
  - repeat constructor.
  - repeat constructor; done.
  - repeat constructor; eexists; (split; [vm_compute; reflexivity|done]).
  - vm_compute. reflexivity.
  - vm_compute. reflexivity.
Qed.

Lemma demo_listing : listing demo_items [0] (fun _ => [1000; 0]).
Proof.
  assert (Hin : forall P : pb_image * list Z -> Prop, (exists it, it ∈ demo_items /\ P it) <->
    P (demo_store_meta 999, [1; 2; 3; 4]) \/ P (demo_store_meta 1999, [5; 6; 7; 8])) by (intros P; set_solver).
  split.
  - apply (bool_decide_unpack (NoDup [0])). vm_compute. exact I.
  - intros f. rewrite Hin, list_elem_of_singleton. cbn. naive_solver.
  - intros f x ->%list_elem_of_singleton. rewrite Hin. cbn. set_solver.
Qed.

Lemma demo_ring_ok : wf_ram demo_reader_ring /\ MIN_RAM_BUFFER_N_SLOTS <= n_slots_ demo_reader_ring /\
  zlen (fst demo_world) = buffer_bytes_ demo_reader_ring.
Proof. split; [done|]. split; [done|]. cbn [fst demo_world]. rewrite zlen_replicate. by apply Z2Nat.id. Qed.

Lemma demo_laws : @ImageStoreLaws _ demo_image_store.
Proof.
  destruct demo_ring_ok as (Hram & Hslots & _).
  exact (file_image_laws _ _ _ _ _ _ _ _ _ _ _ demo_blosc_ok Hram Hslots demo_recording demo_listing).
Qed.

Lemma demo_world_ok : @world_ok _ demo_image_store demo_world.
Proof. destruct demo_ring_ok as (_ & _ & Hz). split; [exact Hz|split; [done|by left]]. Qed.

(** The first image is found and loaded. *)
Lemma demo_first start : start = 999 \/ start = 500 -> let store := demo_image_store in
  exists bm l w' meta, fetch start = Ret (Some (bm :: l)) /\ load demo_world bm = Ret (w', meta) /\ pb_image_id meta = 999.
Proof.
  intros Hs store. pose proof demo_laws as Hlaws. change (@ImageStoreLaws _ store) in Hlaws.
  assert (Hid : match fetch start with Ret (Some (bm :: _)) => buffered_id bm = 999 | _ => False end)
    by (destruct Hs as [->| ->]; vm_compute; reflexivity).
  destruct (fetch start) as [[[|bm l]|]|?|?] eqn:Hf; [destruct Hid| |destruct Hid..].
  destruct (fetch_file _ _ Hf) as (_ & [Hk _]%Forall_cons_1 & _).
  destruct (load_image demo_world bm demo_world_ok Hk) as (w' & meta & Hl & _ & Hm & _).
  exists bm, l, w', meta. rewrite Hm. auto.
Qed.

(** The replay of the first image. *)
Lemma demo_replay : let store := demo_image_store in
  exists s meta, rtc (replay_step 999) (reader_new demo_world) s /\ r_reader s = GIdle /\
    r_answers s = [(999, Some meta)].
Proof.
  intros store. destruct (demo_first 999 ltac:(by left)) as (bm & l & w' & meta & Hf & Hl & Hm).
  pose proof (request_run 999 999 demo_world [] 0 bm l w' meta eq_refl Hf Hl) as Hr.
  rewrite Hm, Z.leb_refl in Hr. eauto.
Qed.

Lemma replay_returns_recorded_witness : let store := demo_image_store in
  exists s meta, rtc (replay_step 999) (reader_new demo_world) s /\ r_answers s = [(999, Some meta)] /\
    next_recorded demo_items 999 meta /\ replayed demo_store_ring demo_reader_ring demo_items (fst (r_world s)) meta.
Proof.
  destruct demo_replay as (s & meta & Hr & Hg & Ha). exists s, meta. split; [exact Hr|]. split; [exact Ha|].
  destruct demo_ring_ok as (Hram & Hslots & Hz).
  destruct (replay_returns_recorded _ _ _ _ _ _ _ _ _ _ _ 999 demo_world s demo_blosc_ok Hram Hslots demo_recording
    demo_listing Hz eq_refl Hr) as (H1 & H2 & _).
  split; [apply H1; rewrite Ha; left|exact (H2 _ _ _ Hg Ha)].
Defined.

Lemma get_image_wait_ends_witness : let store := demo_image_store in
  wakes_within 5 (Build_reader (request_loader_if_needed 999 BufferHandler_new) demo_world (GWait 999) LWait []).
Proof.
  destruct demo_ring_ok as (Hram & Hslots & Hz).
  apply (get_image_wait_ends _ _ _ _ _ _ _ _ _ _ _ 999 demo_world _ 999 demo_blosc_ok Hram Hslots demo_recording
    demo_listing Hz eq_refl); [|reflexivity].
  eapply rtc_l; [|apply rtc_refl]. apply (replay_get 999 999); [apply get_wait; reflexivity|done].
Defined.
