(* ===== verification/BufferDriver.v ===== *)
(** * std-buffer-driver: a replay

    [src/source/std-buffer-driver/src] with the request loop of std-buffer-reader
    ([std-buffer-reader/src/main.cpp]).  During a replay the thread [control_reader] asks the reader
    for one image after the other, the reader publishes the metadata of each and answers, and the
    thread [forward_images] pushes the published images to the client.  The process of the reader
    is that of [BufferReader]; the threads share the state, the id of the last image sent and the
    sockets.  Every thread is its position between two accesses of what is shared. *)

From stdpp Require Import sorting.
From S2P Require Import Prelude Protocol Config RamBuffer Sockets FileStore Publishers BufferReader ReplayStore.

(** ** reader_state.hpp and state_manager.hpp *)

Inductive reader_state : Type := rs_idle | rs_replaying | rs_finishing | rs_finished | rs_stop | rs_error.

#[global] Instance reader_state_eq_dec : EqDecision reader_state.
Proof. solve_decision. Defined.

Definition state_name (s : reader_state) : string :=
  match s with
  | rs_idle => "idle" | rs_replaying => "replaying" | rs_finishing => "finishing"
  | rs_finished => "finished" | rs_stop => "stop" | rs_error => "error"
  end.

(** [state_manager], and [last_sent_id] of the replayer. *)
Record shared : Type := {
  sh_state : reader_state;
  images_processed : Z;
  last_sent_id : Z
}.

Definition shared_new : shared := {| sh_state := rs_idle; images_processed := 0; last_sent_id := 0 |}.

Definition replay_change_state (newState : reader_state) (sh : shared) : shared :=
  {| sh_state := newState;
     images_processed := if bool_decide (newState = rs_idle) then 0 else images_processed sh;
     last_sent_id := last_sent_id sh |}.

Definition replay_update_image_count (sent_images : Z) (sh : shared) : shared :=
  {| sh_state := sh_state sh; images_processed := sent_images; last_sent_id := last_sent_id sh |}.

Definition store_last_sent (id : Z) (sh : shared) : shared :=
  {| sh_state := sh_state sh; images_processed := images_processed sh; last_sent_id := id |}.

Definition is_replaying (sh : shared) : bool := bool_decide (sh_state sh = rs_replaying).

(** ** replay_settings.hpp and process_api_message.cpp *)

Record replay_settings : Type := {
  start_image_id : Z;
  end_image_id : option Z;
  replay_delay : option Z
}.

(** A parsed request: the fields the driver looks at, [None] when absent. *)
Record replay_command : Type := {
  rc_command : option string;
  rc_start_image_id : option Z;
  rc_end_image_id : option Z;
  rc_delay : option Z
}.

Definition process_replay_request (c : replay_command) : option replay_settings :=
  match rc_start_image_id c with
  | Some id =>
      if bool_decide (default ""%string (rc_command c) = "start"%string) then
        Some {| start_image_id := id; end_image_id := rc_end_image_id c; replay_delay := rc_delay c |}
      else None
  | None => None
  end.

(** ** The sockets *)

Section DriverSockets.
Variable (ok : zmq_call -> bool).

Definition replay_bind_sender_socket (stream_address : string) : outcome zmq_sock :=
  let! s1 := zmq_do ok (zmq_setsockopt (ZMQ_SNDHWM 100)) (new_sock ZMQ_PUSH) in
  let! s2 := zmq_do ok (zmq_setsockopt (ZMQ_LINGER 0)) s1 in
  zmq_do ok (zmq_bind stream_address) s2.

Definition connect_driver_socket (stream_address : string) : outcome zmq_sock :=
  let! s1 := zmq_do ok (zmq_setsockopt (ZMQ_SNDHWM 100)) (new_sock ZMQ_REQ) in
  let! s2 := zmq_do ok (zmq_setsockopt (ZMQ_LINGER 0)) s1 in
  zmq_do ok (zmq_connect stream_address) s2.

(** The reader's end.  The result of setting the timeout is not tested. *)
Definition bind_driver_socket (stream_address : string) : outcome zmq_sock :=
  let! s1 := zmq_do ok (zmq_setsockopt (ZMQ_SNDHWM 100)) (new_sock ZMQ_REP) in
  let! s2 := zmq_do ok (zmq_setsockopt (ZMQ_LINGER 0)) s1 in
  let! s3 := zmq_do ok (zmq_bind stream_address) s2 in
  Ret match zmq_do ok (zmq_setsockopt (ZMQ_RCVTIMEO 1000)) s3 with Ret s4 => s4 | _ => s3 end.
End DriverSockets.

Definition driver_address (detector_name : string) : string := (IPC_URL_BASE +:+ detector_name +:+ "-driver")%string.

(** ** The threads of a replay *)

(** [id <= end_image_id], of an unsigned number and an optional one: an empty one is less. *)
Definition le_opt (id : Z) (o : option Z) : bool := match o with Some e => id <=? e | None => false end.

(** [control_reader]: in front of the test of the loop; with a request sent; with the response;
    waiting for the image to be sent; in front of the state finishing; ended. *)
Inductive control_pc : Type :=
| CTest (request : request_next_image) | CAsk (request : request_next_image)
| CReply (response : next_image_response) | CWait (wait_for_id : Z) | CFinish | CEnd.

Definition follow_up (image_id : Z) : request_next_image :=
  {| rq_image_id := u64 (image_id + 1); rq_new_request := false |}.

Inductive control_step (settings : replay_settings) : shared -> control_pc -> shared -> control_pc -> Prop :=
| control_test sh rq :
    control_step settings sh (CTest rq) sh
      (if le_opt (rq_image_id rq) (end_image_id settings) && is_replaying sh then CAsk rq else CFinish)
| control_ack sh id : control_step settings sh (CReply (ack id)) sh (CWait id)
| control_none sh r : (forall id, r <> ack id) -> control_step settings sh (CReply r) sh CFinish
| control_sent sh id :
    id <= last_sent_id sh -> control_step settings sh (CWait id) sh (CTest (follow_up id))
| control_finish sh : control_step settings sh CFinish (replay_change_state rs_finishing sh) CEnd.

(** [forward_images] after [n] images: in front of the test of the loop; of the receive; with an
    image; in front of counting it; of [last_sent_id]; of the state finished; ended. *)
Inductive forward_pc : Type :=
| FTest (n : Z) | FReceive (n : Z) | FImage (n : Z) (meta : pb_image) | FCount (n : Z) (meta : pb_image)
| FStore (n : Z) (meta : pb_image) | FFinish | FEnd.

(** The published metadata, and the image pushed. *)
Inductive forward_step (settings : replay_settings) :
  shared -> forward_pc -> list pb_image -> shared -> forward_pc -> list pb_image -> option pb_image -> Prop :=
| forward_test sh n q :
    forward_step settings sh (FTest n) q sh (if is_replaying sh then FReceive n else FFinish) q None
| forward_timeout sh n : forward_step settings sh (FReceive n) [] sh (FTest n) [] None
| forward_receive sh n meta q : forward_step settings sh (FReceive n) (meta :: q) sh (FImage n meta) q None
| forward_push sh n meta q :
    le_opt (pb_image_id meta) (end_image_id settings) = true ->
    forward_step settings sh (FImage n meta) q sh (FCount n meta) q (Some meta)
| forward_skip sh n meta q :
    le_opt (pb_image_id meta) (end_image_id settings) = false ->
    forward_step settings sh (FImage n meta) q sh (FTest n) q None
| forward_count sh n meta q :
    forward_step settings sh (FCount n meta) q (replay_update_image_count (u32 (n + 1)) sh) (FStore (u64 (n + 1)) meta) q None
| forward_store sh n meta q :
    forward_step settings sh (FStore n meta) q (store_last_sent (pb_image_id meta) sh) (FTest n) q None
| forward_finish sh q : forward_step settings sh FFinish q (replay_change_state rs_finished sh) FEnd q None.

(** The two messages of an image: its header and the bytes of its slot. *)
Definition forward_message (ring : RamBuffer) (m : list Z) (meta : pb_image) : outcome (list zmq_frame) :=
  let! header := prepare_array10_header meta in
  let! data := get_data ring (pb_image_id meta) in
  let! d := mem_read m data (pb_size meta) in
  Ret [FText header; FData d].

(** ** The session *)

(** The thread of the requests, waiting or in [stop_recording] behind its test, and the monitor,
    in front of reading the state or of the state idle. *)
Inductive session_pc : Type := SRead | SStop.
Inductive monitor_pc : Type := MWait | MReset.

Definition monitor_next (s : reader_state) : monitor_pc :=
  match s with rs_error | rs_finished => MReset | _ => MWait end.

(** ** The reader's request loop *)

(** What the reader publishes and answers. *)
Definition published (image : option pb_image) : list pb_image := option_list image.
Definition response_to (image : option pb_image) : next_image_response :=
  match image with Some meta => ack (pb_image_id meta) | None => no_image end.

(** ** The processes of a replay *)

Record replay (world : Type) : Type := {
  rp_shared : shared;
  rp_control : control_pc;
  rp_forward : forward_pc;
  rp_session : session_pc;
  rp_monitor : monitor_pc;
  rp_reader : world + reader world;
  rp_queue : list pb_image;
  rp_pushed : list (pb_image * world);
  rp_stopped : bool
}.
Arguments rp_shared {world} _.
Arguments rp_control {world} _.
Arguments rp_forward {world} _.
Arguments rp_session {world} _.
Arguments rp_monitor {world} _.
Arguments rp_reader {world} _.
Arguments rp_queue {world} _.
Arguments rp_pushed {world} _.
Arguments rp_stopped {world} _.
Arguments Build_replay {world} _ _ _ _ _ _ _ _ _.

Section Replay.
Context {world : Type} `{ImageStore world} (settings : replay_settings).

Definition reader_world (r : world + reader world) : world :=
  match r with inl w => w | inr s => r_world s end.

(** [start]: the state, and the two threads.  [last_sent_id] is that of the last replay. *)
Definition replay_start (w : world) (sh : shared) : replay world :=
  Build_replay (replay_change_state rs_replaying sh)
    (CTest {| rq_image_id := start_image_id settings; rq_new_request := true |}) (FTest 0) SRead MWait (inl w) [] [] false.

Inductive step : replay world -> replay world -> Prop :=
| step_control sh sh' c c' f io mo r q p st :
    control_step settings sh c sh' c' ->
    step (Build_replay sh c f io mo r q p st) (Build_replay sh' c' f io mo r q p st)
| step_forward sh sh' c f f' io mo r q q' p st x :
    forward_step settings sh f q sh' f' q' x ->
    step (Build_replay sh c f io mo r q p st)
         (Build_replay sh' c f' io mo r q' (p ++ ((fun m => (m, reader_world r)) <$> option_list x)) st)
(** The first request: the reader creates a handler. *)
| step_new sh id f io mo w q p st :
    step (Build_replay sh (CAsk {| rq_image_id := id; rq_new_request := true |}) f io mo (inl w) q p st)
         (Build_replay sh (CAsk {| rq_image_id := id; rq_new_request := false |}) f io mo (inr (reader_new w)) q p st)
(** [get_image] has to wait. *)
| step_wait sh id f io mo s s' q p st :
    get_image_step id s s' -> r_reader s' = GWait id ->
    step (Build_replay sh (CAsk {| rq_image_id := id; rq_new_request := false |}) f io mo (inr s) q p st)
         (Build_replay sh (CAsk {| rq_image_id := id; rq_new_request := false |}) f io mo (inr s') q p st)
(** [get_image] returns: the reader publishes the image and answers. *)
| step_answer sh id f io mo s s' image q p st :
    get_image_step id s s' -> r_answers s' = (id, image) :: r_answers s ->
    step (Build_replay sh (CAsk {| rq_image_id := id; rq_new_request := false |}) f io mo (inr s) q p st)
         (Build_replay sh (CReply (response_to image)) f io mo (inr s') (q ++ published image) p st)
| step_loader sh c f io mo s s' q p st :
    loader_step s s' ->
    step (Build_replay sh c f io mo (inr s) q p st) (Build_replay sh c f io mo (inr s') q p st)
| step_stop sh c f mo r q p st :
    is_replaying sh = true ->
    step (Build_replay sh c f SRead mo r q p st) (Build_replay sh c f SStop mo r q p st)
| step_stop_store sh c f mo r q p st :
    step (Build_replay sh c f SStop mo r q p st)
         (Build_replay (replay_change_state rs_stop sh) c f SRead mo r q p true)
| step_monitor sh c f io r q p st :
    step (Build_replay sh c f io MWait r q p st) (Build_replay sh c f io (monitor_next (sh_state sh)) r q p st)
| step_reset sh c f io r q p st :
    step (Build_replay sh c f io MReset r q p st)
         (Build_replay (replay_change_state rs_idle sh) c f io MWait r q p st).
End Replay.

(** ** What is pushed *)

Section Invariant.
Context {world : Type} `{ImageStoreLaws world} (settings : replay_settings) (w0 : world).
Notation start := (start_image_id settings).

Definition answers_of (r : world + reader world) : list (Z * option pb_image) :=
  match r with inl _ => [] | inr s => r_answers s end.

(** The image the forwarding thread has not dealt with, and the one it has not reported. *)
Definition in_hand (f : forward_pc) : list pb_image := match f with FImage _ m => [m] | _ => [] end.
Definition unreported (f : forward_pc) : list pb_image :=
  match f with FImage _ m | FCount _ m | FStore _ m => [m] | _ => [] end.

(** The request is the one that is due, and the reader has no other. *)
Definition asks (r : world + reader world) (rq : request_next_image) : Prop :=
  (r = inl w0 /\ rq = {| rq_image_id := start; rq_new_request := true |}) \/
  exists s, r = inr s /\ rq_new_request rq = false /\ next_request start s (rq_image_id rq) /\
    (r_reader s = GIdle \/ r_reader s = GWait (rq_image_id rq)).

Definition answered (r : world + reader world) (image : option pb_image) : Prop :=
  exists s i rest, r = inr s /\ r_reader s = GIdle /\ r_answers s = (i, image) :: rest.

Definition control_ok (c : control_pc) (r : world + reader world) : Prop :=
  match c with
  | CTest rq => asks r rq /\ forall s n, r = inr s -> r_reader s <> GWait n
  | CAsk rq => asks r rq
  | CReply response => exists image, answered r image /\ response = response_to image
  | CWait id => exists m, answered r (Some m) /\ id = pb_image_id m
  | CFinish | CEnd => True
  end.

Definition sent_before (c : control_pc) (last : Z) : Prop :=
  match c with
  | CTest rq | CAsk rq => last < rq_image_id rq
  | CReply (ack id) | CWait id => last <= id
  | _ => True
  end.

Definition within (m : pb_image) : Prop := le_opt (pb_image_id m) (end_image_id settings) = true.
#[global] Instance within_dec m : Decision (within m).
Proof. unfold within. apply _. Defined.

Record replaying_inv (s : replay world) : Prop := {
  pi_reader : match rp_reader s with inl w => w = w0 | inr r => rtc (replay_step start) (reader_new w0) r end;
  pi_control : control_ok (rp_control s) (rp_reader s);
  pi_images : exists done, returned (answers_of (rp_reader s)) = done ++ in_hand (rp_forward s) ++ rp_queue s /\
    fst <$> rp_pushed s = base.filter within done;
  pi_pending : unreported (rp_forward s) ++ rp_queue s = [] \/
    exists m, unreported (rp_forward s) ++ rp_queue s = [m] /\ last_sent_id (rp_shared s) < pb_image_id m /\
      answered (rp_reader s) (Some m) /\
      (rp_control s = CReply (ack (pb_image_id m)) \/ rp_control s = CWait (pb_image_id m));
  pi_last : sent_before (rp_control s) (last_sent_id (rp_shared s));
  pi_shows : Forall (fun x => shows (snd x) (fst x)) (rp_pushed s)
}.

Context (Hw0 : world_ok w0).

(** The reader shows the image it answered last. *)
Lemma answered_shows r m :
  match r with inl w => w = w0 | inr s => rtc (replay_step start) (reader_new w0) s end ->
  answered r (Some m) -> shows (reader_world r) m /\ 0 <= pb_image_id m < 2 ^ 64 - 1000.
Proof using All.
  intros Hr (s & i & rest & -> & Hg & Ha). pose proof (replay_inv start w0 s Hw0 Hr) as Hi.
  assert (Hf : ~ finished s) by (unfold finished; rewrite Ha; by intros []).
  pose proof (ri_shows s Hi Hf) as Hsh. rewrite list.Forall_forall in Hsh. split.
  - apply Hsh. unfold visible. rewrite Hg, Ha. set_solver.
  - pose proof (ri_answers s Hi) as Hans. rewrite Ha in Hans. apply Forall_cons_1 in Hans as [(_ & Hin & _) _].
    pose proof catalog_range as Hc. rewrite list.Forall_forall in Hc. by apply Hc.
Qed.

Lemma follow_up_id m : 0 <= pb_image_id m < 2 ^ 64 - 1000 -> rq_image_id (follow_up (pb_image_id m)) = pb_image_id m + 1.
Proof using Type. intros. cbn. by rewrite u64_small by lia. Qed.

Lemma inv_control sh sh' c c' f io mo r q p st :
  replaying_inv (Build_replay sh c f io mo r q p st) -> control_step settings sh c sh' c' ->
  replaying_inv (Build_replay sh' c' f io mo r q p st).
Proof using All.
  intros [P1 P2 P3 P4 P5 P6] Hs. cbn in *. destruct Hs as [sh rq|sh id|sh resp Hr|sh id Hid|sh]; cbn in *.
  - destruct (_ && _); split; cbn; try done.
    + by destruct P2.
    + destruct P4 as [|(m & ? & ? & ? & [|])]; [by left|done|done].
    + destruct P4 as [|(m & ? & ? & ? & [|])]; [by left|done|done].
  - split; cbn; try done.
    + destruct P2 as ([m|] & Ha & E); [|done]. injection E as ->. by exists m.
    + destruct P4 as [|(m & ? & ? & ? & [[= ->]|])]; [by left| |done]. right. exists m. auto.
  - split; cbn; try done. destruct P4 as [|(m & ? & ? & ? & [[= E]|])]; [by left| |done]. by destruct (Hr (pb_image_id m)).
  - destruct P2 as (m & Ha & ->). destruct (answered_shows r m P1 Ha) as [_ Hrange].
    split; cbn; try done.
    + split.
      * right. destruct Ha as (s & i & rest & -> & Hg & Ha). exists s. split_and!; try done; [|by left].
        unfold next_request. by rewrite Ha, follow_up_id.
      * intros s n ->. by destruct Ha as (s' & i & rest & [= <-] & -> & _).
    + left. destruct P4 as [|(m' & ? & ? & ? & [|[= E]])]; [done|done|lia].
    + rewrite u64_small by lia. lia.
  - split; cbn; try done. destruct P4 as [|(m & ? & ? & ? & [|])]; [by left|done|done].
Qed.

Lemma inv_forward sh sh' c f f' io mo r q q' p st x :
  replaying_inv (Build_replay sh c f io mo r q p st) -> forward_step settings sh f q sh' f' q' x ->
  replaying_inv (Build_replay sh' c f' io mo r q' (p ++ ((fun m => (m, reader_world r)) <$> option_list x)) st).
Proof using All.
  intros [P1 P2 P3 P4 P5 P6] Hs. cbn in *. destruct P3 as (d & Hd & Hp).
  destruct Hs as [sh n q|sh n|sh n m q|sh n m q Hm|sh n m q Hm|sh n m q|sh n m q|sh q]; cbn in *; rewrite ?app_nil_r;
    (split; cbn; try done); try (by exists d).
  - by destruct (is_replaying sh); exists d.
  - by destruct (is_replaying sh).
  - exists (d ++ [m]). rewrite Hd, <- app_assoc. split; [done|]. rewrite fmap_app, Hp. cbn.
    by rewrite list.filter_app, filter_cons, decide_True.
  - apply Forall_app. split; [done|]. constructor; [|done]. cbn.
    destruct P4 as [|(m' & [= -> ->] & _ & Ha & _)]; [done|]. by apply answered_shows.
  - exists (d ++ [m]). rewrite Hd, <- app_assoc. split; [done|]. rewrite Hp, list.filter_app, filter_cons, decide_False by (unfold within; congruence).
    by rewrite filter_nil, app_nil_r.
  - left. by destruct P4 as [|(m' & [= -> ->] & _)].
  - left. by destruct P4 as [|(m' & [= -> ->] & _)].
  - destruct P4 as [|(m' & [= -> ->] & _ & _ & [-> | ->])]; [done|cbn; lia..].
Qed.

Lemma replaying_inv_reader sh c f io mo s s' q p st :
  replaying_inv (Build_replay sh c f io mo (inr s) q p st) -> replay_step start s s' ->
  r_answers s' = r_answers s -> r_reader s' = r_reader s \/ (r_reader s = GIdle /\ exists rq, c = CAsk rq /\ r_reader s' = GWait (rq_image_id rq)) ->
  replaying_inv (Build_replay sh c f io mo (inr s') q p st).
Proof using Type.
  intros [P1 P2 P3 P4 P5 P6] Hs Ha Hg. cbn in *.
  assert (Hnext : forall n, next_request start s n -> next_request start s' n) by (unfold next_request; by rewrite Ha).
  assert (Hans : forall image, (forall rq, c <> CAsk rq) -> answered (inr s) image -> answered (inr s') image).
  { intros image Hc (s0 & i & rest & [= <-] & Hi & E). exists s', i, rest. split_and!; [done| |by rewrite Ha].
    destruct Hg as [->|(_ & rq & -> & _)]; [done|by destruct (Hc rq)]. }
  split; cbn; try done.
  - by eapply rtc_r.
  - destruct c as [rq|rq|resp|id| |]; cbn in *; try done.
    + destruct P2 as [[[? _]|(s0 & [= <-] & Hn & Hr & Hi)] Hidle]; [done|]. destruct Hg as [Hg|(_ & rq' & ? & _)]; [|done]. split.
      * right. exists s'. rewrite Hg. auto 6.
      * intros s0 n [= <-]. rewrite Hg. by apply Hidle.
    + destruct P2 as [[? _]|(s0 & [= <-] & Hn & Hr & Hi)]; [done|]. right. exists s'. split_and!; auto.
      destruct Hg as [->|(_ & rq' & [= <-] & ->)]; auto.
    + destruct P2 as (image & Hi & ->). exists image. auto.
    + destruct P2 as (m & Hi & ->). exists m. auto.
  - by rewrite Ha.
  - destruct P4 as [|(m & E & Hl & Hi & Hc)]; [by left|]. right. exists m. split_and!; try done.
    apply Hans; [|done]. intros rq ->. by destruct Hc.
Qed.

Lemma inv_answer sh id f io mo s s' image q p st :
  replaying_inv (Build_replay sh (CAsk {| rq_image_id := id; rq_new_request := false |}) f io mo (inr s) q p st) ->
  replay_step start s s' -> r_reader s' = GIdle -> r_answers s' = (id, image) :: r_answers s ->
  replaying_inv (Build_replay sh (CReply (response_to image)) f io mo (inr s') (q ++ published image) p st).
Proof using All.
  intros [P1 P2 P3 P4 P5 P6] Hs Hg Ha. cbn in *.
  assert (Hr' : rtc (replay_step start) (reader_new w0) s') by (by eapply rtc_r).
  assert (Hans : answered (inr s') image) by (by exists s', id, (r_answers s)).
  destruct P4 as [Hpend|(m & _ & _ & _ & [|])]; [|done|done]. apply app_eq_nil in Hpend as [Hf ->].
  assert (Hle : forall m, image = Some m -> id <= pb_image_id m).
  { intros m ->. pose proof (ri_answers s' (replay_inv start w0 s' Hw0 Hr')) as Hall. rewrite Ha in Hall.
    by apply Forall_cons_1 in Hall as [(? & _) _]. }
  split; cbn; try done.
  - by exists image.
  - destruct P3 as (d & Hd & Hp). exists d. split; [|done]. rewrite Ha. unfold returned in *. cbn [rev].
    rewrite omap_app, Hd. destruct image; cbn; by rewrite ?app_nil_r, <- ?app_assoc.
  - destruct image as [m|]; [|left; by rewrite Hf]. right. exists m. rewrite Hf. split_and!; try done; [|by left].
    specialize (Hle m eq_refl). lia.
  - destruct image as [m|]; [|done]. cbn. specialize (Hle m eq_refl). lia.
Qed.

Lemma inv_step s s' : replaying_inv s -> step settings s s' -> replaying_inv s'.
Proof using All.
  intros Hi Hs. destruct Hs as [sh sh' c c' f io mo r q p st Hc|sh sh' c f f' io mo r q q' p st x Hf|sh id f io mo w q p st
    |sh id f io mo s s' q p st Hg Hw|sh id f io mo s s' image q p st Hg Ha|sh c f io mo s s' q p st Hl
    |sh c f mo r q p st Hr|sh c f mo r q p st|sh c f io r q p st|sh c f io r q p st].
  - by eapply inv_control.
  - by eapply inv_forward.
  - destruct Hi as [P1 P2 P3 P4 P5 P6]. cbn in *. destruct P2 as [[[= ->] [= ->]]|(s0 & ? & _)]; [|done].
    destruct P4 as [Hp|(m & _ & _ & _ & [|])]; [|done|done]. split; cbn; try done.
    + right. exists (reader_new w0). split_and!; try done. by left.
    + by left.
  - assert (Hn : r_reader s = GIdle -> next_request start s id).
    { destruct (pi_control _ Hi) as [[? _]|(s0 & [= <-] & _ & Hn & _)]; [done|]. done. }
    apply (replaying_inv_reader _ _ _ _ _ s); [done|by apply (replay_get start id)| |].
    + by destruct Hg.
    + right. split; [by destruct Hg|]. by eexists.
  - assert (Hn : r_reader s = GIdle -> next_request start s id).
    { destruct (pi_control _ Hi) as [[? _]|(s0 & [= <-] & _ & Hn & _)]; [done|]. done. }
    apply (inv_answer _ id _ _ _ s); [done|by apply (replay_get start id)| |done].
    destruct Hg; cbn in *; [done| |done]. by apply (f_equal length) in Ha; cbn in Ha; lia.
  - apply (replaying_inv_reader _ _ _ _ _ s); [done|by apply replay_loader|by destruct Hl|left; by destruct Hl].
  - by destruct Hi as [P1 P2 P3 P4 P5 P6].
  - by destruct Hi as [P1 P2 P3 P4 P5 P6].
  - by destruct Hi as [P1 P2 P3 P4 P5 P6].
  - by destruct Hi as [P1 P2 P3 P4 P5 P6].
Qed.

Lemma inv_start sh : last_sent_id sh < start -> replaying_inv (replay_start settings w0 sh).
Proof using Type.
  intros Hl. split; cbn; try done.
  - split; [by left|done].
  - by exists [].
  - by left.
Qed.

Lemma replay_run_inv sh s : last_sent_id sh < start ->
  rtc (step settings) (replay_start settings w0 sh) s -> replaying_inv s.
Proof using All.
  intros Hl Hr. pose proof (inv_start sh Hl) as Hi. induction Hr as [|s1 s2 s3 Hs _ IH]; [done|].
  apply IH. by eapply inv_step.
Qed.
End Invariant.

(** ** The end of a replay *)

Section End.
Context {world : Type} `{ImageStoreLaws world} (settings : replay_settings) (w0 : world) (Hw0 : world_ok w0).
Notation start := (start_image_id settings).

Definition ended (c : control_pc) : Prop := c = CFinish \/ c = CEnd.

(** Nobody stopped the replay: the state is replaying until [control_reader] is done, which it is
    when no further image is due. *)
Record calm_inv (s : replay world) : Prop := {
  calm_state : rp_stopped s = false -> rp_control s <> CEnd ->
    sh_state (rp_shared s) = rs_replaying /\ rp_forward s <> FFinish /\ rp_forward s <> FEnd /\ rp_monitor s = MWait;
  calm_end : rp_stopped s = false -> ended (rp_control s) ->
    le_opt (next_id start (answers_of (rp_reader s))) (end_image_id settings) = false \/
    exists i rest, answers_of (rp_reader s) = (i, None) :: rest
}.

Lemma asks_next r rq : asks settings w0 r rq -> rq_image_id rq = next_id start (answers_of r).
Proof using Type.
  intros [[-> ->]|(s & -> & _ & Hn & _)]; [done|]. cbn. unfold next_request in Hn.
  by destruct (r_answers s) as [|[i [m|]] rest].
Qed.

Lemma calm_step s s' : replaying_inv settings w0 s -> calm_inv s -> step settings s s' -> calm_inv s'.
Proof using Type.
  intros Hi [C1 C2] Hs. destruct Hs as [sh sh' c c' f io mo r q p st Hc|sh sh' c f f' io mo r q q' p st x Hf|sh id f io mo w q p st
    |sh id f io mo s s' q p st Hg Hw|sh id f io mo s s' image q p st Hg Ha|sh c f io mo s s' q p st Hl
    |sh c f mo r q p st Hr|sh c f mo r q p st|sh c f io r q p st|sh c f io r q p st]; cbn in *.
  - pose proof (pi_control _ _ _ Hi) as Hok. cbn in Hok. destruct Hc as [sh rq|sh id|sh resp Hr|sh id Hid|sh]; cbn in *.
    + split; cbn.
      * intros Hst _. apply C1; [done|]. done.
      * intros Hst He. destruct (C1 Hst ltac:(done)) as (Hrep & _). destruct Hok as [Hask _].
        apply asks_next in Hask as <-. unfold is_replaying in He. rewrite bool_decide_eq_true_2 in He by done.
        rewrite andb_true_r in He. left. revert He. destruct (le_opt (rq_image_id rq) (end_image_id settings)); [|done]. intros [E|E]; discriminate E.
    + split; cbn; [by intros; apply C1|]. by intros _ [|].
    + split; cbn; [by intros; apply C1|]. intros _ _. right. destruct Hok as ([m|] & Ha & ->).
      * by destruct (Hr (pb_image_id m)).
      * destruct Ha as (s & i & rest & -> & _ & Ha). eauto.
    + split; cbn; [by intros; apply C1|]. by intros _ [|].
    + split; cbn; [done|]. intros Hst _. by apply C2; [|left].
  - split; cbn; [|by destruct Hf].
    intros Hst Hc. destruct (C1 Hst Hc) as (Hrep & Hf1 & Hf2 & Hm).
    destruct Hf; cbn in *; try done. unfold is_replaying. by rewrite bool_decide_eq_true_2.
  - split; cbn; [by intros; apply C1|]. by intros _ [|].
  - split; cbn; [by intros; apply C1|]. by intros _ [|].
  - split; cbn; [by intros; apply C1|]. by intros _ [|].
  - split; cbn; [done|]. by destruct Hl.
  - done.
  - by split.
  - split; cbn; [|done]. intros Hst Hc. destruct (C1 Hst Hc) as (Hrep & Hf1 & Hf2 & Hm). by rewrite Hrep.
  - split; cbn; [|done]. intros Hst Hc. by destruct (C1 Hst Hc) as (Hrep & Hf1 & Hf2 & Hm).
Qed.

Lemma calm_run sh s : last_sent_id sh < start ->
  rtc (step settings) (replay_start settings w0 sh) s -> replaying_inv settings w0 s /\ calm_inv s.
Proof using All.
  intros Hl Hr. assert (Hi : replaying_inv settings w0 (replay_start settings w0 sh) /\ calm_inv (replay_start settings w0 sh)).
  { split; [by apply inv_start|]. split; cbn; [done|by intros _ [|]]. }
  induction Hr as [|s1 s2 s3 Hs _ IH]; [done|]. apply IH. destruct Hi as [Hi Hc].
  split; [by eapply inv_step|by eapply calm_step].
Qed.

(** The stored images of the range, in order. *)
Definition in_range : list Z :=
  base.filter (fun x => start <= x /\ le_opt x (end_image_id settings) = true) catalog.

Lemma in_range_split :
  in_range = base.filter (fun x => le_opt x (end_image_id settings) = true) (base.filter (fun x => start <= x) catalog).
Proof using Type. unfold in_range. rewrite list_filter_filter. apply list_filter_iff. intros x. tauto. Qed.

Lemma filter_prefix (P : Z -> Prop) `{!forall x, Decision (P x)} (l k : list Z) :
  l `prefix_of` k -> base.filter P l `prefix_of` base.filter P k.
Proof. intros [r ->]. rewrite list.filter_app. by apply prefix_app_r. Qed.

(** A part of a sorted list up to a bound is a prefix. *)
Lemma sorted_filter_prefix (l : list Z) a b : StronglySorted Z.lt l ->
  base.filter (fun x => a <= x < b) l `prefix_of` base.filter (fun x => a <= x) l.
Proof.
  induction 1 as [|x l Hs IH Hall]; [done|]. rewrite list.Forall_forall in Hall. rewrite !filter_cons.
  destruct (decide (a <= x < b)) as [Hx|Hx].
  - rewrite decide_True by lia. by apply prefix_cons.
  - destruct (decide (a <= x)) as [Hax|Hax]; [|done].
    rewrite list_filter_nil; [apply prefix_nil|]. intros y Hy. specialize (Hall y Hy). lia.
Qed.

Lemma filter_within (l : list pb_image) :
  pb_image_id <$> base.filter (within settings) l =
  base.filter (fun x => le_opt x (end_image_id settings) = true) (pb_image_id <$> l).
Proof.
  induction l as [|m l IH]; [done|]. cbn [fmap list_fmap]. rewrite !filter_cons. unfold within at 1.
  by destruct (decide _); cbn; rewrite IH.
Qed.

Lemma pushed_prefix s : replaying_inv settings w0 s -> pb_image_id ∘ fst <$> rp_pushed s `prefix_of` in_range.
Proof using All.
  intros Hi. destruct (pi_images _ _ _ Hi) as (d & Hd & Hp). rewrite list_fmap_compose, Hp, filter_within.
  assert (Hret : pb_image_id <$> returned (answers_of (rp_reader s)) `prefix_of` base.filter (fun x => start <= x) catalog).
  { pose proof (pi_reader _ _ _ Hi) as Hr. destruct (rp_reader s) as [w|r]; [apply prefix_nil|]. cbn [answers_of].
    destruct (returned_ids start (r_answers r)) as [-> _].
    - by eapply replay_chained.
    - by apply (ri_answers r), (replay_inv start w0).
    - apply sorted_filter_prefix, catalog_sorted. }
  rewrite in_range_split. apply filter_prefix. etransitivity; [|exact Hret]. rewrite Hd, fmap_app. by apply prefix_app_r.
Qed.

(** Nothing is left out when the replay ends by itself. *)
Lemma pushed_all s : full_files -> at_file_start start -> replaying_inv settings w0 s -> calm_inv s ->
  rp_stopped s = false -> ended (rp_control s) -> pb_image_id ∘ fst <$> rp_pushed s = in_range.
Proof using All.
  intros Hfull Hst Hi Hc Hns He. destruct (pi_images _ _ _ Hi) as (d & Hd & Hp).
  assert (Hpend : in_hand (rp_forward s) ++ rp_queue s = []).
  { destruct (pi_pending _ _ _ Hi) as [[Hf Hq]%app_eq_nil|(m & _ & _ & _ & Hcon)].
    - rewrite Hq. by destruct (rp_forward s).
    - by destruct He as [E|E]; rewrite E in Hcon; destruct Hcon. }
  rewrite Hpend, app_nil_r in Hd. rewrite list_fmap_compose, Hp, filter_within, <- Hd, in_range_split.
  pose proof (pi_reader _ _ _ Hi) as Hr. pose proof (calm_end _ Hc Hns He) as Hend.
  assert (Hret : exists n, pb_image_id <$> returned (answers_of (rp_reader s)) = base.filter (fun x => start <= x < n) catalog /\
    (le_opt n (end_image_id settings) = false \/ forall x, x ∈ catalog -> x < n)).
  { exists (next_id start (answers_of (rp_reader s))). destruct (rp_reader s) as [w|r]; cbn [answers_of] in *.
    - split; [|destruct Hend as [|(? & ? & ?)]; [by left|done]]. cbn. symmetry. apply list_filter_nil. intros x _. lia.
    - split.
      + apply (returned_ids start); [by eapply replay_chained|by apply (ri_answers r), (replay_inv start w0)].
      + destruct Hend as [|(i & rest & E)]; [by left|right]. rewrite E. cbn.
        pose proof (ci_answers r (replay_complete Hfull start w0 r Hst Hw0 Hr)) as Hans. rewrite E in Hans.
        apply Forall_cons_1 in Hans as [Hans _]. by apply Hans. }
  destruct Hret as (n & -> & Hn). rewrite !list_filter_filter. apply filter_ext_in. intros x Hx. split; [tauto|].
  intros [Hle Hs]. split; [done|]. split; [done|]. destruct Hn as [Hn|Hn]; [|auto].
  unfold le_opt in *. destruct (end_image_id settings); [lia|done].
Qed.

(** Only images up to the end are reported as sent. *)
Definition reports_within (l0 : Z) (s : replay world) : Prop :=
  (last_sent_id (rp_shared s) = l0 \/ le_opt (last_sent_id (rp_shared s)) (end_image_id settings) = true) /\
  match rp_forward s with FCount _ m | FStore _ m => within settings m | _ => True end.

Lemma reports_within_run l0 s s' : reports_within l0 s -> rtc (step settings) s s' ->
  last_sent_id (rp_shared s') = l0 \/ le_opt (last_sent_id (rp_shared s')) (end_image_id settings) = true.
Proof using Type.
  intros Hw Hr. induction Hr as [|s1 s2 s3 Hs _ IH]; [apply Hw|]. apply IH. clear IH. destruct Hw as [H1 H2]. split.
  - destruct Hs as [? ? ? ? ? ? ? ? ? ? ? Hf| ? ? ? ? ? ? ? ? ? ? ? ? ? Hf | | | | | | | |]; try done; destruct Hf; cbn in *; try done.
    by right.
  - destruct Hs as [| ? ? ? ? ? ? ? ? ? ? ? ? ? Hf | | | | | | | |]; try done. destruct Hf; cbn in *; try done.
    by destruct (is_replaying _).
Qed.

(** An image behind the end is not reported as sent. *)
Lemma past_end_waits sh s i : last_sent_id sh < start ->
  rtc (step settings) (replay_start settings w0 sh) s -> rp_control s = CWait i ->
  le_opt i (end_image_id settings) = false ->
  last_sent_id (rp_shared s) < i.
Proof using All.
  intros Hl Hr Hc Hi. destruct (calm_run sh s Hl Hr) as [Hinv _].
  pose proof (pi_last _ _ _ Hinv) as Hle. rewrite Hc in Hle. cbn in Hle.
  assert (Hsent : last_sent_id (rp_shared s) = last_sent_id sh \/ le_opt (last_sent_id (rp_shared s)) (end_image_id settings) = true).
  { apply (reports_within_run (last_sent_id sh) (replay_start settings w0 sh) s); [|done]. by split; [left|]. }
  destruct Hsent as [->|Hsent].
  - pose proof (pi_control _ _ _ Hinv) as Hok. rewrite Hc in Hok. destruct Hok as (m & (r & j & rest & Hrd & _ & Ha) & ->).
    pose proof (pi_reader _ _ _ Hinv) as Hr'. rewrite Hrd in Hr'. destruct (replay_chained start w0 r Hr') as [Hch _].
    pose proof (ri_answers r (replay_inv start w0 r Hw0 Hr')) as Hans.
    rewrite Ha in Hch, Hans. cbn in Hch. destruct Hch as (-> & Hch & _). apply Forall_cons_1 in Hans as [(Hm & _) Hans].
    destruct (returned_ids start rest Hch Hans) as [_ ?]. cbn in Hm. lia.
  - unfold le_opt in *. destruct (end_image_id settings) as [e|]; [|done].
    apply Z.leb_le in Hsent. apply Z.leb_gt in Hi. lia.
Qed.
End End.

(** ** A first image, and a stop *)

Section Runs.
Context {world : Type} `{ImageStore world} (settings : replay_settings).
Notation start := (start_image_id settings).

(** From the start to the first answer. *)
Lemma first_answer w sh bm l w' meta :
  fetch start = Ret (Some (bm :: l)) -> load w bm = Ret (w', meta) -> start <= pb_image_id meta ->
  le_opt start (end_image_id settings) = true ->
  rtc (step settings) (replay_start settings w sh)
    (Build_replay (replay_change_state rs_replaying sh) (CWait (pb_image_id meta)) (FTest 0) SRead MWait
       (inr (Build_reader (idle_handler [] start) w' GIdle (LLoad l) [(start, Some meta)])) [meta] [] false).
Proof using Type.
  intros Hf Hl Hle He. unfold replay_start.
  eapply rtc_l; [apply step_control, control_test|]. cbn [rq_image_id]. rewrite He. cbn.
  eapply rtc_l; [apply step_new|].
  eapply rtc_l; [apply step_wait; [by apply get_wait|done]|].
  eapply rtc_l; [apply step_loader, loader_take; reflexivity|].
  eapply rtc_l; [apply step_loader, loader_found; exact Hf|].
  eapply rtc_l; [apply step_loader, loader_read; exact Hl|].
  eapply rtc_l; [apply step_loader, loader_push|].
  eapply rtc_l.
  { eapply step_answer with (image := Some meta); [apply get_woken; [reflexivity|]|reflexivity].
    unfold try_pop_image. cbn. by rewrite (proj2 (Z.leb_le _ _)). }
  eapply rtc_l; [apply step_control, control_ack|]. done.
Qed.

(** The image is pushed. *)
Lemma first_push sh c io mo r meta st :
  le_opt (pb_image_id meta) (end_image_id settings) = true ->
  exists sh' f, rtc (step settings)
    (Build_replay (replay_change_state rs_replaying sh) c (FTest 0) io mo r [meta] [] st)
    (Build_replay sh' c f io mo r [] [(meta, reader_world r)] st).
Proof using Type.
  intros He. eexists _, _.
  eapply rtc_l; [apply step_forward, forward_test|]. cbn.
  eapply rtc_l; [apply step_forward, forward_receive|]. cbn.
  eapply rtc_l; [by apply step_forward, forward_push|]. cbn.
  eapply rtc_l; [apply step_forward, forward_count|]. apply rtc_refl.
Qed.

(** A stop can leave the driver in the state finishing for ever: [forward_images] ends and the
    monitor resets the state before [control_reader] sets it for the last time.  From then on every
    request is rejected. *)
Lemma stop_leaves_finishing w sh :
  exists s, rtc (step settings) (replay_start settings w sh) s /\ rp_control s = CEnd /\ rp_forward s = FEnd /\
    forall s', rtc (step settings) s s' -> sh_state (rp_shared s') = rs_finishing.
Proof using Type.
  eexists. split; [|split; [|split]].
  - unfold replay_start.
    eapply rtc_l; [by apply step_stop|].
    eapply rtc_l; [apply step_stop_store|].
    eapply rtc_l; [apply step_forward, forward_test|]. cbn.
    eapply rtc_l; [apply step_forward, forward_finish|]. cbn.
    eapply rtc_l; [apply step_monitor|]. cbn.
    eapply rtc_l; [apply step_reset|].
    eapply rtc_l; [apply step_control, control_test|]. cbn [rq_image_id is_replaying].
    eapply rtc_l; [|apply rtc_refl]. rewrite andb_false_r. apply step_control, control_finish.
  - done.
  - done.
  - intros s' Hr.
    match type of Hr with rtc _ ?s0 _ => assert (H0 : rp_control s0 = CEnd /\ rp_forward s0 = FEnd /\ rp_session s0 = SRead /\
      rp_monitor s0 = MWait /\ sh_state (rp_shared s0) = rs_finishing) by done end.
    revert H0. induction Hr as [|s1 s2 s3 Hs _ IH]; [tauto|]. intros (E1 & E2 & E3 & E4 & E5). apply IH.
    destruct Hs as [sh1 sh' c c' f io mo r q p st Hc|sh1 sh' c f f' io mo r q q' p st x Hf|sh1 id f io mo w1 q p st
      |sh1 id f io mo s s' q p st Hg Hw|sh1 id f io mo s s' image q p st Hg Ha|sh1 c f io mo s s' q p st Hl
      |sh1 c f mo r q p st Hr|sh1 c f mo r q p st|sh1 c f io r q p st|sh1 c f io r q p st]; cbn in *; try done.
    + subst c. inversion Hc.
    + subst f. inversion Hf.
    + unfold is_replaying in Hr. by rewrite E5 in Hr.
    + by rewrite E5.
Qed.
End Runs.

(** The message of an image that the reader shows. *)
Lemma forward_message_replayed writer_ring reader_ring items m meta :
  replayed writer_ring reader_ring items m meta ->
  exists it d header, it ∈ items /\ item_id it = pb_image_id meta /\ item_bytes writer_ring it = Ret d /\
    forward_message reader_ring m meta = Ret [FText header; FData d].
Proof.
  intros (it & d & off & Hit & Hd & -> & Hoff & Hread).
  assert (Hh : exists header, prepare_array10_header (fst it) = Ret header).
  { unfold item_bytes, image_bytes in Hd. apply obind_Ret_iff in Hd as (? & _ & Hd).
    apply obind_Ret_iff in Hd as (? & Hs & _). unfold calculate_size in Hs. apply obind_Ret_iff in Hs as (b & Hb & _).
    unfold prepare_array10_header. destruct (pb_dt (fst it)); try done; eexists; reflexivity. }
  destruct Hh as (header & Hh). exists it, d, header. split_and!; try done. unfold forward_message.
  change (prepare_array10_header (set_size_compression (fst it) (zlen d) cp_none)) with (prepare_array10_header (fst it)).
  rewrite Hh. cbn [obind]. rewrite Hoff. cbn [obind]. cbn [set_size_compression pb_size]. by rewrite Hread.
Qed.

(** ** The theorems *)

(** C10: a replay delivers the recording.  The replay starts with an empty queue of the subscription,
    with an id sent last that is below its start, and no message is lost between the reader and the
    driver; the recording ([recording]) has increasing ids below 2^53 - 1000 in an empty store and images that
    are not empty, fit the slots of the reader and take less than 2^64 bytes when compressed, its files are closed,
    no record has expired, and the compressor never fails and is inverted by the decompressor; the reader has at
    least [MIN_RAM_BUFFER_N_SLOTS] slots.  Then, whatever the threads of the driver
    and of the reader do in which order, and whether or not the replay is stopped, the images pushed
    to the client are recorded images from the start id to the end id, in order and without gaps or
    repetitions, and each message carries exactly the bytes the writer's RAM buffer had when the
    image was recorded.  All of them have been pushed when [control_reader] ends, under three more
    conditions: every file of the recording is full, the replay starts at the first image of a file,
    and it is not stopped. *)
Theorem replay_forwards_recording blosc2_compress blosc2_decompress max_overhead prefix root
    writer_ring reader_ring items st folders files_of settings sh w s :
  (forall d, 0 < zlen d -> exists c, blosc2_compress d = Some c /\
     zlen c <= zlen d + max_overhead /\ blosc2_decompress c (zlen d) = Some d) ->
  wf_ram reader_ring -> MIN_RAM_BUFFER_N_SLOTS <= n_slots_ reader_ring ->
  recording blosc2_compress prefix root writer_ring reader_ring items st -> listing items folders files_of ->
  zlen (fst w) = buffer_bytes_ reader_ring -> snd w = FileHandler_new root ->
  let store := file_image_store blosc2_decompress max_overhead prefix root writer_ring reader_ring items st
                 folders files_of in
  let range := base.filter (fun x => start_image_id settings <= x /\ le_opt x (end_image_id settings) = true)
                 (item_id <$> items) in
  last_sent_id sh < start_image_id settings -> rtc (step settings) (replay_start settings w sh) s ->
  pb_image_id ∘ fst <$> rp_pushed s `prefix_of` range /\
  (forall meta w', (meta, w') ∈ rp_pushed s -> exists it d header, it ∈ items /\ item_id it = pb_image_id meta /\
     item_bytes writer_ring it = Ret d /\ forward_message reader_ring (fst w') meta = Ret [FText header; FData d]) /\
  (full_files -> at_file_start (start_image_id settings) -> rp_stopped s = false -> rp_control s = CEnd ->
   pb_image_id ∘ fst <$> rp_pushed s = range).
Proof.
  intros Hb Hram Hslots Hrec Hdir Hz Hh store range Hl Hr.
  pose proof (file_image_laws _ _ _ _ _ _ _ _ _ _ _ Hb Hram Hslots Hrec Hdir) as Hlaws.
  change (@ImageStoreLaws _ store) in Hlaws.
  assert (Hw : world_ok w) by (cbn; rewrite Hh; split; [done|split; [done|by left]]).
  destruct (calm_run settings w Hw sh s Hl Hr) as [Hi Hc]. split_and!.
  - exact (pushed_prefix settings w Hw s Hi).
  - intros meta w' Hin. pose proof (pi_shows _ _ _ Hi) as Hsh. rewrite list.Forall_forall in Hsh.
    exact (forward_message_replayed _ _ _ _ _ (Hsh _ Hin)).
  - intros Hfull Hst Hns He. apply (pushed_all settings w Hw s Hfull Hst Hi Hc Hns). by right.
Qed.

(** An image behind the end of the replay stops it for ever.  Where the id the replay has reached
    is not stored and the next stored image is behind the end, the reader acknowledges that image,
    [forward_images] does not send it, and [control_reader] waits for it whatever happens later; not
    even a request to stop ends the thread. *)
Lemma replay_past_end_hangs {world} `{ImageStoreLaws world} settings (w : world) sh s s' i :
  world_ok w -> last_sent_id sh < start_image_id settings ->
  rtc (step settings) (replay_start settings w sh) s -> rp_control s = CWait i ->
  le_opt i (end_image_id settings) = false ->
  rtc (step settings) s s' -> rp_control s' = CWait i.
Proof.
  intros Hw Hl Hr Hc Hi Hr'. induction Hr' as [|s1 s2 s3 Hs _ IH]; [done|]. apply IH; [by eapply rtc_r|].
  pose proof (past_end_waits settings w Hw sh s1 i Hl Hr Hc Hi) as Hlt.
  destruct Hs as [? ? ? ? ? ? ? ? ? ? ? Hcs| | | | | | | | |]; cbn in *; subst; try done.
  inversion Hcs; subst. lia.
Qed.

Definition demo_replay_settings (first last : Z) : replay_settings :=
  {| start_image_id := first; end_image_id := Some last; replay_delay := None |}.

(** One image of the recording is pushed. *)
Lemma demo_pushed : let store := demo_image_store in
  exists s, rtc (step (demo_replay_settings 999 1999)) (replay_start (demo_replay_settings 999 1999) demo_world shared_new) s /\
    length (rp_pushed s) = 1%nat.
Proof.
  intros store. destruct (demo_first 999 ltac:(by left)) as (bm & l & w' & meta & Hf & Hl & Hm).
  pose proof (first_answer (demo_replay_settings 999 1999) demo_world shared_new bm l w' meta Hf Hl
    ltac:(cbn; lia) eq_refl) as Hr.
  edestruct (first_push (demo_replay_settings 999 1999) shared_new) as (sh' & f & Hp).
  { cbn. by rewrite Hm. }
  eexists. split; [etransitivity; [exact Hr|exact Hp]|done].
Qed.

Lemma replay_forwards_recording_witness : let store := demo_image_store in
  exists s, rtc (step (demo_replay_settings 999 1999)) (replay_start (demo_replay_settings 999 1999) demo_world shared_new) s /\
    length (rp_pushed s) = 1%nat /\ pb_image_id ∘ fst <$> rp_pushed s `prefix_of` [999; 1999] /\
    forall meta w', (meta, w') ∈ rp_pushed s -> exists it d header, it ∈ demo_items /\ item_id it = pb_image_id meta /\
      item_bytes demo_store_ring it = Ret d /\ forward_message demo_reader_ring (fst w') meta = Ret [FText header; FData d].
Proof.
  destruct demo_pushed as (s & Hr & Hn). exists s. split; [exact Hr|]. split; [exact Hn|].
  destruct demo_ring_ok as (Hram & Hslots & Hz).
  destruct (replay_forwards_recording _ _ _ _ _ _ _ _ _ _ _ (demo_replay_settings 999 1999) shared_new demo_world s
    demo_blosc_ok Hram Hslots demo_recording demo_listing Hz eq_refl ltac:(reflexivity) Hr) as (H1 & H2 & _).
  split; [exact H1|exact H2].
Defined.

(** The first recorded image is behind the end of the replay. *)
Lemma replay_past_end_hangs_witness : let store := demo_image_store in
  exists s, rtc (step (demo_replay_settings 500 700)) (replay_start (demo_replay_settings 500 700) demo_world shared_new) s /\
    forall s', rtc (step (demo_replay_settings 500 700)) s s' -> rp_control s' = CWait 999.
Proof.
  intros store. destruct (demo_first 500 ltac:(by right)) as (bm & l & w' & meta & Hf & Hl & Hm).
  pose proof (first_answer (demo_replay_settings 500 700) demo_world shared_new bm l w' meta Hf Hl
    ltac:(cbn; lia) eq_refl) as Hr.
  eexists. split; [exact Hr|]. intros s'.
  apply (@replay_past_end_hangs _ store demo_laws (demo_replay_settings 500 700) demo_world shared_new _ s' 999
    demo_world_ok ltac:(reflexivity) Hr); [cbn; by rewrite Hm|reflexivity].
Defined.
