(* ===== verification/ReplayThreads.v ===== *)
(** * std-buffer-driver: the threads of the process

    [src/source/std-buffer-driver/src]: one thread handles the requests of all sessions, every session has a
    monitor thread, and every replay that was started has its threads [control_reader] and [forward_images].  All of them
    share the state of the driver, the socket to the reader and the subscription to its images.  The steps of a replay
    are those of [BufferDriver]; what the reader answers and publishes is arbitrary here.  A step of the process is a
    step of one of its threads. *)

From S2P Require Import Prelude Protocol BufferReader BufferDriver.

(** ** The process *)

(** The two threads of [replayer::start]. *)
Record replay_threads : Type := { t_settings : replay_settings; t_control : control_pc; t_forward : forward_pc }.

(** The thread of the requests: waiting; in [start_recording] behind the test of the state; in [stop_recording] behind
    its test. *)
Inductive request_pc : Type := QRead | QStart (settings : replay_settings) | QStop.

Record driver : Type := {
  d_shared : shared;
  d_request : request_pc;
  d_monitors : list monitor_pc;
  d_replays : list replay_threads;
  d_queue : list pb_image
}.

Definition driver_new : driver :=
  {| d_shared := shared_new; d_request := QRead; d_monitors := []; d_replays := []; d_queue := [] |}.

(** The threads that [start] creates. *)
Definition started (settings : replay_settings) : replay_threads :=
  {| t_settings := settings; t_control := CTest {| rq_image_id := start_image_id settings; rq_new_request := true |};
     t_forward := FTest 0 |}.

Inductive move : Type :=
| Mconnect | Mdisconnect | Mstart | Mstart_store | Mreject | Mstop | Mstop_store | Mmonitor | Mcontrol | Mreply | Mforward | Mpublish.

Inductive driver_step : driver -> move -> driver -> Prop :=
| driver_connect sh ms rs q :
    driver_step (Build_driver sh QRead ms rs q) Mconnect (Build_driver sh QRead (ms ++ [MWait]) rs q)
(** The end of a session joins its monitor. *)
| driver_disconnect sh ms1 ms2 rs q :
    driver_step (Build_driver sh QRead (ms1 ++ MWait :: ms2) rs q) Mdisconnect (Build_driver sh QRead (ms1 ++ ms2) rs q)
| driver_start sh ms rs q settings :
    ms <> [] -> sh_state sh = rs_idle ->
    driver_step (Build_driver sh QRead ms rs q) Mstart (Build_driver sh (QStart settings) ms rs q)
| driver_start_store sh ms rs q settings :
    driver_step (Build_driver sh (QStart settings) ms rs q) Mstart_store
      (Build_driver (replay_change_state rs_replaying sh) QRead ms (started settings :: rs) q)
| driver_reject sh ms rs q :
    ms <> [] -> sh_state sh <> rs_idle ->
    driver_step (Build_driver sh QRead ms rs q) Mreject (Build_driver sh QRead ms rs q)
| driver_stop sh ms rs q :
    ms <> [] ->
    driver_step (Build_driver sh QRead ms rs q) Mstop (Build_driver sh (if is_replaying sh then QStop else QRead) ms rs q)
| driver_stop_store sh ms rs q :
    driver_step (Build_driver sh QStop ms rs q) Mstop_store (Build_driver (replay_change_state rs_stop sh) QRead ms rs q)
| driver_monitor sh io ms1 ms2 rs q :
    driver_step (Build_driver sh io (ms1 ++ MWait :: ms2) rs q) Mmonitor
      (Build_driver sh io (ms1 ++ monitor_next (sh_state sh) :: ms2) rs q)
| driver_reset sh io ms1 ms2 rs q :
    driver_step (Build_driver sh io (ms1 ++ MReset :: ms2) rs q) Mmonitor
      (Build_driver (replay_change_state rs_idle sh) io (ms1 ++ MWait :: ms2) rs q)
| driver_control sh sh' io ms rs1 s c c' f rs2 q :
    control_step s sh c sh' c' ->
    driver_step (Build_driver sh io ms (rs1 ++ Build_replay_threads s c f :: rs2) q) Mcontrol
      (Build_driver sh' io ms (rs1 ++ Build_replay_threads s c' f :: rs2) q)
| driver_reply sh io ms rs1 s rq r f rs2 q :
    driver_step (Build_driver sh io ms (rs1 ++ Build_replay_threads s (CAsk rq) f :: rs2) q) Mreply
      (Build_driver sh io ms (rs1 ++ Build_replay_threads s (CReply r) f :: rs2) q)
| driver_forward sh sh' io ms rs1 s c f f' rs2 q q' x :
    forward_step s sh f q sh' f' q' x ->
    driver_step (Build_driver sh io ms (rs1 ++ Build_replay_threads s c f :: rs2) q) Mforward
      (Build_driver sh' io ms (rs1 ++ Build_replay_threads s c f' :: rs2) q')
| driver_publish sh io ms rs q m :
    driver_step (Build_driver sh io ms rs q) Mpublish (Build_driver sh io ms rs (q ++ [m])).

(** Processes reached by steps that satisfy [calm]. *)
Inductive runs (calm : driver -> move -> Prop) (d0 : driver) : driver -> Prop :=
| runs_here : runs calm d0 d0
| runs_step d l d' : runs calm d0 d -> calm d l -> driver_step d l d' -> runs calm d0 d'.

Definition any_move (d : driver) (l : move) : Prop := True.

(** One client at a time, which never stops a replay. *)
Definition patient_client (d : driver) (l : move) : Prop :=
  match l with Mconnect => d_monitors d = [] | Mstop => False | _ => True end.

(** ** One replay at a time *)

Definition ended (t : replay_threads) : Prop := t_control t = CEnd /\ t_forward t = FEnd.

(** [forward_images] inside its loop. *)
Definition forwarding (f : forward_pc) : Prop := f <> FFinish /\ f <> FEnd.

(** What the state says about the replays. *)
Definition state_says (s : reader_state) (rs : list replay_threads) : Prop :=
  match s with
  | rs_idle | rs_finished => Forall ended rs
  | rs_replaying => exists t old, rs = t :: old /\ Forall ended old /\ t_control t <> CEnd /\ forwarding (t_forward t)
  | rs_finishing => exists t old, rs = t :: old /\ Forall ended old /\ t_control t = CEnd /\ t_forward t <> FEnd
  | rs_stop | rs_error => False
  end.

Record one_replay (d : driver) : Prop := {
  or_state : state_says (sh_state (d_shared d)) (d_replays d);
  or_monitors : (length (d_monitors d) <= 1)%nat;
  or_reset : MReset ∈ d_monitors d -> sh_state (d_shared d) = rs_finished;
  or_request : match d_request d with QRead => True | QStart _ => sh_state (d_shared d) = rs_idle | QStop => False end
}.

(** A thread that takes a step belongs to the replay that is not ended. *)
Lemma live_is_newest s rs1 t rs2 : state_says s (rs1 ++ t :: rs2) -> ~ ended t ->
  rs1 = [] /\ Forall ended rs2 /\ (s = rs_replaying \/ s = rs_finishing).
Proof.
  intros Hs Ht.
  assert (Hno : ~ Forall ended (rs1 ++ t :: rs2)).
  { rewrite Forall_app. intros [_ [? _]%Forall_cons_1]. done. }
  assert (Hnew : forall t0 old, rs1 ++ t :: rs2 = t0 :: old -> Forall ended old -> rs1 = [] /\ Forall ended rs2).
  { intros t0 old E Hold. destruct rs1 as [|t1 rs1]; [by injection E as -> ->|]. injection E as -> <-.
    apply Forall_app in Hold as [_ [? _]%Forall_cons_1]. done. }
  destruct s; cbn in Hs; try done; destruct Hs as (t0 & old & E & Hold & _); destruct (Hnew t0 old E Hold); auto.
Qed.

Lemma control_live s sh c sh' c' : control_step s sh c sh' c' -> c <> CEnd.
Proof. by destruct 1. Qed.

Lemma forward_live s sh f q sh' f' q' x : forward_step s sh f q sh' f' q' x -> f <> FEnd.
Proof. by destruct 1. Qed.

Lemma singleton_middle {A} (l1 l2 : list A) x : (length (l1 ++ x :: l2) <= 1)%nat -> l1 = [] /\ l2 = [].
Proof. rewrite length_app. simpl. destruct l1, l2; simpl; try lia. done. Qed.

(** A thread of a replay changes the state. *)
Lemma one_replay_threads sh sh' io ms rs rs' q q' :
  one_replay (Build_driver sh io ms rs q) -> sh_state sh = rs_replaying \/ sh_state sh = rs_finishing ->
  state_says (sh_state sh') rs' -> one_replay (Build_driver sh' io ms rs' q').
Proof.
  intros [P1 P2 P3 P4] Hst Hs. cbn in *. split; cbn; try done.
  - intros Hr. rewrite (P3 Hr) in Hst. naive_solver.
  - destruct io as [|st|]; try done. rewrite P4 in Hst. naive_solver.
Qed.

Lemma one_replay_control sh sh' io ms rs1 s c c' f rs2 q :
  one_replay (Build_driver sh io ms (rs1 ++ Build_replay_threads s c f :: rs2) q) -> control_step s sh c sh' c' ->
  one_replay (Build_driver sh' io ms (rs1 ++ Build_replay_threads s c' f :: rs2) q).
Proof.
  intros Hi Hc. pose proof (or_state _ Hi) as Hs. cbn in Hs.
  destruct (live_is_newest _ _ _ _ Hs) as (-> & Hold & Hst); [intros [? _]; by apply control_live in Hc|].
  eapply one_replay_threads; [exact Hi|done|]. cbn [app] in *. destruct Hst as [E|E]; rewrite E in Hs; cbn in Hs;
    destruct Hs as (t & old & [= <- <-] & _ & H1 & H2); cbn in H1, H2; [|by apply control_live in Hc].
  destruct Hc as [sh rq|sh id|sh r Hr|sh id Hid|sh]; cbn; rewrite ?E; cbn.
  1-4: eexists _, _; split_and!; [done|done| |done]; cbn; try destruct (_ && _); done.
  eexists _, _. split_and!; [done|done|done|]. by destruct H2.
Qed.

Lemma one_replay_forward sh sh' io ms rs1 s c f f' rs2 q q' x :
  one_replay (Build_driver sh io ms (rs1 ++ Build_replay_threads s c f :: rs2) q) -> forward_step s sh f q sh' f' q' x ->
  one_replay (Build_driver sh' io ms (rs1 ++ Build_replay_threads s c f' :: rs2) q').
Proof.
  intros Hi Hf. pose proof (or_state _ Hi) as Hs. cbn in Hs.
  destruct (live_is_newest _ _ _ _ Hs) as (-> & Hold & Hst); [intros [_ ?]; by apply forward_live in Hf|].
  eapply one_replay_threads; [exact Hi|done|]. cbn [app] in *. destruct Hst as [E|E]; rewrite E in Hs; cbn in Hs;
    destruct Hs as (t & old & [= <- <-] & _ & H1 & H2); cbn in H1, H2.
  - destruct Hf; cbn; try rewrite E; cbn; try (by destruct H2);
      eexists _, _; (split; [done|]); (split; [done|]); (split; [done|]); cbn; unfold is_replaying; rewrite ?E; done.
  - destruct Hf; cbn; try rewrite E; cbn;
      try (eexists _, _; (split; [done|]); (split; [done|]); (split; [done|]); cbn; unfold is_replaying; rewrite ?E; done).
    constructor; [|done]. by rewrite H1.
Qed.

Lemma one_replay_step d l d' : one_replay d -> patient_client d l -> driver_step d l d' -> one_replay d'.
Proof.
  intros Hi Hc Hs. destruct Hs; cbn in Hc.
  - destruct Hi as [P1 P2 P3 P4]. cbn in *. subst ms. split; cbn; try done; by intros ?%list_elem_of_singleton.
  - destruct Hi as [P1 P2 P3 P4]. cbn in *. destruct (singleton_middle _ _ _ P2) as [-> ->]. split; cbn; try done; [lia|]. by intros ?%elem_of_nil.
  - by destruct Hi as [P1 P2 P3 P4]; split.
  - destruct Hi as [P1 P2 P3 P4]. cbn in *. rewrite P4 in *. split; cbn; try done.
    + eexists _, _. split_and!; [done|done|done|done].
    + intros Hr%P3. done.
  - done.
  - done.
  - by destruct (or_request _ Hi).
  - destruct Hi as [P1 P2 P3 P4]. cbn in *. destruct (singleton_middle _ _ _ P2) as [-> ->]. split; cbn; try done.
    intros E%list_elem_of_singleton. by destruct (sh_state sh).
  - destruct Hi as [P1 P2 P3 P4]. cbn in *. destruct (singleton_middle _ _ _ P2) as [-> ->]. assert (E : sh_state sh = rs_finished) by (apply P3; set_solver). rewrite E in *.
    split; cbn; try done; [by intros ?%list_elem_of_singleton|]. by destruct io.
  - by eapply one_replay_control.
  - pose proof (or_state _ Hi) as Hs. cbn in Hs.
    destruct (live_is_newest _ _ _ _ Hs) as (-> & Hold & Hst); [by intros [? _]|].
    eapply one_replay_threads; [exact Hi|done|]. cbn [app] in *.
    destruct Hst as [E|E]; rewrite E in *; cbn in Hs |- *; destruct Hs as (t & old & [= <- <-] & _ & H1 & H2); cbn in H1, H2; [|done].
    by eexists _, _.
  - by eapply one_replay_forward.
  - by destruct Hi as [P1 P2 P3 P4]; split.
Qed.

(** C14: a driver with one client at a time, which lets its replays come to their end, whatever the interleaving of the threads and
    whatever the reader answers and publishes: the threads of at most one replay are alive; the states
    replaying and finishing say that one is, idle and finished that none is, and no other state occurs; so a
    request to start, which is accepted in the state idle only, finds the socket to the reader and the subscription unused. *)
Theorem replays_one_at_a_time d :
  runs patient_client driver_new d ->
  (forall i j ti tj, d_replays d !! i = Some ti -> d_replays d !! j = Some tj -> ~ ended ti -> ~ ended tj -> i = j) /\
  (Forall ended (d_replays d) <-> sh_state (d_shared d) = rs_idle \/ sh_state (d_shared d) = rs_finished) /\
  (forall settings, d_request d = QStart settings -> Forall ended (d_replays d)).
Proof.
  intros Hr. assert (Hi : one_replay d).
  { induction Hr as [|d l d' _ IH Hc Hs]; [|by eapply one_replay_step]. split; cbn; try done; [lia|]. by intros ?%elem_of_nil. }
  destruct Hi as [P1 P2 P3 P4].
  assert (Hiff : Forall ended (d_replays d) <-> sh_state (d_shared d) = rs_idle \/ sh_state (d_shared d) = rs_finished).
  { split; [|by intros [E|E]; rewrite E in P1]. intros Hall. destruct (sh_state (d_shared d)); auto; try done;
      destruct P1 as (t & old & E & _ & H1 & H2); rewrite E in Hall; apply Forall_cons_1 in Hall as [[Hc Hf] _]; [done|done]. }
  split_and!; [|done|].
  - intros i j ti tj Hti Htj Ni Nj.
    assert (Hz : forall k t, d_replays d !! k = Some t -> ~ ended t -> k = 0%nat).
    { intros k t Hk Nt. apply list_elem_of_split_length in Hk as (l1 & l2 & E & ->). rewrite E in P1.
      by destruct (live_is_newest _ _ _ _ P1 Nt) as [-> _]. }
    by rewrite (Hz _ _ Hti Ni), (Hz _ _ Htj Nj).
  - intros settings E. rewrite E in P4. apply Hiff. by left.
Qed.

(** A replay of the images 5 to 8, asking for its first image. *)
Definition demo_settings : replay_settings := {| start_image_id := 5; end_image_id := Some 8; replay_delay := None |}.
Definition demo_request : request_next_image := {| rq_image_id := 5; rq_new_request := true |}.
Definition demo_replaying : shared := {| sh_state := rs_replaying; images_processed := 0; last_sent_id := 0 |}.
Definition demo_driver : driver :=
  Build_driver demo_replaying QRead [MWait] [Build_replay_threads demo_settings (CAsk demo_request) (FTest 0)] [].

Lemma started_reachable calm : (forall d l, match l with Mconnect => d_monitors d = [] | Mstop => False | _ => True end -> calm d l) ->
  runs calm driver_new (Build_driver demo_replaying QRead [MWait] [started demo_settings] []).
Proof.
  intros Hc. eapply (runs_step _ _ (Build_driver shared_new (QStart demo_settings) [MWait] [] []) Mstart_store); [|by apply Hc|apply driver_start_store].
  eapply (runs_step _ _ (Build_driver shared_new QRead [MWait] [] []) Mstart); [|by apply Hc|by apply driver_start].
  eapply (runs_step _ _ driver_new Mconnect); [apply runs_here|by apply Hc|]. apply (driver_connect shared_new []).
Qed.

Lemma demo_driver_reachable : runs patient_client driver_new demo_driver.
Proof.
  eapply (runs_step _ _ _ Mcontrol); [apply started_reachable; by intros d []|exact I|].
  apply (driver_control _ _ _ _ [] _ _ _ _ []). apply (control_test demo_settings demo_replaying demo_request).
Qed.

Lemma replays_one_at_a_time_witness :
  (forall i j ti tj, d_replays demo_driver !! i = Some ti -> d_replays demo_driver !! j = Some tj -> ~ ended ti -> ~ ended tj -> i = j) /\
  (Forall ended (d_replays demo_driver) <-> sh_state (d_shared demo_driver) = rs_idle \/ sh_state (d_shared demo_driver) = rs_finished) /\
  (forall settings, d_request demo_driver = QStart settings -> Forall ended (d_replays demo_driver)).
Proof. apply (replays_one_at_a_time demo_driver). exact demo_driver_reachable. Defined.

(** ** What a stop request does *)

Definition at_state (s : reader_state) : shared := {| sh_state := s; images_processed := 0; last_sent_id := 0 |}.

(** The replay of the first client, its threads at [c] and [f]. *)
Definition alone (s : reader_state) (mo : monitor_pc) (c : control_pc) (f : forward_pc) : driver :=
  Build_driver (at_state s) QRead [mo] [Build_replay_threads demo_settings c f] [].

(** The client stops the replay; the thread that forwards ends, the other one has left its loop. *)
Lemma stopped_reachable : runs any_move driver_new (alone rs_finished MWait CFinish FEnd).
Proof.
  eapply (runs_step _ _ (alone rs_stop MWait CFinish FFinish)); [|exact I|
    apply (driver_forward _ _ _ _ [] _ _ _ _ [] _ _ None); apply (forward_finish demo_settings (at_state rs_stop))].
  eapply (runs_step _ _ (alone rs_stop MWait CFinish (FTest 0))); [|exact I|
    apply (driver_forward _ _ _ _ [] _ _ _ _ [] _ _ None); apply (forward_test demo_settings (at_state rs_stop))].
  eapply (runs_step _ _ (alone rs_stop MWait (CTest demo_request) (FTest 0))); [|exact I|
    apply (driver_control _ _ _ _ [] _ _ _ _ []); apply (control_test demo_settings (at_state rs_stop) demo_request)].
  eapply (runs_step _ _ (Build_driver demo_replaying QStop [MWait] [started demo_settings] [])); [|exact I|apply driver_stop_store].
  eapply runs_step; [by apply started_reachable|exact I|]. by apply (driver_stop demo_replaying [MWait]).
Qed.

(** A driver that is never idle again. *)
Definition wedged (d : driver) : Prop :=
  sh_state (d_shared d) = rs_finishing /\ Forall ended (d_replays d) /\ MReset ∉ d_monitors d /\ d_request d = QRead.

Lemma ended_middle rs1 t rs2 : Forall ended (rs1 ++ t :: rs2) -> ended t.
Proof. by intros [_ [? _]%Forall_cons_1]%Forall_app. Qed.

Lemma wedged_step d l d' : wedged d -> driver_step d l d' -> wedged d'.
Proof.
  intros (H1 & H2 & H3 & H4) Hs. destruct Hs; cbn in *; unfold wedged; cbn; try done.
  - split_and!; try done. set_solver.
  - split_and!; try done. set_solver.
  - congruence.
  - unfold is_replaying. rewrite H1. done.
  - by rewrite H1.
  - destruct H3. set_solver.
  - apply ended_middle in H2 as [E _]. cbn in E. subst. by apply control_live in H.
  - by apply ended_middle in H2 as [E _].
  - apply ended_middle in H2 as [_ E]. cbn in E. subst. by apply forward_live in H.
Qed.

(** After a stop request [control_reader] can write its state finishing over the state finished, which the monitor
    was to see: all threads of the replay have ended, and whatever follows, no request to start is ever accepted. *)
Lemma stop_wedges_driver : exists d, runs any_move driver_new d /\ wedged d /\
  forall d', runs any_move d d' -> wedged d' /\ forall d'', ~ driver_step d' Mstart d''.
Proof.
  exists (alone rs_finishing MWait CEnd FEnd). split.
  { eapply runs_step; [exact stopped_reachable|exact I|]. apply (driver_control _ _ _ _ [] _ _ _ _ []). apply (control_finish demo_settings (at_state rs_finished)). }
  assert (Hw : wedged (alone rs_finishing MWait CEnd FEnd)).
  { split_and!; try done; [by repeat constructor|]. cbn. set_solver. }
  split; [done|]. intros d' Hr.
  assert (Hw' : wedged d') by (induction Hr as [|d l d' _ IH _ Hs]; [done|by eapply wedged_step]). split; [done|].
  intros d'' Hs. destruct Hw' as (E & _). inversion Hs; subst. cbn in E. congruence.
Qed.

(** Or the driver is idle again before [control_reader] writes: the state finishing then ends the next replay, which has not
    asked for an image. *)
Lemma stopped_replay_ends_next : exists d old, runs any_move driver_new d /\
  d_replays d = [started demo_settings; old] /\ ended old /\ sh_state (d_shared d) = rs_finishing.
Proof.
  exists (Build_driver (at_state rs_finishing) QRead [MWait] [started demo_settings; Build_replay_threads demo_settings CEnd FEnd] []).
  exists (Build_replay_threads demo_settings CEnd FEnd). split_and!; try done.
  eapply (runs_step _ _ (Build_driver (at_state rs_replaying) QRead [MWait] [started demo_settings; Build_replay_threads demo_settings CFinish FEnd] []));
    [|exact I|apply (driver_control _ _ _ _ [started demo_settings] _ _ _ _ []); apply (control_finish demo_settings (at_state rs_replaying))].
  eapply (runs_step _ _ (Build_driver (at_state rs_idle) (QStart demo_settings) [MWait] [Build_replay_threads demo_settings CFinish FEnd] []));
    [|exact I|apply driver_start_store].
  eapply (runs_step _ _ (alone rs_idle MWait CFinish FEnd)); [|exact I|by apply driver_start].
  eapply (runs_step _ _ (alone rs_finished MReset CFinish FEnd)); [|exact I|apply (driver_reset (at_state rs_finished) QRead [] [])].
  eapply runs_step; [exact stopped_reachable|exact I|]. apply (driver_monitor (at_state rs_finished) QRead [] []).
Qed.

(** ** Two sessions *)

(** A process with two sessions. *)
Definition both (s : reader_state) (io : request_pc) (m1 m2 : monitor_pc) (rs : list replay_threads) : driver :=
  Build_driver (at_state s) io [m1; m2] rs [].

Definition threads_at (c : control_pc) (f : forward_pc) : replay_threads := Build_replay_threads demo_settings c f.

(** A replay that finds no image has ended. *)
Lemma finished_reachable : runs any_move driver_new (both rs_finished QRead MWait MWait [threads_at CEnd FEnd]).
Proof.
  eapply (runs_step _ _ (both rs_finishing QRead MWait MWait [threads_at CEnd FFinish])); [|exact I|
    apply (driver_forward _ _ _ _ [] _ _ _ _ [] _ _ None); apply (forward_finish demo_settings (at_state rs_finishing))].
  eapply (runs_step _ _ (both rs_finishing QRead MWait MWait [threads_at CEnd (FTest 0)])); [|exact I|
    apply (driver_forward _ _ _ _ [] _ _ _ _ [] _ _ None); apply (forward_test demo_settings (at_state rs_finishing))].
  eapply (runs_step _ _ (both rs_replaying QRead MWait MWait [threads_at CFinish (FTest 0)])); [|exact I|
    apply (driver_control _ _ _ _ [] _ _ _ _ []); apply (control_finish demo_settings (at_state rs_replaying))].
  eapply (runs_step _ _ (both rs_replaying QRead MWait MWait [threads_at (CReply no_image) (FTest 0)])); [|exact I|
    apply (driver_control _ _ _ _ [] _ _ _ _ []); by apply (control_none demo_settings (at_state rs_replaying))].
  eapply (runs_step _ _ (both rs_replaying QRead MWait MWait [threads_at (CAsk demo_request) (FTest 0)])); [|exact I|
    apply (driver_reply _ _ _ [] _ _ _ _ [])].
  eapply (runs_step _ _ (both rs_replaying QRead MWait MWait [started demo_settings])); [|exact I|
    apply (driver_control _ _ _ _ [] _ _ _ _ []); apply (control_test demo_settings (at_state rs_replaying) demo_request)].
  eapply (runs_step _ _ _ _ _ (started_reachable any_move (fun _ _ _ => I))); [exact I|]. apply (driver_connect demo_replaying [MWait]).
Qed.

(** The state finished is reset by the monitor of every session: the second one resets the state of the next replay,
    a third replay is accepted while that one is alive, and two threads use the socket to the reader at the same time. *)
Lemma two_sessions_two_replays : exists d t1 t2 rq1 rq2 old, runs any_move driver_new d /\ d_replays d = [t1; t2; old] /\
  t_control t1 = CAsk rq1 /\ t_control t2 = CAsk rq2.
Proof.
  set (ask := threads_at (CAsk demo_request) (FTest 0)). set (old := threads_at CEnd FEnd).
  exists (both rs_replaying QRead MWait MWait [ask; ask; old]), ask, ask, demo_request, demo_request, old. split_and!; try done.
  eapply (runs_step _ _ (both rs_replaying QRead MWait MWait [started demo_settings; ask; old])); [|exact I|
    apply (driver_control _ _ _ _ [] _ _ _ _ [ask; old]); apply (control_test demo_settings (at_state rs_replaying) demo_request)].
  eapply (runs_step _ _ (both rs_idle (QStart demo_settings) MWait MWait [ask; old])); [|exact I|apply driver_start_store].
  eapply (runs_step _ _ (both rs_idle QRead MWait MWait [ask; old])); [|exact I|by apply driver_start].
  eapply (runs_step _ _ (both rs_replaying QRead MWait MReset [ask; old])); [|exact I|apply (driver_reset (at_state rs_replaying) QRead [MWait] [])].
  eapply (runs_step _ _ (both rs_replaying QRead MWait MReset [started demo_settings; old])); [|exact I|
    apply (driver_control _ _ _ _ [] _ _ _ _ [old]); apply (control_test demo_settings (at_state rs_replaying) demo_request)].
  eapply (runs_step _ _ (both rs_idle (QStart demo_settings) MWait MReset [old])); [|exact I|apply driver_start_store].
  eapply (runs_step _ _ (both rs_idle QRead MWait MReset [old])); [|exact I|by apply driver_start].
  eapply (runs_step _ _ (both rs_finished QRead MReset MReset [old])); [|exact I|apply (driver_reset (at_state rs_finished) QRead [] [MReset])].
  eapply (runs_step _ _ (both rs_finished QRead MReset MWait [old])); [|exact I|apply (driver_monitor (at_state rs_finished) QRead [MReset] [])].
  eapply (runs_step _ _ _ _ _ finished_reachable); [exact I|]. apply (driver_monitor (at_state rs_finished) QRead [] [MWait]).
Qed.
