(* ===== verification/Session.v ===== *)
(** * Sessions of the drivers

    [socket_session.cpp], [process_api_message.cpp] and [do_accept] of std-det-driver and std-buffer-driver, which differ in the
    states and the settings: the life of one session from the handshake to its end, with its monitor thread.  The
    handlers run on the one thread of the [io_context]; an exception that leaves a handler, or that leaves a function
    declared [noexcept], ends the program.  [std::system_error], thrown by [std::jthread::join], is a
    [std::runtime_error].  Boost and the JSON library are parameters: the events say how the asynchronous operations
    complete, and requests are read with the class [Json].  How several sessions share the state of a driver is the
    subject of [DriverStates] and [BufferDriver]. *)

From S2P Require Import Prelude Protocol Config ConfigReader DetDriver BufferDriver.

(** ** The driver behind a session *)

Class Service (json M S : Type) := {
  sv_idle : M -> bool;
  sv_stop : M -> M;                      (* [stop_recording] *)
  sv_add : M -> M;
  sv_remove : M -> M;
  sv_reset : M -> M;                     (* [change_state(idle)] *)
  sv_start : S -> M -> M;                (* [start], up to the threads it starts *)
  sv_settings : json -> outcome (option S);   (* [process_start_request] *)
  sv_report : M -> M -> string * option Z;   (* the status and the count that the monitor sends: of the state it
                                                waited for, and of the manager when it sends *)
  sv_final : M -> bool;                  (* the monitor resets the state *)
  sv_checks_open : bool;                 (* the monitor ends when the websocket is closed *)
  sv_sessions : M -> Z;
  sv_add_law : forall m, sv_sessions (sv_add m) = u32 (sv_sessions m + 1);
  sv_remove_law : forall m, sv_sessions (sv_remove m) = u32 (sv_sessions m - 1);
  sv_keep_law : forall m, sv_sessions (sv_stop m) = sv_sessions m /\ sv_sessions (sv_reset m) = sv_sessions m /\
    forall st, sv_sessions (sv_start st m) = sv_sessions m }.

(** ** The session *)

Inductive response : Type :=
| Status (status : string) (reason : option string)
| StatusCount (status : string) (count : Z).

(** The monitor: not started; in its wait; behind its test, with the state it read; in front of the state idle; ended; joined. *)
Inductive monitor_at (M : Type) : Type := MNone | MWaiting | MReporting (seen : M) | MResetting | MEnded | MJoined.
Arguments MNone {M}.
Arguments MWaiting {M}.
Arguments MReporting {M} seen.
Arguments MResetting {M}.
Arguments MEnded {M}.
Arguments MJoined {M}.

Record session (M S : Type) : Type := {
  se_manager : M;
  se_started : list S;
  se_monitor : monitor_at M;
  se_open : bool;
  se_reading : bool;        (* an [async_read] is pending *)
  se_closing : nat;         (* pending writes with [close_socket_handler] *)
  se_sent : list response;
  se_alive : bool
}.
Arguments se_manager {M S} _.
Arguments se_started {M S} _.
Arguments se_monitor {M S} _.
Arguments se_open {M S} _.
Arguments se_reading {M S} _.
Arguments se_closing {M S} _.
Arguments se_sent {M S} _.
Arguments se_alive {M S} _.
Arguments Build_session {M S} _ _ _ _ _ _ _ _.

Section Session.
Context {json M S : Type} `{Json json} `{!Service json M S}.

Definition with_manager (m : M) (s : session M S) : session M S :=
  Build_session m (se_started s) (se_monitor s) (se_open s) (se_reading s) (se_closing s) (se_sent s) (se_alive s).
Definition with_monitor (p : monitor_at M) (s : session M S) : session M S :=
  Build_session (se_manager s) (se_started s) p (se_open s) (se_reading s) (se_closing s) (se_sent s) (se_alive s).
Definition with_reading (b : bool) (s : session M S) : session M S :=
  Build_session (se_manager s) (se_started s) (se_monitor s) (se_open s) b (se_closing s) (se_sent s) (se_alive s).
Definition with_started (l : list S) (s : session M S) : session M S :=
  Build_session (se_manager s) l (se_monitor s) (se_open s) (se_reading s) (se_closing s) (se_sent s) (se_alive s).

Definition send_response (r : response) (s : session M S) : session M S :=
  Build_session (se_manager s) (se_started s) (se_monitor s) (se_open s) (se_reading s) (se_closing s) (se_sent s ++ [r]) (se_alive s).

(** With [close_socket_handler] as the handler of the write. *)
Definition send_and_close (r : response) (s : session M S) : session M S :=
  Build_session (se_manager s) (se_started s) (se_monitor s) (se_open s) (se_reading s) (se_closing s + 1)%nat (se_sent s ++ [r]) (se_alive s).

(** [socket_session::socket_session], with the accept pending. *)
Definition session_new (m : M) : session M S :=
  Build_session (sv_add m) [] MNone true false 0 [] true.

(** *** The monitor thread *)

Definition report (seen : M) (s : session M S) : session M S :=
  let '(status, count) := sv_report seen (se_manager s) in
  let s' := send_response (match count with Some n => StatusCount status n | None => Status status None end) s in
  with_monitor (if sv_final seen then MResetting else MWaiting) s'.

Definition reset (s : session M S) : session M S := with_monitor MWaiting (with_manager (sv_reset (se_manager s)) s).

Definition monitor_turn (s : session M S) : session M S :=
  match se_monitor s with
  | MWaiting => with_monitor (if sv_checks_open && negb (se_open s) then MEnded else MReporting (se_manager s)) s
  | MReporting seen => report seen s
  | MResetting => reset s
  | _ => s
  end.

Definition running (p : monitor_at M) : bool := match p with MWaiting | MReporting _ | MResetting => true | _ => false end.

(** [request_stop] and [join]: the thread finishes its iteration. *)
Definition join_monitor (s : session M S) : outcome (session M S) :=
  match se_monitor s with
  | MNone | MJoined => Throw runtime_error
  | MWaiting | MEnded => Ret (with_monitor MJoined s)
  | MReporting seen => let s := report seen s in Ret (with_monitor MJoined (match se_monitor s with MResetting => reset s | _ => s end))
  | MResetting => Ret (with_monitor MJoined (reset s))
  end.

(** The last owner of the session is gone. *)
Definition release_session (s : session M S) : session M S :=
  if se_alive s && negb (se_reading s) && negb (running (se_monitor s)) then
    Build_session (sv_remove (se_manager s)) (se_started s) (se_monitor s) (se_open s) false (se_closing s) (se_sent s) false
  else s.

(** *** The handlers *)

Definition parse_command (msg : string) : option json :=
  match json_parse msg with Ret j => Some j | _ => None end.

Definition stop_request (s : session M S) : session M S := with_manager (sv_stop (se_manager s)) s.

Definition start_request (message : string) (s : session M S) : outcome (session M S) :=
  let! settings := match parse_command message with Some j => sv_settings j | None => Ret None end in
  match settings with
  | Some st => Ret (with_started (se_started s ++ [st]) (with_manager (sv_start st (se_manager s)) s))
  | None => Ret (send_and_close (Status "error" (Some ("Invalid command! expected: start with path parameter, received: " +:+ message)))%string s)
  end.

Definition reject (s : session M S) : session M S := send_response (Status "rejected" (Some "driver is busy!"%string)) s.

Definition on_accept (ok : bool) (s : session M S) : outcome (session M S) :=
  if ok then Ret (with_reading true (with_monitor MWaiting s))
  else let! s := join_monitor s in Ret (release_session s).

(** The handler of [async_read]: a message, or an error. *)
Definition on_read (r : option string) (s : session M S) : outcome (session M S) :=
  let s := with_reading false s in
  match r with
  | None => let! s := join_monitor s in Ret (release_session s)
  | Some message =>
      let! s :=
        match parse_command message with
        | Some command =>
            let! command_string := json_value TString command "command" ""%string in
            if bool_decide (command_string = "stop"%string) then Ret (stop_request s)
            else if sv_idle (se_manager s) then start_request message s
            else Ret (reject s)
        | None => Ret (send_response (Status "error" (Some ("Invalid command! " +:+ message)))%string s)
        end in
      Ret (with_reading true s)
  end.

(** [close_socket_handler]: it finds the session only while that is alive. *)
Definition on_written (s : session M S) : outcome (session M S) :=
  if se_alive s then
    let! s := join_monitor s in
    Ret (release_session (Build_session (se_manager s) (se_started s) (se_monitor s) false (se_reading s) (se_closing s - 1)%nat (se_sent s) (se_alive s)))
  else Ret (Build_session (se_manager s) (se_started s) (se_monitor s) (se_open s) (se_reading s) (se_closing s - 1)%nat (se_sent s) (se_alive s)).

(** What completes, or a step of the monitor. *)
Inductive event : Type := Accepted (ok : bool) | ReadDone (r : option string) | Written | MonitorTurn.

Definition on_event (s : session M S) (e : event) : outcome (session M S) :=
  match e with
  | Accepted ok => on_accept ok s
  | ReadDone r => on_read r s
  | Written => on_written s
  | MonitorTurn => Ret (monitor_turn s)
  end.
End Session.

(** ** The two drivers *)

Section Requests.
Context `{Json json}.

(** std-det-driver. *)
Definition det_start_request (command : json) : outcome (option run_settings) :=
  let! c := json_value TString command "command" ""%string in
  if bool_decide (c = "start"%string) && json_contains command "path" then
    let! p := json_at command "path" in
    let! path := json_get TString p in
    let! prefix := json_value TString command "file_prefix" "file"%string in
    let! n := json_value TSize command "n_image" 16777215 in
    let! writer := json_value TInt command "writer_id" 0 in
    let! first := json_value TSize command "start_id" 0 in
    Ret (Some {| rs_path := (path +:+ "/" +:+ prefix)%string; rs_n_images := n; rs_writer := writer; rs_start_image_id := first |})
  else Ret None.

(** [command.contains(key) ? make_optional(command.at(key).get<T>()) : nullopt]. *)
Definition optional_field (t : cpp_type) (command : json) (key : string) : outcome (option (denote t)) :=
  if json_contains command key then
    let! v := json_at command key in let! x := json_get t v in Ret (Some x)
  else Ret None.

(** std-buffer-driver. *)
Definition replay_start_request (command : json) : outcome (option replay_settings) :=
  let! c := json_value TString command "command" ""%string in
  if bool_decide (c = "start"%string) && json_contains command "start_image_id" then
    let! p := json_at command "start_image_id" in
    let! first := json_get TSize p in
    let! last := optional_field TSize command "end_image_id" in
    let! delay := optional_field TSize command "delay" in
    Ret (Some {| start_image_id := first; end_image_id := last; replay_delay := delay |})
  else Ret None.

#[global, program] Instance det_service : Service json state_manager run_settings := {|
  sv_idle m := bool_decide (state m = idle);
  sv_stop := stop_recording;
  sv_add := add_active_session;
  sv_remove := remove_active_session;
  sv_reset := change_state idle;
  sv_start _ m := m;
  sv_settings := det_start_request;
  sv_report seen m :=
    (to_string (state seen),
     if bool_decide (state seen = recording) || bool_decide (state seen = saving_file) then Some (DetDriver.images_processed m) else None);
  sv_final m := bool_decide (state m = file_saved) || bool_decide (state m = error);
  sv_checks_open := false;
  sv_sessions := active_sessions |}.
Next Obligation. done. Qed.
Next Obligation. done. Qed.
Next Obligation. intros m. split; [|done]. unfold stop_recording. by destruct (is_recording m). Qed.

(** The sessions that std-buffer-driver counts are beside the state of [BufferDriver]. *)
#[global, program] Instance replay_service : Service json (shared * Z) replay_settings := {|
  sv_idle m := bool_decide (sh_state (fst m) = rs_idle);
  sv_stop m := (if is_replaying (fst m) then replay_change_state rs_stop (fst m) else fst m, snd m);
  sv_add m := (fst m, u32 (snd m + 1));
  sv_remove m := (fst m, u32 (snd m - 1));
  sv_reset m := (replay_change_state rs_idle (fst m), snd m);
  sv_start _ m := (replay_change_state rs_replaying (fst m), snd m);
  sv_settings := replay_start_request;
  sv_report seen m :=
    (state_name (sh_state (fst seen)),
     if bool_decide (sh_state (fst seen) = rs_replaying) || bool_decide (sh_state (fst seen) = rs_finishing)
     then Some (BufferDriver.images_processed (fst m)) else None);
  sv_final m := bool_decide (sh_state (fst m) = rs_error) || bool_decide (sh_state (fst m) = rs_finished);
  sv_checks_open := true;
  sv_sessions := snd |}.
Next Obligation. done. Qed.
Next Obligation. done. Qed.
Next Obligation. done. Qed.
End Requests.

(** ** The requests are those of the drivers' models *)

Section Refinement.
Context `{Json json}.

(** The fields that the model of the driver looks at. *)
Definition read_command (command : json) : outcome api_command :=
  let! c := optional_field TString command "command" in
  let! path := optional_field TString command "path" in
  let! prefix := optional_field TString command "file_prefix" in
  let! n := optional_field TSize command "n_image" in
  let! writer := optional_field TInt command "writer_id" in
  let! first := optional_field TSize command "start_id" in
  Ret {| cmd_command := c; cmd_path := path; cmd_file_prefix := prefix; cmd_n_image := n; cmd_writer_id := writer; cmd_start_id := first |}.

Definition read_replay_command (command : json) : outcome replay_command :=
  let! c := optional_field TString command "command" in
  let! first := optional_field TSize command "start_image_id" in
  let! last := optional_field TSize command "end_image_id" in
  let! delay := optional_field TSize command "delay" in
  Ret {| rc_command := c; rc_start_image_id := first; rc_end_image_id := last; rc_delay := delay |}.

Lemma value_optional t command k k' d x : json_contains command k' = true -> optional_field t command k = Ret x ->
  json_value t command k d = Ret (default d x).
Proof using Type.
  intros Hk'. rewrite (json_value_law t command k k' d Hk'). unfold optional_field. destruct (json_contains command k).
  - intros (v & -> & (y & Hy & [= <-])%obind_Ret_iff)%obind_Ret_iff. exact Hy.
  - by intros [= <-].
Qed.

Lemma optional_present t command k x : optional_field t command k = Ret x ->
  match x with
  | Some y => json_contains command k = true /\ exists v, json_at command k = Ret v /\ json_get t v = Ret y
  | None => json_contains command k = false
  end.
Proof using Type.
  unfold optional_field. destruct (json_contains command k).
  - intros (v & -> & (y & Hy & [= <-])%obind_Ret_iff)%obind_Ret_iff. eauto.
  - by intros [= <-].
Qed.

Lemma det_request_refines command c k' : json_contains command k' = true -> read_command command = Ret c ->
  det_start_request command = Ret (DetDriver.process_start_request c).
Proof using Type.
  intros Hk' E. unfold read_command in E. repeat (apply obind_Ret_iff in E as (? & ?E & E)). injection E as <-.
  unfold det_start_request, DetDriver.process_start_request. cbn [cmd_path cmd_command cmd_file_prefix cmd_n_image cmd_writer_id cmd_start_id].
  rewrite (value_optional TString command "command" k' _ _ Hk' E0). cbn [obind].
  apply optional_present in E1. destruct x0 as [path|]; cbn in E1.
  - destruct E1 as (-> & v & Hv & Hp). rewrite andb_true_r. destruct (bool_decide _); [|done]. rewrite Hv. cbn [obind]. rewrite Hp. cbn [obind].
    rewrite (value_optional _ _ _ k' _ _ Hk' E2), (value_optional _ _ _ k' _ _ Hk' E3), (value_optional _ _ _ k' _ _ Hk' E4), (value_optional _ _ _ k' _ _ Hk' E5).
    done.
  - rewrite E1, andb_false_r. done.
Qed.

Lemma replay_request_refines command c k' : json_contains command k' = true -> read_replay_command command = Ret c ->
  replay_start_request command = Ret (process_replay_request c).
Proof using Type.
  intros Hk' E. unfold read_replay_command in E. repeat (apply obind_Ret_iff in E as (? & ?E & E)). injection E as <-.
  unfold replay_start_request, process_replay_request. cbn [rc_command rc_start_image_id rc_end_image_id rc_delay].
  rewrite (value_optional TString command "command" k' _ _ Hk' E0). cbn [obind].
  apply optional_present in E1. destruct x0 as [first|]; cbn in E1.
  - destruct E1 as (-> & v & Hv & Hp). rewrite andb_true_r. destruct (bool_decide _); [|done]. rewrite Hv. cbn [obind]. rewrite Hp. cbn [obind].
    rewrite E2. cbn [obind]. rewrite E3. done.
  - rewrite E1, andb_false_r. done.
Qed.
End Refinement.

(** ** The life of a session *)

Section Life.
Context {json M S : Type} `{Json json} `{!Service json M S}.

(** Not JSON, or a command that is stop or starts a run. *)
Definition harmless (message : string) : Prop :=
  match parse_command (json := json) message with
  | Some command => exists c, json_value TString command "command" ""%string = Ret c /\
      (c = "stop"%string \/ exists st : S, sv_settings (M := M) command = Ret (Some st))
  | None => True
  end.

Definition calm (e : event) : Prop :=
  match e with
  | MonitorTurn => True
  | ReadDone (Some message) => harmless message
  | _ => False
  end.

Record serving (n : Z) (s : session M S) : Prop := {
  sg_alive : se_alive s = true;
  sg_open : se_open s = true;
  sg_reading : se_reading s = true;
  sg_closing : se_closing s = 0%nat;
  sg_monitor : running (se_monitor s) = true;
  sg_sessions : sv_sessions (json := json) (S := S) (se_manager s) = n
}.

Lemma calm_event_kept n s e : serving n s -> calm e -> exists s', on_event s e = Ret s' /\ serving n s'.
Proof using Type.
  intros [Ha Ho Hr Hc Hm Hn] He. destruct e as [|[message|]| |]; try done; cbn [on_event].
  - unfold on_read. cbn in He. unfold harmless in He. destruct (sv_keep_law (se_manager s)) as (Hk1 & Hk2 & Hk3).
    destruct (parse_command message) as [command|] eqn:Ep.
    + destruct He as (c & -> & Hst). cbn [obind]. case_bool_decide as Hs.
      { eexists. split; [done|]. split; cbn; try done. by rewrite Hk1. }
      destruct Hst as [?|[st Hst]]; [done|]. destruct (sv_idle _); [|eexists; split; [done|]; by split].
      unfold start_request. rewrite Ep, Hst. cbn [obind]. eexists. split; [done|]. split; cbn; try done. by rewrite Hk3.
    + cbn [obind]. eexists. split; [done|]. by split.
  - eexists. split; [done|]. unfold monitor_turn, report, reset. destruct (se_monitor s) eqn:E; try done.
    + rewrite Ho, andb_false_r. by split.
    + destruct (sv_report seen (se_manager s)) as [status count]. split; cbn; try done. by destruct (sv_final seen).
    + split; cbn; try done. destruct (sv_keep_law (se_manager s)) as (_ & -> & _). done.
Qed.

Lemma join_running s : running (se_monitor s) = true ->
  exists s', join_monitor s = Ret s' /\ se_monitor s' = MJoined /\ se_alive s' = se_alive s /\ se_reading s' = se_reading s /\
    se_closing s' = se_closing s /\ sv_sessions (json := json) (S := S) (se_manager s') = sv_sessions (json := json) (S := S) (se_manager s).
Proof using Type.
  intros Hm. destruct (sv_keep_law (se_manager s)) as (_ & Hk & _). unfold join_monitor. destruct (se_monitor s) eqn:E; try done.
  - eexists. split; [done|]. by split_and!.
  - unfold report. destruct (sv_report seen (se_manager s)) as [status count]. destruct (sv_final seen); cbn;
      (eexists; split; [done|]); by split_and!.
  - eexists. split; [done|]. by split_and!.
Qed.

(** C15: a session whose handshake succeeds, and whose client sends texts that are not JSON, requests to stop and requests to start
    with settings, in any number and interleaved in any way with the turns of the monitor, never throws; when the
    connection ends the monitor thread is joined, the session is destroyed and the driver counts as many sessions as before. *)
Theorem session_ends_clean (m : M) (es : list event) :
  0 <= sv_sessions (json := json) (S := S) m < 2 ^ 32 -> Forall calm es ->
  exists s : session M S, foldO on_event (Accepted true :: es ++ [ReadDone None]) (session_new m) = Ret s /\ se_alive s = false /\
    se_monitor s = MJoined /\ se_closing s = 0%nat /\
    sv_sessions (json := json) (S := S) (se_manager s) = sv_sessions (json := json) (S := S) m.
Proof using Type.
  intros Hr Hes. set (n := u32 (sv_sessions (json := json) (S := S) m + 1)).
  assert (Hs : exists s, foldO on_event es (with_reading true (with_monitor MWaiting (session_new m))) = Ret s /\ serving n s).
  { apply foldO_total.
    - split; cbn; try done. apply sv_add_law.
    - intros s e Hin Hs. apply calm_event_kept; [done|]. rewrite list.Forall_forall in Hes. by apply Hes. }
  destruct Hs as (s & E & Hs). cbn [foldO on_event on_accept obind]. rewrite foldO_app, E. cbn [obind foldO on_event]. unfold on_read.
  destruct (join_running (with_reading false s)) as (s' & -> & Hm & Ha & Hre & Hc & Hn); [apply Hs|]. cbn [obind].
  eexists. split; [done|]. unfold release_session. rewrite Ha, Hre, Hm. cbn. rewrite (sg_alive n s Hs). cbn. split_and!; try done.
  - rewrite Hc. apply Hs.
  - rewrite sv_remove_law, Hn. cbn. rewrite (sg_sessions n s Hs). unfold n, u32, wrap.
    rewrite Zminus_mod_idemp_l. replace (sv_sessions m + 1 - 1) with (sv_sessions m) by lia. by apply Z.mod_small.
Qed.

(** A client whose handshake fails ends the driver: the monitor that is joined was never started. *)
Lemma failed_handshake_ends_driver (m : M) : on_event (session_new m) (Accepted false) = Throw runtime_error.
Proof using Type. reflexivity. Qed.

(** An invalid request to start ends the driver: the handler that closes the socket joins the monitor, and the read that then fails
    joins it again. *)
Lemma invalid_start_ends_driver (m : M) message command c :
  parse_command message = Some command -> json_value TString command "command" ""%string = Ret c -> c <> "stop"%string ->
  sv_idle (sv_add (json := json) (S := S) m) = true -> sv_settings (M := M) (S := S) command = Ret None ->
  foldO on_event [Accepted true; ReadDone (Some message); Written; ReadDone None] (session_new m : session M S) = Throw runtime_error.
Proof using Type.
  intros Hp Hc Hs Hi Hset. cbn [foldO on_event on_accept obind]. unfold on_read at 1. rewrite Hp, Hc. cbn [obind].
  rewrite bool_decide_eq_false_2 by done. cbn [se_manager with_reading with_monitor session_new]. rewrite Hi. unfold start_request. rewrite Hp, Hset.
  reflexivity.
Qed.
End Life.

(** ** Requests as trees *)

Definition start_tree (path : tree) : tree := Obj [("command", Str "start"); ("path", path); ("n_image", Num 100)]%string.

(** Texts and what they are parsed to. *)
Definition demo_texts : gmap string tree :=
  list_to_map [("start", start_tree (Str "/data")); ("stop", Obj [("command", Str "stop")]); ("no path", Obj [("command", Str "start")]);
               ("path 5", start_tree (Num 5)); ("5", Num 5)]%string.

Lemma session_ends_clean_witness : let reader := tree_json demo_texts in
  exists s, foldO (on_event (json := tree)) [Accepted true; ReadDone (Some "start"%string); MonitorTurn; MonitorTurn; ReadDone (Some "stop"%string); ReadDone (Some "?"%string);
      ReadDone None] (session_new manager_new) = Ret s /\
    se_started s = [{| rs_path := "/data/file"; rs_n_images := 100; rs_writer := 0; rs_start_image_id := 0 |}] /\
    se_alive s = false /\ se_monitor s = MJoined /\ active_sessions (se_manager s) = 0.
Proof.
  intros reader. set (es := [ReadDone (Some "start"%string); MonitorTurn; MonitorTurn; ReadDone (Some "stop"%string); ReadDone (Some "?"%string)]).
  assert (Hes : Forall (calm (json := tree) (M := state_manager) (S := run_settings)) es).
  { repeat apply Forall_cons_2; try exact I; [| |apply Forall_nil_2].
    - exists "start"%string. split; [reflexivity|]. right.
      exists {| rs_path := "/data/file"; rs_n_images := 100; rs_writer := 0; rs_start_image_id := 0 |}. vm_compute. reflexivity.
    - exists "stop"%string. split; [reflexivity|]. by left. }
  assert (Hr : 0 <= active_sessions manager_new < 2 ^ 32) by (cbn; lia).
  destruct (@session_ends_clean tree state_manager run_settings reader det_service manager_new es Hr Hes) as (s & E & Ha & Hm & _ & Hn).
  exists s. split; [exact E|]. split; [|split; [exact Ha|split; [exact Hm|exact Hn]]].
  assert (Es : omap_out se_started (foldO (on_event (json := tree)) (Accepted true :: es ++ [ReadDone None]) (session_new manager_new)) =
    Ret [{| rs_path := "/data/file"; rs_n_images := 100; rs_writer := 0; rs_start_image_id := 0 |}]) by (vm_compute; reflexivity).
  rewrite E in Es. by injection Es.
Defined.

(** A request to start without a path, in a driver that is idle. *)
Lemma missing_path_ends_driver : let reader := tree_json demo_texts in
  foldO (on_event (json := tree)) [Accepted true; ReadDone (Some "no path"%string); Written; ReadDone None] (session_new manager_new : session state_manager run_settings) =
    Throw runtime_error.
Proof. vm_compute. reflexivity. Qed.

(** A request that is JSON but no object, and one whose path is a number: the exceptions leave a handler and a function that is
    [noexcept]. *)
Lemma mistyped_request_ends_driver : let reader := tree_json demo_texts in
  foldO (on_event (json := tree)) [Accepted true; ReadDone (Some "5"%string)] (session_new manager_new : session state_manager run_settings) = Throw json_error /\
  foldO (on_event (json := tree)) [Accepted true; ReadDone (Some "path 5"%string)] (session_new manager_new : session state_manager run_settings) = Throw json_error.
Proof. vm_compute. done. Qed.
