(* ===== verification/UdpTools.v ===== *)
(** * UDP sockets, and the tools that dump and replay packets

    [src/source/std-udp-recv/src/packet_udp_receiver.cpp] and [src/source/std-udp-tools/src].
    A socket is the options that were set on it; whether a system call succeeds is decided by an
    argument.  What arrives on a socket is a list of events. *)

From S2P Require Import Prelude RamBuffer Config.

(** ** Sockets *)

Inductive udp_call : Type :=
| sys_socket | sys_timeout (us : Z) | sys_rcvbuf (n : Z) | sys_bind (port : Z) | sys_connect (port : Z).

Record udp_socket : Type := {
  udp_timeout_us : option Z;
  udp_rcvbuf : option Z;
  udp_bound : option Z;
  udp_connected : option Z
}.

Section Calls.
Variable (ok : udp_call -> bool).

(** A call whose failure is reported as an exception. *)
Definition udp_do (c : udp_call) (s : udp_socket) : outcome udp_socket :=
  throw_if (negb (ok c)) runtime_error
    (Ret match c with
         | sys_socket => s
         | sys_timeout us => Build_udp_socket (Some us) (udp_rcvbuf s) (udp_bound s) (udp_connected s)
         | sys_rcvbuf n => Build_udp_socket (udp_timeout_us s) (Some n) (udp_bound s) (udp_connected s)
         | sys_bind p => Build_udp_socket (udp_timeout_us s) (udp_rcvbuf s) (Some p) (udp_connected s)
         | sys_connect p => Build_udp_socket (udp_timeout_us s) (udp_rcvbuf s) (udp_bound s) (Some p)
         end).

Definition new_udp_socket : udp_socket := Build_udp_socket None None None None.

Definition open_and_bind (timeout_us rcvbuf port : Z) : outcome udp_socket :=
  let! s0 := udp_do sys_socket new_udp_socket in
  let! s1 := udp_do (sys_timeout timeout_us) s0 in
  let! s2 := udp_do (sys_rcvbuf rcvbuf) s1 in
  udp_do (sys_bind port) s2.

(** *** std_udp_dump.cpp and std_udp_replay.cpp *)

Definition UDP_BUFFER_MAX_SIZE : Z := 1024 * 10.

Definition bind_udp_socket (udp_port : Z) : outcome udp_socket :=
  open_and_bind (1000 * 100) (1024 * 1024 * 20) udp_port.

Definition connect_udp_socket (udp_port : Z) : outcome udp_socket :=
  let! s := udp_do sys_socket new_udp_socket in udp_do (sys_connect udp_port) s.

(** *** packet_udp_receiver.cpp *)

Record PacketUdpReceiver : Type := {
  n_recv_packets_ : Z;
  n_bytes_packet_ : Z;
  socket_fd_ : option udp_socket;
  packet_buffer_ : list Z
}.

(** [bind], for an object with the socket [fd]. *)
Definition receiver_bind (fd : option udp_socket) (port : Z) : outcome (option udp_socket) :=
  throw_if (match fd with Some _ => true | None => false end) runtime_error
    (let! s := open_and_bind BUFFER_UDP_US_TIMEOUT BUFFER_UDP_RCVBUF_BYTES port in Ret (Some s)).

(** The constructor; [memory] are the bytes that [new] returns. *)
Definition PacketUdpReceiver_new (port n_bytes_packet n_recv_packets : Z) (memory : Z -> list Z) :
  outcome PacketUdpReceiver :=
  let! fd := receiver_bind None port in
  Ret {| n_recv_packets_ := n_recv_packets; n_bytes_packet_ := n_bytes_packet; socket_fd_ := fd;
         packet_buffer_ := memory (u64 (n_recv_packets * n_bytes_packet)) |}.

Definition disconnect (r : PacketUdpReceiver) : PacketUdpReceiver :=
  {| n_recv_packets_ := n_recv_packets_ r; n_bytes_packet_ := n_bytes_packet_ r; socket_fd_ := None;
     packet_buffer_ := packet_buffer_ r |}.
End Calls.

(** [recvmmsg]: datagram [i] goes to the vector [i], cut at its length. *)
Fixpoint receive_into (n_bytes i : Z) (datagrams : list (list Z)) (m : list Z) : outcome (list Z) :=
  match datagrams with
  | [] => Ret m
  | d :: ds =>
      let! m' := mem_write m (u64 (i * n_bytes)) (take (Z.to_nat n_bytes) d) in
      receive_into n_bytes (i + 1) ds m'
  end.

(** [receive_many]: the number of packets, -1 at the timeout; [pending] are the datagrams the
    socket holds, the rest stays there. *)
Definition receive_many (pending : list (list Z)) (r : PacketUdpReceiver) :
  outcome (Z * list (list Z) * PacketUdpReceiver) :=
  match pending with
  | [] => Ret (-1, [], r)
  | _ =>
      let n := Z.to_nat (n_recv_packets_ r) in
      let now := take n pending in
      let! m := receive_into (n_bytes_packet_ r) 0 now (packet_buffer_ r) in
      Ret (zlen now, drop n pending,
           {| n_recv_packets_ := n_recv_packets_ r; n_bytes_packet_ := n_bytes_packet_ r;
              socket_fd_ := socket_fd_ r; packet_buffer_ := m |})
  end.

(** ** std_udp_dump.cpp *)

(** What [recv] returns: a datagram, the timeout, another error. *)
Inductive recv_event : Type := recv_packet (d : list Z) | recv_timeout | recv_error.

(** One iteration of [receive_and_dump] on the contents of the file. *)
Definition dump_step (file : list Z) (e : recv_event) : outcome (list Z) :=
  match e with
  | recv_timeout => Ret file
  | recv_error => Throw runtime_error
  | recv_packet d =>
      let buffer := take (Z.to_nat UDP_BUFFER_MAX_SIZE) d in
      let n_recv_bytes := zlen buffer in
      throw_if (n_recv_bytes =? UDP_BUFFER_MAX_SIZE) runtime_error
        (Ret (file ++ le_encode 8 n_recv_bytes ++ buffer))
  end.

Definition receive_and_dump (ok : udp_call -> bool) (udp_port : Z) (events : list recv_event) : outcome (list Z) :=
  let! _ := bind_udp_socket ok udp_port in foldO dump_step events [].

(** The port of module [i]: the sum is converted to 16 bits. *)
Definition module_port (config : DetectorConfig) (i : Z) : Z := u16 (start_udp_port config + i).

(** ** std_udp_replay.cpp *)

(** An input stream: what is left of the file, and whether it is good. *)
Record ifstream : Type := { unread : list Z; good : bool }.

(** [read]: the bytes stored. *)
Definition stream_read (n : Z) (s : ifstream) : list Z * ifstream :=
  if good s then
    (take (Z.to_nat n) (unread s), {| unread := drop (Z.to_nat n) (unread s); good := n <=? zlen (unread s) |})
  else ([], s).

Record sender_state : Type := { sd_file : ifstream; sd_buffer : list Z; sd_sent : list (list Z) }.

(** One iteration of [read_and_send]; [send] is what the system call returns for a message. *)
Definition replay_packet (send : list Z -> Z) (st : sender_state) : outcome sender_state :=
  let '(b, f1) := stream_read 8 (sd_file st) in
  let n_packet_bytes := le_decode (b ++ replicate (8 - length b) 0) in
  let '(d, f2) := stream_read n_packet_bytes f1 in
  let! buffer := mem_write (sd_buffer st) 0 d in
  let! message := mem_read buffer 0 n_packet_bytes in
  let n_sent_bytes := send message in
  throw_if (n_sent_bytes <? 0) runtime_error
    (throw_if (negb (n_sent_bytes =? to_i32 n_packet_bytes)) runtime_error
      (Ret {| sd_file := f2; sd_buffer := buffer; sd_sent := sd_sent st ++ [message] |})).

(** [n] iterations of the loop. *)
Fixpoint replay_packets (send : list Z -> Z) (n : nat) (st : sender_state) : outcome sender_state :=
  match n with
  | O => Ret st
  | S n' => let! st' := replay_packet send st in replay_packets send n' st'
  end.

Definition read_and_send (ok : udp_call -> bool) (send : list Z -> Z) (udp_port : Z) (file buffer : list Z)
  (n : nat) : outcome (list (list Z)) :=
  let! _ := connect_udp_socket ok udp_port in
  let! st := replay_packets send n {| sd_file := {| unread := file; good := true |}; sd_buffer := buffer; sd_sent := [] |} in
  Ret (sd_sent st).

(** ** The buffer of the receiver *)

Lemma receive_into_spec n_bytes m ds i : 0 < n_bytes -> 0 <= i -> zlen m < 2 ^ 64 -> (i + zlen ds) * n_bytes <= zlen m ->
  exists m', receive_into n_bytes i ds m = Ret m' /\ zlen m' = zlen m /\
    (forall j (d : list Z), ds !! j = Some d ->
       let d' := take (Z.to_nat n_bytes) d in mem_read m' ((i + Z.of_nat j) * n_bytes) (zlen d') = Ret d') /\
    (forall off len, off + len <= i * n_bytes \/ (i + zlen ds) * n_bytes <= off -> mem_read m' off len = mem_read m off len).
Proof.
  intros Hn. revert m i. induction ds as [|d ds IH]; intros m i Hi Hm Hfit.
  - exists m. split_and!; try done.
  - rewrite zlen_cons in *. cbn [receive_into]. set (d' := take (Z.to_nat n_bytes) d).
    assert (Hd : zlen d' <= n_bytes) by (unfold d', zlen; rewrite length_take; lia). pose proof (zlen_nonneg ds).
    rewrite u64_small by nia. destruct (mem_write m (i * n_bytes) d') as [m1|?|?] eqn:W; [|rewrite mem_write_ret in W by nia; done..].
    cbn [obind]. pose proof (mem_write_zlen _ _ _ _ W) as Hz.
    destruct (IH m1 (i + 1)) as (m' & E & Hz' & Hin & Hout); [lia|lia|nia|].
    exists m'. split_and!; [done|lia| |].
    + intros [|j] x Hx; cbn in Hx.
      * injection Hx as ->. fold d'. cbn. rewrite Z.add_0_r, Hout by (left; lia).
        by apply (mem_read_write_same _ _ _ _ _ W).
      * replace (i + Z.of_nat (S j)) with (i + 1 + Z.of_nat j) by lia. by apply Hin.
    + intros off len Ho. rewrite Hout by (destruct Ho; [left; nia|right; nia]).
      apply (mem_read_write_disjoint _ _ _ _ _ _ W). destruct Ho; [left; nia|right; nia].
Qed.

(** A burst: every datagram is at its place of the packet buffer, in the order of arrival and cut
    at the packet size; the rest of the buffer, and what does not fit, are left. *)
Lemma receive_many_packets r pending : pending <> [] -> 0 < n_bytes_packet_ r -> 0 <= n_recv_packets_ r ->
  zlen (packet_buffer_ r) = n_recv_packets_ r * n_bytes_packet_ r -> zlen (packet_buffer_ r) < 2 ^ 64 ->
  exists n r', receive_many pending r = Ret (n, drop (Z.to_nat n) pending, r') /\
    n = Z.min (zlen pending) (n_recv_packets_ r) /\ zlen (packet_buffer_ r') = zlen (packet_buffer_ r) /\
    forall j (d : list Z), Z.of_nat j < n -> pending !! j = Some d ->
      let d' := take (Z.to_nat (n_bytes_packet_ r)) d in
      mem_read (packet_buffer_ r') (Z.of_nat j * n_bytes_packet_ r) (zlen d') = Ret d'.
Proof.
  intros Hne Hb Hn Hz Hm. unfold receive_many. destruct pending as [|d0 pending]; [done|].
  set (p := d0 :: pending) in *. set (k := Z.to_nat (n_recv_packets_ r)).
  assert (Hlen : zlen (take k p) = Z.min (zlen p) (n_recv_packets_ r)) by (unfold zlen, k; rewrite length_take; lia).
  destruct (receive_into_spec (n_bytes_packet_ r) (packet_buffer_ r) (take k p) 0) as (m & E & Hz' & Hin & _);
    [done|lia|done|nia|].
  rewrite E. cbn [obind]. exists (zlen (take k p)), {| n_recv_packets_ := n_recv_packets_ r;
    n_bytes_packet_ := n_bytes_packet_ r; socket_fd_ := socket_fd_ r; packet_buffer_ := m |}.
  split; [|split; [done|split; [exact Hz'|]]].
  - do 3 f_equal. rewrite Hlen. unfold k, zlen. destruct (Z.le_gt_cases (Z.of_nat (length p)) (n_recv_packets_ r)).
    + rewrite Z.min_l by lia. by rewrite !drop_ge by lia.
    + by rewrite Z.min_r by lia.
  - intros j d Hj Hd. specialize (Hin j d). cbn in Hin. apply Hin. rewrite lookup_take_lt; [done|].
    rewrite Hlen in Hj. unfold k. lia.
Qed.

(** ** Dump and replay *)

Definition packet_of (e : recv_event) : option (list Z) := match e with recv_packet d => Some d | _ => None end.

(** The file of a list of packets. *)
Definition dumped (packets : list (list Z)) : list Z := concat ((fun d => le_encode 8 (zlen d) ++ d) <$> packets).

Lemma dump_events events file : Forall (fun e => e <> recv_error) events ->
  Forall (fun d => zlen d < UDP_BUFFER_MAX_SIZE) (omap packet_of events) ->
  foldO dump_step events file = Ret (file ++ dumped (omap packet_of events)).
Proof.
  revert file. induction events as [|e events IH]; intros file Hok Hs; [cbn; by rewrite app_nil_r|].
  apply Forall_cons_1 in Hok as [He Hok]. cbn [foldO]. destruct e as [d| |]; [|by apply IH|done].
  cbn in Hs. apply Forall_cons_1 in Hs as [Hd Hs]. unfold dump_step.
  rewrite take_ge by (unfold zlen in Hd; lia). unfold throw_if. rewrite (proj2 (Z.eqb_neq _ _)) by lia. cbn [obind].
  rewrite IH by done. cbn [omap list_omap packet_of dumped fmap list_fmap concat]. unfold dumped.
  by rewrite <- !app_assoc.
Qed.

Section Replay.
Variable (send : list Z -> Z).
Hypothesis (send_all : forall m, send m = zlen m).

(** The stream has the framed packet in front. *)
Lemma replay_one d rest buffer sent : zlen d < UDP_BUFFER_MAX_SIZE -> zlen buffer = UDP_BUFFER_MAX_SIZE ->
  exists buffer', zlen buffer' = UDP_BUFFER_MAX_SIZE /\
    replay_packet send {| sd_file := {| unread := (le_encode 8 (zlen d) ++ d) ++ rest; good := true |};
                          sd_buffer := buffer; sd_sent := sent |} =
    Ret {| sd_file := {| unread := rest; good := true |}; sd_buffer := buffer'; sd_sent := sent ++ [d] |}.
Proof.
  intros Hd Hb. pose proof (zlen_nonneg d) as Hd0. unfold UDP_BUFFER_MAX_SIZE in Hd.
  destruct (mem_write buffer 0 d) as [b'|?|?] eqn:W; [|rewrite mem_write_ret in W by (unfold UDP_BUFFER_MAX_SIZE in Hb; lia); done..].
  exists b'. split; [by rewrite (mem_write_zlen _ _ _ _ W)|].
  unfold replay_packet, stream_read at 1. cbn [sd_file good unread sd_buffer sd_sent].
  rewrite <- app_assoc. rewrite take_app_length', drop_app_length' by (by rewrite length_le_encode).
  rewrite length_le_encode. cbn [replicate Nat.sub]. rewrite app_nil_r, le_decode_encode by lia.
  unfold stream_read. cbn [good unread].
  assert (Hg : (8 <=? zlen (le_encode 8 (zlen d) ++ d ++ rest)) = true).
  { apply Z.leb_le. rewrite zlen_app. unfold zlen at 1. rewrite length_le_encode. pose proof (zlen_nonneg (d ++ rest)). lia. }
  rewrite Hg. rewrite take_app_length', drop_app_length' by (unfold zlen; lia). rewrite W. cbn [obind].
  rewrite (mem_read_write_same _ _ _ _ _ W) by done. cbn [obind]. rewrite send_all. unfold throw_if.
  rewrite (proj2 (Z.ltb_ge _ _)) by lia. unfold to_i32. rewrite swrap_small by lia. rewrite Z.eqb_refl. cbn [negb].
  do 3 f_equal. apply Z.leb_le. rewrite zlen_app. pose proof (zlen_nonneg rest). lia.
Qed.

(** At the end of the file empty packets are sent. *)
Lemma replay_end n g buffer sent : zlen buffer = UDP_BUFFER_MAX_SIZE ->
  exists st, replay_packets send n {| sd_file := {| unread := []; good := g |}; sd_buffer := buffer; sd_sent := sent |} = Ret st /\
    sd_sent st = sent ++ replicate n [].
Proof.
  intros Hb. revert g sent. induction n as [|n IH]; intros g sent; [eexists; split; [done|]; by rewrite app_nil_r|].
  cbn [replay_packets]. destruct (IH false (sent ++ [[]])) as (st & E & Hs). exists st. split.
  - assert (Hone : replay_packet send {| sd_file := {| unread := []; good := g |}; sd_buffer := buffer; sd_sent := sent |} =
      Ret {| sd_file := {| unread := []; good := false |}; sd_buffer := buffer; sd_sent := sent ++ [[]] |}); [|by rewrite Hone].
    assert (Hr : stream_read 8 {| unread := []; good := g |} = ([], {| unread := []; good := false |})) by (by destruct g).
    unfold replay_packet. cbn [sd_file sd_buffer sd_sent]. rewrite Hr.
    change (le_decode ([] ++ replicate (8 - length (@nil Z)) 0)) with 0.
    change (stream_read 0 {| unread := []; good := false |}) with (@nil Z, {| unread := []; good := false |}). cbv iota beta.
    rewrite mem_write_ret by (unfold UDP_BUFFER_MAX_SIZE in Hb; rewrite ?Hb; done). cbn [obind list_inserts].
    rewrite mem_read_ret by (unfold UDP_BUFFER_MAX_SIZE in Hb; lia). cbn [obind]. cbv zeta.
    rewrite send_all. by rewrite take_0.
  - rewrite Hs, <- app_assoc. done.
Qed.

Lemma replay_dumped packets n buffer sent : zlen buffer = UDP_BUFFER_MAX_SIZE ->
  Forall (fun d => zlen d < UDP_BUFFER_MAX_SIZE) packets ->
  exists st, replay_packets send n {| sd_file := {| unread := dumped packets; good := true |}; sd_buffer := buffer; sd_sent := sent |} = Ret st /\
    sd_sent st = sent ++ take n packets ++ replicate (n - length packets) [].
Proof.
  intros Hb Hs. revert n buffer sent Hb. induction Hs as [|d packets Hd Hs IH]; intros n buffer sent Hb.
  - destruct (replay_end n true buffer sent Hb) as (st & E & Hst). exists st. split; [exact E|].
    rewrite Hst, take_nil. cbn. by rewrite Nat.sub_0_r.
  - destruct n as [|n]; [eexists; split; [done|]; cbn; by rewrite app_nil_r|].
    destruct (replay_one d (dumped packets) buffer sent Hd Hb) as (b' & Hb' & E).
    destruct (IH n b' (sent ++ [d]) Hb') as (st & E' & Hst). exists st. cbn [replay_packets].
    change (dumped (d :: packets)) with ((le_encode 8 (zlen d) ++ d) ++ dumped packets). rewrite E. cbn [obind].
    split; [exact E'|]. rewrite Hst, <- app_assoc. done.
Qed.
End Replay.

(** What std_udp_dump records, std_udp_replay sends.  The packets of a socket, received between any
    number of timeouts and none of them as long as the buffer, are written to the file, and the
    first [n] iterations of the replay send the first [n] of them unchanged and in order; when the
    file is exhausted every further iteration sends an empty packet. *)
Lemma udp_dump_replay ok port events send buffer n :
  (forall c, ok c = true) -> (forall m, send m = zlen m) ->
  Forall (fun e => e <> recv_error) events ->
  Forall (fun d => zlen d < UDP_BUFFER_MAX_SIZE) (omap packet_of events) -> zlen buffer = UDP_BUFFER_MAX_SIZE ->
  let packets := omap packet_of events in
  exists file, receive_and_dump ok port events = Ret file /\
    read_and_send ok send port file buffer n = Ret (take n packets ++ replicate (n - length packets) []).
Proof.
  intros Hok Hsend He Hs Hb packets. exists (dumped packets).
  unfold receive_and_dump, read_and_send, bind_udp_socket, open_and_bind, connect_udp_socket, udp_do, throw_if.
  rewrite !Hok. cbn [negb obind]. rewrite dump_events by done. split; [done|].
  destruct (replay_dumped send Hsend packets n buffer [] Hb Hs) as (st & E & Hst). rewrite E. cbn [obind]. by rewrite Hst.
Qed.

Lemma udp_dump_replay_witness :
  exists file, receive_and_dump (fun _ => true) 2000 [recv_packet [1; 2; 3]; recv_timeout; recv_packet [4]] = Ret file /\
    read_and_send (fun _ => true) zlen 2000 file (replicate (Z.to_nat UDP_BUFFER_MAX_SIZE) 0) 3 = Ret [[1; 2; 3]; [4]; []].
Proof.
  apply (udp_dump_replay (fun _ => true) 2000 [recv_packet [1; 2; 3]; recv_timeout; recv_packet [4]] zlen
    (replicate (Z.to_nat UDP_BUFFER_MAX_SIZE) 0) 3).
  - reflexivity.
  - reflexivity.
  - repeat constructor; discriminate.
  - repeat constructor.
  - rewrite zlen_replicate. reflexivity.
Defined.
