(* ===== verification/Ingest.v ===== *)
(** * std-array10-recv and std-bsread-recv: images from external streams

    [src/source/std-array10-recv/src/receiver.cpp] and [src/source/std-bsread-recv/src/receiver.cpp].
    Both services poll several connections to one source.  In a round they take at most one image from
    every connection, store it in the RAM buffer at once, and then announce the images of the round
    in the order of their ids.  The JSON parser and the bsread library are arguments. *)

From Stdlib Require Import Sorted.
From S2P Require Import Prelude OrderedMap Protocol Config RamBuffer Stats Sockets.

(** ** A round *)

Section Round.
Context {V : Type}.

(** The RAM buffer, and the images to announce. *)
Record round : Type := { rd_mem : list Z; rd_order : omap_t V }.

(** [memcpy(sender.get_data(id), ...)] and [emplace(id, v)]. *)
Definition store_image (ring : RamBuffer) (st : round) (id : Z) (d : list Z) (v : V) : outcome round :=
  let! off := get_data ring (u64 id) in
  let! m := mem_write (rd_mem st) off d in
  Ret {| rd_mem := m; rd_order := om_emplace id v (rd_order st) |}.

Definition store_images (ring : RamBuffer) (arrivals : list (Z * list Z * V)) (st : round) : outcome round :=
  foldO (fun st a => store_image ring st (fst (fst a)) (snd (fst a)) (snd a)) arrivals st.

Definition arrival_id (a : Z * list Z * V) : Z := fst (fst a).

(** The image [a] that arrived in front of [later] can still be read. *)
Definition slot_of (ring : RamBuffer) (a : Z * list Z * V) : Z := u64 (arrival_id a) mod n_slots_ ring.

Lemma keys_emplace k (v : V) m x : x ∈ keys (om_emplace k v m) <-> x = k \/ x ∈ keys m.
Proof.
  unfold om_emplace. destruct (om_find k m) eqn:E; [|apply keys_put].
  apply om_find_Some_keys in E. set_solver.
Qed.

Lemma sorted_emplace k (v : V) m : sorted m -> sorted (om_emplace k v m).
Proof. unfold om_emplace. destruct (om_find k m); [done|]. apply sorted_put. Qed.

(** After a round: the ids in order, each once, and every image in its slot unless a later one of
    the round has the same slot. *)
Record stored_round (ring : RamBuffer) (arrivals : list (Z * list Z * V)) (st st' : round) : Prop := {
  sr_zlen : zlen (rd_mem st') = zlen (rd_mem st);
  sr_sorted : sorted (rd_order st) -> sorted (rd_order st');
  sr_ids : forall x, x ∈ keys (rd_order st') <-> x ∈ arrival_id <$> arrivals \/ x ∈ keys (rd_order st);
  sr_first : forall id v, om_find id (rd_order st') = Some v ->
    om_find id (rd_order st) = Some v \/ exists d, (id, d, v) ∈ arrivals;
  sr_bytes : forall before a later, arrivals = before ++ a :: later ->
    Forall (fun b => slot_of ring b <> slot_of ring a) later ->
    exists off, get_data ring (u64 (arrival_id a)) = Ret off /\
      mem_read (rd_mem st') off (zlen (snd (fst a))) = Ret (snd (fst a));
  sr_frame : forall id len, len <= data_bytes_ ring ->
    Forall (fun b => slot_of ring b <> id mod n_slots_ ring) arrivals ->
    mem_read (rd_mem st') (id mod n_slots_ ring * data_bytes_ ring) len =
    mem_read (rd_mem st) (id mod n_slots_ ring * data_bytes_ ring) len
}.

Lemma store_images_spec ring arrivals st : wf_ram ring -> zlen (rd_mem st) = buffer_bytes_ ring ->
  Forall (fun a => zlen (snd (fst a)) <= data_bytes_ ring) arrivals ->
  exists st', store_images ring arrivals st = Ret st' /\ stored_round ring arrivals st st'.
Proof.
  intros Hwf Hz Hall. revert st Hz. induction Hall as [|[[id d] v] arrivals Hd Hall IH]; intros st Hz.
  - exists st. split; [done|]. split; try done.
    + set_solver.
    + by left.
    + by intros [|? ?] ? ? ?.
  - cbn in Hd.
    change (store_images ring ((id, d, v) :: arrivals) st)
      with (let! st1 := store_image ring st id d v in store_images ring arrivals st1). unfold store_image.
    destruct (slot_offset ring (u64 id) Hwf) as (Hoff & H0 & Hmax). pose proof (ring_fits ring Hwf) as Hfit.
    set (off := u64 id mod n_slots_ ring * data_bytes_ ring) in *. rewrite Hoff. cbn [obind].
    destruct (mem_write (rd_mem st) off d) as [m|?|?] eqn:W; [|rewrite mem_write_ret in W by lia; done..].
    cbn [obind]. set (st1 := {| rd_mem := m; rd_order := om_emplace id v (rd_order st) |}).
    assert (Hz1 : zlen (rd_mem st1) = buffer_bytes_ ring) by (cbn; by rewrite (mem_write_zlen _ _ _ _ W)).
    destruct (IH st1 Hz1) as (st' & E & [S1 S2 S3 S4 S5 S6]). exists st'. split; [exact E|]. split.
    + rewrite S1. by rewrite Hz1.
    + intros Hs. apply S2. by apply sorted_emplace.
    + intros x. rewrite S3. unfold st1 at 1. cbn [rd_order]. rewrite keys_emplace, fmap_cons, elem_of_cons.
      change (arrival_id (id, d, v)) with id. tauto.
    + intros i u Hu. destruct (S4 i u Hu) as [H1|(d' & H1)]; [|right; exists d'; by right].
      cbn in H1. unfold om_emplace in H1. destruct (om_find id (rd_order st)); [by left|].
      rewrite om_find_put in H1. case_decide; [|by left]. simplify_eq. right. exists d. by left.
    + intros [|b before] a later Hsplit Hlater; cbn in Hsplit; injection Hsplit as <- Hsplit.
      * subst arrivals. cbn. exists off. split; [done|].
        unfold off. rewrite S6 by done. by apply (mem_read_write_same _ _ _ _ _ W).
      * by apply (S5 before a later).
    + intros i len Hlen Hother. apply Forall_cons_1 in Hother as [Hne Hother]. rewrite S6 by done. cbn.
      apply (mem_read_write_disjoint _ _ _ _ _ _ W). unfold slot_of, arrival_id in Hne. cbn in Hne. unfold off.
      destruct (slots_disjoint (data_bytes_ ring) (u64 id mod n_slots_ ring) (i mod n_slots_ ring)) as [?|?];
        [apply Hwf|done|right; lia|left; lia].
Qed.
End Round.
Arguments round : clear implicits.

(** ** std-array10-recv *)

Section Array10.
(** [json::parse(...)["frame"].get<uint64_t>()], [None] when an exception is thrown. *)
Variable (parse_frame : list Z -> option Z).

(** What a connection gives to the two calls of [zmq_recv]. *)
Record array10_message : Type := { am_header : option (list Z); am_data : option (list Z) }.

Record array10_recv : Type := {
  ar_meta : pb_image;
  ar_buffer : list Z;
  ar_round : round pb_image;
  ar_sent : list (Z * pb_image);
  ar_stats : TimedStatsCollector
}.

Definition set_image_id (meta : pb_image) (id : Z) : pb_image :=
  {| pb_image_id := id; pb_height := pb_height meta; pb_width := pb_width meta; pb_size := pb_size meta;
     pb_dt := pb_dt meta; pb_st := pb_st meta; pb_cp := pb_cp meta; pb_det := pb_det meta |}.

(** The size of a slot: the products are of type int. *)
Definition array10_max_byte_size (config : DetectorConfig) : outcome Z :=
  let! a := i32 (image_pixel_width config * image_pixel_height config) in
  let! b := i32 (a * bit_depth config) in
  Ret (u64 (Z.quot b 8)).

(** [main] up to the loop; [memory] are the bytes of the vector, which are zero. *)
Definition array10_new (config : DetectorConfig) (stream_address : string) (m : list Z) (now : Z) :
  outcome array10_recv :=
  let! max_byte_size := array10_max_byte_size config in
  let! dtype := get_metadata_dtype config in
  Ret {| ar_meta := {| pb_image_id := 0; pb_height := u64 (image_pixel_height config);
                       pb_width := u64 (image_pixel_width config); pb_size := max_byte_size; pb_dt := dtype;
                       pb_st := st_good_image; pb_cp := cp_none; pb_det := dm_not_set |};
         ar_buffer := replicate (Z.to_nat (u64 (max_byte_size + 8))) 0;
         ar_round := {| rd_mem := m; rd_order := [] |}; ar_sent := [];
         ar_stats := TimedStatsCollector_new (Config.detector_name config) (stats_collection_period config) stream_address now |}.

(** [zmq_recv] into a buffer: the contents and the length of the message, which may be greater.
    [None] when it fails, and 0 for an empty message. *)
Definition recv_bytes (buf : list Z) (msg : option (list Z)) : list Z * Z :=
  match msg with Some d => (recv_into buf d, zlen d) | None => (buf, -1) end.

(** The body of the loop over the sockets. *)
Definition array10_socket (ring : RamBuffer) (st : array10_recv) (msg : array10_message) : outcome array10_recv :=
  let '(buf, n_bytes) := recv_bytes (ar_buffer st) (am_header msg) in
  if 0 <? n_bytes then
    let! header := mem_read buf 0 n_bytes in
    let meta := match parse_frame header with Some id => set_image_id (ar_meta st) id | None => ar_meta st end in
    let '(buf2, n_bytes2) := recv_bytes buf (am_data msg) in
    let! rd :=
      if 0 <? n_bytes2 then
        let! d := mem_read buf2 0 n_bytes2 in
        store_image ring (ar_round st) (pb_image_id meta) d meta
      else Ret (ar_round st) in
    Ret {| ar_meta := meta; ar_buffer := buf2; ar_round := rd; ar_sent := ar_sent st;
           ar_stats := timed_process (ar_stats st) |}
  else Ret {| ar_meta := ar_meta st; ar_buffer := buf; ar_round := ar_round st; ar_sent := ar_sent st;
              ar_stats := ar_stats st |}.

(** One iteration of the outer loop. *)
Definition array10_iteration (ring : RamBuffer) (now now_rate : Z) (msgs : list array10_message) (st : array10_recv) :
  outcome array10_recv :=
  let! st1 := foldO (array10_socket ring) msgs st in
  Ret {| ar_meta := ar_meta st1; ar_buffer := ar_buffer st1;
         ar_round := {| rd_mem := rd_mem (ar_round st1); rd_order := [] |};
         ar_sent := ar_sent st1 ++ rd_order (ar_round st1);
         ar_stats := snd (print_stats now now_rate (ar_stats st1)) |}.

(** A message that carries an image. *)
Definition good_message (max : Z) (msg : array10_message) : Prop :=
  match am_header msg with
  | None => True
  | Some h => 0 < zlen h <= max /\
      exists id d, parse_frame h = Some id /\ 0 <= id < 2 ^ 64 /\ am_data msg = Some d /\ 0 < zlen d <= max
  end.

(** The image of a message, announced with the template. *)
Definition arrival_of (template : pb_image) (msg : array10_message) : option (Z * list Z * pb_image) :=
  match am_header msg, am_data msg with
  | Some h, Some d => match parse_frame h with Some id => Some (id, d, set_image_id template id) | None => None end
  | _, _ => None
  end.

Lemma zlen_recv_into buf d : zlen d <= zlen buf -> zlen (recv_into buf d) = zlen buf.
Proof using Type. unfold zlen, recv_into. intros H. rewrite length_app, length_take, length_drop. lia. Qed.

Lemma recv_into_read buf d : zlen d <= zlen buf -> mem_read (recv_into buf d) 0 (zlen d) = Ret d.
Proof using Type.
  intros H. rewrite mem_read_ret by (rewrite ?zlen_recv_into by done; pose proof (zlen_nonneg d); lia).
  unfold recv_into, zlen in *. rewrite (take_ge d) by lia. rewrite Nat2Z.id, drop_0. by rewrite take_app_length.
Qed.

(** Everything but the id of the metadata stays as it was set up. *)
Definition like (template meta : pb_image) : Prop := forall id, set_image_id meta id = set_image_id template id.

Lemma like_set template meta id : like template meta -> like template (set_image_id meta id).
Proof using Type. intros H i. apply (H i). Qed.

Lemma array10_sockets ring template msgs st : wf_ram ring ->
  zlen (ar_buffer st) = data_bytes_ ring + 8 -> zlen (rd_mem (ar_round st)) = buffer_bytes_ ring ->
  like template (ar_meta st) -> Forall (good_message (data_bytes_ ring)) msgs ->
  exists st', foldO (array10_socket ring) msgs st = Ret st' /\
    store_images ring (omap (arrival_of template) msgs) (ar_round st) = Ret (ar_round st') /\
    ar_sent st' = ar_sent st /\ zlen (ar_buffer st') = zlen (ar_buffer st) /\ like template (ar_meta st').
Proof using Type.
  intros Hwf. revert st. induction msgs as [|msg msgs IH]; intros st Hb Hm Hl Hgood; [by exists st|].
  apply Forall_cons_1 in Hgood as [Hmsg Hgood]. cbn [foldO].
  destruct msg as [[h|] dat]; unfold good_message in Hmsg; cbn [am_header am_data] in Hmsg.
  - destruct Hmsg as (Hh & id & d & Hp & Hid & -> & Hd).
    assert (Hz1 : zlen (recv_into (ar_buffer st) h) = zlen (ar_buffer st)) by (apply zlen_recv_into; lia).
    assert (Hz2 : zlen (recv_into (recv_into (ar_buffer st) h) d) = zlen (ar_buffer st)) by (rewrite zlen_recv_into; lia).
    destruct (store_images_spec ring [(id, d, set_image_id template id)] (ar_round st) Hwf Hm) as (rd & Hrd & Hspec).
    { repeat constructor. cbn. lia. }
    assert (Hone : store_image ring (ar_round st) id d (set_image_id template id) = Ret rd).
    { unfold store_images in Hrd. cbn [foldO fst snd] in Hrd. by rewrite obind_Ret_r in Hrd. }
    assert (Hstep : array10_socket ring st {| am_header := Some h; am_data := Some d |} =
      Ret {| ar_meta := set_image_id (ar_meta st) id; ar_buffer := recv_into (recv_into (ar_buffer st) h) d;
             ar_round := rd; ar_sent := ar_sent st; ar_stats := timed_process (ar_stats st) |}).
    { unfold array10_socket. cbn [am_header am_data recv_bytes]. rewrite (proj2 (Z.ltb_lt _ _)) by lia.
      rewrite recv_into_read by lia. cbn [obind]. rewrite Hp, (proj2 (Z.ltb_lt _ _)) by lia.
      rewrite recv_into_read by lia. cbn [obind]. change (pb_image_id (set_image_id (ar_meta st) id)) with id.
      rewrite (Hl id), Hone. cbn [obind]. by rewrite <- (Hl id). }
    rewrite Hstep. cbn [obind].
    destruct (IH {| ar_meta := set_image_id (ar_meta st) id; ar_buffer := recv_into (recv_into (ar_buffer st) h) d;
      ar_round := rd; ar_sent := ar_sent st; ar_stats := timed_process (ar_stats st) |}) as (st' & E & Hs & Hsent & Hz & Hl').
    + cbn. lia.
    + cbn. by rewrite (sr_zlen _ _ _ _ Hspec).
    + by apply like_set.
    + done.
    + exists st'. split; [exact E|]. split_and!; [|done|by rewrite Hz|done].
      cbn [omap list_omap arrival_of am_header am_data]. rewrite Hp. unfold store_images in *. cbn [foldO fst snd].
      rewrite Hone. exact Hs.
  - unfold array10_socket at 2. cbn [am_header recv_bytes Z.ltb Z.compare obind]. destruct st as [me bu ro se sta].
    cbn [ar_meta ar_buffer ar_round ar_sent ar_stats] in *. by apply IH.
Qed.
End Array10.

(** ** std-bsread-recv *)

(** A message of the bsread library: the channels, [None] when nothing was received. *)
Record bs_channel : Type := { ch_name : string; ch_shape : list Z; ch_buffer : list Z }.
Record bs_message : Type := { bs_pulse_id : Z; bs_sec : Z; bs_nsec : Z; bs_channels : option (list bs_channel) }.

Record metadata_holder : Type := { mh_width : Z; mh_height : Z; mh_name : string; mh_sec : Z; mh_nsec : Z }.

Record bsread_recv : Type := {
  br_dtype : pb_dtype;
  br_bit_depth : Z;
  br_round : round metadata_holder;
  br_sent : list (Z * pb_image);
  br_stats : TimedStatsCollector
}.

Definition bsread_new (config : DetectorConfig) (stream_address : string) (m : list Z) (now : Z) : outcome bsread_recv :=
  let! dtype := get_metadata_dtype config in
  Ret {| br_dtype := dtype; br_bit_depth := bit_depth config; br_round := {| rd_mem := m; rd_order := [] |};
         br_sent := [];
         br_stats := TimedStatsCollector_new (Config.detector_name config) (stats_collection_period config) stream_address now |}.

(** [shape[i]] of a vector. *)
Definition shape_at (c : bs_channel) (i : nat) : outcome Z :=
  match ch_shape c !! i with Some x => Ret (u32 x) | None => Undef out_of_bounds end.

(** The body of the loop over the receivers. *)
Definition bsread_socket (ring : RamBuffer) (st : bsread_recv) (msg : bs_message) : outcome bsread_recv :=
  match bs_channels msg with
  | None => Ret st
  | Some channels =>
      let! rd :=
        match channels with
        | [] => Ret (br_round st)
        | c :: _ =>
            let! w := shape_at c 0 in
            let! h := shape_at c 1 in
            store_image ring (br_round st) (bs_pulse_id msg) (ch_buffer c)
              {| mh_width := w; mh_height := h; mh_name := ch_name c; mh_sec := bs_sec msg; mh_nsec := bs_nsec msg |}
        end in
      Ret {| br_dtype := br_dtype st; br_bit_depth := br_bit_depth st; br_round := rd; br_sent := br_sent st;
             br_stats := timed_process (br_stats st) |}
  end.

(** The metadata of an image; the size is computed with 32 bits. *)
Definition bsread_meta (dtype : pb_dtype) (bit_depth : Z) (pulse : Z) (m : metadata_holder) : pb_image :=
  {| pb_image_id := u64 pulse; pb_height := mh_height m; pb_width := mh_width m;
     pb_size := u32 (u32 (mh_width m * mh_height m) * u32 bit_depth) / 8; pb_dt := dtype; pb_st := st_good_image;
     pb_cp := cp_none;
     pb_det := dm_pco {| pco_global_timestamp_sec := mh_sec m; pco_global_timestamp_ns := mh_nsec m;
                         pco_bsread_name := mh_name m |} |}.

Definition bsread_iteration (ring : RamBuffer) (now now_rate : Z) (msgs : list bs_message) (st : bsread_recv) :
  outcome bsread_recv :=
  let! st1 := foldO (bsread_socket ring) msgs st in
  Ret {| br_dtype := br_dtype st1; br_bit_depth := br_bit_depth st1;
         br_round := {| rd_mem := rd_mem (br_round st1); rd_order := [] |};
         br_sent := br_sent st1 ++
           ((fun km => (fst km, bsread_meta (br_dtype st1) (br_bit_depth st1) (fst km) (snd km))) <$> rd_order (br_round st1));
         br_stats := snd (print_stats now now_rate (br_stats st1)) |}.

(** A message with an image: two dimensions, and not more bytes than a slot. *)
Definition good_bs_message (max : Z) (msg : bs_message) : Prop :=
  match bs_channels msg with
  | Some (c :: _) => (exists w h rest, ch_shape c = w :: h :: rest) /\ zlen (ch_buffer c) <= max
  | _ => True
  end.

Definition bs_arrival (msg : bs_message) : option (Z * list Z * metadata_holder) :=
  match bs_channels msg with
  | Some (c :: _) =>
      match ch_shape c with
      | w :: h :: _ => Some (bs_pulse_id msg, ch_buffer c,
          {| mh_width := u32 w; mh_height := u32 h; mh_name := ch_name c; mh_sec := bs_sec msg; mh_nsec := bs_nsec msg |})
      | _ => None
      end
  | _ => None
  end.

Lemma bsread_sockets ring msgs st : wf_ram ring -> zlen (rd_mem (br_round st)) = buffer_bytes_ ring ->
  Forall (good_bs_message (data_bytes_ ring)) msgs ->
  exists st', foldO (bsread_socket ring) msgs st = Ret st' /\
    store_images ring (omap bs_arrival msgs) (br_round st) = Ret (br_round st') /\ br_sent st' = br_sent st /\
    br_dtype st' = br_dtype st /\ br_bit_depth st' = br_bit_depth st.
Proof.
  intros Hwf. revert st. induction msgs as [|msg msgs IH]; intros st Hm Hgood; [by exists st|].
  apply Forall_cons_1 in Hgood as [Hmsg Hgood]. cbn [foldO].
  assert (Hstep : exists rd, bsread_socket ring st msg = Ret (match bs_channels msg with
      | None => st
      | Some _ => {| br_dtype := br_dtype st; br_bit_depth := br_bit_depth st; br_round := rd; br_sent := br_sent st;
                     br_stats := timed_process (br_stats st) |}
      end) /\ zlen (rd_mem rd) = buffer_bytes_ ring /\
    store_images ring (option_list (bs_arrival msg)) (br_round st) = Ret (if bs_channels msg then rd else br_round st)).
  { unfold good_bs_message in Hmsg. unfold bsread_socket, bs_arrival.
    destruct (bs_channels msg) as [[|c cs]|]; [by exists (br_round st)| |by exists (br_round st)].
    destruct Hmsg as [(w & h & rest & Hsh) Hd]. unfold shape_at. rewrite Hsh. cbn [lookup list_lookup obind].
    set (v := {| mh_width := u32 w; mh_height := u32 h; mh_name := ch_name c; mh_sec := bs_sec msg; mh_nsec := bs_nsec msg |}).
    destruct (store_images_spec ring [(bs_pulse_id msg, ch_buffer c, v)] (br_round st) Hwf Hm) as (rd & Hrd & Hspec).
    { by repeat constructor. }
    exists rd. split_and!; [|by rewrite (sr_zlen _ _ _ _ Hspec)|exact Hrd].
    unfold store_images in Hrd. cbn [foldO fst snd] in Hrd. rewrite obind_Ret_r in Hrd. by rewrite Hrd. }
  destruct Hstep as (rd & Hstep & Hz & Hone). rewrite Hstep. cbn [obind].
  assert (Hcons : omap bs_arrival (msg :: msgs) = option_list (bs_arrival msg) ++ omap bs_arrival msgs)
    by (cbn; by destruct (bs_arrival msg)).
  rewrite Hcons. unfold store_images in *. rewrite foldO_app, Hone. cbn [obind].
  destruct (bs_channels msg); [|by apply IH].
  by destruct (IH {| br_dtype := br_dtype st; br_bit_depth := br_bit_depth st; br_round := rd; br_sent := br_sent st;
    br_stats := timed_process (br_stats st) |} Hz Hgood) as (st' & E & ?); exists st'.
Qed.

(** ** The theorems *)

(** The announcements of a round: the ids that arrived, in order and each once. *)
Definition in_order {V} (arrivals : list (Z * list Z * V)) (announced : list Z) : Prop :=
  StronglySorted Z.lt announced /\ forall x, x ∈ announced <-> x ∈ arrival_id <$> arrivals.

(** The bytes of every image are in its slot, unless a later image of the round has the same one. *)
Definition in_slots {V} (ring : RamBuffer) (arrivals : list (Z * list Z * V)) (m : list Z) : Prop :=
  forall before a later, arrivals = before ++ a :: later ->
    Forall (fun b => slot_of ring b <> slot_of ring a) later ->
    exists off, get_data ring (u64 (arrival_id a)) = Ret off /\
      mem_read m off (zlen (snd (fst a))) = Ret (snd (fst a)).

Lemma round_in_order {V} ring arrivals (st st' : round V) : stored_round ring arrivals st st' -> rd_order st = [] ->
  in_order arrivals (keys (rd_order st')) /\ in_slots ring arrivals (rd_mem st').
Proof.
  intros [S1 S2 S3 S4 S5 S6] H0. split; [|exact S5]. split.
  - apply S2. rewrite H0. constructor.
  - intros x. rewrite S3, H0. cbn. set_solver.
Qed.

Lemma omap_Forall_impl {A B} (f : A -> option B) (P : A -> Prop) (Q : B -> Prop) (l : list A) :
  (forall a b, P a -> f a = Some b -> Q b) -> Forall P l -> Forall Q (omap f l).
Proof.
  intros H Hl. induction Hl as [|a l Ha Hl IH]; [constructor|]. cbn. destruct (f a) eqn:E; [|done]. constructor; eauto.
Qed.

(** C28: a round of the array-1.0 receiver in which every connection delivers nothing or a good
    message: a header that parses and is not longer than a slot, with data that are not empty and fit
    a slot.  Then, in whichever order they come, the images are announced with increasing ids and each
    id once, with the metadata of the configuration, and the bytes of each are in its slot of the RAM buffer,
    unless the same round brought a later image for that slot.  (What other messages do:
    [array10_bad_header_overwrites], [array10_image_spills].) *)
Theorem array10_round parse_frame ring now now_rate msgs st :
  wf_ram ring -> zlen (ar_buffer st) = data_bytes_ ring + 8 -> zlen (rd_mem (ar_round st)) = buffer_bytes_ ring ->
  rd_order (ar_round st) = [] -> Forall (good_message parse_frame (data_bytes_ ring)) msgs ->
  let arrivals := omap (arrival_of parse_frame (ar_meta st)) msgs in
  exists st' announced, array10_iteration parse_frame ring now now_rate msgs st = Ret st' /\
    ar_sent st' = ar_sent st ++ announced /\ rd_order (ar_round st') = [] /\
    in_order arrivals (fst <$> announced) /\ in_slots ring arrivals (rd_mem (ar_round st')) /\
    forall id meta, (id, meta) ∈ announced -> meta = set_image_id (ar_meta st) id.
Proof.
  intros Hwf Hb Hm H0 Hgood arrivals.
  destruct (array10_sockets parse_frame ring (ar_meta st) msgs st Hwf Hb Hm (fun id => eq_refl) Hgood)
    as (st1 & E & Hs & Hsent & _ & _). fold arrivals in Hs.
  destruct (store_images_spec ring arrivals (ar_round st) Hwf Hm) as (rd & Hrd & Hspec).
  { eapply omap_Forall_impl; [|exact Hgood]. intros [[h|] [d|]] b; unfold good_message, arrival_of; cbn; try done.
    intros (_ & id & d' & -> & _ & [= <-] & ?) [= <-]. cbn. lia. }
  rewrite Hs in Hrd. injection Hrd as <-. destruct (round_in_order _ _ _ _ Hspec H0) as [Hord Hslots].
  unfold array10_iteration. rewrite E. cbn [obind]. eexists _, (rd_order (ar_round st1)). split; [done|].
  cbn [ar_sent ar_round rd_order rd_mem]. rewrite Hsent. split_and!; try done.
  intros id meta Hin. assert (Hfind : om_find id (rd_order (ar_round st1)) = Some meta).
  { apply om_find_elem; [|done]. apply (sr_sorted _ _ _ _ Hspec). rewrite H0. constructor. }
  destruct (sr_first _ _ _ _ Hspec id meta Hfind) as [Hf|(d & Hd)]; [by rewrite H0 in Hf|].
  unfold arrivals in Hd. apply list_elem_of_omap in Hd as ([[h|] [d'|]] & _ & Ha); unfold arrival_of in Ha; cbn in Ha; try done.
  destruct (parse_frame h); [|done]. by injection Ha as -> _ <-.
Qed.

(** A round of the bsread receiver: the same, with the metadata of the messages. *)
Lemma bsread_round ring now now_rate msgs st :
  wf_ram ring -> zlen (rd_mem (br_round st)) = buffer_bytes_ ring -> rd_order (br_round st) = [] ->
  Forall (good_bs_message (data_bytes_ ring)) msgs ->
  let arrivals := omap bs_arrival msgs in
  exists st' announced, bsread_iteration ring now now_rate msgs st = Ret st' /\
    br_sent st' = br_sent st ++ announced /\ rd_order (br_round st') = [] /\
    in_order arrivals (fst <$> announced) /\ in_slots ring arrivals (rd_mem (br_round st')) /\
    forall id meta, (id, meta) ∈ announced ->
      exists d v, (id, d, v) ∈ arrivals /\ meta = bsread_meta (br_dtype st) (br_bit_depth st) id v.
Proof.
  intros Hwf Hm H0 Hgood arrivals.
  destruct (bsread_sockets ring msgs st Hwf Hm Hgood) as (st1 & E & Hs & Hsent & Hdt & Hbd). fold arrivals in Hs.
  destruct (store_images_spec ring arrivals (br_round st) Hwf Hm) as (rd & Hrd & Hspec).
  { eapply omap_Forall_impl; [|exact Hgood]. intros msg b. unfold good_bs_message, bs_arrival.
    destruct (bs_channels msg) as [[|c cs]|]; try done. intros [(w & h & rest & ->) Hd] [= <-]. done. }
  rewrite Hs in Hrd. injection Hrd as <-. destruct (round_in_order _ _ _ _ Hspec H0) as [Hord Hslots].
  unfold bsread_iteration. rewrite E. cbn [obind]. rewrite Hdt, Hbd, Hsent.
  eexists _, ((fun km => (fst km, bsread_meta (br_dtype st) (br_bit_depth st) (fst km) (snd km))) <$> rd_order (br_round st1)).
  split; [done|]. cbn [br_sent br_round rd_order rd_mem]. split_and!; try done.
  - rewrite <- list_fmap_compose. exact Hord.
  - intros id meta ([i v] & [= -> ->] & Hin)%list_elem_of_fmap. cbn.
    assert (Hfind : om_find i (rd_order (br_round st1)) = Some v).
    { apply om_find_elem; [|done]. apply (sr_sorted _ _ _ _ Hspec). rewrite H0. constructor. }
    destruct (sr_first _ _ _ _ Hspec i v Hfind) as [Hf|(d & Hd)]; [by rewrite H0 in Hf|]. by exists d, v.
Qed.

(** ** Cases outside the theorem *)

Definition demo_in_ring : RamBuffer :=
  {| buffer_name_ := "PCO-image"; n_slots_ := 1000; data_bytes_ := 2; buffer_bytes_ := 2097152; shm_fd_ := 0 |}.
Definition demo_parse (h : list Z) : option Z := match h with [x] => Some x | _ => None end.
Definition demo_template : pb_image :=
  {| pb_image_id := 0; pb_height := 1; pb_width := 1; pb_size := 2; pb_dt := dt_uint16; pb_st := st_good_image;
     pb_cp := cp_none; pb_det := dm_not_set |}.
Definition demo_array10 (m : list Z) : array10_recv :=
  {| ar_meta := demo_template; ar_buffer := replicate 10 0; ar_round := {| rd_mem := m; rd_order := [] |};
     ar_sent := []; ar_stats := TimedStatsCollector_new "PCO" 10 "" 0 |}.
Definition demo_in_message (id a b : Z) : array10_message := {| am_header := Some [id]; am_data := Some [a; b] |}.

Lemma array10_round_witness :
  let st := demo_array10 (replicate (Z.to_nat 2097152) 0) in
  let msgs := [demo_in_message 8 1 2; demo_in_message 7 3 4; {| am_header := None; am_data := None |}] in
  exists st' announced, array10_iteration demo_parse demo_in_ring 0 0 msgs st = Ret st' /\
    ar_sent st' = ar_sent st ++ announced /\ rd_order (ar_round st') = [] /\
    in_order [(8, [1; 2], set_image_id demo_template 8); (7, [3; 4], set_image_id demo_template 7)] (fst <$> announced) /\
    in_slots demo_in_ring [(8, [1; 2], set_image_id demo_template 8); (7, [3; 4], set_image_id demo_template 7)]
      (rd_mem (ar_round st')) /\
    forall id meta, (id, meta) ∈ announced -> meta = set_image_id (ar_meta st) id.
Proof.
  apply (array10_round demo_parse demo_in_ring 0 0
    [demo_in_message 8 1 2; demo_in_message 7 3 4; {| am_header := None; am_data := None |}]
    (demo_array10 (replicate (Z.to_nat 2097152) 0))).
  - repeat split; vm_compute; congruence.
  - reflexivity.
  - cbn [demo_array10 ar_round rd_mem]. rewrite zlen_replicate. apply Z2Nat.id. discriminate.
  - reflexivity.
  - constructor; [|constructor; [|constructor; [exact I|constructor]]]; (split; [split; [reflexivity|discriminate]|]).
    + exists 8, [1; 2]. repeat split; discriminate.
    + exists 7, [3; 4]. repeat split; discriminate.
Defined.

(** A header that cannot be parsed leaves the id of the image before: the data replace that
    image in its slot, and nothing else is announced for them. *)
Lemma array10_bad_header_overwrites :
  match array10_iteration demo_parse demo_in_ring 0 0
    [demo_in_message 1 1 2; {| am_header := Some [9; 9]; am_data := Some [5; 6] |}] (demo_array10 (replicate 10 0)) with
  | Ret st => fst <$> ar_sent st = [1] /\ mem_read (rd_mem (ar_round st)) 2 2 = Ret [5; 6]
  | _ => False
  end.
Proof. vm_compute. split; reflexivity. Qed.

(** An image that is larger than the configured size is read beyond the end of the buffer. *)
Lemma array10_large_image_overruns :
  array10_iteration demo_parse demo_in_ring 0 0
    [{| am_header := Some [1]; am_data := Some (replicate 11 7) |}] (demo_array10 (replicate 10 0)) = Undef out_of_bounds.
Proof. vm_compute. reflexivity. Qed.

(** And one that is larger by at most eight bytes overwrites the next slot. *)
Lemma array10_image_spills :
  match array10_iteration demo_parse demo_in_ring 0 0
    [demo_in_message 2 1 2; {| am_header := Some [1]; am_data := Some [7; 7; 8] |}] (demo_array10 (replicate 10 0)) with
  | Ret st => fst <$> ar_sent st = [1; 2] /\ mem_read (rd_mem (ar_round st)) 4 2 = Ret [8; 2]
  | _ => False
  end.
Proof. vm_compute. split; reflexivity. Qed.

(** The announced size of a bsread image is computed with 32 bits and wraps. *)
Lemma bsread_size_wraps :
  pb_size (bsread_meta dt_uint16 16 1 {| mh_width := 16384; mh_height := 16384; mh_name := ""; mh_sec := 0; mh_nsec := 0 |}) = 0.
Proof. reflexivity. Qed.
