(* ===== verification/Wiring.v ===== *)
(** * How the services are connected

    Every service opens rings of images in shared memory and ZeroMQ sockets under names made from the detector's name and a
    suffix.  This file collects what each [main] opens, as functions of the configuration: the rings with their geometry and
    the sockets with their types.  Services that share a ring must open it with the same geometry, since each of them sets the
    size of the object; a socket that connects needs a service that binds the address with the matching type.
    Sockets for addresses that are arguments (the streams to other machines) are left out. *)

From stdpp Require Import pretty.
From S2P Require Import Prelude Protocol Formats Config ConfigReader RamBuffer Sockets GfGeometry UdpRecvEg UdpRecvJf Ingest.

(** ** The services *)

Inductive service_id : Type :=
| recv_gf (module_id : Z) | recv_eg (module_id : Z) | recv_jf (module_id : Z)
| convert_gf (module_id : Z) | convert_eg (module_id : Z) | convert_jf (module_id : Z)
| sync_module | sync_stream | sync_metadata
| stream_send | stream_receive
| compress_blosc2 | compress_h5bitshuffle
| live_stream (suffix_meta suffix_image : string)
| delay_filter (suffix : string) | gf_filter (suffix : string) | metadata_stream (suffix : string)
| det_driver (suffix : string) (with_metadata_writer : bool)
| det_writer (writer_id : Z) (suffix : string) | det_meta_writer
| buffer_writer | buffer_reader | buffer_driver
| array10_recv | bsread_recv
| shm_holder | chunk_sender.

Definition stream_of (config : DetectorConfig) (suffix : string) : string := (Config.detector_name config +:+ "-" +:+ suffix)%string.

Definition module_ring (config : DetectorConfig) (module_id bytes : Z) : RamBufferConfig :=
  {| rbc_buffer_name := stream_of config (pretty module_id); rbc_n_bytes_data := bytes; rbc_n_buffer_slots := RECEIVER_RAM_BUFFER_N_SLOTS |}.

(** A ring of images with slots of the size of the converted image. *)
Definition image_ring (config : DetectorConfig) (suffix : string) : outcome RamBufferConfig :=
  let! bytes := converted_image_n_bytes config in
  let! slots := slots_number config in
  Ret {| rbc_buffer_name := stream_of config suffix; rbc_n_bytes_data := bytes; rbc_n_buffer_slots := slots |}.

(** [image_pixel_width * image_pixel_height * bit_depth / 8u] of std-buffer-writer. *)
Definition writer_max_data_bytes (config : DetectorConfig) : outcome Z :=
  let! a := i32 (image_pixel_width config * image_pixel_height config) in
  let! b := i32 (a * bit_depth config) in
  Ret (u32 b / 8).

(** The ring of the raw images: std-buffer-writer, std-array10-recv, std-bsread-recv. *)
Definition sized_ring (config : DetectorConfig) (size : outcome Z) : outcome RamBufferConfig :=
  let! bytes := size in
  let! slots := slots_number config in
  Ret {| rbc_buffer_name := stream_of config "image"; rbc_n_bytes_data := bytes; rbc_n_buffer_slots := slots |}.

Definition pixels_n_bytes (n_pixels bit_depth : Z) : Z := u32 (n_pixels * u32 bit_depth) / 8.

(** The two rings of a converter, and of a compressor. *)
Definition converter_rings (config : DetectorConfig) (module_id bytes : Z) : outcome (list RamBufferConfig) :=
  let! r := image_ring config "image" in Ret [module_ring config module_id bytes; r].

Definition compressor_rings (config : DetectorConfig) (suffix : string) : outcome (list RamBufferConfig) :=
  let! r := image_ring config "image" in let! r' := image_ring config suffix in Ret [r; r'].

Definition rings (config : DetectorConfig) (s : service_id) : outcome (list RamBufferConfig) :=
  let h := u64 (image_pixel_height config) in let w := u64 (image_pixel_width config) in
  let image := omap_out (fun r => [r]) (image_ring config "image") in
  match s with
  | recv_gf m => let! sz := gf_recv_constants h w in Ret [module_ring config m (bytes_of_frame sz)]
  | recv_eg m => Ret [module_ring config m (eg_frame_n_bytes (bit_depth config))]
  | recv_jf m => Ret [module_ring config m JF_FRAME_N_BYTES]
  | convert_gf m => let! bytes := converter_module_bytes h w in converter_rings config m bytes
  | convert_eg m => throw_if (bit_depth config <? 8) runtime_error (converter_rings config m (pixels_n_bytes eg.MODULE_N_PIXELS (bit_depth config)))
  | convert_jf m => converter_rings config m (pixels_n_bytes jf.MODULE_N_PIXELS (bit_depth config))
  | sync_module | sync_stream | sync_metadata => Ret []
  | stream_send | stream_receive => image
  | compress_blosc2 => compressor_rings config "blosc2"%string
  | compress_h5bitshuffle => compressor_rings config "h5bitshuffle-lz4"%string
  | live_stream _ suffix | delay_filter suffix | metadata_stream suffix => omap_out (fun r => [r]) (image_ring config suffix)
  | gf_filter _ => image
  | det_driver _ _ => Ret []
  | det_writer _ suffix => omap_out (fun r => [r]) (image_ring config suffix)
  | det_meta_writer => image
  | buffer_writer => omap_out (fun r => [r]) (sized_ring config (writer_max_data_bytes config))
  | buffer_reader | buffer_driver => image
  | array10_recv | bsread_recv => omap_out (fun r => [r]) (sized_ring config (array10_max_byte_size config))
  | shm_holder | chunk_sender => image
  end.

(** ** The sockets *)

Record endpoint : Type := { ep_stream : string; ep_bound : bool; ep_type : zmq_socket_type }.

Definition binds (config : DetectorConfig) (suffix : string) (t : zmq_socket_type) : endpoint :=
  {| ep_stream := stream_of config suffix; ep_bound := true; ep_type := t |}.
Definition connects (config : DetectorConfig) (suffix : string) (t : zmq_socket_type) : endpoint :=
  {| ep_stream := stream_of config suffix; ep_bound := false; ep_type := t |}.

(** The sockets of the driver for one writer. *)
Definition writer_sockets (config : DetectorConfig) (writer : string) : list endpoint :=
  [binds config ("driver-" +:+ writer) ZMQ_PUSH; connects config ("writer-" +:+ writer) ZMQ_PULL].

Definition endpoints (config : DetectorConfig) (s : service_id) : list endpoint :=
  let bind := binds config in let connect := connects config in
  match s with
  | recv_gf m | recv_eg m | recv_jf m => [bind (pretty m) ZMQ_PUB]
  | convert_gf m | convert_eg m | convert_jf m => [connect (pretty m) ZMQ_SUB; connect "sync"%string ZMQ_PUSH]
  | sync_module => [bind "sync"%string ZMQ_PULL; bind "image"%string ZMQ_PUB]
  | sync_stream => if sender_sends_full_images config then [] else [bind "sync"%string ZMQ_PULL; bind "image"%string ZMQ_PUB]
  | sync_metadata => if sender_sends_full_images config then [bind "sync"%string ZMQ_PULL; bind "image"%string ZMQ_PUB] else []
  | stream_send => [connect "image"%string ZMQ_SUB]
  | stream_receive => [connect "sync"%string ZMQ_PUSH]
  | compress_blosc2 => [connect "image"%string ZMQ_SUB; bind "blosc2"%string ZMQ_PUB]
  | compress_h5bitshuffle => [connect "image"%string ZMQ_SUB; bind "h5bitshuffle-lz4"%string ZMQ_PUB]
  | live_stream suffix _ | metadata_stream suffix => [connect suffix ZMQ_SUB]
  | delay_filter suffix => [connect suffix ZMQ_SUB; bind "delay-filter"%string ZMQ_PUB]
  | gf_filter suffix => [connect suffix ZMQ_SUB; bind "filter"%string ZMQ_PUB]
  | det_driver suffix with_metadata_writer =>
      (if with_metadata_writer then writer_sockets config "meta" else []) ++
      flat_map (fun i => writer_sockets config (pretty i)) (seqZ 0 (number_of_writers config)) ++
      [connect suffix ZMQ_SUB]
  | det_writer i _ =>
      if number_of_writers config <=? i then [] else [connect ("driver-" +:+ pretty i)%string ZMQ_PULL; bind ("writer-" +:+ pretty i)%string ZMQ_PUSH]
  | det_meta_writer => [connect "driver-meta"%string ZMQ_PULL; bind "writer-meta"%string ZMQ_PUSH]
  | buffer_writer => [connect "image"%string ZMQ_SUB]
  | buffer_reader => [bind "image"%string ZMQ_PUB; bind "driver"%string ZMQ_REP]
  | buffer_driver => [connect "image"%string ZMQ_SUB; connect "driver"%string ZMQ_REQ]
  | array10_recv | bsread_recv => [bind "image"%string ZMQ_PUB]
  | shm_holder => []
  | chunk_sender => [connect "image"%string ZMQ_PULL]
  end.

(** The pairs of types that exchange messages. *)
Definition compatible (a b : zmq_socket_type) : bool :=
  match a, b with
  | ZMQ_PUB, ZMQ_SUB | ZMQ_SUB, ZMQ_PUB | ZMQ_PUSH, ZMQ_PULL | ZMQ_PULL, ZMQ_PUSH | ZMQ_REQ, ZMQ_REP | ZMQ_REP, ZMQ_REQ => true
  | _, _ => false
  end.

(** Some service serves a socket that connects. *)
Definition served (config : DetectorConfig) (e : endpoint) : Prop :=
  exists s b, b ∈ endpoints config s /\ ep_bound b = true /\ ep_stream b = ep_stream e /\ compatible (ep_type b) (ep_type e) = true.

(** ** Deployments *)

(** The streams of images that services read by suffix. *)
Definition image_streams : list string := ["image"; "filter"; "delay-filter"; "blosc2"; "h5bitshuffle-lz4"]%string.

(** The services that a detector is run with, and the arguments they are given. *)
Definition deployed (config : DetectorConfig) (s : service_id) : Prop :=
  match s with
  | recv_gf m | convert_gf m =>
      detector_type config = "gigafrost"%string /\ in_u 16 m /\
      gf_image_ok (image_pixel_height config) (image_pixel_width config)
  | recv_eg m | convert_eg m => detector_type config = "eiger"%string /\ in_u 16 m
  | recv_jf m | convert_jf m => detector_type config ∈ ["jungfrau-raw"; "jungfrau-converted"]%string /\ in_u 16 m
  | live_stream meta image => meta ∈ image_streams /\ image ∈ image_streams
  | delay_filter suffix | gf_filter suffix | metadata_stream suffix | det_driver suffix _ => suffix ∈ image_streams
  | det_writer i suffix => in_u 16 i /\ suffix ∈ image_streams
  | _ => True
  end.

(** The services that compute the slot size in a way of their own, with the configurations for which it may differ from
    that of the others: the receivers and converters of a GigaFRoST whose modules are not a multiple of 48 pixels wide
    ([gf_frame_sizes_disagree]), and the services that take the raw size of the images of a Jungfrau with pedestals
    ([buffer_writer_ring_differs]). *)
Definition own_geometry (config : DetectorConfig) (s : service_id) : Prop :=
  match s with
  | recv_gf _ | convert_gf _ => (image_pixel_width config / 2) mod 48 <> 0
  | buffer_writer | array10_recv | bsread_recv => detector_type config = "jungfrau-converted"%string
  | _ => False
  end.

#[local] Instance own_geometry_dec config s : Decision (own_geometry config s).
Proof. destruct s; cbn; apply _. Defined.

(** The depth of the pixels that the detectors have. *)
Definition depth_ok (config : DetectorConfig) : Prop :=
  0 <= bit_depth config < 2 ^ 31 /\
  (detector_type config ∈ ["gigafrost"; "jungfrau-raw"; "jungfrau-converted"]%string -> bit_depth config = 16).

(** The bytes of a module's frame. *)
Definition module_frame_bytes (config : DetectorConfig) : outcome Z :=
  if is_type config "gigafrost" then
    omap_out bytes_of_frame (gf_recv_constants (image_pixel_height config) (image_pixel_width config))
  else if is_type config "eiger" then Ret (eg_frame_n_bytes (bit_depth config))
  else Ret JF_FRAME_N_BYTES.

(** ** Rings *)

Lemma stream_of_inj config a b : stream_of config a = stream_of config b -> a = b.
Proof. unfold stream_of. intros E. apply (inj (String.append (Config.detector_name config))) in E. by apply (inj (String.append "-")) in E. Qed.

(** No stream of images has the name of a module. *)
Lemma suffix_not_module suffix m : suffix ∈ image_streams -> in_u 16 m -> suffix <> pretty m.
Proof.
  intros Hs Hm E. pose proof (stoi_pretty m ltac:(unfold in_i32, in_u in *; lia)) as Hp. rewrite <- E in Hp. clear E.
  unfold image_streams in Hs. repeat (apply elem_of_cons in Hs as [->|Hs]; [by vm_compute in Hp|]). by apply elem_of_nil in Hs.
Qed.

Lemma depth_frame_bytes n bd : 0 <= bd < 2 ^ 31 -> pixels_n_bytes n bd = u32 (n * bd) / 8.
Proof. intros Hb. unfold pixels_n_bytes. by rewrite (u32_small bd) by lia. Qed.

(** The raw size of an image is the converted one, where both are defined. *)
Lemma raw_size_agrees config b : depth_ok config -> 0 <= image_pixel_width config -> 0 <= image_pixel_height config ->
  detector_type config <> "jungfrau-converted"%string -> converted_image_n_bytes config = Ret b ->
  (forall x, writer_max_data_bytes config = Ret x -> x = b) /\ (forall x, array10_max_byte_size config = Ret x -> x = b).
Proof.
  intros [Hd0 Hd] Hw Hh Hj E. set (w := image_pixel_width config) in *. set (h := image_pixel_height config) in *.
  assert (Hb : forall p, i32 (w * h) = Ret (w * h) -> i32 (w * h * bit_depth config) = Ret p -> b = p / 8 /\ 0 <= p < 2 ^ 31).
  { intros p _ Hp. apply i32_inv in Hp as [-> Hr]. unfold in_i32 in Hr. split; [|nia]. revert E.
    unfold converted_image_n_bytes. fold w h. unfold is_type. case_bool_decide as Hg.
    - rewrite Hd by (rewrite Hg; set_solver). intros (a & [-> Ha]%i32_inv & (a' & [-> Ha']%i32_inv & [= <-])%obind_Ret_iff)%obind_Ret_iff.
      unfold in_i32 in *. rewrite u64_small by nia. replace (w * h * 16) with (h * w * 2 * 8) by lia. by rewrite Z.div_mul.
    - destruct (_ || _).
      + intros (a & [-> Ha]%i32_inv & (a' & [-> Ha']%i32_inv & [= <-])%obind_Ret_iff)%obind_Ret_iff.
        rewrite Z.quot_div_nonneg by nia. rewrite u64_small; [done|]. split; [apply Z.div_pos; nia|]. apply Z.div_lt_upper_bound; lia.
      + by rewrite bool_decide_eq_false_2. }
  split; intros x Hx; unfold writer_max_data_bytes, array10_max_byte_size in Hx; fold w h in Hx;
    apply obind_Ret_iff in Hx as (a & Ha & (p & Hp & [= <-])%obind_Ret_iff); pose proof Ha as [-> _]%i32_inv;
    destruct (Hb p Ha Hp) as (-> & Hr).
  - by rewrite u32_small by lia.
  - rewrite Z.quot_div_nonneg by lia. apply u64_small. split; [apply Z.div_pos; lia|]. apply Z.div_lt_upper_bound; lia.
Qed.

Lemma one_image_ring config suffix l r : omap_out (fun r => [r]) (image_ring config suffix) = Ret l -> r ∈ l -> image_ring config suffix = Ret r.
Proof. intros (r' & E & [= <-])%obind_Ret_iff ->%list_elem_of_singleton. exact E. Qed.

Lemma sized_image_ring config size r : (forall b x, converted_image_n_bytes config = Ret b -> size = Ret x -> x = b) ->
  sized_ring config size = Ret r -> image_ring config "image" = Ret r.
Proof.
  intros Hsz (x & Ex & (n & En & [= <-])%obind_Ret_iff)%obind_Ret_iff. unfold image_ring. rewrite En. unfold slots_number in En.
  apply obind_Ret_iff in En as (b & Eb & _). rewrite Eb. cbn [obind]. by rewrite (Hsz b x Eb Ex).
Qed.

(** The frame of a GigaFRoST module, as the receiver and as the converter compute it. *)
Lemma gf_module_bytes config : detector_type config = "gigafrost"%string -> gf_image_ok (image_pixel_height config) (image_pixel_width config) ->
  (image_pixel_width config / 2) mod 48 = 0 ->
  exists sz, gf_recv_constants (u64 (image_pixel_height config)) (u64 (image_pixel_width config)) = Ret sz /\
    converter_module_bytes (u64 (image_pixel_height config)) (u64 (image_pixel_width config)) = Ret (bytes_of_frame sz) /\
    module_frame_bytes config = Ret (bytes_of_frame sz).
Proof.
  intros Ht Hok H48. destruct (gf_frame_sizes_agree _ _ Hok H48) as (sz & Er & Ec & _). unfold gf_image_ok in Hok. rewrite !u64_small by lia.
  exists sz. split_and!; [done|done|]. unfold module_frame_bytes, is_type. rewrite bool_decide_eq_true_2 by done. by rewrite Er.
Qed.

Lemma eg_module_bytes config : detector_type config = "eiger"%string -> depth_ok config ->
  module_frame_bytes config = Ret (eg_frame_n_bytes (bit_depth config)) /\
  pixels_n_bytes eg.MODULE_N_PIXELS (bit_depth config) = eg_frame_n_bytes (bit_depth config).
Proof.
  intros Ht [Hd _]. unfold module_frame_bytes, is_type. rewrite Ht. split; [done|]. by rewrite depth_frame_bytes.
Qed.

Lemma jf_module_bytes config : detector_type config ∈ ["jungfrau-raw"; "jungfrau-converted"]%string -> depth_ok config ->
  module_frame_bytes config = Ret JF_FRAME_N_BYTES /\ pixels_n_bytes jf.MODULE_N_PIXELS (bit_depth config) = JF_FRAME_N_BYTES.
Proof.
  intros Ht [_ Hd]. rewrite Hd by set_solver. split; [|done]. unfold module_frame_bytes, is_type.
  rewrite !bool_decide_eq_false_2; [done|intros E; rewrite E in Ht; set_solver..].
Qed.

(** What a deployed service opens: a ring of module frames, or a ring of images. *)
Definition shaped (config : DetectorConfig) (r : RamBufferConfig) : Prop :=
  (exists m x, in_u 16 m /\ module_frame_bytes config = Ret x /\ r = module_ring config m x) \/
  (exists suffix, suffix ∈ image_streams /\ image_ring config suffix = Ret r).

Lemma converter_shape config m x l r : in_u 16 m -> module_frame_bytes config = Ret x ->
  converter_rings config m x = Ret l -> r ∈ l -> shaped config r.
Proof.
  intros Hm Hx (r' & E & [= <-])%obind_Ret_iff [-> | ->%list_elem_of_singleton]%elem_of_cons; [left; eauto|right].
  exists "image"%string. split; [set_solver|done].
Qed.

Lemma compressor_shape config suffix l r : suffix ∈ image_streams ->
  compressor_rings config suffix = Ret l -> r ∈ l -> shaped config r.
Proof.
  intros Hs (r1 & E1 & (r2 & E2 & [= <-])%obind_Ret_iff)%obind_Ret_iff [-> | ->%list_elem_of_singleton]%elem_of_cons; right;
    [exists "image"%string; split; [set_solver|done]|eauto].
Qed.

Lemma image_shape config suffix l r : suffix ∈ image_streams -> omap_out (fun r => [r]) (image_ring config suffix) = Ret l -> r ∈ l -> shaped config r.
Proof. intros Hs E Hr. right. exists suffix. split; [done|]. by apply (one_image_ring config suffix l). Qed.

Lemma sized_shape config size l r : (forall b x, converted_image_n_bytes config = Ret b -> size = Ret x -> x = b) ->
  omap_out (fun r => [r]) (sized_ring config size) = Ret l -> r ∈ l -> shaped config r.
Proof.
  intros Hsz (r' & E & [= <-])%obind_Ret_iff ->%list_elem_of_singleton. right. exists "image"%string. split; [set_solver|].
  by apply (sized_image_ring config size).
Qed.

Lemma ring_shape config s l r : depth_ok config -> 0 <= image_pixel_width config -> 0 <= image_pixel_height config ->
  deployed config s -> ~ own_geometry config s -> rings config s = Ret l -> r ∈ l -> shaped config r.
Proof.
  intros Hd Hw Hh Hs Ho E Hr. assert (Himg : "image"%string ∈ image_streams) by set_solver.
  destruct s; cbn [deployed rings own_geometry] in *; try (by eapply image_shape; [|exact E|exact Hr]); try (by injection E as <-; apply elem_of_nil in Hr).
  - destruct Hs as (Ht & Hm & Hok). apply dec_stable in Ho as H48. destruct (gf_module_bytes config Ht Hok H48) as (sz & Er & _ & Ex). rewrite Er in E.
    injection E as <-. apply list_elem_of_singleton in Hr as ->. left. eauto.
  - destruct Hs as (Ht & Hm). injection E as <-. apply list_elem_of_singleton in Hr as ->. left. destruct (eg_module_bytes config Ht Hd). eauto.
  - destruct Hs as (Ht & Hm). injection E as <-. apply list_elem_of_singleton in Hr as ->. left. destruct (jf_module_bytes config Ht Hd). eauto.
  - destruct Hs as (Ht & Hm & Hok). apply dec_stable in Ho as H48. destruct (gf_module_bytes config Ht Hok H48) as (sz & _ & Ec & Ex). rewrite Ec in E.
    by apply (converter_shape config module_id (bytes_of_frame sz) l).
  - destruct Hs as (Ht & Hm). destruct (eg_module_bytes config Ht Hd) as [Ex Ep]. unfold throw_if in E. case_match; [done|]. rewrite Ep in E.
    by apply (converter_shape config module_id _ l r Hm Ex).
  - destruct Hs as (Ht & Hm). destruct (jf_module_bytes config Ht Hd) as [Ex Ep]. rewrite Ep in E.
    by apply (converter_shape config module_id _ l r Hm Ex).
  - apply (compressor_shape config "blosc2" l); [set_solver|done|done].
  - apply (compressor_shape config "h5bitshuffle-lz4" l); [set_solver|done|done].
  - apply (image_shape config suffix_image l); [apply Hs|done|done].
  - eapply image_shape; [apply Hs|done|done].
  - apply (sized_shape config (writer_max_data_bytes config) l); [|done|done]. intros b x Hb. by apply (raw_size_agrees config b).
  - apply (sized_shape config (array10_max_byte_size config) l); [|done|done]. intros b x Hb. by apply (raw_size_agrees config b).
  - apply (sized_shape config (array10_max_byte_size config) l); [|done|done]. intros b x Hb. by apply (raw_size_agrees config b).
Qed.

(** C33: two services of a detector that open a ring of the same name open it with the same slot size and the same number
    of slots, so that neither changes the size of an object that the other one has mapped, unless one of them has a geometry
    of its own: a receiver or converter of a GigaFRoST whose modules are not a multiple of 48 pixels wide, or
    std-buffer-writer, std-array10-recv or std-bsread-recv for the type jungfrau-converted.  The configuration has non-negative
    dimensions and a depth of 16 bits where the modules have that ([depth_ok]), GigaFRoST images have the sizes of the
    family ([gf_image_ok]), module and writer ids 16 bits, and the suffixes are those of the published streams. *)
Theorem services_agree_on_rings config s1 s2 l1 l2 r1 r2 :
  depth_ok config -> 0 <= image_pixel_width config -> 0 <= image_pixel_height config ->
  deployed config s1 -> deployed config s2 -> rings config s1 = Ret l1 -> rings config s2 = Ret l2 -> r1 ∈ l1 -> r2 ∈ l2 ->
  rbc_buffer_name r1 = rbc_buffer_name r2 -> r1 = r2 \/ own_geometry config s1 \/ own_geometry config s2.
Proof.
  intros Hd Hw Hh H1 H2 E1 E2 Hr1 Hr2 Hn. destruct (decide (own_geometry config s1)) as [|Ho1]; [by right; left|].
  destruct (decide (own_geometry config s2)) as [|Ho2]; [by right; right|]. left.
  assert (Hname : forall suffix r, image_ring config suffix = Ret r -> rbc_buffer_name r = stream_of config suffix).
  { by intros suffix r (? & _ & (? & _ & [= <-])%obind_Ret_iff)%obind_Ret_iff. }
  destruct (ring_shape config s1 l1 r1) as [(m1 & x1 & Hm1 & Hx1 & ->)|(f1 & Hf1 & Er1)]; try done;
    destruct (ring_shape config s2 l2 r2) as [(m2 & x2 & Hm2 & Hx2 & ->)|(f2 & Hf2 & Er2)]; try done.
  - cbn in Hn. apply stream_of_inj, (inj pretty) in Hn as ->. congruence.
  - rewrite (Hname _ _ Er2) in Hn. cbn in Hn. apply stream_of_inj in Hn. by edestruct (suffix_not_module f2 m1).
  - rewrite (Hname _ _ Er1) in Hn. cbn in Hn. apply stream_of_inj in Hn. by edestruct (suffix_not_module f1 m2).
  - rewrite (Hname _ _ Er1), (Hname _ _ Er2) in Hn. apply stream_of_inj in Hn as ->. congruence.
Qed.

(** An Eiger: a receiver and a converter of module 1, the writer of the buffer and the converter. *)
Lemma services_agree_on_rings_witness :
  exists r, rings small_eiger (recv_eg 1) = Ret [r] /\ rbc_buffer_name r = "EG-1"%string /\
    (forall l r', rings small_eiger (convert_eg 1) = Ret l -> r' ∈ l -> rbc_buffer_name r' = "EG-1"%string -> r' = r).
Proof.
  assert (Hd : depth_ok small_eiger).
  { split; [cbn; lia|]. cbn. intros H. repeat (apply elem_of_cons in H as [H|H]; [discriminate|]). by apply elem_of_nil in H. }
  assert (Hm : in_u 16 1) by (unfold in_u; lia).
  set (r := module_ring small_eiger 1 262144). assert (E2 : rings small_eiger (recv_eg 1) = Ret [r]) by (vm_compute; reflexivity).
  exists r. split; [exact E2|]. split; [reflexivity|]. intros l r' E Hr Hn.
  assert (Hr2 : r ∈ [r]) by set_solver. assert (Hw : 0 <= 4) by lia. assert (Hh : 0 <= 2) by lia.
  destruct (services_agree_on_rings small_eiger (convert_eg 1) (recv_eg 1) l [r] r' r Hd Hw Hh (conj eq_refl Hm) (conj eq_refl Hm) E E2 Hr Hr2 Hn)
    as [Heq|[[]|[]]]. exact Heq.
Defined.

(** A Jungfrau with pedestals, as in the configuration of the tests: the writer of the buffer opens the ring of the images with
    slots of half the size, whatever the depth is that fits the modules. *)
Lemma buffer_writer_ring_differs config r1 r2 : detector_type config = "jungfrau-converted"%string -> bit_depth config = 16 ->
  0 < image_pixel_width config -> 0 < image_pixel_height config ->
  rings config buffer_reader = Ret [r1] -> rings config buffer_writer = Ret [r2] ->
  rbc_buffer_name r1 = rbc_buffer_name r2 /\ rbc_n_bytes_data r1 = 2 * rbc_n_bytes_data r2 /\ rbc_n_buffer_slots r1 = rbc_n_buffer_slots r2 /\
  0 < rbc_n_bytes_data r2.
Proof.
  intros Ht Hb Hw Hh E1 E2. cbn [rings] in *. apply obind_Ret_iff in E1 as (? & (b & Eb & (n & En & [= <-])%obind_Ret_iff)%obind_Ret_iff & [= <-]).
  apply obind_Ret_iff in E2 as (? & (x & Ex & (n' & En' & [= <-])%obind_Ret_iff)%obind_Ret_iff & [= <-]). cbn. rewrite En in En'. injection En' as <-.
  unfold writer_max_data_bytes in Ex. apply obind_Ret_iff in Ex as (a & [-> Ha]%i32_inv & (p & [-> Hp]%i32_inv & [= <-])%obind_Ret_iff).
  unfold converted_image_n_bytes, is_type in Eb. rewrite Ht in Eb. cbn in Eb. apply obind_Ret_iff in Eb as (a' & [-> _]%i32_inv & [= <-]).
  rewrite Hb in *. unfold in_i32 in *. set (k := image_pixel_width config * image_pixel_height config) in *. assert (0 < k) by nia.
  rewrite (u64_small k), u64_small, u32_small by lia. replace (k * 16) with (k * 2 * 8) by lia. rewrite Z.div_mul by lia. split_and!; [done|lia|done|lia].
Qed.

(** Opening the ring of another service with a smaller geometry cuts its object. *)
Lemma smaller_ring_truncates os rb s name b n rb' s' : buffer_name_ rb = name -> shm_names s !! name = Some (shm_fd_ rb) ->
  RamBuffer_new os name b n s = Ret (rb', s') -> align_to_2mb (u64 (b * n)) < buffer_bytes_ rb ->
  shm_fd_ rb' = shm_fd_ rb /\ zlen (shm_bytes s' (shm_fd_ rb)) < buffer_bytes_ rb.
Proof.
  intros Hn Hs E Hlt. pose proof E as (_ & _ & _ & Hb & Hn' & Hz)%RamBuffer_new_inv.
  assert (Hfd : shm_fd_ rb' = shm_fd_ rb).
  { revert E. unfold RamBuffer_new, shm_open. rewrite Hs. by repeat case_match; intros; simplify_eq. }
  split; [done|]. rewrite <- Hfd, Hz, Hb. exact Hlt.
Qed.

(** ** Sockets *)

Lemma serves config s b e : b ∈ endpoints config s -> ep_bound b = true -> ep_stream b = ep_stream e -> compatible (ep_type b) (ep_type e) = true ->
  served config e.
Proof. intros. by exists s, b. Qed.

(** Every stream of images has a publisher. *)
Lemma image_stream_served config suffix : suffix ∈ image_streams -> served config (connects config suffix ZMQ_SUB).
Proof.
  intros Hs. unfold image_streams in Hs. repeat (apply elem_of_cons in Hs as [->|Hs]).
  - eapply (serves config sync_module (binds config "image" ZMQ_PUB)); [cbn; set_solver|done..].
  - eapply (serves config (gf_filter "image") (binds config "filter" ZMQ_PUB)); [cbn; set_solver|done..].
  - eapply (serves config (delay_filter "image") (binds config "delay-filter" ZMQ_PUB)); [cbn; set_solver|done..].
  - eapply (serves config compress_blosc2 (binds config "blosc2" ZMQ_PUB)); [cbn; set_solver|done..].
  - eapply (serves config compress_h5bitshuffle (binds config "h5bitshuffle-lz4" ZMQ_PUB)); [cbn; set_solver|done..].
  - by apply elem_of_nil in Hs.
Qed.

Lemma sync_served config : served config (connects config "sync" ZMQ_PUSH).
Proof. eapply (serves config sync_module (binds config "sync" ZMQ_PULL)); [cbn; set_solver|done..]. Qed.

Lemma module_served config s (m : Z) : endpoints config s = [binds config (pretty m) ZMQ_PUB] -> served config (connects config (pretty m) ZMQ_SUB).
Proof. intros E. eapply (serves config s (binds config (pretty m) ZMQ_PUB)); [rewrite E; set_solver|done..]. Qed.

Lemma driver_socket config suffix b i e : 0 <= i < number_of_writers config -> e ∈ writer_sockets config (pretty i) -> e ∈ endpoints config (det_driver suffix b).
Proof.
  intros Hi He. cbn [endpoints]. apply elem_of_app. right. apply elem_of_app. left. apply list_elem_of_In, in_flat_map. exists i.
  split; apply list_elem_of_In; [by apply elem_of_seqZ|done].
Qed.

Lemma writer_served config i : 0 <= i < number_of_writers config -> served config (connects config ("writer-" +:+ pretty i) ZMQ_PULL).
Proof.
  intros Hi. eapply (serves config (det_writer i "image") (binds config ("writer-" +:+ pretty i) ZMQ_PUSH)); [|done..].
  cbn [endpoints]. rewrite (proj2 (Z.leb_gt _ _)) by lia. set_solver.
Qed.

Lemma meta_writer_served config : served config (connects config "writer-meta" ZMQ_PULL).
Proof. eapply (serves config det_meta_writer (binds config "writer-meta" ZMQ_PUSH)); [cbn; set_solver|done..]. Qed.

Lemma driver_served config suffix b e : suffix ∈ image_streams -> e ∈ endpoints config (det_driver suffix b) -> ep_bound e = false -> served config e.
Proof.
  intros Hs He Hb. cbn [endpoints] in He. rewrite !elem_of_app in He. destruct He as [He|[He| ->%list_elem_of_singleton]].
  - destruct b; [|by apply elem_of_nil in He]. repeat (apply elem_of_cons in He as [->|He]); [done|apply meta_writer_served|by apply elem_of_nil in He].
  - apply list_elem_of_In, in_flat_map in He as (i & Hi & He). apply list_elem_of_In in Hi, He. apply elem_of_seqZ in Hi.
    repeat (apply elem_of_cons in He as [->|He]); [done|apply writer_served; lia|by apply elem_of_nil in He].
  - by apply image_stream_served.
Qed.

(** Every socket that a service connects is served by a service that binds the address with the matching type; the chunk sender is
    the one exception. *)
Lemma sockets_served config s e : deployed config s -> s <> chunk_sender -> e ∈ endpoints config s -> ep_bound e = false -> served config e.
Proof.
  intros Hs Hc He Hb. assert (Himg : "image"%string ∈ image_streams) by set_solver.
  destruct s; try (eapply driver_served; [exact Hs|exact He|exact Hb]); cbn [deployed endpoints] in *; try done; try (case_match eqn:Hcase);
    repeat (apply elem_of_cons in He as [->|He]); try (by apply elem_of_nil in He); try done; try apply sync_served; try (by apply image_stream_served).
  - by apply (module_served config (recv_gf module_id)).
  - by apply (module_served config (recv_eg module_id)).
  - by apply (module_served config (recv_jf module_id)).
  - apply image_stream_served, Hs.
  - apply Z.leb_gt in Hcase. destruct Hs as [Hi _]. unfold in_u in Hi.
    eapply (serves config (det_driver "image" false) (binds config ("driver-" +:+ pretty writer_id) ZMQ_PUSH)); [|done..].
    apply (driver_socket config _ _ writer_id); [lia|]. set_solver.
  - eapply (serves config (det_driver "image" true) (binds config "driver-meta" ZMQ_PUSH)); [cbn; set_solver|done..].
  - eapply (serves config buffer_reader (binds config "driver" ZMQ_REP)); [cbn; set_solver|done..].
Qed.

(** No service pushes to the socket of the chunk sender: the images are published. *)
Lemma chunk_sender_not_served config : ~ served config (connects config "image" ZMQ_PULL).
Proof.
  intros (s & b & Hb & Hbound & Hst & Hc). assert (Ht : ep_type b = ZMQ_PUSH) by (by destruct (ep_type b)).
  assert (Hw : forall w, b ∈ writer_sockets config w -> False).
  { intros w Hin. repeat (apply elem_of_cons in Hin as [->|Hin]); try done; [by apply stream_of_inj in Hst|by apply elem_of_nil in Hin]. }
  destruct s; cbn [endpoints] in Hb; try case_match; rewrite ?elem_of_app in Hb;
    try (repeat (apply elem_of_cons in Hb as [->|Hb]); try done; try (by apply elem_of_nil in Hb); by apply stream_of_inj in Hst).
  all: destruct Hb as [Hb|[Hb|Hb]]; try (by apply Hw in Hb); try (by apply elem_of_nil in Hb);
    try (by apply list_elem_of_singleton in Hb as ->).
  all: apply list_elem_of_In, in_flat_map in Hb as (i & _ & Hb); apply list_elem_of_In in Hb; by apply Hw in Hb.
Qed.
