(* ===== verification/Bitshuffle.v ===== *)
(** * Bitshuffle

    [src/source/external/bitshuffle]: the portable routines of [bitshuffle_core.c] on a little-endian
    machine, which transpose the bits of a block of elements, and [bitshuffle.c], which compresses
    the transposed blocks with LZ4.  Arrays are lists of bytes; every access is checked.  The blocks are
    processed by any pair of routines that satisfy the interface [BitTransposer], which the portable routines implement;
    so do the variants for SSE2, AVX2 and NEON ([Simd], [SimdRows]). *)

From S2P Require Import Prelude Scatter.

(** ** Bytes *)

Definition bytes (l : list Z) : Prop := Forall (fun b => 0 <= b < 256) l.

(** [a[i]]. *)
Definition byte_at (l : list Z) (i : Z) : outcome Z :=
  match l !! Z.to_nat i with
  | Some b => if 0 <=? i then Ret b else Undef out_of_bounds
  | None => Undef out_of_bounds
  end.

Definition nth_byte (l : list Z) (i : Z) : Z := l !!! Z.to_nat i.

Lemma byte_at_ret l i : 0 <= i < zlen l -> byte_at l i = Ret (nth_byte l i).
Proof.
  intros Hi. unfold byte_at, nth_byte. destruct (lookup_lt_is_Some_2 l (Z.to_nat i)) as [b Hb]; [unfold zlen in Hi; lia|].
  rewrite (list_lookup_total_correct _ _ _ Hb), Hb. by rewrite (proj2 (Z.leb_le 0 i)) by lia.
Qed.

Lemma nth_byte_range l i : bytes l -> 0 <= i < zlen l -> 0 <= nth_byte l i < 256.
Proof.
  intros Hb Hi. unfold nth_byte. destruct (lookup_lt_is_Some_2 l (Z.to_nat i)) as [b E]; [unfold zlen in Hi; lia|].
  rewrite (list_lookup_total_correct _ _ _ E). by eapply (Forall_lookup_1 _ _ _ _ Hb).
Qed.

(** ** Loops *)

(** [for (i = a; i + s - 1 < b; i += s)]. *)
Definition range_by (s a b : Z) : list Z := (fun k => a + s * k) <$> seqZ 0 ((b - a) / s).

Lemma elem_of_range_by s a b i : 0 < s -> a <= b ->
  i ∈ range_by s a b <-> exists k, i = a + s * k /\ 0 <= k /\ a + s * k + s <= b.
Proof.
  intros Hs Hab. unfold range_by. rewrite list_elem_of_fmap. setoid_rewrite elem_of_seqZ.
  pose proof (Z.div_mod (b - a) s ltac:(lia)). pose proof (Z.mod_pos_bound (b - a) s ltac:(lia)).
  split; intros (k & -> & Hk); exists k; (split; [done|]); nia.
Qed.

(** A routine that fills an array: every cell of [S] gets the value that [tgt] gives, every other cell
    keeps its own or gets that value. *)
Definition paints (tgt : Z -> Z) (n : Z) (S : Z -> Prop) (body : list Z -> outcome (list Z)) : Prop :=
  forall m, zlen m = n -> exists m', body m = Ret m' /\ zlen m' = n /\
    (forall i, 0 <= i < n -> S i -> m' !! Z.to_nat i = Some (tgt i)) /\
    (forall i, 0 <= i < n -> m' !! Z.to_nat i = Some (tgt i) \/ m' !! Z.to_nat i = m !! Z.to_nat i).

Section Paint.
Context (tgt : Z -> Z) (n : Z).

Lemma paints_store loc v : 0 <= loc < n -> v = tgt loc ->
  paints tgt n (fun i => i = loc) (fun m => mem_write m loc [v]).
Proof.
  intros Hl -> m Hm. destruct (mem_write m loc [tgt loc]) as [m'|?|?] eqn:W;
    [|rewrite mem_write_ret in W by (change (zlen [tgt loc]) with 1; lia); done..].
  exists m'. split; [done|]. split; [by rewrite (mem_write_zlen _ _ _ _ W)|].
  assert (Hi : forall i, 0 <= i < n -> m' !! Z.to_nat i = if decide (i = loc) then Some (tgt loc) else m !! Z.to_nat i).
  { intros i Hi. rewrite (mem_write_lookup _ _ _ _ _ W). change (zlen [tgt loc]) with 1. rewrite Z2Nat.id by lia.
    destruct (decide (i = loc)) as [->|]; [|by rewrite decide_False by lia].
    rewrite decide_True by lia. by rewrite Z.sub_diag. }
  split; intros i Hi'; rewrite Hi by done; case_decide; subst; auto. done.
Qed.

Lemma paints_weaken (S S' : Z -> Prop) body :
  paints tgt n S body -> (forall i, 0 <= i < n -> S' i -> S i) -> paints tgt n S' body.
Proof. intros H Hs m Hm. destruct (H m Hm) as (m' & ? & ? & ? & ?). exists m'. split_and!; auto. Qed.

Lemma paints_loop {X} (l : list X) (S : X -> Z -> Prop) (body : list Z -> X -> outcome (list Z)) :
  (forall x, x ∈ l -> paints tgt n (S x) (fun m => body m x)) ->
  paints tgt n (fun i => exists x, x ∈ l /\ S x i) (foldO body l).
Proof.
  intros H. induction l as [|x l IH]; intros m Hm.
  - exists m. split_and!; try done; [|by right]. intros i _ (x & Hx & _). by apply elem_of_nil in Hx.
  - destruct (H x ltac:(by left) m Hm) as (m1 & E1 & Hz1 & Hs1 & Hf1).
    destruct (IH (fun y Hy => H y ltac:(by right)) m1 Hz1) as (m2 & E2 & Hz2 & Hs2 & Hf2).
    exists m2. cbn [foldO]. rewrite E1. cbn [obind]. split_and!; [done..| |].
    + intros i Hi (y & [->|Hy]%elem_of_cons & HS); [|apply Hs2; eauto].
      destruct (Hf2 i Hi) as [->| ->]; auto.
    + intros i Hi. destruct (Hf2 i Hi) as [->| ->]; auto.
Qed.

(** A routine that fills the whole array determines it. *)
Lemma paints_all body m : paints tgt n (fun _ => True) body -> zlen m = n ->
  body m = Ret (tgt <$> seqZ 0 n).
Proof.
  intros H Hm. destruct (H m Hm) as (m' & -> & Hz & Hs & _). f_equal. apply list_eq. intros k.
  destruct (decide (Z.of_nat k < n)) as [Hk|Hk].
  - specialize (Hs (Z.of_nat k) ltac:(lia) I). rewrite Nat2Z.id in Hs. rewrite Hs, list_lookup_fmap.
    by rewrite lookup_seqZ_lt by lia.
  - rewrite !lookup_ge_None_2; [done|rewrite length_fmap, length_seqZ; lia|unfold zlen in Hz; lia].
Qed.

Lemma zlen_painted : 0 <= n -> zlen (tgt <$> seqZ 0 n) = n.
Proof. intros. unfold zlen. rewrite length_fmap, length_seqZ. lia. Qed.

Lemma nth_painted i : 0 <= i < n -> nth_byte (tgt <$> seqZ 0 n) i = tgt i.
Proof.
  intros Hi. unfold nth_byte. apply list_lookup_total_correct. rewrite list_lookup_fmap, lookup_seqZ_lt by lia. cbn.
  f_equal. f_equal. lia.
Qed.

Lemma bytes_painted : (forall i, 0 <= i < n -> 0 <= tgt i < 256) -> bytes (tgt <$> seqZ 0 n).
Proof. intros H. apply Forall_fmap, list.Forall_forall. intros i Hi%elem_of_seqZ. apply H. lia. Qed.
End Paint.

(** ** The transposition of 8 x 8 bits *)

Definition trans_step (x shift mask : Z) : Z :=
  let t := Z.land (Z.lxor x (Z.shiftr x shift)) mask in
  Z.lxor (Z.lxor x t) (u64 (Z.shiftl t shift)).

(** The macro [TRANS_BIT_8X8]. *)
Definition trans_bit_8x8 (x : Z) : Z :=
  let x := trans_step x 7 0x00AA00AA00AA00AA in
  let x := trans_step x 14 0x0000CCCC0000CCCC in
  trans_step x 28 0x00000000F0F0F0F0.

Lemma testbit_u64 x k : 0 <= k < 64 -> Z.testbit (u64 x) k = Z.testbit x k.
Proof. intros Hk. unfold u64, wrap. apply Z.mod_pow2_bits_low. lia. Qed.

Lemma trans_step_bit x s mask k : 0 <= s -> 0 <= k < 64 ->
  Z.testbit (trans_step x s mask) k =
    xorb (xorb (Z.testbit x k) (xorb (Z.testbit x k) (Z.testbit x (k + s)) && Z.testbit mask k))
         (if s <=? k then xorb (Z.testbit x (k - s)) (Z.testbit x k) && Z.testbit mask (k - s) else false).
Proof.
  intros Hs Hk. unfold trans_step. rewrite !Z.lxor_spec, testbit_u64, Z.shiftl_spec, Z.land_spec by lia.
  rewrite Z.lxor_spec, Z.shiftr_spec by lia. f_equal. destruct (Z.leb_spec s k).
  - rewrite Z.land_spec, Z.lxor_spec, Z.shiftr_spec by lia. by replace (k - s + s) with k by lia.
  - apply Z.testbit_neg_r. lia.
Qed.

Definition bits64 : list Z := seqZ 0 64.

(** The place a step takes bit [k] from. *)
Definition step_source (s mask k : Z) : Z :=
  if Z.testbit mask k then k + s else if (s <=? k) && Z.testbit mask (k - s) then k - s else k.

Lemma trans_step_moves x s mask k : 0 <= s -> 0 <= k < 64 ->
  Z.testbit mask k && (s <=? k) && Z.testbit mask (k - s) = false ->
  Z.testbit (trans_step x s mask) k = Z.testbit x (step_source s mask k).
Proof.
  intros Hs Hk Hm. rewrite trans_step_bit by done. unfold step_source.
  destruct (Z.testbit mask k) eqn:E1, (s <=? k) eqn:E2, (Z.testbit mask (k - s)) eqn:E3; cbn in Hm |- *; try done;
    repeat match goal with |- context [Z.testbit x ?j] => destruct (Z.testbit x j) end; done.
Qed.

(** The macro transposes: bit [j] of byte [i] is bit [i] of byte [j]. *)
Lemma trans_bit_8x8_spec x i j : 0 <= i < 8 -> 0 <= j < 8 ->
  Z.testbit (trans_bit_8x8 x) (8 * i + j) = Z.testbit x (8 * j + i).
Proof.
  intros Hi Hj. unfold trans_bit_8x8.
  assert (Hall : forallb (fun k =>
    let k1 := step_source 28 0x00000000F0F0F0F0 k in
    let k2 := step_source 14 0x0000CCCC0000CCCC k1 in
    let k3 := step_source 7 0x00AA00AA00AA00AA k2 in
    (0 <=? k1) && (k1 <? 64) && (0 <=? k2) && (k2 <? 64) && (k3 =? 8 * (k mod 8) + k / 8) &&
    negb (Z.testbit 0x00000000F0F0F0F0 k && (28 <=? k) && Z.testbit 0x00000000F0F0F0F0 (k - 28)) &&
    negb (Z.testbit 0x0000CCCC0000CCCC k1 && (14 <=? k1) && Z.testbit 0x0000CCCC0000CCCC (k1 - 14)) &&
    negb (Z.testbit 0x00AA00AA00AA00AA k2 && (7 <=? k2) && Z.testbit 0x00AA00AA00AA00AA (k2 - 7))) bits64 = true)
    by (vm_compute; reflexivity).
  rewrite forallb_forall in Hall. specialize (Hall (8 * i + j)). cbv zeta in Hall.
  rewrite !andb_true_iff, !negb_true_iff in Hall. destruct Hall as (((((((H1 & H2) & H3) & H4) & H5) & H6) & H7) & H8).
  { apply list_elem_of_In, elem_of_seqZ. lia. }
  rewrite !trans_step_moves; [|lia..|done|lia|lia|done|lia|lia|done].
  apply Z.eqb_eq in H5. rewrite H5. f_equal.
  rewrite <- (Z.mod_unique (8 * i + j) 8 i j), <- (Z.div_unique (8 * i + j) 8 i j) by lia. lia.
Qed.

(** ** bitshuffle_core.c: the portable routines *)

(** A routine returns a count, negative for an error, and its output array.  The indices are
    below the size of an array, so that no product of them wraps. *)
Notation routine := (outcome (Z * list Z)).

Definition CHECK_MULT_EIGHT (n : Z) (out : list Z) (k : routine) : routine :=
  if n mod 8 =? 0 then k else Ret (-80, out).

Definition bshuf_copy (inp out : list Z) (size elem_size : Z) : routine :=
  let! out := memcpy out 0 inp 0 (size * elem_size) in
  Ret (size * elem_size, out).

Definition bshuf_trans_byte_elem_remainder (inp out : list Z) (size elem_size start : Z) : routine :=
  CHECK_MULT_EIGHT start out
    (let! out :=
       if start <? size then
         let! out := foldO (fun out ii => foldO (fun out jj => foldO (fun out kk =>
             let! b := byte_at inp (ii * elem_size + kk * elem_size + jj) in
             mem_write out (jj * size + ii + kk) [b])
           (seqZ 0 8) out) (seqZ 0 elem_size) out) (range_by 8 start size) out in
         foldO (fun out ii => foldO (fun out jj =>
             let! b := byte_at inp (ii * elem_size + jj) in
             mem_write out (jj * size + ii) [b])
           (seqZ 0 elem_size) out) (seqZ (size - size mod 8) (size mod 8)) out
       else Ret out in
     Ret (size * elem_size, out)).

Definition bshuf_trans_byte_elem_scal (inp out : list Z) (size elem_size : Z) : routine :=
  bshuf_trans_byte_elem_remainder inp out size elem_size 0.

(** Storing the bytes of a word: [out[..] = x; x = x >> 8]. *)
Definition store_word (loc : Z -> Z) (x : Z) (out : list Z) : outcome (list Z) :=
  foldO (fun out kk => mem_write out (loc kk) [u8 (Z.shiftr x (8 * kk))]) (seqZ 0 8) out.

(** The 64-bit word at [i]. *)
Definition word_at (inp : list Z) (i : Z) : outcome Z := omap_out le_decode (mem_read inp i 8).

Definition bshuf_trans_bit_byte_remainder (inp out : list Z) (size elem_size start_byte : Z) : routine :=
  let nbyte := elem_size * size in
  let nbyte_bitrow := nbyte / 8 in
  CHECK_MULT_EIGHT nbyte out (CHECK_MULT_EIGHT start_byte out
    (let! out := foldO (fun out ii =>
         let! x := word_at inp (8 * ii) in
         store_word (fun kk => kk * nbyte_bitrow + ii) (trans_bit_8x8 x) out)
       (seqZ (start_byte / 8) (nbyte_bitrow - start_byte / 8)) out in
     Ret (size * elem_size, out))).

Definition bshuf_trans_bit_byte_scal (inp out : list Z) (size elem_size : Z) : routine :=
  bshuf_trans_bit_byte_remainder inp out size elem_size 0.

Definition bshuf_trans_elem (inp out : list Z) (lda ldb elem_size : Z) : routine :=
  let! out := foldO (fun out ii => foldO (fun out jj =>
      memcpy out ((jj * lda + ii) * elem_size) inp ((ii * ldb + jj) * elem_size) elem_size)
    (seqZ 0 ldb) out) (seqZ 0 lda) out in
  Ret (lda * ldb * elem_size, out).

Definition bshuf_trans_bitrow_eight (inp out : list Z) (size elem_size : Z) : routine :=
  let nbyte_bitrow := size / 8 in
  CHECK_MULT_EIGHT size out (bshuf_trans_elem inp out 8 elem_size nbyte_bitrow).

Definition bshuf_trans_byte_bitrow_scal (inp out : list Z) (size elem_size : Z) : routine :=
  let nbyte_row := size / 8 in
  CHECK_MULT_EIGHT size out
    (let! out := foldO (fun out jj => foldO (fun out ii => foldO (fun out kk =>
         let! b := byte_at inp ((jj * 8 + kk) * nbyte_row + ii) in
         mem_write out (ii * 8 * elem_size + jj * 8 + kk) [b])
       (seqZ 0 8) out) (seqZ 0 nbyte_row) out) (seqZ 0 elem_size) out in
     Ret (size * elem_size, out)).

Definition bshuf_shuffle_bit_eightelem_scal (inp out : list Z) (size elem_size : Z) : routine :=
  let nbyte := elem_size * size in
  CHECK_MULT_EIGHT size out
    (let! out := foldO (fun out jj => foldO (fun out ii =>
         let! x := word_at inp (ii + jj) in
         store_word (fun kk => ii + jj / 8 + kk * elem_size) (trans_bit_8x8 x) out)
       (range_by (8 * elem_size) 0 nbyte) out) (range_by 8 0 (8 * elem_size)) out in
     Ret (size * elem_size, out)).

Section Malloc.
(** [malloc]: the memory it returns, with whatever contents. *)
Variable (malloc : Z -> option (list Z)).

(** [CHECK_ERR_FREE]. *)
Definition check_err (c : routine) (k : list Z -> routine) : routine :=
  let! '(count, out) := c in if count <? 0 then Ret (count, out) else k out.

Definition bshuf_trans_bit_elem_scal (inp out : list Z) (size elem_size : Z) : routine :=
  CHECK_MULT_EIGHT size out
    match malloc (size * elem_size) with
    | None => Ret (-1, out)
    | Some tmp_buf =>
        check_err (bshuf_trans_byte_elem_scal inp out size elem_size) (fun out =>
        let! '(count, tmp_buf) := bshuf_trans_bit_byte_scal out tmp_buf size elem_size in
        if count <? 0 then Ret (count, out)
        else bshuf_trans_bitrow_eight tmp_buf out size elem_size)
    end.

Definition bshuf_untrans_bit_elem_scal (inp out : list Z) (size elem_size : Z) : routine :=
  CHECK_MULT_EIGHT size out
    match malloc (size * elem_size) with
    | None => Ret (-1, out)
    | Some tmp_buf =>
        let! '(count, tmp_buf) := bshuf_trans_byte_bitrow_scal inp tmp_buf size elem_size in
        if count <? 0 then Ret (count, out)
        else bshuf_shuffle_bit_eightelem_scal tmp_buf out size elem_size
    end.
End Malloc.

(** ** What the routines store *)

Lemma div_mod_at n a b : 0 <= b < n -> (a * n + b) / n = a /\ (a * n + b) mod n = b.
Proof.
  intros Hb. split; symmetry; [apply (Z.div_unique _ _ _ b)|apply (Z.mod_unique _ _ a)]; lia.
Qed.

Section Steps.
Context (tgt : Z -> Z) (n : Z).

Lemma paints_seq (S1 S2 : Z -> Prop) (f g : list Z -> outcome (list Z)) :
  paints tgt n S1 f -> paints tgt n S2 g -> paints tgt n (fun i => S1 i \/ S2 i) (fun m => let! m' := f m in g m').
Proof.
  intros Hf Hg m Hm. destruct (Hf m Hm) as (m1 & E1 & Hz1 & Hs1 & Hf1). destruct (Hg m1 Hz1) as (m2 & E2 & Hz2 & Hs2 & Hf2).
  exists m2. rewrite E1. cbn [obind]. split_and!; [done..| |].
  - intros i Hi [Hs|Hs]; [|by apply Hs2]. destruct (Hf2 i Hi) as [->| ->]; auto.
  - intros i Hi. destruct (Hf2 i Hi) as [->| ->]; auto.
Qed.

Lemma paints_copy inp idx loc : 0 <= loc < n -> 0 <= idx < zlen inp -> nth_byte inp idx = tgt loc ->
  paints tgt n (fun i => i = loc) (fun m => let! b := byte_at inp idx in mem_write m loc [b]).
Proof. intros Hl Hi Hv. rewrite byte_at_ret by done. cbn [obind]. by apply paints_store. Qed.

Lemma paints_word loc x : (forall kk, 0 <= kk < 8 -> 0 <= loc kk < n /\ u8 (Z.shiftr x (8 * kk)) = tgt (loc kk)) ->
  paints tgt n (fun i => exists kk, 0 <= kk < 8 /\ i = loc kk) (store_word loc x).
Proof.
  intros H. eapply paints_weaken; [apply paints_loop; intros kk Hkk%elem_of_seqZ; apply paints_store; by apply H; lia|].
  intros i _ (kk & Hk & ->). exists kk. split; [apply elem_of_seqZ; lia|done].
Qed.

Lemma paints_memcpy inp doff soff len : 0 <= doff -> 0 <= len -> doff + len <= n -> 0 <= soff -> soff + len <= zlen inp ->
  (forall r, 0 <= r < len -> nth_byte inp (soff + r) = tgt (doff + r)) ->
  paints tgt n (fun i => doff <= i < doff + len) (fun m => memcpy m doff inp soff len).
Proof.
  intros Hd Hl Hdl Hs Hsl Hv m Hm.
  destruct (memcpy_spec m inp {| Scatter.doff := doff; Scatter.soff := soff; Scatter.len := len |}) as (m' & E & Hz & Hi);
    cbn in *; [lia..|].
  exists m'. split; [done|]. split; [lia|].
  assert (Hc : forall i, 0 <= i < n -> doff <= i < doff + len -> m' !! Z.to_nat i = Some (tgt i)).
  { intros i Hi0 Hr. rewrite Hi, decide_True by lia. specialize (Hv (i - doff) ltac:(lia)).
    replace (doff + (i - doff)) with i in Hv by lia. rewrite <- Hv. unfold nth_byte.
    replace (Z.of_nat (Z.to_nat i) - doff + soff) with (soff + (i - doff)) by lia.
    apply list_lookup_lookup_total_lt. unfold zlen in Hsl. lia. }
  split; [done|]. intros i Hi0. destruct (decide (doff <= i < doff + len)); [left; by apply Hc|].
  right. by rewrite Hi, decide_False by lia.
Qed.
End Steps.

(** The word at [i]. *)
Definition word (inp : list Z) (i : Z) : Z := le_decode (take 8 (drop (Z.to_nat i) inp)).

Lemma word_at_ret inp i : 0 <= i -> i + 8 <= zlen inp -> word_at inp i = Ret (word inp i).
Proof. intros. unfold word_at. by rewrite mem_read_ret by lia. Qed.

Lemma testbit_byte_high b k : 0 <= b < 256 -> 8 <= k -> Z.testbit b k = false.
Proof.
  intros Hb Hk. destruct (decide (b = 0)) as [->|]; [apply Z.bits_0|]. apply Z.bits_above_log2; [lia|].
  assert (Z.log2 b < 8); [|lia]. apply Z.log2_lt_pow2; lia.
Qed.

Lemma add_byte x y : 0 <= x < 256 -> x + 256 * y = Z.lor x (Z.shiftl y 8).
Proof.
  intros Hx. assert (H0 : Z.land x (Z.shiftl y 8) = 0).
  { apply Z.bits_inj_0. intros k. rewrite Z.land_spec. destruct (Z.lt_ge_cases k 8).
    - rewrite Z.shiftl_spec_low by lia. apply andb_false_r.
    - by rewrite testbit_byte_high. }
  rewrite <- Z.lxor_lor, <- Z.add_nocarry_lxor by done. rewrite Z.shiftl_mul_pow2 by lia. lia.
Qed.

Lemma testbit_le_decode l (j : nat) b : bytes l -> (j < length l)%nat -> 0 <= b < 8 ->
  Z.testbit (le_decode l) (8 * Z.of_nat j + b) = Z.testbit (nth_byte l (Z.of_nat j)) b.
Proof.
  intros Hl. revert j. induction Hl as [|x l Hx Hl IH]; intros j Hj Hb; [cbn in Hj; lia|].
  cbn [le_decode]. rewrite add_byte by done.
  rewrite Z.lor_spec, Z.shiftl_spec by lia. destruct j as [|j].
  - rewrite (Z.testbit_neg_r (le_decode l)) by lia. rewrite orb_false_r. cbn. done.
  - rewrite testbit_byte_high by lia. cbn [orb].
    replace (8 * Z.of_nat (S j) + b - 8) with (8 * Z.of_nat j + b) by lia. rewrite IH by (cbn in Hj; lia).
    unfold nth_byte. by rewrite !Nat2Z.id.
Qed.

Lemma testbit_word inp i j b : bytes inp -> 0 <= i -> i + 8 <= zlen inp -> 0 <= j < 8 -> 0 <= b < 8 ->
  Z.testbit (word inp i) (8 * j + b) = Z.testbit (nth_byte inp (i + j)) b.
Proof.
  intros Hb Hi Hz Hj Hbb. unfold word. pose proof (testbit_le_decode (take 8 (drop (Z.to_nat i) inp)) (Z.to_nat j) b) as E.
  rewrite Z2Nat.id in E by lia. rewrite E; [|by apply Forall_take, Forall_drop| |done].
  - f_equal. unfold nth_byte. apply list_lookup_total_correct.
    rewrite lookup_take_lt, lookup_drop by lia. replace (Z.to_nat i + Z.to_nat j)%nat with (Z.to_nat (i + j)) by lia.
    apply list_lookup_lookup_total_lt. unfold zlen in Hz. lia.
  - rewrite length_take, length_drop. unfold zlen in Hz. lia.
Qed.

(** Byte [kk] of the transposed word. *)
Definition transposed (inp : list Z) (i kk : Z) : Z := u8 (Z.shiftr (trans_bit_8x8 (word inp i)) (8 * kk)).

Lemma transposed_range inp i kk : 0 <= transposed inp i kk < 256.
Proof. unfold transposed, u8, wrap. apply Z.mod_pos_bound. lia. Qed.

Lemma testbit_transposed inp i kk j : bytes inp -> 0 <= i -> i + 8 <= zlen inp -> 0 <= kk < 8 -> 0 <= j < 8 ->
  Z.testbit (transposed inp i kk) j = Z.testbit (nth_byte inp (i + j)) kk.
Proof.
  intros Hb Hi Hz Hk Hj. unfold transposed, u8, wrap. rewrite Z.mod_pow2_bits_low, Z.shiftr_spec by lia.
  rewrite (Z.add_comm j), trans_bit_8x8_spec by lia. by apply testbit_word.
Qed.

(** Bytes are equal when their bits are. *)
Lemma byte_ext a b : 0 <= a < 256 -> 0 <= b < 256 -> (forall j, 0 <= j < 8 -> Z.testbit a j = Z.testbit b j) -> a = b.
Proof.
  intros Ha Hb H. apply Z.bits_inj'. intros k Hk. destruct (Z.lt_ge_cases k 8); [by apply H|].
  by rewrite !testbit_byte_high.
Qed.

(** ** The routines, cell by cell *)

Section Layout.
(** [q] groups of eight elements of [e] bytes. *)
Context (q e : Z) (Hq : 0 <= q) (He : 0 < e).
Notation size := (8 * q).
Notation nbyte := (8 * q * e).

Lemma size_mult_eight out k : CHECK_MULT_EIGHT size out k = k.
Proof. unfold CHECK_MULT_EIGHT. by rewrite (Z.mul_comm 8), Z_mod_mult. Qed.

(** Byte [jj] of element [ii], at [jj * size + ii]. *)
Definition byte_elem_tgt (inp : list Z) (i : Z) : Z := nth_byte inp (i mod size * e + i / size).

Lemma trans_byte_elem_spec inp out : zlen inp = nbyte -> zlen out = nbyte ->
  bshuf_trans_byte_elem_scal inp out size e = Ret (size * e, byte_elem_tgt inp <$> seqZ 0 nbyte).
Proof.
  intros Hi Ho. unfold bshuf_trans_byte_elem_scal, bshuf_trans_byte_elem_remainder, CHECK_MULT_EIGHT. cbn [Z.eqb Z.modulo].
  change (0 mod 8 =? 0) with true. cbv iota. destruct (Z.ltb_spec 0 size) as [Hpos|Hz].
  2: { cbn [obind]. assert (q = 0) as -> by lia. destruct out; [done|rewrite zlen_cons in Ho; pose proof (zlen_nonneg out); lia]. }
  replace (size mod 8) with 0 by (by rewrite Z.mul_comm, Z_mod_mult). change (seqZ (size - 0) 0) with (@nil Z). cbn [foldO].
  rewrite obind_Ret_r.
  rewrite (paints_all (byte_elem_tgt inp) nbyte (foldO _ (range_by 8 0 size)) out); [done| |done].
  eapply paints_weaken; [apply paints_loop; intros ii Hii; apply paints_loop; intros jj Hjj; apply paints_loop; intros kk Hkk|].
  - apply elem_of_range_by in Hii as (k & Eii & Hk & Hb); [|lia..]. apply elem_of_seqZ in Hjj, Hkk.
    apply paints_copy; [nia|nia|]. unfold byte_elem_tgt.
    destruct (div_mod_at size jj (ii + kk)) as [E1 E2]; [lia|].
    replace (jj * size + ii + kk) with (jj * size + (ii + kk)) by lia. rewrite E1, E2. f_equal. lia.
  - intros i Hir _. pose proof (Z.div_mod i size ltac:(lia)). pose proof (Z.mod_pos_bound i size ltac:(lia)).
    set (ii := i mod size) in *. pose proof (Z.div_mod ii 8 ltac:(lia)). pose proof (Z.mod_pos_bound ii 8 ltac:(lia)).
    exists (8 * (ii / 8)). split; [apply elem_of_range_by; [lia..|]; exists (ii / 8); nia|].
    exists (i / size). split; [apply elem_of_seqZ; nia|]. exists (ii mod 8). split; [apply elem_of_seqZ; lia|lia].
Qed.

(** Bit row [kk] of the words, at [kk * (nbyte / 8) + ii]. *)
Definition bit_byte_tgt (inp : list Z) (i : Z) : Z := transposed inp (8 * (i mod (q * e))) (i / (q * e)).

Lemma trans_bit_byte_spec inp out : 0 < q -> zlen inp = nbyte -> zlen out = nbyte ->
  bshuf_trans_bit_byte_scal inp out size e = Ret (size * e, bit_byte_tgt inp <$> seqZ 0 nbyte).
Proof.
  intros Hq0 Hi Ho. unfold bshuf_trans_bit_byte_scal, bshuf_trans_bit_byte_remainder, CHECK_MULT_EIGHT.
  replace (e * size) with (q * e * 8) by lia. rewrite Z_mod_mult, Z.div_mul by lia. cbn [Z.eqb]. change (0 mod 8 =? 0) with true.
  change (0 / 8) with 0. cbv iota.
  rewrite (paints_all (bit_byte_tgt inp) nbyte (foldO _ (seqZ 0 (q * e - 0))) out); [done| |done].
  eapply paints_weaken; [apply paints_loop; intros ii Hii%elem_of_seqZ|].
  - rewrite word_at_ret by lia. cbn [obind]. apply paints_word. intros kk Hkk. split; [nia|].
    unfold bit_byte_tgt. destruct (div_mod_at (q * e) kk ii) as [-> ->]; [lia|]. done.
  - intros i Hir _. pose proof (Z.div_mod i (q * e) ltac:(lia)). pose proof (Z.mod_pos_bound i (q * e) ltac:(lia)).
    exists (i mod (q * e)). split; [apply elem_of_seqZ; lia|]. exists (i / (q * e)). split; [nia|lia].
Qed.

(** Row [ii * e + jj] goes to [jj * 8 + ii]. *)
Definition bitrow_tgt (inp : list Z) (i : Z) : Z :=
  nth_byte inp (((i / q) mod 8 * e + i / q / 8) * q + i mod q).

Lemma trans_bitrow_spec inp out : 0 < q -> zlen inp = nbyte -> zlen out = nbyte ->
  bshuf_trans_bitrow_eight inp out size e = Ret (size * e, bitrow_tgt inp <$> seqZ 0 nbyte).
Proof.
  intros Hq0 Hi Ho. unfold bshuf_trans_bitrow_eight. rewrite size_mult_eight.
  replace (size / 8) with q by (symmetry; rewrite Z.mul_comm; by apply Z.div_mul). unfold bshuf_trans_elem.
  rewrite (paints_all (bitrow_tgt inp) nbyte (foldO _ (seqZ 0 8)) out); [cbn [obind]; do 2 f_equal; lia| |done].
  eapply paints_weaken; [apply paints_loop; intros ii Hii%elem_of_seqZ; apply paints_loop; intros jj Hjj%elem_of_seqZ|].
  - apply paints_memcpy; [nia|lia|nia|nia|nia|]. intros r Hr. unfold bitrow_tgt.
    destruct (div_mod_at q (jj * 8 + ii) r) as [-> ->]; [lia|]. destruct (div_mod_at 8 jj ii) as [-> ->]; [lia|]. f_equal.
  - intros i Hir _. pose proof (Z.div_mod i q ltac:(lia)). pose proof (Z.mod_pos_bound i q ltac:(lia)).
    set (b := i / q) in *. pose proof (Z.div_mod b 8 ltac:(lia)). pose proof (Z.mod_pos_bound b 8 ltac:(lia)).
    exists (b mod 8). split; [apply elem_of_seqZ; lia|]. exists (b / 8). split; [apply elem_of_seqZ; nia|nia].
Qed.

(** Byte [c] of group [ii], at [ii * 8 * e + c]. *)
Definition byte_bitrow_tgt (inp : list Z) (i : Z) : Z := nth_byte inp (i mod (8 * e) * q + i / (8 * e)).

Lemma trans_byte_bitrow_spec inp out : zlen inp = nbyte -> zlen out = nbyte ->
  bshuf_trans_byte_bitrow_scal inp out size e = Ret (size * e, byte_bitrow_tgt inp <$> seqZ 0 nbyte).
Proof.
  intros Hi Ho. unfold bshuf_trans_byte_bitrow_scal. rewrite size_mult_eight.
  replace (size / 8) with q by (symmetry; rewrite Z.mul_comm; by apply Z.div_mul).
  rewrite (paints_all (byte_bitrow_tgt inp) nbyte (foldO _ (seqZ 0 e)) out); [done| |done].
  eapply paints_weaken; [apply paints_loop; intros jj Hjj%elem_of_seqZ; apply paints_loop; intros ii Hii%elem_of_seqZ;
    apply paints_loop; intros kk Hkk%elem_of_seqZ|].
  - apply paints_copy; [nia|nia|]. unfold byte_bitrow_tgt. destruct (div_mod_at (8 * e) ii (jj * 8 + kk)) as [E1 E2]; [lia|].
    replace (ii * 8 * e + jj * 8 + kk) with (ii * (8 * e) + (jj * 8 + kk)) by lia. by rewrite E1, E2.
  - intros i Hir _. pose proof (Z.div_mod i (8 * e) ltac:(lia)). pose proof (Z.mod_pos_bound i (8 * e) ltac:(lia)).
    set (c := i mod (8 * e)) in *. pose proof (Z.div_mod c 8 ltac:(lia)). pose proof (Z.mod_pos_bound c 8 ltac:(lia)).
    exists (c / 8). split; [apply elem_of_seqZ; lia|]. exists (i / (8 * e)). split; [apply elem_of_seqZ; nia|].
    exists (c mod 8). split; [apply elem_of_seqZ; lia|lia].
Qed.

(** Within a group, bit row [kk] of word [j], at [kk * e + j]. *)
Definition eightelem_tgt (inp : list Z) (i : Z) : Z :=
  transposed inp (i / (8 * e) * (8 * e) + i mod (8 * e) mod e * 8) (i mod (8 * e) / e).

Lemma shuffle_bit_eightelem_spec inp out : zlen inp = nbyte -> zlen out = nbyte ->
  bshuf_shuffle_bit_eightelem_scal inp out size e = Ret (size * e, eightelem_tgt inp <$> seqZ 0 nbyte).
Proof.
  intros Hi Ho. unfold bshuf_shuffle_bit_eightelem_scal. rewrite size_mult_eight. replace (e * size) with nbyte by lia.
  rewrite (paints_all (eightelem_tgt inp) nbyte (foldO _ (range_by 8 0 (8 * e))) out); [done| |done].
  eapply paints_weaken; [apply paints_loop; intros jj Hjj; apply paints_loop; intros ii Hii|].
  - apply elem_of_range_by in Hjj as (j & Ej & Hj & Hjb), Hii as (i0 & Ei & Hi0 & Hib); [|nia..].
    rewrite word_at_ret by lia. cbn [obind]. apply paints_word. intros kk Hkk.
    assert (Hj8 : jj / 8 = j) by (rewrite Ej; replace (0 + 8 * j) with (j * 8) by lia; by apply Z.div_mul).
    rewrite Hj8. split; [nia|]. unfold eightelem_tgt.
    destruct (div_mod_at (8 * e) i0 (kk * e + j)) as [E1 E2]; [nia|].
    replace (ii + j + kk * e) with (i0 * (8 * e) + (kk * e + j)) by lia. rewrite E1, E2.
    destruct (div_mod_at e kk j) as [-> ->]; [lia|]. unfold transposed. do 4 f_equal. lia.
  - intros i Hir _. pose proof (Z.div_mod i (8 * e) ltac:(lia)). pose proof (Z.mod_pos_bound i (8 * e) ltac:(lia)).
    set (c := i mod (8 * e)) in *. pose proof (Z.div_mod c e ltac:(lia)). pose proof (Z.mod_pos_bound c e ltac:(lia)).
    set (j := c mod e) in *.
    exists (0 + 8 * j). split; [apply elem_of_range_by; [lia..|]; exists j; lia|].
    exists (0 + 8 * e * (i / (8 * e))). split; [apply elem_of_range_by; [lia|nia|]; exists (i / (8 * e)); split_and!; [done|nia|]|].
    { assert (i / (8 * e) + 1 <= q) by nia. nia. }
    exists (c / e). split; [nia|]. replace ((0 + 8 * j) / 8) with j by (replace (0 + 8 * j) with (j * 8) by lia; by rewrite Z.div_mul).
    lia.
Qed.
End Layout.

(** ** The reference: the transposition of a bit matrix *)

(** Bit [k] of an array. *)
Definition bit_at (l : list Z) (k : Z) : bool := Z.testbit (nth_byte l (k / 8)) (k mod 8).

(** The bits of [l], a matrix of [rows] x [cols], transposed. *)
Definition is_transpose (rows cols : Z) (l l' : list Z) : Prop :=
  forall r c, 0 <= r < rows -> 0 <= c < cols -> bit_at l' (c * rows + r) = bit_at l (r * cols + c).

Lemma bit_at_byte l i j : 0 <= j < 8 -> bit_at l (i * 8 + j) = Z.testbit (nth_byte l i) j.
Proof. intros Hj. unfold bit_at. by destruct (div_mod_at 8 i j Hj) as [-> ->]. Qed.

(** Arrays are equal when their bits are. *)
Lemma bytes_ext l l' : bytes l -> bytes l' -> zlen l = zlen l' ->
  (forall k, 0 <= k < 8 * zlen l -> bit_at l k = bit_at l' k) -> l = l'.
Proof.
  intros Hl Hl' Hz H. apply list_eq_same_length with (length l); [unfold zlen in Hz; lia|done|].
  intros i x y Hi Hx Hy.
  assert (Hn : nth_byte l (Z.of_nat i) = x /\ nth_byte l' (Z.of_nat i) = y).
  { unfold nth_byte. rewrite Nat2Z.id. by rewrite (list_lookup_total_correct _ _ _ Hx), (list_lookup_total_correct _ _ _ Hy). }
  destruct Hn as [<- <-]. apply byte_ext; [apply nth_byte_range; [done|unfold zlen in *; lia]..|].
  intros j Hj. rewrite <- !bit_at_byte by done. apply H. unfold zlen. lia.
Qed.

Lemma transpose_inverse rows cols l l' l'' n : rows * cols = 8 * n -> 0 < cols -> bytes l -> bytes l'' ->
  zlen l = n -> zlen l'' = n -> is_transpose rows cols l l' -> is_transpose cols rows l' l'' -> l'' = l.
Proof.
  intros Hn Hc Hl Hl'' Hz Hz'' H1 H2. apply bytes_ext; [done..|lia|]. intros k Hk.
  pose proof (Z.div_mod k cols ltac:(lia)). pose proof (Z.mod_pos_bound k cols ltac:(lia)).
  assert (0 <= k / cols < rows) by nia.
  replace k with (k / cols * cols + k mod cols) by lia. rewrite H2, H1 by done. done.
Qed.

(** ** The interface *)

(** What the blocks rely on: a routine that transposes the bits of a block, and one that transposes
    them back. *)
Class BitTransposer := {
  bshuf_trans_bit_elem : list Z -> list Z -> Z -> Z -> routine;
  bshuf_untrans_bit_elem : list Z -> list Z -> Z -> Z -> routine;
  trans_law : forall inp out q e, 0 < q -> 0 < e -> bytes inp -> zlen inp = 8 * q * e -> zlen out = 8 * q * e ->
    exists out', bshuf_trans_bit_elem inp out (8 * q) e = Ret (8 * q * e, out') /\
      bytes out' /\ zlen out' = 8 * q * e /\ is_transpose (8 * q) (8 * e) inp out';
  untrans_law : forall inp out q e, 0 < q -> 0 < e -> bytes inp -> zlen inp = 8 * q * e -> zlen out = 8 * q * e ->
    exists out', bshuf_untrans_bit_elem inp out (8 * q) e = Ret (8 * q * e, out') /\
      bytes out' /\ zlen out' = 8 * q * e /\ is_transpose (8 * e) (8 * q) inp out' }.

Section Portable.
Variable (malloc : Z -> option (list Z)).

Definition mallocs (n : Z) : Prop := exists buf, malloc n = Some buf /\ zlen buf = n.

Lemma byte_elem_tgt_at q e inp jj ii : 0 < q -> 0 <= ii < 8 * q ->
  byte_elem_tgt q e inp (jj * (8 * q) + ii) = nth_byte inp (ii * e + jj).
Proof. intros Hq Hi. unfold byte_elem_tgt. by destruct (div_mod_at (8 * q) jj ii Hi) as [-> ->]. Qed.

(** The portable routines transpose the bits of the elements: with [size] elements of [e] bytes, bit [b]
    of element [ii] goes to place [ii] of bit row [b]. *)
Lemma trans_scal_transposes inp out q e : 0 < q -> 0 < e -> mallocs (8 * q * e) -> bytes inp ->
  zlen inp = 8 * q * e -> zlen out = 8 * q * e ->
  exists out', bshuf_trans_bit_elem_scal malloc inp out (8 * q) e = Ret (8 * q * e, out') /\
    bytes out' /\ zlen out' = 8 * q * e /\ is_transpose (8 * q) (8 * e) inp out'.
Proof using Type.
  intros Hq He (tmp & Hm & Ht) Hb Hi Ho. unfold bshuf_trans_bit_elem_scal. rewrite size_mult_eight, Hm.
  rewrite trans_byte_elem_spec by lia. unfold check_err. cbn [obind].
  rewrite (proj2 (Z.ltb_ge (8 * q * e) 0)) by nia.
  set (o1 := byte_elem_tgt q e inp <$> _). assert (Hz1 : zlen o1 = 8 * q * e) by (apply zlen_painted; nia).
  assert (Hb1 : bytes o1).
  { apply bytes_painted. intros i Hir. apply nth_byte_range; [done|].
    pose proof (Z.div_mod i (8 * q) ltac:(lia)). pose proof (Z.mod_pos_bound i (8 * q) ltac:(lia)). nia. }
  rewrite trans_bit_byte_spec by lia. cbn [obind]. rewrite (proj2 (Z.ltb_ge (8 * q * e) 0)) by nia.
  set (o2 := bit_byte_tgt q e o1 <$> _). assert (Hz2 : zlen o2 = 8 * q * e) by (apply zlen_painted; nia).
  rewrite trans_bitrow_spec by lia. eexists. split; [done|].
  assert (Hin : forall i, 0 <= i < 8 * q * e -> 0 <= ((i / q) mod 8 * e + i / q / 8) * q + i mod q < 8 * q * e).
  { intros i Hir. pose proof (Z.div_mod i q ltac:(lia)). pose proof (Z.mod_pos_bound i q ltac:(lia)).
    pose proof (Z.div_mod (i / q) 8 ltac:(lia)). pose proof (Z.mod_pos_bound (i / q) 8 ltac:(lia)).
    assert (0 <= i / q < 8 * e) by nia. assert (0 <= i / q / 8 < e) by lia.
    assert (0 <= (i / q) mod 8 * e + i / q / 8 < 8 * e) by nia. nia. }
  split; [|split; [apply zlen_painted; nia|]].
  - apply bytes_painted. intros i Hir. apply nth_byte_range; [|rewrite Hz2; by apply Hin].
    apply bytes_painted. intros. apply transposed_range.
  - intros r c Hr Hc. pose proof (Z.div_mod r 8 ltac:(lia)). pose proof (Z.mod_pos_bound r 8 ltac:(lia)).
    pose proof (Z.div_mod c 8 ltac:(lia)). pose proof (Z.mod_pos_bound c 8 ltac:(lia)).
    replace (c * (8 * q) + r) with ((c * q + r / 8) * 8 + r mod 8) by lia. rewrite bit_at_byte by done.
    rewrite nth_painted by nia. unfold bitrow_tgt. destruct (div_mod_at q c (r / 8)) as [-> ->]; [lia|].
    assert (0 <= c / 8 < e) by lia.
    unfold o2. rewrite nth_painted by nia. unfold bit_byte_tgt.
    destruct (div_mod_at (q * e) (c mod 8) (c / 8 * q + r / 8)) as [E1 E2]; [nia|].
    replace ((c mod 8 * e + c / 8) * q + r / 8) with (c mod 8 * (q * e) + (c / 8 * q + r / 8)) by lia. rewrite E1, E2.
    rewrite testbit_transposed by (done || nia).
    replace (8 * (c / 8 * q + r / 8) + r mod 8) with (c / 8 * (8 * q) + r) by lia.
    unfold o1. rewrite nth_painted by nia. rewrite byte_elem_tgt_at by lia.
    replace (r * (8 * e) + c) with ((r * e + c / 8) * 8 + c mod 8) by lia. by rewrite bit_at_byte.
Qed.

Lemma untrans_scal_transposes inp out q e : 0 < q -> 0 < e -> mallocs (8 * q * e) -> bytes inp ->
  zlen inp = 8 * q * e -> zlen out = 8 * q * e ->
  exists out', bshuf_untrans_bit_elem_scal malloc inp out (8 * q) e = Ret (8 * q * e, out') /\
    bytes out' /\ zlen out' = 8 * q * e /\ is_transpose (8 * e) (8 * q) inp out'.
Proof using Type.
  intros Hq He (tmp & Hm & Ht) Hb Hi Ho. unfold bshuf_untrans_bit_elem_scal. rewrite size_mult_eight, Hm.
  rewrite trans_byte_bitrow_spec by lia. cbn [obind]. rewrite (proj2 (Z.ltb_ge (8 * q * e) 0)) by nia.
  set (o1 := byte_bitrow_tgt q e inp <$> _). assert (Hz1 : zlen o1 = 8 * q * e) by (apply zlen_painted; nia).
  assert (Hb1 : bytes o1).
  { apply bytes_painted. intros i Hir. apply nth_byte_range; [done|].
    pose proof (Z.div_mod i (8 * e) ltac:(lia)). pose proof (Z.mod_pos_bound i (8 * e) ltac:(lia)).
    assert (0 <= i / (8 * e) < q) by nia. nia. }
  rewrite shuffle_bit_eightelem_spec by lia. eexists. split; [done|].
  split; [|split; [apply zlen_painted; nia|]]; [apply bytes_painted; intros; apply transposed_range|].
  intros r c Hr Hc. pose proof (Z.div_mod r 8 ltac:(lia)). pose proof (Z.mod_pos_bound r 8 ltac:(lia)).
  pose proof (Z.div_mod c 8 ltac:(lia)). pose proof (Z.mod_pos_bound c 8 ltac:(lia)).
  assert (0 <= r / 8 < e) by lia. assert (0 <= c / 8 < q) by lia.
  assert (0 <= c mod 8 * e + r / 8 < 8 * e) by nia.
  replace (c * (8 * e) + r) with ((c / 8 * (8 * e) + (c mod 8 * e + r / 8)) * 8 + r mod 8) by lia. rewrite bit_at_byte by done.
  rewrite nth_painted by nia. unfold eightelem_tgt.
  destruct (div_mod_at (8 * e) (c / 8) (c mod 8 * e + r / 8)) as [-> ->]; [done|].
  destruct (div_mod_at e (c mod 8) (r / 8)) as [-> ->]; [done|].
  rewrite testbit_transposed by (done || nia).
  replace (c / 8 * (8 * e) + r / 8 * 8 + r mod 8) with (c / 8 * (8 * e) + r) by lia.
  unfold o1. rewrite nth_painted by nia. unfold byte_bitrow_tgt. destruct (div_mod_at (8 * e) (c / 8) r) as [-> ->]; [done|].
  replace (r * (8 * q) + c) with ((r * q + c / 8) * 8 + c mod 8) by lia. by rewrite bit_at_byte.
Qed.
End Portable.

(** C24: The portable routines of bitshuffle on a block of [8 * q] elements of [e] bytes: whatever the
    memory that [malloc] returns and the output arrays hold, [bshuf_trans_bit_elem_scal] stays within
    the arrays and stores the transposition of the matrix of bits with a row for an element, the
    reference; and [bshuf_untrans_bit_elem_scal] gives the block back. *)
Theorem bitshuffle_block_transposes (malloc : Z -> option (list Z)) (q e : Z) (inp out out2 : list Z) :
  0 < q -> 0 < e -> mallocs malloc (8 * q * e) -> bytes inp ->
  zlen inp = 8 * q * e -> zlen out = 8 * q * e -> zlen out2 = 8 * q * e ->
  exists out', bshuf_trans_bit_elem_scal malloc inp out (8 * q) e = Ret (8 * q * e, out') /\
    is_transpose (8 * q) (8 * e) inp out' /\
    bshuf_untrans_bit_elem_scal malloc out' out2 (8 * q) e = Ret (8 * q * e, inp).
Proof.
  intros Hq He Hm Hb Hi Ho Ho2.
  destruct (trans_scal_transposes malloc inp out q e) as (out' & E & Hb' & Hz' & Ht); try done.
  destruct (untrans_scal_transposes malloc out' out2 q e) as (inp' & E' & Hb2 & Hz2 & Ht2); try done.
  exists out'. split_and!; [done..|]. rewrite E'. do 2 f_equal.
  by apply (transpose_inverse (8 * q) (8 * e) _ out' _ (8 * q * e)); try lia.
Qed.

(** Eight elements of two bytes. *)
Definition demo_elems : list Z := [1; 0; 2; 0; 3; 0; 4; 0; 5; 0; 6; 0; 7; 0; 8; 128].

Definition zeroed (n : Z) : option (list Z) := Some (repeat 0 (Z.to_nat n)).

Lemma zeroed_mallocs n : 0 <= n -> mallocs zeroed n.
Proof. intros Hn. eexists. split; [done|]. unfold zlen. rewrite repeat_length. lia. Qed.

Lemma bitshuffle_block_transposes_witness :
  bshuf_trans_bit_elem_scal zeroed demo_elems (repeat 7 16) 8 2 =
    Ret (16, [85; 102; 120; 128; 0; 0; 0; 0; 0; 0; 0; 0; 0; 0; 0; 128]) /\
  exists out', bshuf_trans_bit_elem_scal zeroed demo_elems (repeat 7 16) (8 * 1) 2 = Ret (8 * 1 * 2, out') /\
    is_transpose (8 * 1) (8 * 2) demo_elems out' /\
    bshuf_untrans_bit_elem_scal zeroed out' (repeat 9 16) (8 * 1) 2 = Ret (8 * 1 * 2, demo_elems).
Proof.
  split; [vm_compute; reflexivity|].
  apply (bitshuffle_block_transposes zeroed 1 2 demo_elems (repeat 7 16) (repeat 9 16)); try reflexivity; try lia.
  - by apply zeroed_mallocs.
  - unfold demo_elems, bytes. repeat (constructor; [lia|]). constructor.
Defined.

(** The error paths: a number of elements that is not a multiple of eight, and no memory. *)
Lemma trans_scal_errors malloc inp out size e :
  (size mod 8 <> 0 -> bshuf_trans_bit_elem_scal malloc inp out size e = Ret (-80, out) /\
     bshuf_untrans_bit_elem_scal malloc inp out size e = Ret (-80, out)) /\
  (size mod 8 = 0 -> malloc (size * e) = None -> bshuf_trans_bit_elem_scal malloc inp out size e = Ret (-1, out) /\
     bshuf_untrans_bit_elem_scal malloc inp out size e = Ret (-1, out)).
Proof.
  unfold bshuf_trans_bit_elem_scal, bshuf_untrans_bit_elem_scal, CHECK_MULT_EIGHT. split.
  - intros H. by rewrite (proj2 (Z.eqb_neq _ _) H).
  - intros H ->. by rewrite (proj2 (Z.eqb_eq _ _) H).
Qed.

(** The portable routines implement the interface. *)
Definition portable_transposer (malloc : Z -> option (list Z)) (Hm : forall n, 0 <= n -> mallocs malloc n) : BitTransposer := {|
  bshuf_trans_bit_elem := bshuf_trans_bit_elem_scal malloc;
  bshuf_untrans_bit_elem := bshuf_untrans_bit_elem_scal malloc;
  trans_law := fun inp out q e Hq He => trans_scal_transposes malloc inp out q e Hq He (Hm (8 * q * e) ltac:(nia));
  untrans_law := fun inp out q e Hq He => untrans_scal_transposes malloc inp out q e Hq He (Hm (8 * q * e) ltac:(nia)) |}.

Definition portable : BitTransposer := portable_transposer zeroed zeroed_mallocs.
