(* ===== verification/Wire.v ===== *)
(** * The messages on the wire

    [src/source/interface/std_buffer/*.proto] with the buffers of the services.  The encoding is that of protobuf, whose
    code is generated: a parameter, the class [Protobuf] with the sizes that its documentation gives for fields.  The schemas are
    translated from the files: which field of a message has which number and type, and that a field with its default value is not
    sent.  Every service receives into an array of [buffer_size] bytes and parses as many bytes as the message had; a message that
    is empty is taken for a timeout. *)

From Stdlib Require Import Ascii.
From S2P Require Import Prelude Protocol Config RamBuffer Hdf5 DetWriter MetaWriter BufferDriver Bitshuffle.

(** ** Fields *)

(** The payload of a field: an integer, or bytes behind their length. *)
Inductive wire : Type := WVarint (z : Z) | WBytes (bs : list Z).

Definition field : Type := Z * wire.

(** The bytes of an integer of at most 64 bits, seven bits in each. *)
Fixpoint varint_groups (fuel : nat) (z : Z) : Z :=
  match fuel with O => 1 | S fuel' => if z <? 128 then 1 else 1 + varint_groups fuel' (z / 128) end.
Definition varint_size (z : Z) : Z := varint_groups 9 z.

Definition tag (num : Z) (w : wire) : Z := num * 8 + match w with WVarint _ => 0 | WBytes _ => 2 end.

Definition field_size (f : field) : Z :=
  let '(num, w) := f in
  varint_size (tag num w) + match w with WVarint z => varint_size z | WBytes bs => varint_size (zlen bs) + zlen bs end.

Definition message_size (fs : list field) : Z := foldr (fun f n => field_size f + n) 0 fs.

Definition field_ok (f : field) : Prop :=
  let '(num, w) := f in
  1 <= num < 2 ^ 29 /\ match w with WVarint z => 0 <= z < 2 ^ 64 | WBytes bs => bytes bs /\ zlen bs < 2 ^ 31 end.

(** What is documented: the size of a message is that of its fields, and its fields are found again. *)
Class Protobuf := {
  serialize : list field -> list Z;
  parse : list Z -> option (list field);
  serialize_bytes : forall fs, Forall field_ok fs -> bytes (serialize fs);
  serialize_size : forall fs, Forall field_ok fs -> zlen (serialize fs) = message_size fs;
  parse_serialize : forall fs, Forall field_ok fs -> parse (serialize fs) = Some fs }.

(** ** The schemas *)

Definition uint (num z : Z) : list field := if z =? 0 then [] else [(num, WVarint z)].
Definition boolean (num : Z) (b : bool) : list field := if b then [(num, WVarint 1)] else [].

Fixpoint string_bytes (s : string) : list Z :=
  match s with String c s' => Z.of_N (N_of_ascii c) :: string_bytes s' | EmptyString => [] end.
Fixpoint bytes_string (bs : list Z) : string :=
  match bs with b :: bs' => String (ascii_of_N (Z.to_N b)) (bytes_string bs') | [] => EmptyString end.

Definition text (num : Z) (s : string) : list field :=
  match s with EmptyString => [] | _ => [(num, WBytes (string_bytes s))] end.

Definition dtype_number (d : pb_dtype) : Z :=
  match d with
  | dt_unknown => 0 | dt_uint8 => 1 | dt_uint16 => 2 | dt_uint32 => 4 | dt_uint64 => 8
  | dt_int8 => 11 | dt_int16 => 12 | dt_int32 => 14 | dt_int64 => 18
  | dt_float16 => 22 | dt_float32 => 24 | dt_float64 => 28
  end.
Definition status_number (s : pb_status) : Z :=
  match s with st_undefined => 0 | st_good_image => 1 | st_missing_packets => 2 | st_id_missmatch => 3 end.
Definition compression_number (c : pb_compression) : Z :=
  match c with cp_none => 0 | cp_h5bitshuffle_lz4 => 1 | cp_blosc2 => 2 end.
Definition response_number (c : response_code) : Z := match c with UNKNOWN => 0 | SUCCESS => 1 | FAILURE => 2 end.

Definition gf_fields (g : GFImageMetadata) : list field :=
  uint 1 (gf_scan_id g) ++ uint 2 (gf_scan_time g) ++ uint 3 (gf_sync_time g) ++ uint 4 (gf_frame_timestamp g) ++
  uint 5 (gf_exposure_time g) ++ boolean 6 (gf_store_image g).

Definition pco_fields (p : PcoImageMetadata) : list field :=
  uint 1 (pco_global_timestamp_sec p) ++ uint 2 (pco_global_timestamp_ns p) ++ text 3 (pco_bsread_name p).

Section Messages.
Context `{Protobuf}.

(** A message in a field, sent even when it is empty. *)
Definition sub (num : Z) (fs : list field) : list field := [(num, WBytes (serialize fs))].

Definition detector_fields (d : pb_detector_metadata) : list field :=
  match d with
  | dm_not_set => []
  | dm_gf g => sub 8 (gf_fields g)
  | dm_jf daq_rec => sub 9 (uint 1 daq_rec)
  | dm_eg exptime => sub 10 (uint 1 exptime)
  | dm_pco p => sub 11 (pco_fields p)
  end.

Definition image_fields (m : pb_image) : list field :=
  uint 1 (pb_image_id m) ++ uint 2 (pb_height m) ++ uint 3 (pb_width m) ++ uint 4 (pb_size m) ++
  uint 5 (dtype_number (pb_dt m)) ++ uint 6 (status_number (pb_st m)) ++ uint 7 (compression_number (pb_cp m)) ++
  detector_fields (pb_det m).

Definition buffered_fields (m : pb_image) (offset : Z) : list field := sub 1 (image_fields m) ++ uint 2 offset.

(** An [int32] is sent with the sign of 64 bits. *)
Definition create_file_fields (path : string) (writer_id : Z) : list field := text 1 path ++ uint 2 (u64 writer_id).

Definition action_fields (a : writer_action) : list field :=
  match a with
  | action_not_set => []
  | create_file_cmd path id => sub 1 (create_file_fields path id)
  | record_image m => sub 2 (sub 1 (image_fields m))
  | close_file => sub 3 []
  | confirm_last_image => sub 4 []
  end.

Definition response_fields (code : response_code) (reason : string) : list field := uint 1 (response_number code) ++ text 2 reason.

Definition request_fields (r : request_next_image) : list field := uint 1 (rq_image_id r) ++ boolean 2 (rq_new_request r).

Definition next_response_fields (r : next_image_response) : list field :=
  match r with response_not_set => [] | no_image => sub 1 [] | ack id => sub 2 (uint 1 id) end.
End Messages.

(** [char buffer[512]]. *)
Definition buffer_size : Z := 512.

(** A received message is parsed from the buffer. *)
Definition receivable (fs : list field) : Prop := 0 < message_size fs <= buffer_size.

(** ** Sizes *)

Lemma varint_groups_bound n z : 1 <= varint_groups n z <= 1 + Z.of_nat n.
Proof. revert z. induction n as [|n IH]; intros z; cbn [varint_groups]; [lia|]. destruct (z <? 128); [lia|]. specialize (IH (z / 128)). lia. Qed.

Lemma varint_size_bound z : 1 <= varint_size z <= 10.
Proof. pose proof (varint_groups_bound 9 z). unfold varint_size. lia. Qed.

Lemma varint_groups_small (k n : nat) z : (k <= n)%nat -> 0 <= z < 2 ^ (7 * (Z.of_nat k + 1)) -> varint_groups n z <= Z.of_nat k + 1.
Proof.
  revert n z. induction k as [|k IH]; intros n z Hk Hz; destruct n as [|n]; cbn [varint_groups]; try lia.
  - rewrite (proj2 (Z.ltb_lt z 128)); [lia|]. change (2 ^ (7 * (Z.of_nat 0 + 1))) with 128 in Hz. lia.
  - destruct (z <? 128); [lia|]. specialize (IH n (z / 128) ltac:(lia)).
    replace (7 * (Z.of_nat (S k) + 1)) with (7 + 7 * (Z.of_nat k + 1)) in Hz by lia. rewrite Z.pow_add_r in Hz by lia. change (2 ^ 7) with 128 in Hz.
    assert (0 <= z / 128 < 2 ^ (7 * (Z.of_nat k + 1))) by (split; [apply Z.div_pos; lia|apply Z.div_lt_upper_bound; lia]). lia.
Qed.

Lemma varint_size_1 z : 0 <= z < 128 -> varint_size z = 1.
Proof. intros Hz. pose proof (varint_groups_small 0 9 z ltac:(lia) Hz). pose proof (varint_size_bound z). unfold varint_size in *. lia. Qed.

Lemma varint_size_2 z : 0 <= z < 2 ^ 14 -> varint_size z <= 2.
Proof. intros Hz. apply (varint_groups_small 1 9 z); [lia|exact Hz]. Qed.

Lemma varint_size_5 z : 0 <= z < 2 ^ 32 -> varint_size z <= 5.
Proof. intros Hz. apply (varint_groups_small 4 9 z); [lia|]. change (2 ^ (7 * (Z.of_nat 4 + 1))) with (2 ^ 35). lia. Qed.

Lemma message_size_app a b : message_size (a ++ b) = message_size a + message_size b.
Proof. induction a as [|f a IH]; cbn [message_size foldr app]; [done|]. unfold message_size in *. lia. Qed.

Lemma message_size_nonneg fs : 0 <= message_size fs.
Proof.
  induction fs as [|[num w] fs IH]; cbn [message_size foldr]; [lia|]. fold (message_size fs). unfold field_size.
  pose proof (varint_size_bound (tag num w)). destruct w as [z|bs]; [pose proof (varint_size_bound z); lia|].
  pose proof (varint_size_bound (zlen bs)). pose proof (zlen_nonneg bs). lia.
Qed.

(** A field of a number below 16 has a tag of one byte. *)
Lemma uint_size num z : 1 <= num < 16 -> z <> 0 -> message_size (uint num z) = 1 + varint_size z.
Proof.
  intros Hn Hz. unfold uint. rewrite (proj2 (Z.eqb_neq z 0) Hz). cbn [message_size foldr field_size].
  unfold tag. rewrite varint_size_1 by lia. lia.
Qed.

Lemma uint_size_le num z k : 1 <= num < 16 -> varint_size z <= k -> 0 <= message_size (uint num z) <= 1 + k.
Proof.
  intros Hn Hz. destruct (Z.eq_dec z 0) as [->|Hne]; [cbn; pose proof (varint_size_bound 0); lia|]. rewrite uint_size by done.
  pose proof (varint_size_bound z). lia.
Qed.

Lemma uint64_size num z : 1 <= num < 16 -> 0 <= message_size (uint num z) <= 11.
Proof. intros Hn. apply (uint_size_le num z 10); [done|apply varint_size_bound]. Qed.
Lemma uint32_size num z : 1 <= num < 16 -> 0 <= z < 2 ^ 32 -> 0 <= message_size (uint num z) <= 6.
Proof. intros Hn Hz. apply (uint_size_le num z 5); [done|by apply varint_size_5]. Qed.
Lemma enum_size num z : 1 <= num < 16 -> 0 <= z < 128 -> 0 <= message_size (uint num z) <= 2.
Proof. intros Hn Hz. apply (uint_size_le num z 1); [done|]. by rewrite varint_size_1. Qed.
Lemma boolean_size num b : 1 <= num < 16 -> 0 <= message_size (boolean num b) <= 2.
Proof. intros Hn. destruct b; cbn [boolean message_size foldr field_size]; [|lia]. unfold tag. rewrite !varint_size_1 by lia. lia. Qed.

Lemma length_string_bytes s : zlen (string_bytes s) = Z.of_nat (String.length s).
Proof. induction s as [|c s IH]; cbn [string_bytes String.length]; [done|]. rewrite zlen_cons, IH. lia. Qed.

Lemma string_bytes_ok s : bytes (string_bytes s).
Proof. induction s as [|c s IH]; cbn; constructor; [|done]. pose proof (N_ascii_bounded c). lia. Qed.

Lemma bytes_string_bytes s : bytes_string (string_bytes s) = s.
Proof. induction s as [|c s IH]; cbn; [done|]. by rewrite N2Z.id, ascii_N_embedding, IH. Qed.

Lemma text_size num s : 1 <= num < 16 -> 0 <= message_size (text num s) <= 11 + Z.of_nat (String.length s).
Proof.
  intros Hn. destruct s as [|c s]; [cbn; lia|]. cbn [text message_size foldr field_size]. unfold tag. rewrite varint_size_1 by lia.
  rewrite length_string_bytes. pose proof (varint_size_bound (Z.of_nat (String.length (String c s)))). lia.
Qed.

Lemma text_size_2 num s : 1 <= num < 16 -> Z.of_nat (String.length s) < 2 ^ 14 -> 0 <= message_size (text num s) <= 3 + Z.of_nat (String.length s).
Proof.
  intros Hn Hl. destruct s as [|c s]; [cbn; lia|]. cbn [text message_size foldr field_size]. unfold tag. rewrite varint_size_1 by lia.
  rewrite length_string_bytes. pose proof (varint_size_2 (Z.of_nat (String.length (String c s))) ltac:(lia)).
  pose proof (varint_size_bound (Z.of_nat (String.length (String c s)))). lia.
Qed.

(** *** Fields that can be sent *)

Lemma uint_ok num z : 1 <= num < 16 -> 0 <= z < 2 ^ 64 -> Forall field_ok (uint num z).
Proof. intros Hn Hz. unfold uint. destruct (z =? 0); constructor; [|constructor]. cbn. lia. Qed.
Lemma boolean_ok num b : 1 <= num < 16 -> Forall field_ok (boolean num b).
Proof. intros Hn. destruct b; constructor; [|constructor]. cbn. lia. Qed.
Lemma text_ok num s : 1 <= num < 16 -> Z.of_nat (String.length s) < 2 ^ 31 -> Forall field_ok (text num s).
Proof.
  intros Hn Hl. destruct s as [|c s]; constructor; [|constructor]. cbn [field_ok]. split; [lia|].
  split; [apply string_bytes_ok|by rewrite length_string_bytes].
Qed.

(** The values of a message fit the types of its fields. *)
Definition gf_meta_typed (g : GFImageMetadata) : Prop :=
  in_u 32 (gf_scan_id g) /\ in_u 32 (gf_scan_time g) /\ in_u 32 (gf_sync_time g) /\ in_u 64 (gf_frame_timestamp g) /\ in_u 64 (gf_exposure_time g).

(** A name comes from a device; [n] bounds its length. *)
Definition detector_typed (n : Z) (d : pb_detector_metadata) : Prop :=
  match d with
  | dm_not_set => True
  | dm_gf g => gf_meta_typed g
  | dm_jf z | dm_eg z => in_u 64 z
  | dm_pco p => in_u 64 (pco_global_timestamp_sec p) /\ in_u 64 (pco_global_timestamp_ns p) /\ Z.of_nat (String.length (pco_bsread_name p)) <= n
  end.

Definition image_typed (n : Z) (m : pb_image) : Prop :=
  in_u 64 (pb_image_id m) /\ in_u 64 (pb_height m) /\ in_u 64 (pb_width m) /\ in_u 64 (pb_size m) /\ detector_typed n (pb_det m).

Lemma dtype_number_range d : 0 <= dtype_number d < 128.
Proof. destruct d; cbn; lia. Qed.
Lemma status_number_range s : 0 <= status_number s < 128.
Proof. destruct s; cbn; lia. Qed.
Lemma compression_number_range c : 0 <= compression_number c < 128.
Proof. destruct c; cbn; lia. Qed.

Lemma gf_fields_ok g : gf_meta_typed g -> Forall field_ok (gf_fields g).
Proof.
  intros (H1 & H2 & H3 & H4 & H5). unfold gf_fields, in_u in *.
  repeat apply Forall_app_2; try (apply uint_ok; lia). apply boolean_ok. lia.
Qed.

Lemma gf_fields_size g : gf_meta_typed g -> 0 <= message_size (gf_fields g) <= 42.
Proof.
  intros (H1 & H2 & H3 & H4 & H5). unfold gf_fields. rewrite !message_size_app.
  pose proof (uint32_size 1 (gf_scan_id g) ltac:(lia) H1). pose proof (uint32_size 2 (gf_scan_time g) ltac:(lia) H2).
  pose proof (uint32_size 3 (gf_sync_time g) ltac:(lia) H3). pose proof (uint64_size 4 (gf_frame_timestamp g) ltac:(lia)).
  pose proof (uint64_size 5 (gf_exposure_time g) ltac:(lia)). pose proof (boolean_size 6 (gf_store_image g) ltac:(lia)). lia.
Qed.

Section Sizes.
Context `{Protobuf}.

(** A message in a field adds its tag and its length. *)
Lemma sub_ok num fs : 1 <= num < 16 -> Forall field_ok fs -> message_size fs < 2 ^ 31 -> Forall field_ok (sub num fs).
Proof using Type.
  intros Hn Hf Hs. constructor; [|constructor]. cbn [field_ok]. split; [lia|]. split; [by apply serialize_bytes|by rewrite serialize_size].
Qed.

Lemma sub_size num fs : 1 <= num < 16 -> Forall field_ok fs -> message_size fs < 2 ^ 14 ->
  2 + message_size fs <= message_size (sub num fs) <= 3 + message_size fs /\ (message_size fs < 128 -> message_size (sub num fs) = 2 + message_size fs).
Proof using Type.
  intros Hn Hf Hs. cbn [sub message_size foldr field_size]. unfold tag. rewrite varint_size_1 by lia. rewrite serialize_size by done.
  pose proof (message_size_nonneg fs). pose proof (varint_size_2 (message_size fs) ltac:(lia)). pose proof (varint_size_bound (message_size fs)).
  fold (message_size fs). split; [lia|]. intros. rewrite varint_size_1 by lia. lia.
Qed.

Lemma pco_fields_ok n p : n <= 10000 -> detector_typed n (dm_pco p) -> Forall field_ok (pco_fields p) /\ 0 <= message_size (pco_fields p) <= 25 + n.
Proof using Type.
  intros Hn (H1 & H2 & H3). unfold pco_fields, in_u in *. split.
  - repeat apply Forall_app_2; [apply uint_ok; lia..|apply text_ok; lia].
  - rewrite !message_size_app. pose proof (uint64_size 1 (pco_global_timestamp_sec p) ltac:(lia)).
    pose proof (uint64_size 2 (pco_global_timestamp_ns p) ltac:(lia)). pose proof (text_size_2 3 (pco_bsread_name p) ltac:(lia) ltac:(lia)). lia.
Qed.

Lemma detector_fields_ok n d : 0 <= n <= 10000 -> detector_typed n d ->
  Forall field_ok (detector_fields d) /\ 0 <= message_size (detector_fields d) <= 44 + n.
Proof using Type.
  intros Hn Hd. destruct d as [|g|z|z|p]; cbn [detector_fields].
  - split; [constructor|]. cbn. lia.
  - pose proof (gf_fields_ok g Hd). pose proof (gf_fields_size g Hd). destruct (sub_size 8 (gf_fields g)) as [_ E]; [lia|done|lia|].
    split; [apply sub_ok; [lia|done|lia]|]. rewrite E by lia. lia.
  - pose proof (uint_ok 1 z ltac:(lia) Hd). pose proof (uint64_size 1 z ltac:(lia)). destruct (sub_size 9 (uint 1 z)) as [_ E]; [lia|done|lia|].
    split; [apply sub_ok; [lia|done|lia]|]. rewrite E by lia. lia.
  - pose proof (uint_ok 1 z ltac:(lia) Hd). pose proof (uint64_size 1 z ltac:(lia)). destruct (sub_size 10 (uint 1 z)) as [_ E]; [lia|done|lia|].
    split; [apply sub_ok; [lia|done|lia]|]. rewrite E by lia. lia.
  - destruct (pco_fields_ok n p ltac:(lia) Hd) as [Hok Hsz]. destruct (sub_size 11 (pco_fields p)) as [E _]; [lia|done|lia|].
    split; [apply sub_ok; [lia|done|lia]|]. lia.
Qed.

Lemma image_fields_ok n m : 0 <= n <= 10000 -> image_typed n m ->
  Forall field_ok (image_fields m) /\ 0 <= message_size (image_fields m) <= 94 + n.
Proof using Type.
  intros Hn (H1 & H2 & H3 & H4 & H5). destruct (detector_fields_ok n (pb_det m) Hn H5) as [Hok Hsz]. unfold image_fields, in_u in *.
  pose proof (dtype_number_range (pb_dt m)). pose proof (status_number_range (pb_st m)). pose proof (compression_number_range (pb_cp m)). split.
  - repeat apply Forall_app_2; try done; apply uint_ok; lia.
  - rewrite !message_size_app.
    pose proof (uint64_size 1 (pb_image_id m) ltac:(lia)). pose proof (uint64_size 2 (pb_height m) ltac:(lia)).
    pose proof (uint64_size 3 (pb_width m) ltac:(lia)). pose proof (uint64_size 4 (pb_size m) ltac:(lia)).
    pose proof (enum_size 5 (dtype_number (pb_dt m)) ltac:(lia) ltac:(lia)). pose proof (enum_size 6 (status_number (pb_st m)) ltac:(lia) ltac:(lia)).
    pose proof (enum_size 7 (compression_number (pb_cp m)) ltac:(lia) ltac:(lia)). lia.
Qed.
End Sizes.

(** ** Messages fit the buffers *)

Definition fits_buffer `{Protobuf} (fs : list field) : Prop := 0 < zlen (serialize fs) <= buffer_size.

Section Fit.
Context `{Protobuf}.

Lemma fits_by_size fs : Forall field_ok fs -> receivable fs -> fits_buffer fs.
Proof using Type. intros Hok Hs. unfold fits_buffer. by rewrite serialize_size. Qed.

Lemma image_fits n m : 0 <= n <= 384 -> image_typed n m -> pb_size m <> 0 ->
  Forall field_ok (image_fields m) /\ 0 < message_size (image_fields m) <= 94 + n.
Proof using Type.
  intros Hn Hm Hs. destruct (image_fields_ok n m ltac:(lia) Hm) as [Hok Hsz]. split; [done|]. split; [|lia].
  unfold image_fields. rewrite !message_size_app. rewrite (uint_size 4) by (done || lia). pose proof (varint_size_bound (pb_size m)).
  repeat match goal with |- context [message_size ?fs] => lazymatch goal with _ : 0 <= message_size fs |- _ => fail | _ => pose proof (message_size_nonneg fs) end end.
  lia.
Qed.

Lemma sub_fits num fs : 1 <= num < 16 -> Forall field_ok fs -> message_size fs <= buffer_size - 3 -> fits_buffer (sub num fs).
Proof using Type.
  intros Hn Hok Hs. unfold buffer_size in *. destruct (sub_size num fs) as [E _]; [done|done|lia|]. pose proof (message_size_nonneg fs).
  apply fits_by_size; [apply sub_ok; [done|done|lia]|]. unfold receivable, buffer_size. lia.
Qed.

Lemma record_fits n m : 0 <= n <= 384 -> image_typed n m -> pb_size m <> 0 -> fits_buffer (action_fields (record_image m)).
Proof using Type.
  intros Hn Hm Hs. destruct (image_fits n m Hn Hm Hs) as [Hok Hsz]. cbn [action_fields].
  destruct (sub_size 1 (image_fields m)) as [E _]; [lia|done|lia|]. apply sub_fits; [lia|apply sub_ok; [lia|done|lia]|unfold buffer_size; lia].
Qed.

Lemma create_fits path id : in_i32 id -> Z.of_nat (String.length path) <= 384 -> fits_buffer (action_fields (create_file_cmd path id)).
Proof using Type.
  intros Hid Hp. cbn [action_fields]. assert (Hu : 0 <= u64 id < 2 ^ 64) by (unfold u64, wrap; apply Z.mod_pos_bound; lia).
  apply sub_fits; [lia|apply Forall_app_2; [apply text_ok; lia|apply uint_ok; [lia|done]]|].
  unfold create_file_fields. rewrite message_size_app. pose proof (text_size_2 1 path ltac:(lia) ltac:(lia)).
  pose proof (uint64_size 2 (u64 id) ltac:(lia)). unfold buffer_size. lia.
Qed.

Lemma response_fits code reason : code <> UNKNOWN -> Z.of_nat (String.length reason) <= 384 -> fits_buffer (response_fields code reason).
Proof using Type.
  intros Hc Hr. assert (Hn : 1 <= response_number code < 128) by (destruct code; [done|cbn; lia..]). unfold response_fields.
  apply fits_by_size; [apply Forall_app_2; [apply uint_ok; lia|apply text_ok; lia]|].
  unfold receivable. rewrite message_size_app, uint_size, varint_size_1 by lia. pose proof (text_size_2 2 reason ltac:(lia) ltac:(lia)). unfold buffer_size. lia.
Qed.

Lemma request_fits r : in_u 64 (rq_image_id r) -> rq_new_request r = true \/ rq_image_id r <> 0 -> fits_buffer (request_fields r).
Proof using Type.
  intros Hid Hne. unfold request_fields, in_u in *. apply fits_by_size; [apply Forall_app_2; [apply uint_ok; lia|apply boolean_ok; lia]|].
  unfold receivable. rewrite message_size_app. pose proof (uint64_size 1 (rq_image_id r) ltac:(lia)). pose proof (boolean_size 2 (rq_new_request r) ltac:(lia)).
  split; [|unfold buffer_size; lia]. destruct Hne as [-> | Hne]; [|rewrite uint_size by (done || lia); pose proof (varint_size_bound (rq_image_id r)); lia].
  change (message_size (boolean 2 true)) with 2. lia.
Qed.
End Fit.

(** C36: messages that fit the 512 bytes that the receivers have and are not empty, which receivers take for a timeout: the
    metadata of an image with fields of their types, a size that is not 0, and, for a pco camera, a name of up to 384 bytes,
    alone and in the command that records it; the commands that create a file with a path of up to 384 bytes, close it and ask for a
    confirmation; the answers of a writer with a code other than UNKNOWN and a reason of up to 384 bytes; the requests of a
    replay to its reader that are new or have an id other than 0 (one that follows the last id is empty:
    [last_request_empty]); and the reader's answers. *)
Theorem messages_fit_buffers `{Protobuf} :
  (forall m, image_typed 384 m -> pb_size m <> 0 -> fits_buffer (image_fields m) /\ fits_buffer (action_fields (record_image m))) /\
  (forall path id, in_i32 id -> Z.of_nat (String.length path) <= 384 -> fits_buffer (action_fields (create_file_cmd path id))) /\
  fits_buffer (action_fields close_file) /\ fits_buffer (action_fields confirm_last_image) /\
  (forall code reason, code <> UNKNOWN -> Z.of_nat (String.length reason) <= 384 -> fits_buffer (response_fields code reason)) /\
  (forall r, in_u 64 (rq_image_id r) -> rq_new_request r = true \/ rq_image_id r <> 0 -> fits_buffer (request_fields r)) /\
  fits_buffer (next_response_fields no_image) /\ (forall id, in_u 64 id -> fits_buffer (next_response_fields (ack id))).
Proof.
  assert (Hempty : forall num, 1 <= num < 16 -> fits_buffer (sub num [])) by (intros; apply sub_fits; [done|constructor|unfold buffer_size; cbn; lia]).
  split_and!; try (apply Hempty; lia).
  - intros m Hm Hs. destruct (image_fits 384 m ltac:(lia) Hm Hs) as [Hok Hsz].
    split; [apply fits_by_size; [done|unfold receivable, buffer_size; lia]|by apply (record_fits 384)].
  - intros. by apply create_fits.
  - intros. by apply response_fits.
  - intros. by apply request_fits.
  - intros id Hid. pose proof (uint64_size 1 id ltac:(lia)). cbn [next_response_fields].
    apply sub_fits; [lia|apply uint_ok; [lia|done]|unfold buffer_size; lia].
Qed.

(** ** Fields are found again *)

(** The last field of a number. *)
Definition lookup_field (num : Z) (fs : list field) : option wire :=
  foldl (fun acc '(n, w) => if n =? num then Some w else acc) None fs.

Definition get_uint (num : Z) (fs : list field) : Z := match lookup_field num fs with Some (WVarint z) => z | _ => 0 end.
Definition get_bool (num : Z) (fs : list field) : bool := negb (get_uint num fs =? 0).
Definition get_text (num : Z) (fs : list field) : string := match lookup_field num fs with Some (WBytes bs) => bytes_string bs | _ => EmptyString end.

Lemma foldl_lookup num fs acc : foldl (fun acc '(n, w) => if n =? num then Some w else acc) acc fs =
  match lookup_field num fs with Some w => Some w | None => acc end.
Proof.
  unfold lookup_field. revert acc. induction fs as [|[n w] fs IH]; intros acc; cbn [foldl]; [done|]. rewrite IH, (IH (if n =? num then _ else _)).
  destruct (foldl _ None fs); [done|]. by destruct (n =? num).
Qed.

Lemma lookup_app num a b : lookup_field num (a ++ b) = match lookup_field num b with Some w => Some w | None => lookup_field num a end.
Proof. unfold lookup_field. rewrite foldl_app. apply foldl_lookup. Qed.

Lemma lookup_uint num n z : lookup_field num (uint n z) = if (n =? num) && negb (z =? 0) then Some (WVarint z) else None.
Proof. unfold uint, lookup_field. destruct (z =? 0); cbn; [by rewrite andb_false_r|]. by rewrite andb_true_r. Qed.

Lemma lookup_boolean num n b : lookup_field num (boolean n b) = if (n =? num) && b then Some (WVarint 1) else None.
Proof. destruct b; cbn; [by rewrite andb_true_r|by rewrite andb_false_r]. Qed.

Lemma lookup_text num n s : lookup_field num (text n s) = if (n =? num) && negb (bool_decide (s = EmptyString)) then Some (WBytes (string_bytes s)) else None.
Proof. unfold lookup_field. destruct s as [|c s]; cbn; [by rewrite andb_false_r|]. by rewrite andb_true_r. Qed.

(** What the parser makes of the fields of [GFImageMetadata] and [PcoImageMetadata]. *)
Definition gf_of_fields (fs : list field) : GFImageMetadata :=
  {| gf_scan_id := get_uint 1 fs; gf_scan_time := get_uint 2 fs; gf_sync_time := get_uint 3 fs; gf_frame_timestamp := get_uint 4 fs;
     gf_exposure_time := get_uint 5 fs; gf_store_image := get_bool 6 fs |}.
Definition pco_of_fields (fs : list field) : PcoImageMetadata :=
  {| pco_global_timestamp_sec := get_uint 1 fs; pco_global_timestamp_ns := get_uint 2 fs; pco_bsread_name := get_text 3 fs |}.

Ltac find_fields :=
  unfold get_bool, get_uint, get_text; rewrite ?lookup_app, ?lookup_uint, ?lookup_boolean, ?lookup_text;
  repeat match goal with |- context [?a =? ?b] =>
    let v := eval cbv in (a =? b) in lazymatch v with true => idtac | false => idtac end; change (a =? b) with v end;
  cbn [andb];
  repeat match goal with |- context [?z =? 0] => destruct (Z.eqb_spec z 0) as [->|?]; cbn [negb] end; try done.

Lemma gf_found g : gf_of_fields (gf_fields g) = g.
Proof.
  destruct g as [a b c d e f]. unfold gf_of_fields, gf_fields. cbn [gf_scan_id gf_scan_time gf_sync_time gf_frame_timestamp gf_exposure_time gf_store_image].
  f_equal; find_fields. by destruct f.
Qed.

Lemma pco_found p : pco_of_fields (pco_fields p) = p.
Proof.
  destruct p as [a b s]. unfold pco_of_fields, pco_fields. cbn [pco_global_timestamp_sec pco_global_timestamp_ns pco_bsread_name].
  f_equal; find_fields; try (by case_bool_decide).
  case_bool_decide; cbn [negb]; [by subst|apply bytes_string_bytes].
Qed.

(** *** ImageMetadata *)

Definition of_number {A} (number : A -> Z) (all : list A) (z : Z) : option A := snd <$> list_find (fun a => number a = z) all.

Definition all_dtypes : list pb_dtype :=
  [dt_unknown; dt_uint8; dt_uint16; dt_uint32; dt_uint64; dt_int8; dt_int16; dt_int32; dt_int64; dt_float16; dt_float32; dt_float64].
Definition all_statuses : list pb_status := [st_undefined; st_good_image; st_missing_packets; st_id_missmatch].
Definition all_compressions : list pb_compression := [cp_none; cp_h5bitshuffle_lz4; cp_blosc2].

(** The field of the [oneof] that comes last. *)
Definition last_oneof (fs : list field) : option field :=
  foldl (fun acc '(n, w) => if (8 <=? n) && (n <=? 11) then Some (n, w) else acc) None fs.

Lemma foldl_oneof fs acc : foldl (fun acc '(n, w) => if (8 <=? n) && (n <=? 11) then Some (n, w) else acc) acc fs =
  match last_oneof fs with Some f => Some f | None => acc end.
Proof.
  unfold last_oneof. revert acc. induction fs as [|[n w] fs IH]; intros acc; cbn [foldl]; [done|]. rewrite IH, (IH (if (8 <=? n) && (n <=? 11) then _ else _)).
  destruct (foldl _ None fs); [done|]. by destruct (_ && _).
Qed.

Lemma oneof_app a b : last_oneof (a ++ b) = match last_oneof b with Some f => Some f | None => last_oneof a end.
Proof. unfold last_oneof at 1. rewrite foldl_app. apply foldl_oneof. Qed.

Lemma oneof_uint n z : n < 8 -> last_oneof (uint n z) = None.
Proof. intros Hn. unfold uint, last_oneof. destruct (z =? 0); cbn [foldl]; [done|]. by rewrite (proj2 (Z.leb_gt 8 n)). Qed.

Section Found.
Context `{Protobuf}.

Definition detector_of_fields (fs : list field) : option pb_detector_metadata :=
  match last_oneof fs with
  | None => Some dm_not_set
  | Some (num, WBytes bs) =>
      fs' ← parse bs;
      if num =? 8 then Some (dm_gf (gf_of_fields fs'))
      else if num =? 9 then Some (dm_jf (get_uint 1 fs'))
      else if num =? 10 then Some (dm_eg (get_uint 1 fs'))
      else Some (dm_pco (pco_of_fields fs'))
  | Some _ => None
  end.

Definition image_of_fields (fs : list field) : option pb_image :=
  dt ← of_number dtype_number all_dtypes (get_uint 5 fs);
  st ← of_number status_number all_statuses (get_uint 6 fs);
  cp ← of_number compression_number all_compressions (get_uint 7 fs);
  d ← detector_of_fields fs;
  Some {| pb_image_id := get_uint 1 fs; pb_height := get_uint 2 fs; pb_width := get_uint 3 fs; pb_size := get_uint 4 fs;
          pb_dt := dt; pb_st := st; pb_cp := cp; pb_det := d |}.

Lemma lookup_detector num d : num < 8 -> lookup_field num (detector_fields d) = None.
Proof using Type. intros Hn. destruct d; cbn [detector_fields]; [done|..]; unfold sub, lookup_field; cbn [foldl]; by rewrite (proj2 (Z.eqb_neq _ _)) by lia. Qed.

(** The field of a number is found in the message. *)
Lemma image_uint num m : 1 <= num <= 7 -> get_uint num (image_fields m) =
  nth (Z.to_nat (num - 1)) [pb_image_id m; pb_height m; pb_width m; pb_size m; dtype_number (pb_dt m); status_number (pb_st m); compression_number (pb_cp m)] 0.
Proof using Type.
  intros Hn. unfold get_uint, image_fields. rewrite !lookup_app, lookup_detector, !lookup_uint by lia.
  assert (Hc : num ∈ seqZ 1 7) by (apply elem_of_seqZ; lia). change (seqZ 1 7) with [1; 2; 3; 4; 5; 6; 7] in Hc.
  repeat (apply elem_of_cons in Hc as [->|Hc]; [cbn [Z.eqb Pos.eqb andb nth Z.to_nat Z.sub];
    match goal with |- context [?z =? 0] => destruct (Z.eqb_spec z 0) as [E|E] end; cbn [negb]; cbn; by rewrite ?E|]).
  by apply elem_of_nil in Hc.
Qed.

Lemma image_found n m : 0 <= n <= 10000 -> image_typed n m -> image_of_fields (image_fields m) = Some m.
Proof using Type.
  intros Hn Hm.
  assert (U1 : get_uint 1 (image_fields m) = pb_image_id m) by exact (image_uint 1 m ltac:(lia)).
  assert (U2 : get_uint 2 (image_fields m) = pb_height m) by exact (image_uint 2 m ltac:(lia)).
  assert (U3 : get_uint 3 (image_fields m) = pb_width m) by exact (image_uint 3 m ltac:(lia)).
  assert (U4 : get_uint 4 (image_fields m) = pb_size m) by exact (image_uint 4 m ltac:(lia)).
  assert (U5 : get_uint 5 (image_fields m) = dtype_number (pb_dt m)) by exact (image_uint 5 m ltac:(lia)).
  assert (U6 : get_uint 6 (image_fields m) = status_number (pb_st m)) by exact (image_uint 6 m ltac:(lia)).
  assert (U7 : get_uint 7 (image_fields m) = compression_number (pb_cp m)) by exact (image_uint 7 m ltac:(lia)).
  assert (Hdt : of_number dtype_number all_dtypes (dtype_number (pb_dt m)) = Some (pb_dt m)) by (by destruct (pb_dt m)).
  assert (Hst : of_number status_number all_statuses (status_number (pb_st m)) = Some (pb_st m)) by (by destruct (pb_st m)).
  assert (Hcp : of_number compression_number all_compressions (compression_number (pb_cp m)) = Some (pb_cp m)) by (by destruct (pb_cp m)).
  assert (Hd : detector_of_fields (image_fields m) = Some (pb_det m)).
  { destruct Hm as (_ & _ & _ & _ & Hd). unfold detector_of_fields, image_fields. rewrite !oneof_app, !oneof_uint by lia.
    destruct (pb_det m) as [|g|z|z|p]; cbn [detector_fields last_oneof sub foldl]; [done|..]; cbn [Z.leb Z.compare Pos.compare Pos.compare_cont andb].
    - rewrite parse_serialize by (by apply gf_fields_ok). cbn. by rewrite gf_found.
    - rewrite parse_serialize by (apply uint_ok; [lia|exact Hd]). cbn. unfold get_uint. rewrite lookup_uint. cbn. by destruct (Z.eqb_spec z 0) as [->|].
    - rewrite parse_serialize by (apply uint_ok; [lia|exact Hd]). cbn. unfold get_uint. rewrite lookup_uint. cbn. by destruct (Z.eqb_spec z 0) as [->|].
    - rewrite parse_serialize by (by apply (pco_fields_ok n); [lia|]). cbn. by rewrite pco_found. }
  unfold image_of_fields. rewrite U1, U2, U3, U4, U5, U6, U7, Hdt, Hst, Hcp, Hd. by destruct m.
Qed.

(** The metadata of an image is what the receiver parses. *)
Lemma image_received n m : 0 <= n <= 10000 -> image_typed n m -> (fs ← parse (serialize (image_fields m)); image_of_fields fs) = Some m.
Proof using Type.
  intros Hn Hm. rewrite parse_serialize by (by apply (image_fields_ok n)). cbn. by apply (image_found n).
Qed.
End Found.

(** ** An encoding *)

Fixpoint varint_encode (fuel : nat) (z : Z) : list Z :=
  match fuel with
  | O => [z]
  | S fuel' => if z <? 128 then [z] else z mod 128 + 128 :: varint_encode fuel' (z / 128)
  end.

Fixpoint varint_decode (fuel : nat) (bs : list Z) : option (Z * list Z) :=
  match bs with
  | [] => None
  | b :: rest =>
      if b <? 128 then Some (b, rest)
      else match fuel with
           | O => None
           | S fuel' => match varint_decode fuel' rest with Some (v, rest') => Some (b - 128 + 128 * v, rest') | None => None end
           end
  end.

Definition field_encode (f : field) : list Z :=
  let '(num, w) := f in
  varint_encode 9 (tag num w) ++ match w with WVarint z => varint_encode 9 z | WBytes bs => varint_encode 9 (zlen bs) ++ bs end.

Definition plain_serialize (fs : list field) : list Z := concat (field_encode <$> fs).

Fixpoint fields_decode (fuel : nat) (bs : list Z) : option (list field) :=
  match bs, fuel with
  | [], _ => Some []
  | _, O => None
  | _, S fuel' =>
      '(t, bs1) ← varint_decode 9 bs;
      '(x, bs2) ← varint_decode 9 bs1;
      if t mod 8 =? 0 then fs ← fields_decode fuel' bs2; Some ((t / 8, WVarint x) :: fs)
      else if zlen bs2 <? x then None
      else fs ← fields_decode fuel' (drop (Z.to_nat x) bs2); Some ((t / 8, WBytes (take (Z.to_nat x) bs2)) :: fs)
  end.

Definition plain_parse_fields (bs : list Z) : option (list field) := fields_decode (length bs) bs.

Lemma varint_fuel n z : 0 <= z < 2 ^ (7 * Z.of_nat (S n) + 1) -> z / 128 < 2 ^ (7 * Z.of_nat n + 1).
Proof.
  intros Hz. apply Z.div_lt_upper_bound; [lia|]. replace (7 * Z.of_nat (S n) + 1) with (7 + (7 * Z.of_nat n + 1)) in Hz by lia.
  rewrite Z.pow_add_r in Hz by lia. change (2 ^ 7) with 128 in Hz. lia.
Qed.

Lemma varint_roundtrip n z rest : 0 <= z < 2 ^ (7 * Z.of_nat n + 1) ->
  varint_decode n (varint_encode n z ++ rest) = Some (z, rest) /\ bytes (varint_encode n z) /\ zlen (varint_encode n z) = varint_groups n z.
Proof.
  revert z. induction n as [|n IH]; intros z Hz; cbn [varint_encode varint_groups].
  - change (2 ^ (7 * Z.of_nat 0 + 1)) with 2 in Hz. cbn [app varint_decode]. rewrite (proj2 (Z.ltb_lt z 128)) by lia.
    split_and!; [done|repeat constructor; lia|done].
  - destruct (Z.ltb_spec z 128) as [Hl|Hg]; cbn [app varint_decode].
    + rewrite (proj2 (Z.ltb_lt z 128)) by lia. split_and!; [done|repeat constructor; lia|done].
    + pose proof (varint_fuel n z Hz). pose proof (Z.mod_pos_bound z 128 ltac:(lia)). pose proof (Z.div_mod z 128 ltac:(lia)).
      destruct (IH (z / 128)) as (E & Hb & Hs); [split; [apply Z.div_pos; lia|lia]|].
      rewrite (proj2 (Z.ltb_ge (z mod 128 + 128) 128)) by lia. rewrite E. split_and!.
      * do 2 f_equal. lia.
      * constructor; [lia|done].
      * rewrite zlen_cons. lia.
Qed.

(** Integers of 64 bits. *)
Lemma varint64 z rest : 0 <= z < 2 ^ 64 ->
  varint_decode 9 (varint_encode 9 z ++ rest) = Some (z, rest) /\ bytes (varint_encode 9 z) /\ zlen (varint_encode 9 z) = varint_size z.
Proof. intros Hz. apply (varint_roundtrip 9). exact Hz. Qed.

Lemma tag_range num w : 1 <= num < 2 ^ 29 -> 0 <= tag num w < 2 ^ 64 /\ tag num w / 8 = num /\ (tag num w mod 8 =? 0) = match w with WVarint _ => true | _ => false end.
Proof.
  intros Hn. unfold tag. split; [destruct w; lia|]. destruct (div_mod_at 8 num (match w with WVarint _ => 0 | WBytes _ => 2 end)) as [-> ->]; [destruct w; lia|].
  by destruct w.
Qed.

Lemma field_encode_ok f : field_ok f -> bytes (field_encode f) /\ zlen (field_encode f) = field_size f /\ field_encode f <> [].
Proof.
  destruct f as [num w]. intros (Hn & Hw). cbn [field_encode field_size]. destruct (tag_range num w Hn) as (Ht & _).
  destruct (varint64 (tag num w) [] Ht) as (_ & Hb & Hs).
  assert (Hr : bytes (match w with WVarint z => varint_encode 9 z | WBytes bs => varint_encode 9 (zlen bs) ++ bs end) /\
    zlen (match w with WVarint z => varint_encode 9 z | WBytes bs => varint_encode 9 (zlen bs) ++ bs end) =
      match w with WVarint z => varint_size z | WBytes bs => varint_size (zlen bs) + zlen bs end).
  { destruct w as [z|bs]; [by destruct (varint64 z [] Hw)|]. destruct Hw as [Hbs Hl]. pose proof (zlen_nonneg bs).
    destruct (varint64 (zlen bs) []) as (_ & Hb' & Hs'); [lia|]. split; [by apply Forall_app_2|]. rewrite zlen_app. lia. }
  destruct Hr as [Hr1 Hr2]. split; [by apply Forall_app_2|]. split; [rewrite zlen_app; lia|].
  intros E. apply (f_equal zlen) in E. rewrite zlen_app in E. pose proof (varint_size_bound (tag num w)).
  pose proof (zlen_nonneg (match w with WVarint z => varint_encode 9 z | WBytes bs => varint_encode 9 (zlen bs) ++ bs end)).
  change (zlen []) with 0 in E. lia.
Qed.

Lemma fields_roundtrip fs : Forall field_ok fs -> forall fuel, (length (plain_serialize fs) <= fuel)%nat -> fields_decode fuel (plain_serialize fs) = Some fs.
Proof.
  unfold plain_serialize. induction 1 as [|[num w] fs Hf Hfs IH]; intros fuel Hl; [by destruct fuel|]. cbn [fmap list_fmap concat] in *.
  pose proof (field_encode_ok _ Hf) as (_ & _ & Hne). rewrite length_app in Hl.
  destruct fuel as [|fuel]; [destruct (field_encode (num, w)); cbn in Hl; [done|lia]|].
  assert (Hl' : (length (concat (field_encode <$> fs)) <= fuel)%nat) by (destruct (field_encode (num, w)); cbn in Hl; [done|lia]).
  destruct Hf as (Hn & Hw). destruct (tag_range num w Hn) as (Ht & Hd & Hm).
  assert (Es : forall bs, bs <> [] -> fields_decode (S fuel) bs =
    ('(t, bs1) ← varint_decode 9 bs; '(x, bs2) ← varint_decode 9 bs1;
     if t mod 8 =? 0 then fs ← fields_decode fuel bs2; Some ((t / 8, WVarint x) :: fs)
     else if zlen bs2 <? x then None
     else fs ← fields_decode fuel (drop (Z.to_nat x) bs2); Some ((t / 8, WBytes (take (Z.to_nat x) bs2)) :: fs))) by (by intros []).
  rewrite Es by (destruct (field_encode (num, w)); done). clear Es. cbn [field_encode]. rewrite <- app_assoc.
  rewrite (proj1 (varint64 (tag num w) _ Ht)). cbn [mbind option_bind]. destruct w as [z|bs].
  - rewrite (proj1 (varint64 z _ Hw)). cbn [mbind option_bind]. rewrite Hm, IH, Hd by done. done.
  - destruct Hw as [Hb Hz]. pose proof (zlen_nonneg bs). rewrite <- app_assoc, (proj1 (varint64 (zlen bs) _ ltac:(lia))). cbn [mbind option_bind].
    rewrite Hm, zlen_app. pose proof (zlen_nonneg (concat (field_encode <$> fs))). rewrite (proj2 (Z.ltb_ge _ _)) by lia.
    unfold zlen. rewrite Nat2Z.id, drop_app_length, take_app_length, IH, Hd by done. done.
Qed.

#[program]
Definition plain_protobuf : Protobuf := {| serialize := plain_serialize; parse := plain_parse_fields |}.
Next Obligation.
  intros fs Hfs. unfold plain_serialize. induction Hfs as [|f fs Hf Hfs IH]; cbn; [constructor|]. apply Forall_app_2; [|done]. by apply field_encode_ok.
Qed.
Next Obligation.
  intros fs Hfs. unfold plain_serialize, message_size. induction Hfs as [|f fs Hf Hfs IH]; cbn [fmap list_fmap concat foldr]; [done|].
  rewrite zlen_app, IH. destruct (field_encode_ok f Hf) as (_ & -> & _). done.
Qed.
Next Obligation. intros fs Hfs. unfold plain_parse_fields. by apply fields_roundtrip. Qed.

(** An image of the GigaFRoST, and what follows from the theorem for it. *)
Definition demo_gf_image : pb_image :=
  {| pb_image_id := 300; pb_height := 2016; pb_width := 2016; pb_size := 8128512; pb_dt := dt_uint16; pb_st := st_good_image; pb_cp := cp_none;
     pb_det := dm_gf {| gf_scan_id := 7; gf_scan_time := 100; gf_sync_time := 5; gf_frame_timestamp := 1000000; gf_exposure_time := 400000; gf_store_image := true |} |}.

Lemma messages_fit_buffers_witness :
  @serialize plain_protobuf (@image_fields plain_protobuf demo_gf_image) =
    [8; 172; 2; 16; 224; 15; 24; 224; 15; 32; 128; 144; 240; 3; 40; 2; 48; 1; 66; 16; 8; 7; 16; 100; 24; 5; 32; 192; 132; 61; 40; 128; 181; 24; 48; 1] /\
  @fits_buffer plain_protobuf (@image_fields plain_protobuf demo_gf_image) /\
  @fits_buffer plain_protobuf (@action_fields plain_protobuf (create_file_cmd "/data/run"%string 1001)).
Proof.
  split; [vm_compute; reflexivity|]. destruct (@messages_fit_buffers plain_protobuf) as (Hi & Hc & _). split.
  - apply Hi; [repeat split; cbn; unfold in_u; lia|discriminate].
  - apply Hc; [unfold in_i32; lia|cbn; lia].
Defined.

(** ** The receivers *)

(** A path of more than 512 bytes, which the file system allows: both writers read behind their buffers. *)
Lemma long_path_undefined `{Protobuf} {ds} `{HDF5 ds} seteuid config suffix rb mem clock path id (st : det_writer ds) :
  512 < Z.of_nat (String.length path) < 2 ^ 30 -> in_i32 id ->
  det_writer_step seteuid config suffix rb mem clock (Some (zlen (serialize (action_fields (create_file_cmd path id))), create_file_cmd path id)) st =
    Undef out_of_bounds.
Proof.
  intros Hp Hid. assert (Hu : 0 <= u64 id < 2 ^ 64) by (unfold u64, wrap; apply Z.mod_pos_bound; lia).
  assert (Hok : Forall field_ok (create_file_fields path id)) by (apply Forall_app_2; [apply text_ok; lia|apply uint_ok; [lia|done]]).
  assert (Hs : 512 < message_size (create_file_fields path id) < 2 ^ 31).
  { unfold create_file_fields. rewrite message_size_app. pose proof (uint64_size 2 (u64 id) ltac:(lia)). pose proof (text_size 1 path ltac:(lia)).
    split; [|lia]. destruct path as [|c path]; [cbn in Hp; lia|]. cbn [text message_size foldr field_size]. rewrite length_string_bytes.
    pose proof (varint_size_bound (tag 1 (WBytes (string_bytes (String c path))))). pose proof (varint_size_bound (Z.of_nat (String.length (String c path)))). lia. }
  assert (Hz : 512 < zlen (serialize (action_fields (create_file_cmd path id)))).
  { rewrite serialize_size by (cbn [action_fields]; apply sub_ok; [lia|done|lia]). cbn [action_fields sub message_size foldr field_size].
    rewrite serialize_size by done. pose proof (varint_size_bound (tag 1 (WBytes (serialize (create_file_fields path id))))).
    pose proof (varint_size_bound (message_size (create_file_fields path id))). lia. }
  unfold det_writer_step. rewrite (proj2 (Z.ltb_lt 0 _)) by lia. by rewrite (proj2 (Z.ltb_lt 512 _)) by lia.
Qed.

(** The requests of a replay: the first one, and those behind an image. *)
Lemma replay_requests_fit `{Protobuf} settings id : in_u 64 (start_image_id settings) -> 0 <= id < 2 ^ 64 - 1 ->
  fits_buffer (request_fields {| rq_image_id := start_image_id settings; rq_new_request := true |}) /\ fits_buffer (request_fields (follow_up id)).
Proof.
  intros Hs Hid. split; apply request_fits; cbn; [done|by left|rewrite u64_small by lia; unfold in_u; lia|rewrite u64_small by lia; lia].
Qed.

(** Behind the last image id the request is empty: the reader takes it for a timeout and the driver waits for its answer. *)
Lemma last_request_empty `{Protobuf} : message_size (request_fields (follow_up (2 ^ 64 - 1))) = 0.
Proof. reflexivity. Qed.
