(* ===== verification/Simd.v ===== *)
(** * Bitshuffle on vector units

    [src/source/external/bitshuffle/bitshuffle_core.c]: the routines for SSE2, AVX2 and NEON.  A register
    is the list of its bytes.  The routines for SSE2 and NEON are the same program over two instruction
    sets: they are written once, over the class [VectorUnit], whose instances are the intrinsics of the two
    sets.  All routines are shown to store what the portable routines of [Bitshuffle] store.

    The instructions that only move bytes are polymorphic in what they move.  What a sequence of
    them does to memory is found by running it on the places of the bytes instead of the bytes. *)

From S2P Require Import Prelude Scatter Bitshuffle.

(** ** Registers *)

(** [n] pairs of lanes of [k] bytes, alternately from [a] and [b]. *)
Fixpoint interleave {A} (k n : nat) (a b : list A) : list A :=
  match n with
  | O => []
  | S n' => take k a ++ take k b ++ interleave k n' (drop k a) (drop k b)
  end.

(** [_mm_unpacklo_epi8] and the others, for lanes of [k] bytes: the low or the high half of the registers. *)
Definition mm_unpacklo {A} (k : nat) (a b : list A) : list A := interleave k (8 / k) a b.
Definition mm_unpackhi {A} (k : nat) (a b : list A) : list A := interleave k (8 / k) (drop 8 a) (drop 8 b).

(** [_mm256_unpacklo_epi8] and the others work on the two halves of 128 bits separately. *)
Definition mm256_unpacklo {A} (k : nat) (a b : list A) : list A :=
  mm_unpacklo k (take 16 a) (take 16 b) ++ mm_unpacklo k (drop 16 a) (drop 16 b).
Definition mm256_unpackhi {A} (k : nat) (a b : list A) : list A :=
  mm_unpackhi k (take 16 a) (take 16 b) ++ mm_unpackhi k (drop 16 a) (drop 16 b).

(** [_mm256_permute2x128_si256]: two bits of [imm] choose each half; the bits that clear a half are not used. *)
Definition mm256_permute2x128 {A} (a b : list A) (imm : Z) : list A :=
  let half (sel : Z) := if sel =? 0 then take 16 a else if sel =? 1 then drop 16 a
                        else if sel =? 2 then take 16 b else drop 16 b in
  half (Z.land imm 3) ++ half (Z.land (Z.shiftr imm 4) 3).

(** [_mm_slli_epi16 (v, 1)]: lanes of 16 bits, for registers of any length. *)
Fixpoint slli_epi16 (v : list Z) : list Z :=
  match v with
  | lo :: hi :: v' =>
      let w := u16 (Z.shiftl (lo + 2 ^ 8 * hi) 1) in w mod 2 ^ 8 :: w / 2 ^ 8 :: slli_epi16 v'
  | _ => []
  end.

(** [_mm_movemask_epi8]: the most significant bits of the bytes. *)
Fixpoint movemask_epi8 (v : list Z) : Z :=
  match v with
  | [] => 0
  | b :: v' => Z.b2z (Z.testbit b 7) + 2 * movemask_epi8 v'
  end.

(** [move_byte_mask_neon]: bit [i] of the result is the most significant bit of byte [i]. *)
Definition move_byte_mask_neon (input : list Z) : Z :=
  foldl (fun m i => Z.lor m (Z.shiftl (Z.shiftr (Z.land (nth_byte input i) 0x80) 7) i)) 0 (seqZ 0 16).

Section Natural.
Context {A B : Type} (f : A -> B).

Lemma interleave_fmap k n a b : interleave k n (f <$> a) (f <$> b) = f <$> interleave k n a b.
Proof.
  revert a b. induction n as [|n IH]; intros a b; cbn [interleave]; [done|].
  by rewrite <- !fmap_take, <- !fmap_drop, IH, !fmap_app.
Qed.

Lemma mm_unpacklo_fmap k a b : mm_unpacklo k (f <$> a) (f <$> b) = f <$> mm_unpacklo k a b.
Proof. apply interleave_fmap. Qed.

Lemma mm_unpackhi_fmap k a b : mm_unpackhi k (f <$> a) (f <$> b) = f <$> mm_unpackhi k a b.
Proof. unfold mm_unpackhi. by rewrite <- !fmap_drop, interleave_fmap. Qed.

Lemma mm256_unpacklo_fmap k a b : mm256_unpacklo k (f <$> a) (f <$> b) = f <$> mm256_unpacklo k a b.
Proof. unfold mm256_unpacklo. by rewrite <- !fmap_take, <- !fmap_drop, !mm_unpacklo_fmap, fmap_app. Qed.

Lemma mm256_unpackhi_fmap k a b : mm256_unpackhi k (f <$> a) (f <$> b) = f <$> mm256_unpackhi k a b.
Proof. unfold mm256_unpackhi. by rewrite <- !fmap_take, <- !fmap_drop, !mm_unpackhi_fmap, fmap_app. Qed.

Lemma mm256_permute2x128_fmap a b imm : mm256_permute2x128 (f <$> a) (f <$> b) imm = f <$> mm256_permute2x128 a b imm.
Proof. unfold mm256_permute2x128. rewrite fmap_app. f_equal; repeat case_match; by rewrite ?fmap_take, ?fmap_drop. Qed.
End Natural.

#[export] Hint Rewrite @mm_unpacklo_fmap @mm_unpackhi_fmap @mm256_unpacklo_fmap @mm256_unpackhi_fmap
  @mm256_permute2x128_fmap : natural.

(** ** Shifts and masks *)

Lemma pairs_ind {A} (P : list A -> Prop) :
  P [] -> (forall a, P [a]) -> (forall a b l, P l -> P (a :: b :: l)) -> forall l, P l.
Proof. intros H0 H1 H2. fix IH 1. intros [|a [|b l]]; [exact H0|exact (H1 a)|exact (H2 a b l (IH l))]. Qed.

Lemma slli_length v : Nat.even (length v) = true -> length (slli_epi16 v) = length v.
Proof. induction v as [|a|a b v IH] using pairs_ind; intros Hv; [done|done|]. cbn. f_equal. f_equal. by apply IH. Qed.

Definition byte (x : Z) : Prop := 0 <= x < 2 ^ 8.

Lemma slli_lookup v (i : nat) x : bytes v -> Nat.even (length v) = true -> v !! i = Some x ->
  exists y, slli_epi16 v !! i = Some y /\ byte y /\ forall b, 1 <= b < 8 -> Z.testbit y b = Z.testbit x (b - 1).
Proof.
  revert i. induction v as [|lo|lo hi v IH] using pairs_ind; intros i Hb He Hi; [done|done|].
  apply Forall_cons_1 in Hb as [Hlo Hb]. apply Forall_cons_1 in Hb as [Hhi Hb].
  assert (Hw : forall k, 1 <= k < 16 -> Z.testbit (u16 (Z.shiftl (lo + 2 ^ 8 * hi) 1)) k = Z.testbit (Z.lor lo (Z.shiftl hi 8)) (k - 1)).
  { intros k Hk. unfold u16, wrap. rewrite Z.mod_pow2_bits_low, Z.shiftl_spec by lia. change (2 ^ 8) with 256. by rewrite add_byte. }
  cbn [slli_epi16]. set (w := u16 (Z.shiftl (lo + 2 ^ 8 * hi) 1)) in *.
  assert (Hwr : 0 <= w < 2 ^ 16) by (apply Z.mod_pos_bound; lia).
  destruct i as [|[|i]]; cbn in Hi.
  - injection Hi as <-. eexists. split; [done|]. split; [apply Z.mod_pos_bound; lia|]. intros b Hb'.
    rewrite Z.mod_pow2_bits_low, Hw, Z.lor_spec, Z.shiftl_spec by lia. rewrite (Z.testbit_neg_r hi) by lia. apply orb_false_r.
  - injection Hi as <-. eexists. split; [done|].
    split; [split; [apply Z.div_pos; lia|apply Z.div_lt_upper_bound; lia]|]. intros b Hb'.
    rewrite <- Z.shiftr_div_pow2, Z.shiftr_spec, Hw, Z.lor_spec, Z.shiftl_spec by lia.
    rewrite testbit_byte_high by lia. cbn [orb]. f_equal. lia.
  - cbn. by apply IH.
Qed.

Lemma slli_bytes v : bytes v -> Nat.even (length v) = true -> bytes (slli_epi16 v).
Proof.
  intros Hb He. apply Forall_lookup. intros i y Hy.
  destruct (lookup_lt_is_Some_2 v i) as [x Hx]; [rewrite <- (slli_length v) by done; by eapply lookup_lt_Some|].
  destruct (slli_lookup v i x) as (y' & E & Hy' & _); try done. rewrite Hy in E. by simplify_eq.
Qed.

(** [k] shifts. *)
Fixpoint shifted (k : nat) (v : list Z) : list Z :=
  match k with O => v | S k' => shifted k' (slli_epi16 v) end.

Lemma shifted_lookup k v (i : nat) x : bytes v -> Nat.even (length v) = true -> v !! i = Some x ->
  length (shifted k v) = length v /\
  exists y, shifted k v !! i = Some y /\ byte y /\ forall b, Z.of_nat k <= b < 8 -> Z.testbit y b = Z.testbit x (b - Z.of_nat k).
Proof.
  revert v x. induction k as [|k IH]; intros v x Hb He Hi.
  - split; [done|]. exists x. split; [done|]. split; [exact (Forall_lookup_1 _ _ _ _ Hb Hi)|]. intros b _. f_equal. cbn. lia.
  - cbn [shifted]. destruct (slli_lookup v i x) as (y & Ey & Hy & Hbits); try done.
    destruct (IH (slli_epi16 v) y) as (Hl & z & Ez & Hz & Hzb); [by apply slli_bytes|by rewrite slli_length|done|].
    split; [by rewrite Hl, slli_length|]. exists z. split; [done|]. split; [done|]. intros b Hb'.
    rewrite Hzb, Hbits by lia. f_equal. lia.
Qed.

Lemma shifted_S k v : shifted (S k) v = slli_epi16 (shifted k v).
Proof. revert v. induction k as [|k IH]; intros v; [done|]. cbn [shifted] in *. apply IH. Qed.

Lemma shifted_length k v : Nat.even (length v) = true -> length (shifted k v) = length v.
Proof. revert v. induction k as [|k IH]; intros v He; [done|]. cbn [shifted]. rewrite IH, slli_length; [done|done|by rewrite slli_length]. Qed.

Lemma movemask_range v : 0 <= movemask_epi8 v < 2 ^ zlen v.
Proof.
  induction v as [|b v IH]; cbn [movemask_epi8]; [done|]. rewrite zlen_cons, Z.pow_add_r by (pose proof (zlen_nonneg v); lia).
  destruct (Z.testbit b 7); cbn [Z.b2z]; lia.
Qed.

Lemma testbit_movemask v (i : nat) x : v !! i = Some x -> Z.testbit (movemask_epi8 v) (Z.of_nat i) = Z.testbit x 7.
Proof.
  revert i. induction v as [|b v IH]; intros [|i] Hi; try done; cbn [movemask_epi8]; cbn in Hi.
  - injection Hi as ->. rewrite Z.add_comm. by rewrite Z.testbit_0_r.
  - rewrite Z.add_comm. rewrite Nat2Z.inj_succ, Z.testbit_succ_r by lia. by apply IH.
Qed.

Lemma land_128 b : Z.shiftr (Z.land b 0x80) 7 = Z.b2z (Z.testbit b 7).
Proof.
  apply Z.bits_inj'. intros k Hk. rewrite Z.shiftr_spec, Z.land_spec by done.
  destruct (decide (k = 0)) as [->|Hne].
  - change (Z.testbit 128 (0 + 7)) with true. rewrite andb_true_r. change (0 + 7) with 7. by destruct (Z.testbit b 7).
  - replace (Z.testbit 128 (k + 7)) with false by (symmetry; apply (testbit_byte_high 128); lia).
    rewrite andb_false_r. destruct (Z.testbit b 7); cbn; [|by rewrite Z.bits_0]. symmetry. apply Z.bits_above_log2; [done|]. cbn. lia.
Qed.

Lemma movemask_app a b : movemask_epi8 (a ++ b) = movemask_epi8 a + 2 ^ zlen a * movemask_epi8 b.
Proof.
  induction a as [|x a IH]; [cbn; change (zlen []) with 0; lia|]. cbn [app movemask_epi8]. rewrite IH, zlen_cons.
  rewrite Z.pow_add_r by (pose proof (zlen_nonneg a); lia). lia.
Qed.

Lemma lor_shiftl_add m t n : 0 <= n -> 0 <= m < 2 ^ n -> Z.lor m (Z.shiftl t n) = m + 2 ^ n * t.
Proof.
  intros Hn Hm. assert (H0 : Z.land m (Z.shiftl t n) = 0).
  { apply Z.bits_inj_0. intros k. rewrite Z.land_spec. destruct (Z.lt_ge_cases k n).
    - rewrite Z.shiftl_spec_low by lia. apply andb_false_r.
    - rewrite <- (Z.mod_small m (2 ^ n)) by lia. by rewrite Z.mod_pow2_bits_high by lia. }
  rewrite <- Z.lxor_lor, <- Z.add_nocarry_lxor by done. rewrite Z.shiftl_mul_pow2 by lia. lia.
Qed.

(** The function of the source computes the mask. *)
Lemma neon_mask v : length v = 16%nat -> move_byte_mask_neon v = movemask_epi8 v.
Proof.
  intros Hl. unfold move_byte_mask_neon. set (g := fun m i => _).
  assert (H : forall n : nat, (n <= 16)%nat -> foldl g 0 (seqZ 0 (Z.of_nat n)) = movemask_epi8 (take n v)).
  { induction n as [|n IH]; intros Hn; [done|]. destruct (lookup_lt_is_Some_2 v n) as [x Hx]; [lia|].
    rewrite (take_S_r _ _ _ Hx), movemask_app. replace (Z.of_nat (S n)) with (Z.of_nat n + 1) by lia.
    rewrite seqZ_app, foldl_app, IH by lia. rewrite Z.add_0_l. change (seqZ (Z.of_nat n) 1) with [0 + Z.of_nat n]. rewrite Z.add_0_l.
    cbn [foldl]. unfold g. unfold nth_byte. rewrite Nat2Z.id, (list_lookup_total_correct _ _ _ Hx), land_128.
    assert (Hz : zlen (take n v) = Z.of_nat n) by (unfold zlen; rewrite length_take; lia).
    pose proof (movemask_range (take n v)) as Hr. rewrite Hz in *. cbn [movemask_epi8]. rewrite Z.mul_0_r, Z.add_0_r.
    rewrite lor_shiftl_add by lia. lia. }
  transitivity (movemask_epi8 (take 16 v)); [apply (H 16%nat); lia|by rewrite take_ge by lia].
Qed.

(** ** The interface of a unit with registers of 16 bytes *)

Class VectorUnit := {
  zip_lo : forall {A}, nat -> list A -> list A -> list A;
  zip_hi : forall {A}, nat -> list A -> list A -> list A;
  shift16 : list Z -> list Z;
  mask : list Z -> Z;
  zip_lo_law : forall A k (a b : list A), zip_lo k a b = mm_unpacklo k a b;
  zip_hi_law : forall A k (a b : list A), zip_hi k a b = mm_unpackhi k a b;
  shift16_law : forall v, length v = 16%nat -> shift16 v = slli_epi16 v;
  mask_law : forall v, length v = 16%nat -> mask v = movemask_epi8 v }.

(** NEON: [vzip1q_s8] and [vzip2q_s8], and the same for wider lanes. *)
Definition vzip1q {A} (k : nat) (a b : list A) : list A := interleave k (8 / k) (take 8 a) (take 8 b).
Definition vzip2q {A} (k : nat) (a b : list A) : list A := interleave k (8 / k) (drop 8 a) (drop 8 b).

Lemma interleave_take {A} k n m (a b : list A) : (k * n <= m)%nat -> interleave k n (take m a) (take m b) = interleave k n a b.
Proof.
  revert m a b. induction n as [|n IH]; intros m a b Hm; cbn [interleave]; [done|].
  rewrite !take_take, !skipn_firstn_comm, IH by lia. by replace (k `min` m)%nat with k by lia.
Qed.

Definition sse2 : VectorUnit.
Proof.
  refine {| zip_lo A k a b := mm_unpacklo k a b; zip_hi A k a b := mm_unpackhi k a b;
            shift16 := slli_epi16; mask := movemask_epi8 |}; done.
Defined.

Definition neon : VectorUnit.
Proof.
  refine {| zip_lo A k a b := vzip1q k a b; zip_hi A k a b := vzip2q k a b;
            shift16 := slli_epi16; mask := move_byte_mask_neon |}.
  - intros A k a b. apply interleave_take. destruct k; [lia|]. apply Nat.Div0.mul_div_le.
  - done.
  - done.
  - apply neon_mask.
Defined.

(** ** The routines *)

(** Registers loaded from the given places. *)
Fixpoint loads (w : Z) (inp : list Z) (places : list Z) : outcome (list (list Z)) :=
  match places with
  | [] => Ret []
  | p :: ps => let! v := mem_read inp p w in let! vs := loads w inp ps in Ret (v :: vs)
  end.

(** Registers, or parts of them, stored one after the other. *)
Definition stores (out : list Z) (l : list (Z * list Z)) : outcome (list Z) :=
  foldO (fun out x => mem_write out (fst x) (snd x)) l out.

Section Unit.
Context {U : VectorUnit}.

(** *** Bytes within elements *)

Definition net_16 {A} (v : list (list A)) : list (list A) :=
  match v with
  | [a0; b0] =>
      let a1 := zip_lo 1 a0 b0 in let b1 := zip_hi 1 a0 b0 in
      let a0 := zip_lo 1 a1 b1 in let b0 := zip_hi 1 a1 b1 in
      let a1 := zip_lo 1 a0 b0 in let b1 := zip_hi 1 a0 b0 in
      let a0 := zip_lo 1 a1 b1 in let b0 := zip_hi 1 a1 b1 in
      [a0; b0]
  | _ => []
  end.

Definition net_32 {A} (v : list (list A)) : list (list A) :=
  match v with
  | [a0; b0; c0; d0] =>
      let a1 := zip_lo 1 a0 b0 in let b1 := zip_hi 1 a0 b0 in
      let c1 := zip_lo 1 c0 d0 in let d1 := zip_hi 1 c0 d0 in
      let a0 := zip_lo 1 a1 b1 in let b0 := zip_hi 1 a1 b1 in
      let c0 := zip_lo 1 c1 d1 in let d0 := zip_hi 1 c1 d1 in
      let a1 := zip_lo 1 a0 b0 in let b1 := zip_hi 1 a0 b0 in
      let c1 := zip_lo 1 c0 d0 in let d1 := zip_hi 1 c0 d0 in
      let a0 := zip_lo 8 a1 c1 in let b0 := zip_hi 8 a1 c1 in
      let c0 := zip_lo 8 b1 d1 in let d0 := zip_hi 8 b1 d1 in
      [a0; b0; c0; d0]
  | _ => []
  end.

Definition net_64 {A} (v : list (list A)) : list (list A) :=
  match v with
  | [a0; b0; c0; d0; e0; f0; g0; h0] =>
      let a1 := zip_lo 1 a0 b0 in let b1 := zip_hi 1 a0 b0 in
      let c1 := zip_lo 1 c0 d0 in let d1 := zip_hi 1 c0 d0 in
      let e1 := zip_lo 1 e0 f0 in let f1 := zip_hi 1 e0 f0 in
      let g1 := zip_lo 1 g0 h0 in let h1 := zip_hi 1 g0 h0 in
      let a0 := zip_lo 1 a1 b1 in let b0 := zip_hi 1 a1 b1 in
      let c0 := zip_lo 1 c1 d1 in let d0 := zip_hi 1 c1 d1 in
      let e0 := zip_lo 1 e1 f1 in let f0 := zip_hi 1 e1 f1 in
      let g0 := zip_lo 1 g1 h1 in let h0 := zip_hi 1 g1 h1 in
      let a1 := zip_lo 4 a0 c0 in let b1 := zip_hi 4 a0 c0 in
      let c1 := zip_lo 4 b0 d0 in let d1 := zip_hi 4 b0 d0 in
      let e1 := zip_lo 4 e0 g0 in let f1 := zip_hi 4 e0 g0 in
      let g1 := zip_lo 4 f0 h0 in let h1 := zip_hi 4 f0 h0 in
      let a0 := zip_lo 8 a1 e1 in let b0 := zip_hi 8 a1 e1 in
      let c0 := zip_lo 8 b1 f1 in let d0 := zip_hi 8 b1 f1 in
      let e0 := zip_lo 8 c1 g1 in let f0 := zip_hi 8 c1 g1 in
      let g0 := zip_lo 8 d1 h1 in let h0 := zip_hi 8 d1 h1 in
      [a0; b0; c0; d0; e0; f0; g0; h0]
  | _ => []
  end.

(** The loop of the three routines, for elements of [e] bytes. *)
Definition trans_byte_elem_loop (e : Z) (net : list (list Z) -> list (list Z)) (inp out : list Z) (size : Z) : routine :=
  let! out := foldO (fun out ii =>
      let! v := loads 16 inp ((fun k => e * ii + k * 16) <$> seqZ 0 e) in
      stores out (zip ((fun k => k * size + ii) <$> seqZ 0 e) (net v)))
    (range_by 16 0 size) out in
  bshuf_trans_byte_elem_remainder inp out size e (size - size mod 16).

Definition trans_byte_elem_16 (inp out : list Z) (size : Z) : routine := trans_byte_elem_loop 2 net_16 inp out size.
Definition trans_byte_elem_32 (inp out : list Z) (size : Z) : routine := trans_byte_elem_loop 4 net_32 inp out size.
Definition trans_byte_elem_64 (inp out : list Z) (size : Z) : routine := trans_byte_elem_loop 8 net_64 inp out size.
End Unit.

(** [TRANS_ELEM_TYPE] for a type of [w] bytes. *)
Definition TRANS_ELEM_TYPE (inp out : list Z) (lda ldb w : Z) : outcome (list Z) :=
  let! out := foldO (fun out ii => foldO (fun out jj => foldO (fun out kk =>
      memcpy out ((jj * lda + ii + kk) * w) inp ((ii * ldb + kk * ldb + jj) * w) w)
    (seqZ 0 8) out) (seqZ 0 ldb) out) (range_by 8 0 lda) out in
  foldO (fun out ii => foldO (fun out jj =>
      memcpy out ((jj * lda + ii) * w) inp ((ii * ldb + jj) * w) w)
    (seqZ 0 ldb) out) (seqZ (lda - lda mod 8) (lda mod 8)) out.

Section UnitRoutines.
Context {U : VectorUnit} (malloc : Z -> option (list Z)).

(** The hierarchical transposition for elements of several words of [w] bytes; the result of the second
    transposition of elements is not examined. *)
Definition trans_byte_elem_words (w : Z) (words : list Z -> list Z -> Z -> routine) (inp out : list Z) (size elem_size : Z) : routine :=
  match malloc (size * elem_size) with
  | None => Ret (-1, out)
  | Some tmp_buf =>
      let nchunk_elem := elem_size / w in
      let! out := TRANS_ELEM_TYPE inp out size nchunk_elem w in
      let! '(count, tmp_buf) := words out tmp_buf (size * nchunk_elem) in
      let! '(_, out) := bshuf_trans_elem tmp_buf out w nchunk_elem size in
      Ret (count, out)
  end.

Definition trans_byte_elem (inp out : list Z) (size elem_size : Z) : routine :=
  if elem_size =? 1 then bshuf_copy inp out size elem_size
  else if elem_size =? 2 then trans_byte_elem_16 inp out size
  else if elem_size =? 4 then trans_byte_elem_32 inp out size
  else if elem_size =? 8 then trans_byte_elem_64 inp out size
  else if negb (elem_size mod 4 =? 0) then bshuf_trans_byte_elem_scal inp out size elem_size
  else if elem_size mod 8 =? 0 then trans_byte_elem_words 8 trans_byte_elem_64 inp out size elem_size
  else if elem_size mod 4 =? 0 then trans_byte_elem_words 4 trans_byte_elem_32 inp out size elem_size
  else trans_byte_elem_words 2 trans_byte_elem_16 inp out size elem_size.
End UnitRoutines.

(** ** What the routines store *)

(** A routine that fills the cells of [S] and returns [cnt]. *)
Definition fills (tgt : Z -> Z) (n : Z) (S : Z -> Prop) (cnt : Z) (f : list Z -> routine) : Prop :=
  forall m, zlen m = n -> exists m', f m = Ret (cnt, m') /\ zlen m' = n /\
    (forall i, 0 <= i < n -> S i -> m' !! Z.to_nat i = Some (tgt i)) /\
    (forall i, 0 <= i < n -> m' !! Z.to_nat i = Some (tgt i) \/ m' !! Z.to_nat i = m !! Z.to_nat i).

Section Fill.
Context (tgt : Z -> Z) (n : Z).

Lemma fills_paints S cnt f : fills tgt n S cnt f <-> paints tgt n S (fun m => let! '(_, o) := f m in Ret o) /\ forall m, zlen m = n -> exists o, f m = Ret (cnt, o).
Proof.
  split.
  - intros H. split; intros m Hm; destruct (H m Hm) as (m' & E & ?); [|by eexists]. exists m'. by rewrite E.
  - intros [H Hc] m Hm. destruct (H m Hm) as (m' & E & ?), (Hc m Hm) as (o & Eo). rewrite Eo in E. cbn in E. simplify_eq. by exists m'.
Qed.

Lemma fills_after S1 S2 cnt g f : paints tgt n S1 g -> fills tgt n S2 cnt f ->
  fills tgt n (fun i => S1 i \/ S2 i) cnt (fun m => let! m' := g m in f m').
Proof.
  intros Hg Hf m Hm. destruct (Hg m Hm) as (m1 & E1 & Hz1 & Hs1 & Hf1). destruct (Hf m1 Hz1) as (m2 & E2 & Hz2 & Hs2 & Hf2).
  exists m2. rewrite E1. cbn [obind]. split_and!; [done..| |].
  - intros i Hi [Hs|Hs]; [|by apply Hs2]. destruct (Hf2 i Hi) as [->| ->]; auto.
  - intros i Hi. destruct (Hf2 i Hi) as [->| ->]; auto.
Qed.

Lemma fills_ret S cnt g : paints tgt n S g -> fills tgt n S cnt (fun m => let! m' := g m in Ret (cnt, m')).
Proof. intros Hg m Hm. destruct (Hg m Hm) as (m1 & E1 & ?). exists m1. by rewrite E1. Qed.

Lemma fills_all S cnt f m : fills tgt n S cnt f -> (forall i, 0 <= i < n -> S i) -> zlen m = n -> f m = Ret (cnt, tgt <$> seqZ 0 n).
Proof.
  intros Hf HS Hm. apply fills_paints in Hf as [Hp Hc]. destruct (Hc m Hm) as (o & E).
  assert (Hp' : paints tgt n (fun _ => True) (fun m => let! '(_, o) := f m in Ret o)) by (eapply paints_weaken; [exact Hp|auto]).
  pose proof (paints_all tgt n _ m Hp' Hm) as E'. cbv beta in E'. rewrite E in *. cbn in E'. by simplify_eq.
Qed.

Lemma paints_skip : paints tgt n (fun _ => False) Ret.
Proof. intros m Hm. exists m. split_and!; try done. by right. Qed.

Lemma paints_vec loc v : 0 <= loc -> loc + zlen v <= n -> (forall r, 0 <= r < zlen v -> nth_byte v r = tgt (loc + r)) ->
  paints tgt n (fun i => loc <= i < loc + zlen v) (fun m => mem_write m loc v).
Proof.
  intros Hl Hn Hv m Hm. pose proof (zlen_nonneg v).
  destruct (paints_memcpy tgt n v loc 0 (zlen v)) with (m := m) as (m' & E & H'); try done; try lia.
  exists m'. split; [|done]. unfold memcpy in E. by rewrite mem_read_full in E.
Qed.

Lemma paints_stores l :
  (forall loc v, (loc, v) ∈ l -> 0 <= loc /\ loc + zlen v <= n /\ forall r, 0 <= r < zlen v -> nth_byte v r = tgt (loc + r)) ->
  paints tgt n (fun i => exists x, x ∈ l /\ fst x <= i < fst x + zlen (snd x)) (fun m => stores m l).
Proof.
  intros H. unfold stores. apply paints_loop. intros [loc v] Hx. destruct (H loc v Hx) as (? & ? & ?). by apply paints_vec.
Qed.
End Fill.

(** A register as the bytes at a place. *)
Definition reg (inp : list Z) (w p : Z) : list Z := (fun i => nth_byte inp (p + i)) <$> seqZ 0 w.

Lemma zlen_reg inp w p : 0 <= w -> zlen (reg inp w p) = w.
Proof. intros. unfold reg, zlen. rewrite length_fmap, length_seqZ. lia. Qed.

Lemma nth_reg inp w p i : 0 <= i < w -> nth_byte (reg inp w p) i = nth_byte inp (p + i).
Proof. intros Hi. exact (nth_painted (fun i => nth_byte inp (p + i)) w i Hi). Qed.

Lemma mem_read_reg inp p w : 0 <= p -> 0 <= w -> p + w <= zlen inp -> mem_read inp p w = Ret (reg inp w p).
Proof.
  intros Hp Hw Hz. rewrite mem_read_ret by done. f_equal. apply list_eq. intros k.
  destruct (decide (Z.of_nat k < w)) as [Hk|Hk].
  - unfold reg. rewrite lookup_take_lt, lookup_drop, list_lookup_fmap, lookup_seqZ_lt by lia. cbn. unfold nth_byte.
    replace (Z.to_nat (p + (0 + Z.of_nat k))) with (Z.to_nat p + k)%nat by lia. apply list_lookup_lookup_total_lt. unfold zlen in Hz. lia.
  - rewrite !lookup_ge_None_2; [done|unfold reg; rewrite length_fmap, length_seqZ; lia|rewrite length_take; lia].
Qed.

Lemma loads_ret w inp ps : 0 <= w -> Forall (fun p => 0 <= p /\ p + w <= zlen inp) ps -> loads w inp ps = Ret (reg inp w <$> ps).
Proof.
  intros Hw. induction 1 as [|p ps (Hp & Hz) _ IH]; [done|]. cbn [loads]. rewrite mem_read_reg by done. cbn [obind]. rewrite IH. done.
Qed.

Lemma reg_bytes inp w p : bytes inp -> 0 <= p -> p + w <= zlen inp -> bytes (reg inp w p).
Proof.
  intros Hb Hp Hz. apply Forall_fmap, list.Forall_forall. intros i Hi%elem_of_seqZ. apply nth_byte_range; [done|lia].
Qed.

(** ** Bytes within elements *)

Section ByteElem.
Context {U : VectorUnit}.

Definition regmap {A B} (f : A -> B) (v : list (list A)) : list (list B) := (fun r : list A => f <$> r) <$> v.

(** A sequence of instructions that moves bytes: it does not depend on what they are. *)
Definition natural (net : forall A, list (list A) -> list (list A)) (n : nat) : Prop :=
  forall A B (f : A -> B) v, length v = n -> net B (regmap f v) = regmap f (net A v).

Ltac net_natural := rewrite ?zip_lo_law, ?zip_hi_law; autorewrite with natural; reflexivity.

Lemma net_16_natural : natural (@net_16 U) 2.
Proof. intros A B f v Hv. do 2 (destruct v as [|? v]; [done|]). destruct v; [|done]. unfold regmap. cbn [fmap list_fmap net_16]. net_natural. Qed.

Lemma net_32_natural : natural (@net_32 U) 4.
Proof. intros A B f v Hv. do 4 (destruct v as [|? v]; [done|]). destruct v; [|done]. unfold regmap. cbn [fmap list_fmap net_32]. net_natural. Qed.

Lemma net_64_natural : natural (@net_64 U) 8.
Proof. intros A B f v Hv. do 8 (destruct v as [|? v]; [done|]). destruct v; [|done]. unfold regmap. cbn [fmap list_fmap net_64]. net_natural. Qed.

(** Run on places, the instructions collect byte [j] of 16 elements in register [j]. *)
Definition places (w n : Z) : list (list Z) := (fun k => seqZ (w * k) w) <$> seqZ 0 n.
Definition collected (e : Z) : list (list Z) := (fun j => (fun r => r * e + j) <$> seqZ 0 16) <$> seqZ 0 e.

Lemma net_16_places : net_16 (places 16 2) = collected 2.
Proof.
  change (places 16 2) with [seqZ 0 16; seqZ 16 16]. cbn [net_16]. rewrite !zip_lo_law, !zip_hi_law. vm_compute. reflexivity.
Qed.

Lemma net_32_places : net_32 (places 16 4) = collected 4.
Proof.
  change (places 16 4) with [seqZ 0 16; seqZ 16 16; seqZ 32 16; seqZ 48 16]. cbn [net_32].
  rewrite !zip_lo_law, !zip_hi_law. vm_compute. reflexivity.
Qed.

Lemma net_64_places : net_64 (places 16 8) = collected 8.
Proof.
  change (places 16 8) with [seqZ 0 16; seqZ 16 16; seqZ 32 16; seqZ 48 16; seqZ 64 16; seqZ 80 16; seqZ 96 16; seqZ 112 16]. cbn [net_64].
  rewrite !zip_lo_law, !zip_hi_law. vm_compute. reflexivity.
Qed.

(** The registers that the loops load. *)
Lemma regs_places inp base w n : reg inp w <$> ((fun k => base + k * w) <$> seqZ 0 n) = regmap (fun i => nth_byte inp (base + i)) (places w n).
Proof.
  unfold regmap, places, reg. rewrite <- !list_fmap_compose. apply list_fmap_ext. intros _ k _. cbn.
  replace (seqZ (w * k) w) with (Z.add (w * k) <$> seqZ 0 w) by (rewrite fmap_add_seqZ; f_equal; lia). rewrite <- list_fmap_compose. apply list_fmap_ext. intros _ i _. cbn. f_equal. lia.
Qed.

Lemma zip_fmaps {A B C} (f : A -> B) (g : A -> C) l : zip (f <$> l) (g <$> l) = (fun x => (f x, g x)) <$> l.
Proof. induction l as [|x l IH]; [done|]. cbn. by rewrite <- IH. Qed.

(** The elements from [start] on. *)
Lemma byte_elem_remainder_fills q e inp start : 0 < q -> 0 < e -> zlen inp = 8 * q * e -> start mod 8 = 0 -> 0 <= start <= 8 * q ->
  fills (byte_elem_tgt q e inp) (8 * q * e) (fun i => start <= i mod (8 * q)) (8 * q * e)
    (fun m => bshuf_trans_byte_elem_remainder inp m (8 * q) e start).
Proof using Type.
  intros Hq He Hi Hm8 Hst. unfold bshuf_trans_byte_elem_remainder, CHECK_MULT_EIGHT. rewrite Hm8. cbn [Z.eqb].
  apply (fills_ret _ _ _ _ (fun m => if start <? 8 * q then _ else Ret m)).
  destruct (Z.ltb_spec start (8 * q)) as [Hlt|Hge].
  2: { intros m Hm. exists m. split; [done|]. split; [done|]. split; [|by right]. intros i Hir Hs.
       pose proof (Z.mod_pos_bound i (8 * q) ltac:(lia)). lia. }
  replace ((8 * q) mod 8) with 0 by (by rewrite Z.mul_comm, Z_mod_mult). change (seqZ (8 * q - 0) 0) with (@nil Z).
  eapply paints_weaken; [apply paints_seq; [apply paints_loop; intros ii Hii; apply paints_loop; intros jj Hjj; apply paints_loop; intros kk Hkk|
    cbn [foldO]; apply paints_skip]|].
  - apply elem_of_range_by in Hii as (k & Eii & Hk & Hb); [|lia..]. apply elem_of_seqZ in Hjj, Hkk.
    apply paints_copy; [nia|nia|]. replace (jj * (8 * q) + ii + kk) with (jj * (8 * q) + (ii + kk)) by lia.
    rewrite byte_elem_tgt_at by lia. f_equal. lia.
  - intros i Hir Hs. left. pose proof (Z.div_mod i (8 * q) ltac:(lia)). pose proof (Z.mod_pos_bound i (8 * q) ltac:(lia)).
    set (x := i mod (8 * q)) in *. apply Z.div_exact in Hm8; [|lia].
    pose proof (Z.div_mod (x - start) 8 ltac:(lia)). pose proof (Z.mod_pos_bound (x - start) 8 ltac:(lia)).
    exists (start + 8 * ((x - start) / 8)). split; [apply elem_of_range_by; [lia..|]; exists ((x - start) / 8); lia|].
    exists (i / (8 * q)). split; [apply elem_of_seqZ; nia|]. exists ((x - start) mod 8). split; [apply elem_of_seqZ; lia|lia].
Qed.

(** A loop over groups of 16 elements. *)
Lemma byte_elem_loop_spec e net q inp out : 0 < q -> 0 < e -> natural net (Z.to_nat e) -> net Z (places 16 e) = collected e ->
  zlen inp = 8 * q * e -> zlen out = 8 * q * e ->
  trans_byte_elem_loop e (net Z) inp out (8 * q) = Ret (8 * q * e, byte_elem_tgt q e inp <$> seqZ 0 (8 * q * e)).
Proof using Type.
  intros Hq He Hnat Hnet Hi Ho. unfold trans_byte_elem_loop.
  pose proof (Z.div_mod (8 * q) 16 ltac:(lia)) as Hdm. pose proof (Z.mod_pos_bound (8 * q) 16 ltac:(lia)) as Hmod.
  set (body := foldO _ (range_by 16 0 (8 * q))).
  eapply (fills_all _ _ _ _ (fun m => let! o := body m in bshuf_trans_byte_elem_remainder inp o (8 * q) e (8 * q - (8 * q) mod 16)) out);
    [apply fills_after; [apply (paints_loop _ _ _ (fun ii i => ii <= i mod (8 * q) < ii + 16)); intros ii Hii|apply byte_elem_remainder_fills; [lia|lia|lia| |lia]]| |done].
  - apply elem_of_range_by in Hii as (k & Eii & Hk & Hb); [|lia..].
    rewrite loads_ret; [|lia|].
    2: { apply Forall_fmap, list.Forall_forall. intros x Hx%elem_of_seqZ. cbn. nia. }
    cbn [obind]. rewrite regs_places, Hnat, Hnet by (unfold places; by rewrite length_fmap, length_seqZ).
    unfold collected, regmap. rewrite <- list_fmap_compose, zip_fmaps. eapply paints_weaken; [apply paints_stores|].
    2: { intros i Hir Hx. pose proof (Z.div_mod i (8 * q) ltac:(lia)). pose proof (Z.mod_pos_bound i (8 * q) ltac:(lia)).
         eexists. split; [apply list_elem_of_fmap; exists (i / (8 * q)); split; [done|apply elem_of_seqZ; nia]|].
         cbn. unfold zlen. rewrite !length_fmap, length_seqZ. lia. }
    intros loc v (j & E & Hj%elem_of_seqZ)%list_elem_of_fmap. apply pair_equal_spec in E as [-> ->]. unfold compose at 1 2 3. rewrite <- list_fmap_compose.
    unfold zlen. rewrite length_fmap, length_seqZ. change (Z.of_nat (Z.to_nat 16)) with 16.
    split; [nia|]. split; [nia|]. intros r Hr.
    rewrite (nth_painted _ 16 r Hr). cbn. replace (j * (8 * q) + ii + r) with (j * (8 * q) + (ii + r)) by lia.
    rewrite byte_elem_tgt_at by lia. f_equal. lia.
  - replace (8 * q - (8 * q) mod 16) with (2 * (8 * q / 16) * 8) by lia. apply Z_mod_mult.
  - intros i Hir. cbn. pose proof (Z.div_mod i (8 * q) ltac:(lia)). pose proof (Z.mod_pos_bound i (8 * q) ltac:(lia)).
    set (x := i mod (8 * q)) in *. destruct (Z.le_gt_cases (8 * q - (8 * q) mod 16) x) as [|Hx]; [by right|left].
    pose proof (Z.div_mod x 16 ltac:(lia)). pose proof (Z.mod_pos_bound x 16 ltac:(lia)).
    exists (0 + 16 * (x / 16)). split; [apply elem_of_range_by; [lia..|]; exists (x / 16); lia|lia].
Qed.

Lemma painted_ext (f g : Z -> Z) n : (forall i, 0 <= i < n -> f i = g i) -> f <$> seqZ 0 n = g <$> seqZ 0 n.
Proof using Type. intros H. apply list_fmap_ext. intros k x Hx. apply lookup_seqZ in Hx. apply H. lia. Qed.

(** Transposition of elements of [w] bytes. *)
Definition type_tgt (lda ldb w : Z) (inp : list Z) (i : Z) : Z :=
  nth_byte inp (((i / w) mod lda * ldb + i / w / lda) * w + i mod w).

Lemma type_tgt_at lda ldb w inp a b r : 0 <= b < lda -> 0 <= r < w ->
  type_tgt lda ldb w inp ((a * lda + b) * w + r) = nth_byte inp ((b * ldb + a) * w + r).
Proof using Type.
  intros Hb Hr. unfold type_tgt. destruct (div_mod_at w (a * lda + b) r Hr) as [-> ->]. by destruct (div_mod_at lda a b Hb) as [-> ->].
Qed.

Lemma trans_elem_type_spec q ldb w inp out : 0 < q -> 0 < ldb -> 0 < w -> zlen inp = 8 * q * ldb * w -> zlen out = 8 * q * ldb * w ->
  TRANS_ELEM_TYPE inp out (8 * q) ldb w = Ret (type_tgt (8 * q) ldb w inp <$> seqZ 0 (8 * q * ldb * w)).
Proof using Type.
  intros Hq Hl Hw Hi Ho. unfold TRANS_ELEM_TYPE. replace ((8 * q) mod 8) with 0 by (by rewrite Z.mul_comm, Z_mod_mult).
  change (seqZ (8 * q - 0) 0) with (@nil Z). cbn [foldO]. rewrite obind_Ret_r.
  apply (paints_all _ _ (foldO _ (range_by 8 0 (8 * q)))); [|done].
  eapply paints_weaken; [apply paints_loop; intros ii Hii; apply paints_loop; intros jj Hjj; apply paints_loop; intros kk Hkk|].
  - apply elem_of_range_by in Hii as (k & Eii & Hk & Hb); [|lia..]. apply elem_of_seqZ in Hjj, Hkk.
    assert (0 <= (jj * (8 * q) + ii + kk) /\ (jj * (8 * q) + ii + kk) + 1 <= 8 * q * ldb) by nia.
    assert (0 <= (ii * ldb + kk * ldb + jj) /\ (ii * ldb + kk * ldb + jj) + 1 <= 8 * q * ldb) by nia.
    apply paints_memcpy; [nia|lia|nia|nia|nia|]. intros r Hr.
    replace ((jj * (8 * q) + ii + kk) * w + r) with ((jj * (8 * q) + (ii + kk)) * w + r) by lia.
    rewrite type_tgt_at by lia. f_equal. lia.
  - intros i Hir _. pose proof (Z.div_mod i w ltac:(lia)). pose proof (Z.mod_pos_bound i w ltac:(lia)).
    set (p := i / w) in *. pose proof (Z.div_mod p (8 * q) ltac:(lia)). pose proof (Z.mod_pos_bound p (8 * q) ltac:(lia)).
    set (x := p mod (8 * q)) in *. pose proof (Z.div_mod x 8 ltac:(lia)). pose proof (Z.mod_pos_bound x 8 ltac:(lia)).
    assert (0 <= p < 8 * q * ldb) by nia.
    exists (0 + 8 * (x / 8)). split; [apply elem_of_range_by; [lia..|]; exists (x / 8); lia|].
    exists (p / (8 * q)). split; [apply elem_of_seqZ; nia|]. exists (x mod 8). split; [apply elem_of_seqZ; lia|nia].
Qed.

Lemma trans_elem_spec lda ldb es inp out : 0 < lda -> 0 < ldb -> 0 < es -> zlen inp = lda * ldb * es -> zlen out = lda * ldb * es ->
  bshuf_trans_elem inp out lda ldb es = Ret (lda * ldb * es, type_tgt lda ldb es inp <$> seqZ 0 (lda * ldb * es)).
Proof using Type.
  intros Ha Hl Hw Hi Ho. unfold bshuf_trans_elem.
  rewrite (paints_all (type_tgt lda ldb es inp) (lda * ldb * es) (foldO _ (seqZ 0 lda)) out); [done| |done].
  eapply paints_weaken; [apply paints_loop; intros ii Hii%elem_of_seqZ; apply paints_loop; intros jj Hjj%elem_of_seqZ|].
  - assert (0 <= jj * lda + ii /\ jj * lda + ii + 1 <= lda * ldb) by nia.
    assert (0 <= ii * ldb + jj /\ ii * ldb + jj + 1 <= lda * ldb) by nia.
    apply paints_memcpy; [nia|lia|nia|nia|nia|]. intros r Hr. rewrite type_tgt_at by lia. done.
  - intros i Hir _. pose proof (Z.div_mod i es ltac:(lia)). pose proof (Z.mod_pos_bound i es ltac:(lia)).
    set (p := i / es) in *. pose proof (Z.div_mod p lda ltac:(lia)). pose proof (Z.mod_pos_bound p lda ltac:(lia)).
    assert (0 <= p < lda * ldb) by nia.
    exists (p mod lda). split; [apply elem_of_seqZ; lia|]. exists (p / lda). split; [apply elem_of_seqZ; nia|nia].
Qed.

(** What is asked of a routine that transposes the bytes of elements of [w] bytes. *)
Definition byte_elem_routine (w : Z) (f : list Z -> list Z -> Z -> routine) : Prop :=
  forall q inp out, 0 < q -> zlen inp = 8 * q * w -> zlen out = 8 * q * w ->
    f inp out (8 * q) = Ret (8 * q * w, byte_elem_tgt q w inp <$> seqZ 0 (8 * q * w)).

Lemma words_spec malloc w n f q inp out : 0 < w -> 0 < n -> 0 < q -> byte_elem_routine w f -> mallocs malloc (8 * q * (n * w)) ->
  zlen inp = 8 * q * (n * w) -> zlen out = 8 * q * (n * w) ->
  trans_byte_elem_words malloc w f inp out (8 * q) (n * w) =
    Ret (8 * q * (n * w), byte_elem_tgt q (n * w) inp <$> seqZ 0 (8 * q * (n * w))).
Proof using Type.
  intros Hw Hn Hq Hf (tmp & Em & Ht) Hi Ho. unfold trans_byte_elem_words. rewrite Em, Z.div_mul by lia.
  rewrite trans_elem_type_spec by lia. cbn [obind]. replace (8 * q * n) with (8 * (q * n)) by lia.
  set (o1 := type_tgt _ _ _ _ <$> _). assert (Hz1 : zlen o1 = 8 * (q * n) * w) by (apply zlen_painted; nia).
  rewrite Hf by nia. cbn [obind]. set (t := byte_elem_tgt _ _ _ <$> _). assert (Hzt : zlen t = 8 * (q * n) * w) by (apply zlen_painted; nia).
  rewrite trans_elem_spec by (rewrite ?zlen_painted; nia). cbn [obind].
  replace (w * n * (8 * q)) with (8 * q * (n * w)) by lia. replace (8 * (q * n) * w) with (8 * q * (n * w)) by lia. do 2 f_equal.
  apply painted_ext. intros i Hir. pose proof (Z.div_mod i (8 * q) ltac:(lia)) as E1. pose proof (Z.mod_pos_bound i (8 * q) ltac:(lia)).
  set (p := i / (8 * q)) in *. set (r := i mod (8 * q)) in *.
  pose proof (Z.div_mod p w ltac:(lia)) as E2. pose proof (Z.mod_pos_bound p w ltac:(lia)). set (c := p / w) in *. set (b := p mod w) in *.
  assert (0 <= p < n * w) by nia. assert (0 <= c < n) by nia.
  assert (0 <= c * (8 * q) + r < 8 * (q * n)) by nia.
  replace i with ((c * w + b) * (8 * q) + r) at 1 by lia. rewrite type_tgt_at by lia.
  unfold t. replace ((b * n + c) * (8 * q) + r) with (b * (8 * (q * n)) + (c * (8 * q) + r)) by lia.
  rewrite nth_painted by nia. rewrite byte_elem_tgt_at by lia. unfold o1.
  rewrite nth_painted by nia. rewrite type_tgt_at by lia.
  replace i with (p * (8 * q) + r) by lia. rewrite byte_elem_tgt_at by lia. f_equal. lia.
Qed.

(** *** All element sizes *)
Lemma trans_byte_elem_correct malloc q e inp out : 0 < q -> 0 < e -> mallocs malloc (8 * q * e) ->
  zlen inp = 8 * q * e -> zlen out = 8 * q * e ->
  trans_byte_elem malloc inp out (8 * q) e = Ret (8 * q * e, byte_elem_tgt q e inp <$> seqZ 0 (8 * q * e)).
Proof using Type.
  intros Hq He Hm Hi Ho.
  assert (H16 : byte_elem_routine 2 trans_byte_elem_16) by (intros q' ????; by apply (byte_elem_loop_spec 2 (@net_16 U)); try done; [apply net_16_natural|apply net_16_places]).
  assert (H32 : byte_elem_routine 4 trans_byte_elem_32) by (intros q' ????; by apply (byte_elem_loop_spec 4 (@net_32 U)); try done; [apply net_32_natural|apply net_32_places]).
  assert (H64 : byte_elem_routine 8 trans_byte_elem_64) by (intros q' ????; by apply (byte_elem_loop_spec 8 (@net_64 U)); try done; [apply net_64_natural|apply net_64_places]).
  unfold trans_byte_elem.
  destruct (Z.eqb_spec e 1) as [->|]; [|destruct (Z.eqb_spec e 2) as [->|]; [by apply H16|destruct (Z.eqb_spec e 4) as [->|];
    [by apply H32|destruct (Z.eqb_spec e 8) as [->|]; [by apply H64|]]]].
  - unfold bshuf_copy. rewrite (paints_all (byte_elem_tgt q 1 inp) (8 * q * 1) (fun m => memcpy m 0 inp 0 (8 * q * 1)) out); [done| |done].
    eapply paints_weaken; [apply (paints_memcpy _ _ inp 0 0 (8 * q * 1)); try lia|intros i Hir _; cbv beta; lia]. intros r Hr.
    rewrite Z.add_0_l. replace r with (0 * (8 * q) + r) at 2 by lia. rewrite byte_elem_tgt_at by lia. f_equal. lia.
  - destruct (Z.eqb_spec (e mod 4) 0) as [E4|]; cbn [negb]; [|by apply trans_byte_elem_spec; lia].
    destruct (Z.eqb_spec (e mod 8) 0) as [E8|].
    + apply Z.div_exact in E8; [|lia]. rewrite (Z.mul_comm 8) in E8. rewrite E8 in *. apply words_spec; try done; lia.
    + apply Z.div_exact in E4; [|lia]. rewrite (Z.mul_comm 4) in E4. rewrite E4 in *. apply words_spec; try done; lia.
Qed.
End ByteElem.

(** ** Bits within bytes *)

(** The inner loop for a register of [8 * k] bytes: its bits of equal significance are stored, the most
    significant ones first. *)
Definition bit_rows (k : nat) (msk : list Z -> Z) (shift : list Z -> list Z) (loc : Z -> Z) (kks : list Z) (v out : list Z) : outcome (list Z) :=
  let! '(_, out) := foldO (fun st kk =>
      let '(v, out) := st in
      let bt := msk v in
      let v := shift v in
      let! out := mem_write out (loc kk) (le_encode k (wrap (8 * Z.of_nat k) bt)) in
      Ret (v, out)) kks (v, out) in
  Ret out.

Section UnitBits.
Context {U : VectorUnit}.

Definition trans_bit_byte (inp out : list Z) (size elem_size : Z) : routine :=
  let nbyte := elem_size * size in
  CHECK_MULT_EIGHT nbyte out
    (let! out := foldO (fun out ii =>
         let! xmm := mem_read inp ii 16 in
         bit_rows 2 mask shift16 (fun kk => ((7 - kk) * nbyte + ii) / 8) (seqZ 0 8) xmm out)
       (range_by 16 0 nbyte) out in
     bshuf_trans_bit_byte_remainder inp out size elem_size (nbyte - nbyte mod 16)).

(** The result of the portable routine is not used. *)
Definition shuffle_bit_eightelem (inp out : list Z) (size elem_size : Z) : routine :=
  let nbyte := elem_size * size in
  CHECK_MULT_EIGHT size out
    (let! out :=
       if negb (elem_size mod 2 =? 0) then
         let! '(_, out) := bshuf_shuffle_bit_eightelem_scal inp out size elem_size in Ret out
       else
         foldO (fun out ii => foldO (fun out jj =>
             let! xmm := mem_read inp (ii + jj) 16 in
             bit_rows 2 mask shift16 (fun kk => (ii + jj / 8 + (7 - kk) * elem_size) / 2 * 2) (seqZ 0 8) xmm out)
           (range_by 16 0 (8 * elem_size)) out) (range_by (8 * elem_size) 0 nbyte) out in
     Ret (size * elem_size, out)).
End UnitBits.

(** *** AVX2: registers of 32 bytes *)

Definition bshuf_trans_bit_byte_AVX (inp out : list Z) (size elem_size : Z) : routine :=
  let nbyte := elem_size * size in
  let! out := foldO (fun out ii =>
      let! ymm := mem_read inp ii 32 in
      bit_rows 4 movemask_epi8 slli_epi16 (fun kk => ((7 - kk) * nbyte + ii) / 8) (seqZ 0 8) ymm out)
    (range_by 32 0 nbyte) out in
  bshuf_trans_bit_byte_remainder inp out size elem_size (nbyte - nbyte mod 32).

Definition bshuf_shuffle_bit_eightelem_AVX (inp out : list Z) (size elem_size : Z) : routine :=
  let nbyte := elem_size * size in
  CHECK_MULT_EIGHT size out
    (if negb (elem_size mod 4 =? 0) then shuffle_bit_eightelem (U := sse2) inp out size elem_size
     else
       let! out := foldO (fun out jj => foldO (fun out ii =>
           let! ymm := mem_read inp (ii + jj) 32 in
           bit_rows 4 movemask_epi8 slli_epi16 (fun kk => ii + jj / 8 + (7 - kk) * elem_size) (seqZ 0 8) ymm out)
         (range_by (8 * elem_size) 0 nbyte) out) (range_by 32 0 (8 * elem_size)) out in
       Ret (size * elem_size, out)).

(** *** What they store *)

Lemma nth_le_encode n z t : 0 <= t < Z.of_nat n -> nth_byte (le_encode n z) t = (z / 2 ^ (8 * t)) mod 2 ^ 8.
Proof.
  revert z t. induction n as [|n IH]; intros z t Ht; [lia|]. cbn [le_encode]. destruct (decide (t = 0)) as [->|Hne].
  - cbn. by rewrite Z.div_1_r.
  - unfold nth_byte. replace (Z.to_nat t) with (S (Z.to_nat (t - 1))) by lia. cbn.
    change (le_encode n (z / 256) !!! Z.to_nat (t - 1)) with (nth_byte (le_encode n (z / 256)) (t - 1)).
    rewrite IH by lia. change 256 with (2 ^ 8). rewrite Z.div_div by lia. rewrite <- Z.pow_add_r by lia. do 3 f_equal. lia.
Qed.

Lemma testbit_le_encode n z t b : 0 <= t < Z.of_nat n -> 0 <= b < 8 -> Z.testbit (nth_byte (le_encode n z) t) b = Z.testbit z (8 * t + b).
Proof.
  intros Ht Hb. rewrite nth_le_encode by done. rewrite Z.mod_pow2_bits_low, Z.div_pow2_bits by lia. f_equal. lia.
Qed.

(** Byte [t] of the mask after [j] shifts. *)
Lemma mask_byte (k j : nat) inp p t : bytes inp -> 0 <= p -> p + 8 * Z.of_nat k <= zlen inp -> (j <= 7)%nat -> 0 <= t < Z.of_nat k ->
  nth_byte (le_encode k (wrap (8 * Z.of_nat k) (movemask_epi8 (shifted j (reg inp (8 * Z.of_nat k) p))))) t =
    transposed inp (p + 8 * t) (7 - Z.of_nat j).
Proof.
  intros Hb Hp Hz Hj Ht. apply byte_ext; [rewrite nth_le_encode by done; apply Z.mod_pos_bound; lia|apply transposed_range|].
  intros b Hb'. rewrite testbit_le_encode, testbit_transposed by (done || lia). unfold wrap. rewrite Z.mod_pow2_bits_low by lia.
  set (v := reg inp (8 * Z.of_nat k) p).
  assert (Hlen : length v = Z.to_nat (8 * Z.of_nat k)) by (unfold v, reg; by rewrite length_fmap, length_seqZ).
  destruct (lookup_lt_is_Some_2 v (Z.to_nat (8 * t + b))) as [x Hx]; [lia|].
  destruct (shifted_lookup j v (Z.to_nat (8 * t + b)) x) as (_ & y & Hy & _ & Hbits); [by apply reg_bytes| |done|].
  { rewrite Hlen. replace (Z.to_nat (8 * Z.of_nat k)) with (2 * (4 * k))%nat by lia. apply Nat.even_even. }
  pose proof (testbit_movemask _ _ _ Hy) as E. rewrite Z2Nat.id in E by lia. rewrite E, Hbits by lia. f_equal.
  rewrite <- (list_lookup_total_correct _ _ _ Hx). change (v !!! Z.to_nat (8 * t + b)) with (nth_byte v (8 * t + b)).
  unfold v. rewrite nth_reg by lia. f_equal. lia.
Qed.

Lemma zlen_le_encode n z : zlen (le_encode n z) = Z.of_nat n.
Proof. unfold zlen. by rewrite length_le_encode. Qed.

(** The stores of the inner loop. *)
Lemma bit_rows_paint tgt n k msk shift loc inp p : bytes inp -> 0 <= p -> p + 8 * Z.of_nat k <= zlen inp ->
  (forall v, length v = (8 * k)%nat -> msk v = movemask_epi8 v /\ shift v = slli_epi16 v) ->
  (forall kk, 0 <= kk < 8 -> 0 <= loc kk /\ loc kk + Z.of_nat k <= n /\
     forall t, 0 <= t < Z.of_nat k -> tgt (loc kk + t) = transposed inp (p + 8 * t) (7 - kk)) ->
  paints tgt n (fun i => exists kk, 0 <= kk < 8 /\ loc kk <= i < loc kk + Z.of_nat k)
    (bit_rows k msk shift loc (seqZ 0 8) (reg inp (8 * Z.of_nat k) p)).
Proof.
  intros Hb Hp Hz Hunit Hloc.
  assert (H : forall c j : nat, (j + c = 8)%nat ->
    paints tgt n (fun i => exists kk, Z.of_nat j <= kk < 8 /\ loc kk <= i < loc kk + Z.of_nat k)
      (bit_rows k msk shift loc (seqZ (Z.of_nat j) (Z.of_nat c)) (shifted j (reg inp (8 * Z.of_nat k) p)))).
  { induction c as [|c IH]; intros j Hj.
    - eapply paints_weaken; [apply (paints_skip tgt n)|]. intros i Hi (kk & Hkk & _). lia.
    - assert (Hlen : length (shifted j (reg inp (8 * Z.of_nat k) p)) = (8 * k)%nat).
      { assert (Hr : length (reg inp (8 * Z.of_nat k) p) = (8 * k)%nat) by (unfold reg; rewrite length_fmap, length_seqZ; lia).
        rewrite shifted_length; [done|]. rewrite Hr. replace (8 * k)%nat with (2 * (4 * k))%nat by lia. apply Nat.even_even. }
      destruct (Hunit _ Hlen) as [Hmsk Hshift]. destruct (Hloc (Z.of_nat j)) as (Hl0 & Hln & Htgt); [lia|].
      intros m Hm. set (bs := le_encode k (wrap (8 * Z.of_nat k) (movemask_epi8 (shifted j (reg inp (8 * Z.of_nat k) p))))).
      assert (Hbs : zlen bs = Z.of_nat k) by apply zlen_le_encode.
      destruct (paints_vec tgt n (loc (Z.of_nat j)) bs) with (m := m) as (m1 & E1 & Hz1 & Hs1 & Hf1); [lia|lia| |done|].
      { intros t Ht. rewrite Htgt by lia. apply mask_byte; lia || done. }
      destruct (IH (S j) ltac:(lia) m1 Hz1) as (m2 & E2 & Hz2 & Hs2 & Hf2). exists m2. split; [|split; [done|split]].
      + unfold bit_rows in *. replace (Z.of_nat (S c)) with (1 + Z.of_nat c) by lia. rewrite seqZ_app by lia.
        change (seqZ (Z.of_nat j) 1) with [0 + Z.of_nat j]. rewrite Z.add_0_l. cbn [app foldO]. rewrite Hmsk, Hshift. fold bs. rewrite E1.
        cbn [obind]. rewrite <- shifted_S. replace (Z.of_nat j + 1) with (Z.of_nat (S j)) by lia. exact E2.
      + intros i Hi (kk & Hkk & Hr). destruct (decide (kk = Z.of_nat j)) as [->|]; [|apply Hs2; [done|]; exists kk; lia].
        destruct (Hf2 i Hi) as [->| ->]; [done|]. apply Hs1; lia.
      + intros i Hi. destruct (Hf2 i Hi) as [->| ->]; auto. }
  eapply paints_weaken; [apply (H 8%nat 0%nat eq_refl)|]. intros i Hi (kk & ? & ?). exists kk. lia.
Qed.

(** The words from [start] on. *)
Lemma bit_byte_remainder_fills q e inp start : 0 < q -> 0 < e -> zlen inp = 8 * q * e -> start mod 8 = 0 -> 0 <= start <= 8 * q * e ->
  fills (bit_byte_tgt q e inp) (8 * q * e) (fun i => start / 8 <= i mod (q * e)) (8 * q * e)
    (fun m => bshuf_trans_bit_byte_remainder inp m (8 * q) e start).
Proof.
  intros Hq He Hi Hm8 Hst. unfold bshuf_trans_bit_byte_remainder, CHECK_MULT_EIGHT.
  replace (e * (8 * q)) with (q * e * 8) by lia. rewrite Z_mod_mult, Z.div_mul, Hm8 by lia. cbn [Z.eqb].
  apply Z.div_exact in Hm8; [|lia]. set (s := start / 8) in *.
  apply (fills_ret _ _ _ _ (foldO _ (seqZ s (q * e - s)))).
  eapply paints_weaken; [apply paints_loop; intros ii Hii%elem_of_seqZ|].
  - rewrite word_at_ret by lia. cbn [obind]. apply paints_word. intros kk Hkk. split; [nia|].
    unfold bit_byte_tgt. destruct (div_mod_at (q * e) kk ii) as [-> ->]; [lia|]. done.
  - intros i Hir Hs. pose proof (Z.div_mod i (q * e) ltac:(lia)). pose proof (Z.mod_pos_bound i (q * e) ltac:(lia)).
    exists (i mod (q * e)). split; [apply elem_of_seqZ; lia|]. exists (i / (q * e)). split; [nia|lia].
Qed.

(** The loop over registers of [8 * k] bytes, followed by the portable routine. *)
Lemma bit_byte_loop_spec (k : nat) msk shift q e inp out : (0 < k)%nat -> 0 < q -> 0 < e -> bytes inp -> zlen inp = 8 * q * e -> zlen out = 8 * q * e ->
  (forall v, length v = (8 * k)%nat -> msk v = movemask_epi8 v /\ shift v = slli_epi16 v) ->
  (let! out := foldO (fun out ii =>
       let! v := mem_read inp ii (8 * Z.of_nat k) in
       bit_rows k msk shift (fun kk => ((7 - kk) * (e * (8 * q)) + ii) / 8) (seqZ 0 8) v out)
     (range_by (8 * Z.of_nat k) 0 (e * (8 * q))) out in
   bshuf_trans_bit_byte_remainder inp out (8 * q) e (e * (8 * q) - (e * (8 * q)) mod (8 * Z.of_nat k))) =
  Ret (8 * q * e, bit_byte_tgt q e inp <$> seqZ 0 (8 * q * e)).
Proof.
  intros Hk Hq He Hb Hi Ho Hunit. set (w := Z.of_nat k). replace (e * (8 * q)) with (8 * (q * e)) by lia.
  assert (Hw : 0 < w) by lia. rewrite Z.mul_mod_distr_l by lia.
  pose proof (Z.div_mod (q * e) w ltac:(lia)) as Hdm. pose proof (Z.mod_pos_bound (q * e) w ltac:(lia)) as Hmod.
  assert (Hqe : 0 < q * e) by nia. pose proof (Z.mod_le (q * e) w ltac:(lia) Hw) as Hle.
  set (x := (q * e) mod w) in *. replace (8 * (q * e) - 8 * x) with (8 * (q * e - x)) by lia.
  set (body := foldO _ (range_by _ _ _)).
  eapply (fills_all _ _ _ _ (fun m => let! o := body m in bshuf_trans_bit_byte_remainder inp o (8 * q) e (8 * (q * e - x))) out);
    [apply fills_after; [apply (paints_loop _ _ _ (fun ii i => ii <= 8 * (i mod (q * e)) < ii + 8 * w)); intros ii Hii|
       apply bit_byte_remainder_fills; [lia|lia|lia| |nia]]| |done].
  - apply elem_of_range_by in Hii as (c & Eii & Hc & Hbd); [|nia..].
    assert (Hloc : forall kk, ((7 - kk) * (8 * (q * e)) + ii) / 8 = (7 - kk) * (q * e) + w * c).
    { intros kk. replace ((7 - kk) * (8 * (q * e)) + ii) with (((7 - kk) * (q * e) + w * c) * 8) by lia. apply Z.div_mul. lia. }
    rewrite mem_read_reg by nia. cbn [obind].
    eapply paints_weaken; [apply (bit_rows_paint _ _ k _ _ _ inp ii); [done|lia|nia|done|]|].
    + intros kk Hkk. rewrite Hloc. fold w. split; [nia|]. split; [nia|]. intros t Ht. unfold bit_byte_tgt.
      replace ((7 - kk) * (q * e) + w * c + t) with ((7 - kk) * (q * e) + (w * c + t)) by lia.
      destruct (div_mod_at (q * e) (7 - kk) (w * c + t)) as [-> ->]; [nia|]. f_equal. lia.
    + intros i Hir Hs. pose proof (Z.div_mod i (q * e) ltac:(nia)). pose proof (Z.mod_pos_bound i (q * e) ltac:(nia)).
      exists (7 - i / (q * e)). split; [nia|]. cbv beta. rewrite Hloc. fold w. lia.
  - rewrite Z.mul_comm. apply Z_mod_mult.
  - intros i Hir. cbv beta. pose proof (Z.mod_pos_bound i (q * e) ltac:(nia)). set (y := i mod (q * e)) in *.
    replace (8 * (q * e - x) / 8) with (q * e - x) by (rewrite (Z.mul_comm 8), Z.div_mul by lia; done).
    destruct (Z.le_gt_cases (q * e - x) y) as [|Hy]; [by right|left].
    pose proof (Z.div_mod y w ltac:(lia)). pose proof (Z.mod_pos_bound y w ltac:(lia)).
    assert (Hlt : y / w < (q * e) / w) by (apply Z.div_lt_upper_bound; lia).
    assert (w * (y / w + 1) <= w * ((q * e) / w)) by (apply Z.mul_le_mono_nonneg_l; lia).
    exists (0 + 8 * w * (y / w)). split; [apply elem_of_range_by; [nia|nia|]; exists (y / w); split_and!; [done|apply Z.div_pos; lia|lia]|lia].
Qed.

Lemma unit_regs {U : VectorUnit} v : length v = (8 * 2)%nat -> mask v = movemask_epi8 v /\ shift16 v = slli_epi16 v.
Proof. intros Hv. split; [by apply mask_law|by apply shift16_law]. Qed.

Lemma trans_bit_byte_correct {U : VectorUnit} q e inp out : 0 < q -> 0 < e -> bytes inp -> zlen inp = 8 * q * e -> zlen out = 8 * q * e ->
  trans_bit_byte inp out (8 * q) e = Ret (8 * q * e, bit_byte_tgt q e inp <$> seqZ 0 (8 * q * e)).
Proof.
  intros Hq He Hb Hi Ho. unfold trans_bit_byte, CHECK_MULT_EIGHT.
  replace ((e * (8 * q)) mod 8) with 0 by (replace (e * (8 * q)) with (q * e * 8) by lia; by rewrite Z_mod_mult).
  apply (bit_byte_loop_spec 2 mask shift16); try done; [lia|apply unit_regs].
Qed.

Lemma trans_bit_byte_AVX_correct q e inp out : 0 < q -> 0 < e -> bytes inp -> zlen inp = 8 * q * e -> zlen out = 8 * q * e ->
  bshuf_trans_bit_byte_AVX inp out (8 * q) e = Ret (8 * q * e, bit_byte_tgt q e inp <$> seqZ 0 (8 * q * e)).
Proof. intros Hq He Hb Hi Ho. apply (bit_byte_loop_spec 4 movemask_epi8 slli_epi16); try done. lia. Qed.

(** The bits of a register of [8 * k] bytes within a group of eight elements. *)
Lemma eightelem_reg_paint (k : nat) msk shift loc q e inp ii jj : (0 < k)%nat -> 0 < q -> 0 < e -> bytes inp -> zlen inp = 8 * q * e ->
  (forall v, length v = (8 * k)%nat -> msk v = movemask_epi8 v /\ shift v = slli_epi16 v) ->
  0 <= ii < q -> 0 <= jj -> jj + Z.of_nat k <= e ->
  (forall kk, 0 <= kk < 8 -> loc kk = ii * (8 * e) + jj + (7 - kk) * e) ->
  paints (eightelem_tgt e inp) (8 * q * e) (fun i => i / (8 * e) = ii /\ jj <= i mod (8 * e) mod e < jj + Z.of_nat k)
    (fun out => let! v := mem_read inp (ii * (8 * e) + 8 * jj) (8 * Z.of_nat k) in bit_rows k msk shift loc (seqZ 0 8) v out).
Proof.
  intros Hk Hq He Hb Hi Hunit Hii Hjj Hjk Hloc. rewrite mem_read_reg by nia. cbn [obind].
  eapply paints_weaken; [apply (bit_rows_paint _ _ k _ _ _ inp); [done|nia|nia|done|]|].
  - intros kk Hkk. rewrite Hloc by done. split; [nia|]. split; [nia|]. intros t Ht. unfold eightelem_tgt.
    destruct (div_mod_at (8 * e) ii ((7 - kk) * e + (jj + t))) as [E1 E2]; [nia|].
    replace (ii * (8 * e) + jj + (7 - kk) * e + t) with (ii * (8 * e) + ((7 - kk) * e + (jj + t))) by lia. rewrite E1, E2.
    destruct (div_mod_at e (7 - kk) (jj + t)) as [-> ->]; [lia|]. f_equal. lia.
  - intros i Hir [Hi1 Hi2]. pose proof (Z.div_mod i (8 * e) ltac:(lia)). pose proof (Z.mod_pos_bound i (8 * e) ltac:(lia)).
    set (c := i mod (8 * e)) in *. pose proof (Z.div_mod c e ltac:(lia)). pose proof (Z.mod_pos_bound c e ltac:(lia)).
    exists (7 - c / e). split; [nia|]. rewrite Hloc by nia. nia.
Qed.

(** The groups, and the words of a group taken [k] at a time. *)
Lemma elem_of_groups q e ii : 0 < q -> 0 < e -> ii ∈ range_by (8 * e) 0 (e * (8 * q)) <-> exists g, ii = g * (8 * e) /\ 0 <= g < q.
Proof.
  intros Hq He. rewrite elem_of_range_by by nia. split; intros (g & -> & Hg); exists g; (split; [lia|]); nia.
Qed.

Lemma elem_of_words (k : nat) f e jj : (0 < k)%nat -> 0 < f -> e = Z.of_nat k * f ->
  jj ∈ range_by (8 * Z.of_nat k) 0 (8 * e) <-> exists c, jj = 8 * (Z.of_nat k * c) /\ 0 <= c < f.
Proof.
  intros Hk Hf ->. rewrite elem_of_range_by by nia. split; intros (c & -> & Hc); exists c; (split; [lia|]); nia.
Qed.

Lemma div8 x : 8 * x / 8 = x.
Proof. rewrite Z.mul_comm. by apply Z.div_mul. Qed.

(** Every cell belongs to one register of a group. *)
Lemma eightelem_cell (k : nat) f q e i : (0 < k)%nat -> 0 < f -> e = Z.of_nat k * f -> 0 < q -> 0 <= i < 8 * q * e ->
  exists g c, 0 <= g < q /\ 0 <= c < f /\ i / (8 * e) = g /\ Z.of_nat k * c <= i mod (8 * e) mod e < Z.of_nat k * c + Z.of_nat k.
Proof.
  intros Hk Hf He Hq Hi. assert (0 < e) by nia. pose proof (Z.div_mod i (8 * e) ltac:(lia)). pose proof (Z.mod_pos_bound i (8 * e) ltac:(lia)).
  set (y := i mod (8 * e)) in *. pose proof (Z.mod_pos_bound y e ltac:(lia)). set (x := y mod e) in *.
  pose proof (Z.div_mod x (Z.of_nat k) ltac:(lia)). pose proof (Z.mod_pos_bound x (Z.of_nat k) ltac:(lia)).
  exists (i / (8 * e)), (x / Z.of_nat k). split_and!; [apply Z.div_pos; lia|apply Z.div_lt_upper_bound; nia|apply Z.div_pos; lia|
    apply Z.div_lt_upper_bound; lia|done|lia|lia].
Qed.

Lemma shuffle_bit_eightelem_correct {U : VectorUnit} q e inp out : 0 < q -> 0 < e -> bytes inp -> zlen inp = 8 * q * e -> zlen out = 8 * q * e ->
  shuffle_bit_eightelem inp out (8 * q) e = Ret (8 * q * e, eightelem_tgt e inp <$> seqZ 0 (8 * q * e)).
Proof.
  intros Hq He Hb Hi Ho. unfold shuffle_bit_eightelem. rewrite size_mult_eight.
  destruct (Z.eqb_spec (e mod 2) 0) as [Ee|]; cbn [negb]; [|by rewrite shuffle_bit_eightelem_spec by lia].
  apply Z.div_exact in Ee; [|lia]. set (f := e / 2) in *. assert (Hf : 0 < f) by lia.
  rewrite (paints_all (eightelem_tgt e inp) (8 * q * e) (foldO _ (range_by (8 * e) 0 (e * (8 * q)))) out); [done| |done].
  eapply paints_weaken; [apply (paints_loop _ _ _ (fun ii i => exists jj, jj ∈ range_by 16 0 (8 * e) /\
    (i / (8 * e) = ii / (8 * e) /\ jj / 8 <= i mod (8 * e) mod e < jj / 8 + 2))); intros ii Hii; apply paints_loop; intros jj Hjj|].
  - apply elem_of_groups in Hii as (g & Eii & Hg); [|done..]. apply (elem_of_words 2 f e) in Hjj as (c & Ejj & Hc); [|lia..].
    change (Z.of_nat 2) with 2 in Ejj. rewrite Eii, Ejj, div8, Z.div_mul by lia.
    apply (eightelem_reg_paint 2 mask shift16); try done; [lia|apply unit_regs|lia|lia|].
    intros kk Hkk. replace (g * (8 * e) + 2 * c + (7 - kk) * e) with ((g * (8 * f) + c + (7 - kk) * f) * 2) at 1 by lia. rewrite Z.div_mul by lia. lia.
  - intros i Hir _. destruct (eightelem_cell 2 f q e i) as (g & c & Hg & Hc & Hi1 & Hi2); [lia..|].
    exists (g * (8 * e)). split; [apply elem_of_groups; eauto|]. exists (8 * (2 * c)).
    split; [apply (elem_of_words 2 f e); [lia..|]; by exists c|]. rewrite div8, Z.div_mul by lia. split; [done|lia].
Qed.

Lemma shuffle_bit_eightelem_AVX_correct q e inp out : 0 < q -> 0 < e -> bytes inp -> zlen inp = 8 * q * e -> zlen out = 8 * q * e ->
  bshuf_shuffle_bit_eightelem_AVX inp out (8 * q) e = Ret (8 * q * e, eightelem_tgt e inp <$> seqZ 0 (8 * q * e)).
Proof.
  intros Hq He Hb Hi Ho. unfold bshuf_shuffle_bit_eightelem_AVX. rewrite size_mult_eight.
  destruct (Z.eqb_spec (e mod 4) 0) as [Ee|]; cbn [negb]; [|by apply shuffle_bit_eightelem_correct].
  apply Z.div_exact in Ee; [|lia]. set (f := e / 4) in *. assert (Hf : 0 < f) by lia.
  rewrite (paints_all (eightelem_tgt e inp) (8 * q * e) (foldO _ (range_by 32 0 (8 * e))) out); [done| |done].
  eapply paints_weaken; [apply (paints_loop _ _ _ (fun jj i => exists ii, ii ∈ range_by (8 * e) 0 (e * (8 * q)) /\
    (i / (8 * e) = ii / (8 * e) /\ jj / 8 <= i mod (8 * e) mod e < jj / 8 + 4))); intros jj Hjj; apply paints_loop; intros ii Hii|].
  - apply elem_of_groups in Hii as (g & Eii & Hg); [|done..]. apply (elem_of_words 4 f e) in Hjj as (c & Ejj & Hc); [|lia..].
    change (Z.of_nat 4) with 4 in Ejj. rewrite Eii, Ejj, div8, Z.div_mul by lia.
    apply (eightelem_reg_paint 4 movemask_epi8 slli_epi16); try done; lia.
  - intros i Hir _. destruct (eightelem_cell 4 f q e i) as (g & c & Hg & Hc & Hi1 & Hi2); [lia..|].
    exists (8 * (4 * c)). split; [apply (elem_of_words 4 f e); [lia..|]; by exists c|].
    exists (g * (8 * e)). split; [apply elem_of_groups; eauto|]. rewrite div8, Z.div_mul by lia. split; [done|lia].
Qed.
