(* ===== verification/SimdRows.v ===== *)
(** * Bitshuffle on vector units: the rows of bits, and the drivers

    [src/source/external/bitshuffle/bitshuffle_core.c]: the routines that bring a row for each bit back
    into elements, for SSE2, NEON and AVX2; the routines for a whole block, which are composed of these and
    of the ones of [Simd]; and the choice of the instruction set when the library is compiled.  Every
    choice stores what the portable routines store. *)

From S2P Require Import Prelude Scatter Bitshuffle Simd.

(** ** Registers of 16 bytes *)

(** Register [k] of an array of registers. *)
Definition reg_at {A} (v : list (list A)) (k : nat) : list A := nth k v [].

(** Half [r mod 2] of register [r / 2]: [_mm_storel_pi] and [_mm_storeh_pi], [vst1_s64]. *)
Definition half {A} (v : list (list A)) (r : Z) : list A :=
  let x := reg_at v (Z.to_nat (r / 2)) in if r mod 2 =? 0 then take 8 x else drop 8 x.

(** The order of the stores: SSE2 stores the low halves first. *)
Definition sse2_order : list Z := [0; 2; 4; 6; 8; 10; 12; 14; 1; 3; 5; 7; 9; 11; 13; 15].
Definition neon_order : list Z := seqZ 0 16.

Section UnitRows.
Context {U : VectorUnit}.

Definition net_bitrow {A} (v : list (list A)) : list (list A) :=
  match v with
  | [a0; b0; c0; d0; e0; f0; g0; h0] =>
      let a1 := zip_lo 1 a0 b0 in let b1 := zip_lo 1 c0 d0 in
      let c1 := zip_lo 1 e0 f0 in let d1 := zip_lo 1 g0 h0 in
      let e1 := zip_hi 1 a0 b0 in let f1 := zip_hi 1 c0 d0 in
      let g1 := zip_hi 1 e0 f0 in let h1 := zip_hi 1 g0 h0 in
      let a0 := zip_lo 2 a1 b1 in let b0 := zip_lo 2 c1 d1 in
      let c0 := zip_hi 2 a1 b1 in let d0 := zip_hi 2 c1 d1 in
      let e0 := zip_lo 2 e1 f1 in let f0 := zip_lo 2 g1 h1 in
      let g0 := zip_hi 2 e1 f1 in let h0 := zip_hi 2 g1 h1 in
      let a1 := zip_lo 4 a0 b0 in let b1 := zip_hi 4 a0 b0 in
      let c1 := zip_lo 4 c0 d0 in let d1 := zip_hi 4 c0 d0 in
      let e1 := zip_lo 4 e0 f0 in let f1 := zip_hi 4 e0 f0 in
      let g1 := zip_lo 4 g0 h0 in let h1 := zip_hi 4 g0 h0 in
      [a1; b1; c1; d1; e1; f1; g1; h1]
  | _ => []
  end.

(** For data organised into a row for each bit, transpose the bytes. *)
Definition trans_byte_bitrow (order : list Z) (inp out : list Z) (size elem_size : Z) : routine :=
  CHECK_MULT_EIGHT size out
    (let nrows := 8 * elem_size in
     let nbyte_row := size / 8 in
     let! out := foldO (fun out ii =>
         let! out := foldO (fun out jj =>
             let! v := loads 16 inp ((fun k => (ii + k) * nbyte_row + jj) <$> seqZ 0 8) in
             stores out ((fun r => ((jj + r) * nrows + ii, half (net_bitrow v) r)) <$> order))
           (range_by 16 0 nbyte_row) out in
         foldO (fun out jj => foldO (fun out k =>
             let! b := byte_at inp ((ii + k) * nbyte_row + jj) in
             mem_write out (jj * nrows + ii + k) [b])
           (seqZ 0 8) out) (seqZ (nbyte_row - nbyte_row mod 16) (nbyte_row mod 16)) out)
       (range_by 8 0 nrows) out in
     Ret (size * elem_size, out)).
End UnitRows.

Definition bshuf_trans_byte_bitrow_SSE := trans_byte_bitrow (U := sse2) sse2_order.
Definition bshuf_trans_byte_bitrow_NEON := trans_byte_bitrow (U := neon) neon_order.

(** ** AVX2: registers of 32 bytes *)

(** An array of eight registers; every register is written before it is read. *)
Definition ymm {A} : list (list A) := repeat [] 8.

(** The rows of eight bits: lanes of 8, 16 and 32 bits are merged. *)
Definition lanes_8 {A} (ymm_0 ymm_1 : list (list A)) : list (list A) :=
  foldl (fun y kk =>
      <[(kk + 4)%nat := mm256_unpackhi 1 (reg_at ymm_0 (kk * 2)) (reg_at ymm_0 (kk * 2 + 1))]>
        (<[kk := mm256_unpacklo 1 (reg_at ymm_0 (kk * 2)) (reg_at ymm_0 (kk * 2 + 1))]> y)) ymm_1 (seq 0 4).
Definition lanes_16 {A} (ymm_1 ymm_0 : list (list A)) : list (list A) :=
  foldl (fun y kk => foldl (fun y mm =>
      <[(kk * 4 + mm + 2)%nat := mm256_unpackhi 2 (reg_at ymm_1 (kk * 4 + mm * 2)) (reg_at ymm_1 (kk * 4 + mm * 2 + 1))]>
        (<[(kk * 4 + mm)%nat := mm256_unpacklo 2 (reg_at ymm_1 (kk * 4 + mm * 2)) (reg_at ymm_1 (kk * 4 + mm * 2 + 1))]> y))
    y (seq 0 2)) ymm_0 (seq 0 2).
Definition lanes_32 {A} (ymm_0 ymm_1 : list (list A)) : list (list A) :=
  foldl (fun y kk =>
      <[(kk * 2 + 1)%nat := mm256_unpackhi 4 (reg_at ymm_0 (kk * 2)) (reg_at ymm_0 (kk * 2 + 1))]>
        (<[(kk * 2)%nat := mm256_unpacklo 4 (reg_at ymm_0 (kk * 2)) (reg_at ymm_0 (kk * 2 + 1))]> y)) ymm_1 (seq 0 4).

Definition rows_8 {A} (ymm_0 : list (list A)) : list (list A) :=
  let ymm_1 := lanes_8 ymm_0 ymm in
  let ymm_0 := lanes_16 ymm_1 ymm_0 in
  lanes_32 ymm_0 ymm_1.

(** Four elements. *)
Definition elems_4 {A} (ymm_0 : list (list A)) : list (list A) :=
  let ymm_1 := [mm256_unpacklo 8 (reg_at ymm_0 0) (reg_at ymm_0 1); mm256_unpacklo 8 (reg_at ymm_0 2) (reg_at ymm_0 3);
                mm256_unpackhi 8 (reg_at ymm_0 0) (reg_at ymm_0 1); mm256_unpackhi 8 (reg_at ymm_0 2) (reg_at ymm_0 3)] in
  [mm256_permute2x128 (reg_at ymm_1 0) (reg_at ymm_1 1) 32; mm256_permute2x128 (reg_at ymm_1 2) (reg_at ymm_1 3) 32;
   mm256_permute2x128 (reg_at ymm_1 0) (reg_at ymm_1 1) 49; mm256_permute2x128 (reg_at ymm_1 2) (reg_at ymm_1 3) 49].

(** [ymm_storeage[mm][kk]], for the four values of [kk]; the registers of one value of [hh] are kept together. *)
Definition stored {A} (ymm_storeage : list (list (list A))) (mm : Z) : list (list A) :=
  (fun v => reg_at v (Z.to_nat mm)) <$> ymm_storeage.

Fixpoint rows_32 (inp : list Z) (nbyte_row ii jj : Z) (hhs : list Z) : outcome (list (list (list Z))) :=
  match hhs with
  | [] => Ret []
  | hh :: hhs' =>
      let! v := loads 32 inp ((fun kk => (ii * 8 + hh * 8 + kk) * nbyte_row + jj) <$> seqZ 0 8) in
      let! st := rows_32 inp nbyte_row ii jj hhs' in
      Ret (rows_8 v :: st)
  end.

Definition bshuf_trans_byte_bitrow_AVX (inp out : list Z) (size elem_size : Z) : routine :=
  CHECK_MULT_EIGHT size out
    (let nrows := 8 * elem_size in
     let nbyte_row := size / 8 in
     if negb (elem_size mod 4 =? 0) then bshuf_trans_byte_bitrow_SSE inp out size elem_size
     else
       let! out := foldO (fun out jj => foldO (fun out ii =>
           let! ymm_storeage := rows_32 inp nbyte_row ii jj (seqZ 0 4) in
           foldO (fun out mm =>
               let ymm_0 := elems_4 (stored ymm_storeage mm) in
               stores out [((jj + mm * 2 + 0 * 16) * nrows + ii * 8, reg_at ymm_0 0);
                           ((jj + mm * 2 + 0 * 16 + 1) * nrows + ii * 8, reg_at ymm_0 1);
                           ((jj + mm * 2 + 1 * 16) * nrows + ii * 8, reg_at ymm_0 2);
                           ((jj + mm * 2 + 1 * 16 + 1) * nrows + ii * 8, reg_at ymm_0 3)]) (seqZ 0 8) out)
         (range_by 4 0 elem_size) out) (range_by 32 0 nbyte_row) out in
       let! out := foldO (fun out ii => foldO (fun out jj =>
           let! b := byte_at inp (ii * nbyte_row + jj) in
           mem_write out (jj * nrows + ii) [b])
         (seqZ (nbyte_row - nbyte_row mod 32) (nbyte_row mod 32)) out) (seqZ 0 nrows) out in
       Ret (size * elem_size, out)).

(** ** What they store *)

Section Natural.
Context {A B : Type} (f : A -> B).

Lemma reg_at_map v k : reg_at (regmap f v) k = f <$> reg_at v k.
Proof. unfold reg_at, regmap. change (@nil B) with (f <$> @nil A). apply (map_nth (fun r : list A => f <$> r)). Qed.

Lemma half_map v r : half (regmap f v) r = f <$> half v r.
Proof. unfold half. rewrite reg_at_map. case_match; by rewrite ?fmap_take, ?fmap_drop. Qed.

Lemma insert_map k x v : <[k := f <$> x]> (regmap f v) = regmap f (<[k := x]> v).
Proof. unfold regmap. by rewrite list_fmap_insert. Qed.

Lemma foldl_map {X} (g : list (list A) -> X -> list (list A)) (g' : list (list B) -> X -> list (list B)) l v :
  (forall v x, g' (regmap f v) x = regmap f (g v x)) -> foldl g' (regmap f v) l = regmap f (foldl g v l).
Proof. intros H. revert v. induction l as [|x l IH]; intros v; [done|]. cbn. by rewrite H, IH. Qed.
End Natural.

#[export] Hint Rewrite @reg_at_map @insert_map : natural.

Section NaturalNets.
Context {A B : Type} (f : A -> B).
Ltac lanes := repeat first [apply foldl_map; intros ??|by autorewrite with natural].

Lemma lanes_8_map x y : lanes_8 (regmap f x) (regmap f y) = regmap f (lanes_8 x y).
Proof. lanes. Qed.

Lemma lanes_16_map x y : lanes_16 (regmap f x) (regmap f y) = regmap f (lanes_16 x y).
Proof. lanes. Qed.

Lemma lanes_32_map x y : lanes_32 (regmap f x) (regmap f y) = regmap f (lanes_32 x y).
Proof. lanes. Qed.

Lemma rows_8_map v : rows_8 (regmap f v) = regmap f (rows_8 v).
Proof. unfold rows_8. change (@ymm B) with (regmap f (@ymm A)). by rewrite lanes_8_map, lanes_16_map, lanes_32_map. Qed.

Lemma elems_4_map v : elems_4 (regmap f v) = regmap f (elems_4 v).
Proof. unfold elems_4. cbn [reg_at nth]. autorewrite with natural. reflexivity. Qed.

Lemma net_bitrow_map {U : VectorUnit} v : length v = 8%nat -> net_bitrow (regmap f v) = regmap f (net_bitrow v).
Proof.
  intros Hv. do 8 (destruct v as [|? v]; [done|]). destruct v; [|done]. unfold regmap. cbn [fmap list_fmap net_bitrow].
  rewrite ?zip_lo_law, ?zip_hi_law. autorewrite with natural. reflexivity.
Qed.
End NaturalNets.

Lemma tables_agree {A} (f g : Z -> A) n i : f <$> seqZ 0 n = g <$> seqZ 0 n -> 0 <= i < n -> f i = g i.
Proof.
  intros H Hi. apply (f_equal (fun l => l !! Z.to_nat i)) in H. rewrite !list_lookup_fmap, lookup_seqZ_lt in H by lia.
  cbn [fmap option_fmap option_map] in H. replace (0 + Z.of_nat (Z.to_nat i)) with i in H by lia. congruence.
Qed.

(** Run on places: byte [r] of the eight rows. *)
Lemma net_bitrow_places {U : VectorUnit} r : 0 <= r < 16 ->
  half (net_bitrow (places 16 8)) r = (fun k => 16 * k + r) <$> seqZ 0 8.
Proof.
  intros Hr. apply (tables_agree (half (net_bitrow (places 16 8))) (fun r => (fun k => 16 * k + r) <$> seqZ 0 8) 16); [|done].
  change (places 16 8) with [seqZ 0 16; seqZ 16 16; seqZ 32 16; seqZ 48 16; seqZ 64 16; seqZ 80 16; seqZ 96 16; seqZ 112 16].
  cbn [net_bitrow]. rewrite !zip_lo_law, !zip_hi_law. vm_compute. reflexivity.
Qed.

(** The registers of 32 rows. *)
Definition block_places : list (list (list Z)) := (fun hh => (fun k => seqZ (32 * (8 * hh + k)) 32) <$> seqZ 0 8) <$> seqZ 0 4.
Definition column (s : Z) : Z := 16 * (s / 2) + s mod 2.

Lemma elems_4_places mm s : 0 <= mm < 8 -> 0 <= s < 4 ->
  reg_at (elems_4 (stored (rows_8 <$> block_places) mm)) (Z.to_nat s) = (fun k => 32 * k + (mm * 2 + column s)) <$> seqZ 0 32.
Proof.
  intros Hm Hs.
  apply (tables_agree (fun s => reg_at (elems_4 (stored (rows_8 <$> block_places) mm)) (Z.to_nat s))
           (fun s => (fun k => 32 * k + (mm * 2 + column s)) <$> seqZ 0 32) 4); [|done].
  apply (tables_agree (fun mm => (fun s => reg_at (elems_4 (stored (rows_8 <$> block_places) mm)) (Z.to_nat s)) <$> seqZ 0 4)
           (fun mm => (fun s => (fun k => 32 * k + (mm * 2 + column s)) <$> seqZ 0 32) <$> seqZ 0 4) 8); [|done].
  vm_compute. reflexivity.
Qed.

(** Byte [j] of row [i]. *)
Lemma byte_bitrow_at q e inp j i : 0 < e -> 0 <= i < 8 * e -> byte_bitrow_tgt q e inp (j * (8 * e) + i) = nth_byte inp (i * q + j).
Proof. intros He Hi. unfold byte_bitrow_tgt. by destruct (div_mod_at (8 * e) j i Hi) as [-> ->]. Qed.

(** The registers loaded from [n] rows that start at row [i] and byte [j]. *)
Definition row_byte (inp : list Z) (q w i j x : Z) : Z := nth_byte inp ((i + x / w) * q + j + x mod w).

Lemma loads_rows inp q w i j n a (p : Z -> Z) : 0 < w ->
  (forall k, 0 <= k < n -> p k = (i + (a + k)) * q + j /\ 0 <= p k /\ p k + w <= zlen inp) ->
  loads w inp (p <$> seqZ 0 n) = Ret (regmap (row_byte inp q w i j) ((fun k => seqZ (w * (a + k)) w) <$> seqZ 0 n)).
Proof.
  intros Hw Hp. rewrite loads_ret; [f_equal|lia|apply Forall_fmap, list.Forall_forall; intros k Hk%elem_of_seqZ; apply Hp; lia].
  unfold regmap. rewrite <- !list_fmap_compose. apply list_fmap_ext. intros _k k Hk%lookup_seqZ. unfold compose. destruct (Hp k) as [-> _]; [lia|].
  replace (seqZ (w * (a + k)) w) with (Z.add (w * (a + k)) <$> seqZ 0 w) by (rewrite fmap_add_seqZ; f_equal; lia).
  rewrite <- list_fmap_compose. apply list_fmap_ext. intros m x Hx%lookup_seqZ. unfold compose, row_byte.
  destruct (div_mod_at w (a + k) x) as [E1 E2]; [lia|]. rewrite (Z.mul_comm w), E1, E2. done.
Qed.

(** A piece of column [c] of the rows, stored at its place. *)
Lemma column_vec q e w inp i j n c : 0 < w -> 0 < e -> 0 <= c < w -> 0 <= i -> i + n <= 8 * e ->
  forall r, 0 <= r < n ->
  nth_byte (row_byte inp q w i j <$> ((fun k => w * k + c) <$> seqZ 0 n)) r = byte_bitrow_tgt q e inp ((j + c) * (8 * e) + i + r).
Proof.
  intros Hw He Hc Hi Hn r Hr. rewrite <- list_fmap_compose, nth_painted by done. unfold compose, row_byte.
  destruct (div_mod_at w r c Hc) as [E1 E2]. rewrite (Z.mul_comm w), E1, E2.
  replace ((j + c) * (8 * e) + i + r) with ((j + c) * (8 * e) + (i + r)) by lia. rewrite byte_bitrow_at by lia. f_equal. lia.
Qed.

Section UnitRowsSpec.
Context {U : VectorUnit}.

(** Sixteen bytes of eight rows. *)
Lemma bitrow_block_paint order q e inp ii jj : 0 < q -> 0 < e -> zlen inp = 8 * q * e -> (forall r, r ∈ order <-> 0 <= r < 16) ->
  0 <= ii -> ii + 8 <= 8 * e -> 0 <= jj -> jj + 16 <= q ->
  paints (byte_bitrow_tgt q e inp) (8 * q * e) (fun i => jj <= i / (8 * e) < jj + 16 /\ ii <= i mod (8 * e) < ii + 8)
    (fun out => let! v := loads 16 inp ((fun k => (ii + k) * q + jj) <$> seqZ 0 8) in
       stores out ((fun r => ((jj + r) * (8 * e) + ii, half (net_bitrow v) r)) <$> order)).
Proof using Type.
  intros Hq He Hi Hord Hii Hie Hjj Hjq. rewrite (loads_rows inp q 16 ii jj 8 0) by (intros; nia). cbn [obind].
  change ((fun k => seqZ (16 * (0 + k)) 16) <$> seqZ 0 8) with (places 16 8). rewrite net_bitrow_map by done.
  assert (Hcell : forall r, r ∈ order -> half (regmap (row_byte inp q 16 ii jj) (net_bitrow (places 16 8))) r =
    row_byte inp q 16 ii jj <$> ((fun k => 16 * k + r) <$> seqZ 0 8)).
  { intros r Hr%Hord. by rewrite half_map, net_bitrow_places. }
  eapply paints_weaken; [apply paints_stores|].
  - intros loc v (r & E & Hr)%list_elem_of_fmap. apply pair_equal_spec in E as [-> ->]. rewrite Hcell by done.
    apply Hord in Hr. unfold zlen. rewrite !length_fmap, length_seqZ. change (Z.of_nat (Z.to_nat 8)) with 8.
    split; [nia|]. split; [nia|]. apply column_vec; lia.
  - intros i Hir [Hj Hx]. pose proof (Z.div_mod i (8 * e) ltac:(lia)). eexists.
    split; [apply list_elem_of_fmap; exists (i / (8 * e) - jj); split; [done|apply Hord; lia]|]. cbn [fst snd].
    rewrite Hcell by (apply Hord; lia). unfold zlen. rewrite !length_fmap, length_seqZ. change (Z.of_nat (Z.to_nat 8)) with 8. nia.
Qed.

Lemma trans_byte_bitrow_correct order q e inp out : 0 < q -> 0 < e -> (forall r, r ∈ order <-> 0 <= r < 16) ->
  zlen inp = 8 * q * e -> zlen out = 8 * q * e ->
  trans_byte_bitrow order inp out (8 * q) e = Ret (8 * q * e, byte_bitrow_tgt q e inp <$> seqZ 0 (8 * q * e)).
Proof using Type.
  intros Hq He Hord Hi Ho. unfold trans_byte_bitrow. rewrite size_mult_eight, div8.
  pose proof (Z.div_mod q 16 ltac:(lia)) as Hdm. pose proof (Z.mod_pos_bound q 16 ltac:(lia)).
  rewrite (paints_all (byte_bitrow_tgt q e inp) (8 * q * e) (foldO _ (range_by 8 0 (8 * e))) out); [done| |done].
  eapply paints_weaken; [apply (paints_loop _ _ _ (fun ii i => ii <= i mod (8 * e) < ii + 8)); intros ii Hii|].
  - apply elem_of_range_by in Hii as (a & Eii & Ha & Hb); [|lia..].
    eapply paints_weaken; [apply paints_seq; [apply (paints_loop _ _ _ (fun jj i => jj <= i / (8 * e) < jj + 16 /\ ii <= i mod (8 * e) < ii + 8));
      intros jj Hjj|apply paints_loop; intros jj Hjj%elem_of_seqZ; apply paints_loop; intros k Hk%elem_of_seqZ]|].
    + apply elem_of_range_by in Hjj as (c & Ejj & Hc & Hbj); [|lia..]. apply bitrow_block_paint; try done; lia.
    + assert (Hx : 0 <= ii + k < 8 * e) by lia. assert (Hy : 0 <= jj < q) by lia. clear Hjj Hk Hdm.
      replace (jj * (8 * e) + ii + k) with (jj * (8 * e) + (ii + k)) by lia. apply paints_copy; [nia|nia|]. by rewrite byte_bitrow_at by lia.
    + intros i Hir Hx. pose proof (Z.div_mod i (8 * e) ltac:(lia)). assert (0 <= i / (8 * e) < q) by nia. set (y := i / (8 * e)) in *.
      destruct (Z.le_gt_cases (q - q mod 16) y).
      * right. exists y. split; [apply elem_of_seqZ; lia|]. exists (i mod (8 * e) - ii). split; [apply elem_of_seqZ; lia|lia].
      * left. exists (0 + 16 * (y / 16)). pose proof (Z.div_mod y 16 ltac:(lia)). pose proof (Z.mod_pos_bound y 16 ltac:(lia)).
        split; [apply elem_of_range_by; [lia..|]; exists (y / 16); lia|lia].
  - intros i Hir _. pose proof (Z.mod_pos_bound i (8 * e) ltac:(lia)). set (x := i mod (8 * e)) in *.
    pose proof (Z.div_mod x 8 ltac:(lia)). pose proof (Z.mod_pos_bound x 8 ltac:(lia)).
    exists (0 + 8 * (x / 8)). split; [apply elem_of_range_by; [lia..|]; exists (x / 8); lia|lia].
Qed.
End UnitRowsSpec.

Definition group_places (hh : Z) : list (list Z) := (fun k => seqZ (32 * (8 * hh + k)) 32) <$> seqZ 0 8.

Lemma rows_32_ret q e inp ii jj hhs : 0 < q -> zlen inp = 8 * q * e -> 0 <= ii -> ii + 4 <= e -> 0 <= jj -> jj + 32 <= q ->
  Forall (fun hh => 0 <= hh < 4) hhs ->
  rows_32 inp q ii jj hhs = Ret ((fun hh => regmap (row_byte inp q 32 (ii * 8) jj) (rows_8 (group_places hh))) <$> hhs).
Proof.
  intros Hq Hi Hii Hie Hjj Hjq. induction 1 as [|hh hhs Hhh _ IH]; [done|]. cbn [rows_32].
  rewrite (loads_rows inp q 32 (ii * 8) jj 8 (8 * hh)).
  - cbn [obind]. rewrite IH, rows_8_map. done.
  - lia.
  - intros k Hk. split; [lia|]. assert (0 <= ii * 8 + hh * 8 + k < 8 * e) by lia. nia.
Qed.

Lemma stored_map g st mm : stored ((fun v => regmap g (rows_8 v)) <$> st) mm = regmap g (stored (rows_8 <$> st) mm : list (list Z)) :> list (list Z).
Proof.
  unfold stored, regmap at 2. rewrite <- !list_fmap_compose. apply list_fmap_ext. intros _ v _. unfold compose. apply reg_at_map.
Qed.

(** Thirty-two bytes of thirty-two rows. *)
Lemma avx_block_paint q e inp ii jj : 0 < q -> 0 < e -> zlen inp = 8 * q * e -> 0 <= ii -> ii + 4 <= e -> 0 <= jj -> jj + 32 <= q ->
  paints (byte_bitrow_tgt q e inp) (8 * q * e) (fun i => jj <= i / (8 * e) < jj + 32 /\ ii * 8 <= i mod (8 * e) < ii * 8 + 32)
    (fun out => let! ymm_storeage := rows_32 inp q ii jj (seqZ 0 4) in
       foldO (fun out mm =>
           let ymm_0 := elems_4 (stored ymm_storeage mm) in
           stores out [((jj + mm * 2 + 0 * 16) * (8 * e) + ii * 8, reg_at ymm_0 0);
                       ((jj + mm * 2 + 0 * 16 + 1) * (8 * e) + ii * 8, reg_at ymm_0 1);
                       ((jj + mm * 2 + 1 * 16) * (8 * e) + ii * 8, reg_at ymm_0 2);
                       ((jj + mm * 2 + 1 * 16 + 1) * (8 * e) + ii * 8, reg_at ymm_0 3)]) (seqZ 0 8) out).
Proof.
  intros Hq He Hi Hii Hie Hjj Hjq. rewrite (rows_32_ret q e) by (done || apply list.Forall_forall; intros ? Hx%elem_of_seqZ; lia).
  cbn [obind]. set (g := row_byte inp q 32 (ii * 8) jj).
  replace ((fun hh => regmap g (rows_8 (group_places hh))) <$> seqZ 0 4) with ((fun v => regmap g (rows_8 v)) <$> block_places)
    by (unfold block_places; by rewrite <- list_fmap_compose).
  eapply paints_weaken; [apply (paints_loop _ _ _ (fun mm i => exists s, 0 <= s < 4 /\ i / (8 * e) = jj + (mm * 2 + column s) /\
    ii * 8 <= i mod (8 * e) < ii * 8 + 32)); intros mm Hmm%elem_of_seqZ|].
  - cbv zeta. rewrite stored_map, elems_4_map. set (v := regmap g _).
    assert (Hv : forall s, 0 <= s < 4 -> reg_at v (Z.to_nat s) = g <$> ((fun k => 32 * k + (mm * 2 + column s)) <$> seqZ 0 32)).
    { intros s Hs. unfold v. rewrite reg_at_map, elems_4_places by lia. done. }
    set (l := [_; _; _; _]).
    assert (Hl : l = (fun s => ((jj + (mm * 2 + column s)) * (8 * e) + ii * 8, reg_at v (Z.to_nat s))) <$> seqZ 0 4).
    { unfold l. change (seqZ 0 4) with [0; 1; 2; 3]. cbn [fmap list_fmap].
      change (column 0) with 0. change (column 1) with 1. change (column 2) with 16. change (column 3) with 17.
      repeat first [lia|reflexivity|f_equal]. }
    rewrite Hl. clear Hl l.
    assert (Hcol : forall s, 0 <= s < 4 -> 0 <= mm * 2 + column s < 32).
    { intros s Hs. unfold column. pose proof (Z.div_mod s 2 ltac:(lia)). pose proof (Z.mod_pos_bound s 2 ltac:(lia)). lia. }
    eapply paints_weaken; [apply paints_stores|].
    + intros loc x (s & E & Hs%elem_of_seqZ)%list_elem_of_fmap. apply pair_equal_spec in E as [-> ->]. rewrite Hv by lia.
      specialize (Hcol s ltac:(lia)). set (c := mm * 2 + column s) in *.
      unfold zlen. rewrite !length_fmap, length_seqZ. change (Z.of_nat (Z.to_nat 32)) with 32.
      split; [nia|]. split; [nia|]. apply column_vec; lia.
    + intros i Hir (s & Hs & Hj & Hx). pose proof (Z.div_mod i (8 * e) ltac:(lia)). eexists.
      split; [apply list_elem_of_fmap; exists s; split; [done|apply elem_of_seqZ; lia]|]. cbn [fst snd]. rewrite Hv by done.
      unfold zlen. rewrite !length_fmap, length_seqZ. change (Z.of_nat (Z.to_nat 32)) with 32. rewrite <- Hj. lia.
  - intros i Hir [Hj Hx]. set (c := i / (8 * e) - jj). pose proof (Z.div_mod c 2 ltac:(lia)). pose proof (Z.mod_pos_bound c 2 ltac:(lia)).
    pose proof (Z.div_mod (c / 2) 8 ltac:(lia)). pose proof (Z.mod_pos_bound (c / 2) 8 ltac:(lia)). assert (0 <= c < 32) by lia.
    exists ((c / 2) mod 8). split; [apply elem_of_seqZ; lia|]. exists (2 * (c / 2 / 8) + c mod 2). split; [lia|]. split; [|done].
    unfold column. destruct (div_mod_at 2 (c / 2 / 8) (c mod 2)) as [E1 E2]; [lia|]. rewrite (Z.mul_comm 2), E1, E2. lia.
Qed.

Lemma elem_of_sse2_order r : r ∈ sse2_order <-> 0 <= r < 16.
Proof.
  rewrite <- (elem_of_seqZ 0 16). assert (H : sse2_order ≡ₚ seqZ 0 16); [|by rewrite H].
  apply (Permutation_trans (l' := [0; 1; 2; 3; 4; 5; 6; 7; 8; 9; 10; 11; 12; 13; 14; 15])); [solve_Permutation|reflexivity].
Qed.

Lemma trans_byte_bitrow_AVX_correct q e inp out : 0 < q -> 0 < e -> zlen inp = 8 * q * e -> zlen out = 8 * q * e ->
  bshuf_trans_byte_bitrow_AVX inp out (8 * q) e = Ret (8 * q * e, byte_bitrow_tgt q e inp <$> seqZ 0 (8 * q * e)).
Proof.
  intros Hq He Hi Ho. unfold bshuf_trans_byte_bitrow_AVX. rewrite size_mult_eight, div8.
  destruct (Z.eqb_spec (e mod 4) 0) as [Ee|]; cbn [negb]; [|apply trans_byte_bitrow_correct; try done; apply elem_of_sse2_order].
  apply Z.div_exact in Ee; [|lia]. pose proof (Z.div_mod q 32 ltac:(lia)) as Hdm. pose proof (Z.mod_pos_bound q 32 ltac:(lia)).
  set (body := foldO _ (range_by 32 0 q)). set (rest := foldO _ (seqZ 0 (8 * e))).
  apply (fills_all (byte_bitrow_tgt q e inp) (8 * q * e)
    (fun i => (exists jj, jj ∈ range_by 32 0 q /\ jj <= i / (8 * e) < jj + 32) \/ q - q mod 32 <= i / (8 * e))
    _ (fun m => let! o := body m in let! o := rest o in Ret (8 * q * e, o))); [|intros i Hir|done].
  - apply fills_after; [|apply fills_ret].
    + apply paints_loop. intros jj Hjj. apply elem_of_range_by in Hjj as (c & Ejj & Hc & Hbj); [|lia..].
      eapply paints_weaken; [apply (paints_loop _ _ _ (fun ii i => jj <= i / (8 * e) < jj + 32 /\ ii * 8 <= i mod (8 * e) < ii * 8 + 32));
        intros ii Hii|].
      * apply elem_of_range_by in Hii as (a & Eii & Ha & Hb); [|lia..]. apply avx_block_paint; lia.
      * intros i Hir Hx. pose proof (Z.mod_pos_bound i (8 * e) ltac:(lia)). set (x := i mod (8 * e)) in *.
        pose proof (Z.div_mod x 32 ltac:(lia)). pose proof (Z.mod_pos_bound x 32 ltac:(lia)).
        exists (0 + 4 * (x / 32)). split; [apply elem_of_range_by; [lia..|]; exists (x / 32); lia|lia].
    + eapply paints_weaken; [apply paints_loop; intros ii Hii%elem_of_seqZ; apply paints_loop; intros jj Hjj%elem_of_seqZ|].
      * assert (Hx : 0 <= ii < 8 * e) by lia. assert (Hy : 0 <= jj < q) by lia. clear Hjj Hdm.
        apply paints_copy; [nia|nia|]. by rewrite byte_bitrow_at by lia.
      * intros i Hir Hx. pose proof (Z.div_mod i (8 * e) ltac:(lia)). pose proof (Z.mod_pos_bound i (8 * e) ltac:(lia)).
        assert (0 <= i / (8 * e) < q) by nia. exists (i mod (8 * e)). split; [apply elem_of_seqZ; lia|].
        exists (i / (8 * e)). split; [apply elem_of_seqZ; lia|lia].
  - cbv beta. pose proof (Z.div_mod i (8 * e) ltac:(lia)). pose proof (Z.mod_pos_bound i (8 * e) ltac:(lia)).
    assert (0 <= i / (8 * e) < q) by nia. set (y := i / (8 * e)) in *.
    destruct (Z.le_gt_cases (q - q mod 32) y) as [|Hy]; [by right|left].
    pose proof (Z.div_mod y 32 ltac:(lia)). pose proof (Z.mod_pos_bound y 32 ltac:(lia)).
    exists (0 + 32 * (y / 32)). split; [apply elem_of_range_by; [lia..|]; exists (y / 32); lia|lia].
Qed.

(** ** The library as it is compiled *)

(** The macros that the compiler defines. *)
Record macros := { def_AVX2 : bool; def_SSE2 : bool; def_NO_WARN_X86_INTRINSICS : bool; def_ARM_NEON : bool; def_aarch64 : bool }.

Definition USEAVX2 (m : macros) : bool := def_AVX2 m && def_SSE2 m.
Definition USESSE2 (m : macros) : bool := def_SSE2 m || def_NO_WARN_X86_INTRINSICS m.
Definition USEARMNEON (m : macros) : bool := def_ARM_NEON m && def_aarch64 m.

Definition bshuf_using_NEON (m : macros) : Z := if USEARMNEON m then 1 else 0.
Definition bshuf_using_SSE2 (m : macros) : Z := if USESSE2 m then 1 else 0.
Definition bshuf_using_AVX2 (m : macros) : Z := if USEAVX2 m then 1 else 0.

(** The functions that stand for the ones of an instruction set that is not there. *)
Definition without_SSE2 (out : list Z) : routine := Ret (-11, out).
Definition without_AVX2 (out : list Z) : routine := Ret (-12, out).
Definition without_NEON (out : list Z) : routine := Ret (-13, out).

Section Compiled.
Context (m : macros) (malloc : Z -> option (list Z)).

(** *** SSE2 *)

Definition bshuf_trans_byte_elem_SSE_16 (inp out : list Z) (size : Z) : routine :=
  if USESSE2 m then trans_byte_elem_16 (U := sse2) inp out size else without_SSE2 out.
Definition bshuf_trans_byte_elem_SSE_32 (inp out : list Z) (size : Z) : routine :=
  if USESSE2 m then trans_byte_elem_32 (U := sse2) inp out size else without_SSE2 out.
Definition bshuf_trans_byte_elem_SSE_64 (inp out : list Z) (size : Z) : routine :=
  if USESSE2 m then trans_byte_elem_64 (U := sse2) inp out size else without_SSE2 out.
Definition bshuf_trans_byte_elem_SSE (inp out : list Z) (size elem_size : Z) : routine :=
  if USESSE2 m then trans_byte_elem (U := sse2) malloc inp out size elem_size else without_SSE2 out.
Definition bshuf_trans_bit_byte_SSE (inp out : list Z) (size elem_size : Z) : routine :=
  if USESSE2 m then trans_bit_byte (U := sse2) inp out size elem_size else without_SSE2 out.
Definition bshuf_shuffle_bit_eightelem_SSE (inp out : list Z) (size elem_size : Z) : routine :=
  if USESSE2 m then shuffle_bit_eightelem (U := sse2) inp out size elem_size else without_SSE2 out.

(** *** NEON *)

Definition bshuf_trans_byte_elem_NEON_16 (inp out : list Z) (size : Z) : routine :=
  if USEARMNEON m then trans_byte_elem_16 (U := neon) inp out size else without_NEON out.
Definition bshuf_trans_byte_elem_NEON_32 (inp out : list Z) (size : Z) : routine :=
  if USEARMNEON m then trans_byte_elem_32 (U := neon) inp out size else without_NEON out.
Definition bshuf_trans_byte_elem_NEON_64 (inp out : list Z) (size : Z) : routine :=
  if USEARMNEON m then trans_byte_elem_64 (U := neon) inp out size else without_NEON out.
Definition bshuf_trans_byte_elem_NEON (inp out : list Z) (size elem_size : Z) : routine :=
  if USEARMNEON m then trans_byte_elem (U := neon) malloc inp out size elem_size else without_NEON out.
Definition bshuf_trans_bit_byte_NEON (inp out : list Z) (size elem_size : Z) : routine :=
  if USEARMNEON m then trans_bit_byte (U := neon) inp out size elem_size else without_NEON out.
Definition bshuf_shuffle_bit_eightelem_NEON (inp out : list Z) (size elem_size : Z) : routine :=
  if USEARMNEON m then shuffle_bit_eightelem (U := neon) inp out size elem_size else without_NEON out.

(** *** Blocks *)

(** The body of the three [bshuf_trans_bit_elem_..] and of the three [bshuf_untrans_bit_elem_..]. *)
Definition trans_bit_elem_by (byte_elem bit_byte : list Z -> list Z -> Z -> Z -> routine) (inp out : list Z) (size elem_size : Z) : routine :=
  CHECK_MULT_EIGHT size out
    match malloc (size * elem_size) with
    | None => Ret (-1, out)
    | Some tmp_buf =>
        check_err (byte_elem inp out size elem_size) (fun out =>
        let! '(count, tmp_buf) := bit_byte out tmp_buf size elem_size in
        if count <? 0 then Ret (count, out)
        else bshuf_trans_bitrow_eight tmp_buf out size elem_size)
    end.

Definition untrans_bit_elem_by (byte_bitrow eightelem : list Z -> list Z -> Z -> Z -> routine) (inp out : list Z) (size elem_size : Z) : routine :=
  CHECK_MULT_EIGHT size out
    match malloc (size * elem_size) with
    | None => Ret (-1, out)
    | Some tmp_buf =>
        let! '(count, tmp_buf) := byte_bitrow inp tmp_buf size elem_size in
        if count <? 0 then Ret (count, out)
        else eightelem tmp_buf out size elem_size
    end.

Definition bshuf_trans_bit_elem_SSE (inp out : list Z) (size elem_size : Z) : routine :=
  if USESSE2 m then trans_bit_elem_by bshuf_trans_byte_elem_SSE bshuf_trans_bit_byte_SSE inp out size elem_size else without_SSE2 out.
Definition bshuf_trans_bit_elem_NEON (inp out : list Z) (size elem_size : Z) : routine :=
  if USEARMNEON m then trans_bit_elem_by bshuf_trans_byte_elem_NEON bshuf_trans_bit_byte_NEON inp out size elem_size else without_NEON out.
Definition bshuf_trans_bit_elem_AVX (inp out : list Z) (size elem_size : Z) : routine :=
  if USEAVX2 m then trans_bit_elem_by bshuf_trans_byte_elem_SSE bshuf_trans_bit_byte_AVX inp out size elem_size else without_AVX2 out.

Definition bshuf_untrans_bit_elem_SSE (inp out : list Z) (size elem_size : Z) : routine :=
  if USESSE2 m then untrans_bit_elem_by bshuf_trans_byte_bitrow_SSE bshuf_shuffle_bit_eightelem_SSE inp out size elem_size else without_SSE2 out.
Definition bshuf_untrans_bit_elem_NEON (inp out : list Z) (size elem_size : Z) : routine :=
  if USEARMNEON m then untrans_bit_elem_by bshuf_trans_byte_bitrow_NEON bshuf_shuffle_bit_eightelem_NEON inp out size elem_size else without_NEON out.
Definition bshuf_untrans_bit_elem_AVX (inp out : list Z) (size elem_size : Z) : routine :=
  if USEAVX2 m then untrans_bit_elem_by bshuf_trans_byte_bitrow_AVX bshuf_shuffle_bit_eightelem_AVX inp out size elem_size else without_AVX2 out.

(** *** Drivers selecting the best instruction set *)

Definition compiled_trans_bit_elem (inp out : list Z) (size elem_size : Z) : routine :=
  if USEAVX2 m then bshuf_trans_bit_elem_AVX inp out size elem_size
  else if USESSE2 m then bshuf_trans_bit_elem_SSE inp out size elem_size
  else if USEARMNEON m then bshuf_trans_bit_elem_NEON inp out size elem_size
  else bshuf_trans_bit_elem_scal malloc inp out size elem_size.

Definition compiled_untrans_bit_elem (inp out : list Z) (size elem_size : Z) : routine :=
  if USEAVX2 m then bshuf_untrans_bit_elem_AVX inp out size elem_size
  else if USESSE2 m then bshuf_untrans_bit_elem_SSE inp out size elem_size
  else if USEARMNEON m then bshuf_untrans_bit_elem_NEON inp out size elem_size
  else bshuf_untrans_bit_elem_scal malloc inp out size elem_size.

(** ** Equivalence with the portable routines *)

Lemma use_avx2_sse2 : USEAVX2 m = true -> USESSE2 m = true.
Proof. unfold USEAVX2, USESSE2. intros [_ ->]%andb_true_iff. done. Qed.

Lemma byte_elem_bytes q e inp : 0 < q -> 0 < e -> bytes inp -> zlen inp = 8 * q * e -> bytes (byte_elem_tgt q e inp <$> seqZ 0 (8 * q * e)).
Proof using Type.
  intros Hq He Hb Hi. apply bytes_painted. intros i Hir. apply nth_byte_range; [done|].
  pose proof (Z.div_mod i (8 * q) ltac:(lia)). pose proof (Z.mod_pos_bound i (8 * q) ltac:(lia)). nia.
Qed.

Lemma byte_bitrow_bytes q e inp : 0 < q -> 0 < e -> bytes inp -> zlen inp = 8 * q * e -> bytes (byte_bitrow_tgt q e inp <$> seqZ 0 (8 * q * e)).
Proof using Type.
  intros Hq He Hb Hi. apply bytes_painted. intros i Hir. apply nth_byte_range; [done|].
  pose proof (Z.div_mod i (8 * e) ltac:(lia)). pose proof (Z.mod_pos_bound i (8 * e) ltac:(lia)).
  assert (0 <= i / (8 * e) < q) by nia. nia.
Qed.

(** A step that stores what the portable step stores, on every block of [8 * q] elements of [e] bytes. *)
Definition step_stores (q e : Z) (tgt : list Z -> Z -> Z) (f : list Z -> list Z -> Z -> Z -> routine) : Prop :=
  forall inp out, bytes inp -> zlen inp = 8 * q * e -> zlen out = 8 * q * e ->
    f inp out (8 * q) e = Ret (8 * q * e, tgt inp <$> seqZ 0 (8 * q * e)).

Lemma trans_by_scal byte_elem bit_byte q e inp out : 0 < q -> 0 < e -> bytes inp -> zlen inp = 8 * q * e -> zlen out = 8 * q * e ->
  mallocs malloc (8 * q * e) -> step_stores q e (byte_elem_tgt q e) byte_elem -> step_stores q e (bit_byte_tgt q e) bit_byte ->
  trans_bit_elem_by byte_elem bit_byte inp out (8 * q) e = bshuf_trans_bit_elem_scal malloc inp out (8 * q) e.
Proof using Type.
  intros Hq He Hb Hi Ho (tmp & Em & Ht) H1 H2. unfold trans_bit_elem_by, bshuf_trans_bit_elem_scal. rewrite Em, H1, trans_byte_elem_spec by (done || lia).
  unfold check_err. cbn [obind]. assert (Hz : zlen (byte_elem_tgt q e inp <$> seqZ 0 (8 * q * e)) = 8 * q * e) by (apply zlen_painted; nia).
  rewrite H2, trans_bit_byte_spec by (done || lia || by apply byte_elem_bytes). done.
Qed.

Lemma untrans_by_scal byte_bitrow eightelem q e inp out : 0 < q -> 0 < e -> bytes inp -> zlen inp = 8 * q * e -> zlen out = 8 * q * e ->
  mallocs malloc (8 * q * e) -> step_stores q e (byte_bitrow_tgt q e) byte_bitrow -> step_stores q e (eightelem_tgt e) eightelem ->
  untrans_bit_elem_by byte_bitrow eightelem inp out (8 * q) e = bshuf_untrans_bit_elem_scal malloc inp out (8 * q) e.
Proof using Type.
  intros Hq He Hb Hi Ho (tmp & Em & Ht) H1 H2. unfold untrans_bit_elem_by, bshuf_untrans_bit_elem_scal. rewrite Em, H1, trans_byte_bitrow_spec by (done || lia).
  cbn [obind]. assert (Hz : zlen (byte_bitrow_tgt q e inp <$> seqZ 0 (8 * q * e)) = 8 * q * e) by (apply zlen_painted; nia).
  rewrite H2, shuffle_bit_eightelem_spec by (done || lia || by apply byte_bitrow_bytes). done.
Qed.

Lemma elem_of_neon_order r : r ∈ neon_order <-> 0 <= r < 16.
Proof using Type. unfold neon_order. rewrite elem_of_seqZ. lia. Qed.

Section Agree.
Context (q e : Z) (Hq : 0 < q) (He : 0 < e) (Hm : mallocs malloc (8 * q * e)).

Ltac step H := intros ? ? ? ? ?; apply H; done.

Lemma trans_variants_agree inp out : bytes inp -> zlen inp = 8 * q * e -> zlen out = 8 * q * e ->
  (USEAVX2 m = true -> bshuf_trans_bit_elem_AVX inp out (8 * q) e = bshuf_trans_bit_elem_scal malloc inp out (8 * q) e) /\
  (USESSE2 m = true -> bshuf_trans_bit_elem_SSE inp out (8 * q) e = bshuf_trans_bit_elem_scal malloc inp out (8 * q) e) /\
  (USEARMNEON m = true -> bshuf_trans_bit_elem_NEON inp out (8 * q) e = bshuf_trans_bit_elem_scal malloc inp out (8 * q) e).
Proof using Hq He Hm.
  intros Hb Hi Ho. unfold bshuf_trans_bit_elem_AVX, bshuf_trans_bit_elem_SSE, bshuf_trans_bit_elem_NEON.
  split_and!; intros Hu; rewrite Hu; apply trans_by_scal; try done.
  - unfold bshuf_trans_byte_elem_SSE. rewrite use_avx2_sse2 by done. step @trans_byte_elem_correct.
  - step trans_bit_byte_AVX_correct.
  - unfold bshuf_trans_byte_elem_SSE. rewrite Hu. step @trans_byte_elem_correct.
  - unfold bshuf_trans_bit_byte_SSE. rewrite Hu. step @trans_bit_byte_correct.
  - unfold bshuf_trans_byte_elem_NEON. rewrite Hu. step @trans_byte_elem_correct.
  - unfold bshuf_trans_bit_byte_NEON. rewrite Hu. step @trans_bit_byte_correct.
Qed.

Lemma untrans_variants_agree inp out : bytes inp -> zlen inp = 8 * q * e -> zlen out = 8 * q * e ->
  (USEAVX2 m = true -> bshuf_untrans_bit_elem_AVX inp out (8 * q) e = bshuf_untrans_bit_elem_scal malloc inp out (8 * q) e) /\
  (USESSE2 m = true -> bshuf_untrans_bit_elem_SSE inp out (8 * q) e = bshuf_untrans_bit_elem_scal malloc inp out (8 * q) e) /\
  (USEARMNEON m = true -> bshuf_untrans_bit_elem_NEON inp out (8 * q) e = bshuf_untrans_bit_elem_scal malloc inp out (8 * q) e).
Proof using Hq He Hm.
  intros Hb Hi Ho. unfold bshuf_untrans_bit_elem_AVX, bshuf_untrans_bit_elem_SSE, bshuf_untrans_bit_elem_NEON.
  split_and!; intros Hu; rewrite Hu; apply untrans_by_scal; try done.
  - step trans_byte_bitrow_AVX_correct.
  - step shuffle_bit_eightelem_AVX_correct.
  - intros ? ? ? ? ?. apply trans_byte_bitrow_correct; try done. apply elem_of_sse2_order.
  - unfold bshuf_shuffle_bit_eightelem_SSE. rewrite Hu. step @shuffle_bit_eightelem_correct.
  - intros ? ? ? ? ?. apply trans_byte_bitrow_correct; try done. apply elem_of_neon_order.
  - unfold bshuf_shuffle_bit_eightelem_NEON. rewrite Hu. step @shuffle_bit_eightelem_correct.
Qed.

Lemma drivers_agree inp out : bytes inp -> zlen inp = 8 * q * e -> zlen out = 8 * q * e ->
  compiled_trans_bit_elem inp out (8 * q) e = bshuf_trans_bit_elem_scal malloc inp out (8 * q) e /\
  compiled_untrans_bit_elem inp out (8 * q) e = bshuf_untrans_bit_elem_scal malloc inp out (8 * q) e.
Proof using Hq He Hm.
  intros Hb Hi Ho. destruct (trans_variants_agree inp out) as (Ta & Ts & Tn), (untrans_variants_agree inp out) as (Ua & Us & Un); try done.
  unfold compiled_trans_bit_elem, compiled_untrans_bit_elem. repeat case_match; auto.
Qed.
End Agree.
End Compiled.

(** C25: Whatever instruction set the library is compiled for (AVX2, SSE2, NEON or none of them), on a block of
    [8 * q] elements of [e] bytes, for every element size, and whatever the output arrays and the memory that
    [malloc] returns hold: [bshuf_trans_bit_elem] and [bshuf_untrans_bit_elem] stay within the arrays and return
    and store exactly what the portable routines do.  So do the routines of each instruction set that is
    compiled in; and the errors are the same: a number of elements that is not a multiple of eight, and no memory. *)
Theorem vector_routines_equal_portable (m : macros) (malloc : Z -> option (list Z)) (q e : Z) (inp out : list Z) :
  0 < q -> 0 < e -> mallocs malloc (8 * q * e) -> bytes inp -> zlen inp = 8 * q * e -> zlen out = 8 * q * e ->
  compiled_trans_bit_elem m malloc inp out (8 * q) e = bshuf_trans_bit_elem_scal malloc inp out (8 * q) e /\
  compiled_untrans_bit_elem m malloc inp out (8 * q) e = bshuf_untrans_bit_elem_scal malloc inp out (8 * q) e /\
  (USEAVX2 m = true -> bshuf_trans_bit_elem_SSE m malloc inp out (8 * q) e = bshuf_trans_bit_elem_AVX m malloc inp out (8 * q) e /\
     bshuf_untrans_bit_elem_SSE m malloc inp out (8 * q) e = bshuf_untrans_bit_elem_AVX m malloc inp out (8 * q) e) /\
  (forall malloc' inp' out' size, size mod 8 <> 0 \/ malloc' (size * e) = None ->
     compiled_trans_bit_elem m malloc' inp' out' size e = bshuf_trans_bit_elem_scal malloc' inp' out' size e /\
     compiled_untrans_bit_elem m malloc' inp' out' size e = bshuf_untrans_bit_elem_scal malloc' inp' out' size e).
Proof.
  intros Hq He Hm Hb Hi Ho. destruct (drivers_agree m malloc q e Hq He Hm inp out) as [E1 E2]; try done.
  split; [done|]. split; [done|]. split.
  - intros Hu. destruct (trans_variants_agree m malloc q e Hq He Hm inp out) as (Ta & Ts & _),
      (untrans_variants_agree m malloc q e Hq He Hm inp out) as (Ua & Us & _); try done.
    pose proof (use_avx2_sse2 m Hu) as Hs. by rewrite Ta, Ts, Ua, Us.
  - clear. intros malloc inp out size Herr.
    unfold compiled_trans_bit_elem, compiled_untrans_bit_elem, bshuf_trans_bit_elem_AVX, bshuf_untrans_bit_elem_AVX,
      bshuf_trans_bit_elem_SSE, bshuf_untrans_bit_elem_SSE, bshuf_trans_bit_elem_NEON, bshuf_untrans_bit_elem_NEON,
      trans_bit_elem_by, untrans_bit_elem_by, bshuf_trans_bit_elem_scal, bshuf_untrans_bit_elem_scal, CHECK_MULT_EIGHT.
    destruct Herr as [H| ->]; [rewrite (proj2 (Z.eqb_neq _ _) H)|]; repeat case_match; congruence || done.
Qed.

(** A processor with AVX2: 64 elements of 12 bytes take the vector path and the remainders. *)
Definition haswell : macros := {| def_AVX2 := true; def_SSE2 := true; def_NO_WARN_X86_INTRINSICS := false; def_ARM_NEON := false; def_aarch64 := false |}.
Definition demo_block : list Z := (fun i => (7 * i + i / 5) mod 256) <$> seqZ 0 768.

Lemma vector_routines_equal_portable_witness :
  (exists o, compiled_trans_bit_elem haswell zeroed demo_block (repeat 0 768) 64 12 = Ret (768, o)) /\
  compiled_trans_bit_elem haswell zeroed demo_block (repeat 7 768) (8 * 8) 12 = bshuf_trans_bit_elem_scal zeroed demo_block (repeat 7 768) (8 * 8) 12.
Proof.
  split; [eexists; vm_compute; reflexivity|].
  refine (proj1 (vector_routines_equal_portable haswell zeroed 8 12 demo_block (repeat 7 768) _ _ _ _ _ _));
    [lia|lia|apply zeroed_mallocs; lia| |vm_compute; reflexivity|vm_compute; reflexivity].
  apply Forall_fmap, list.Forall_forall. intros i _. apply Z.mod_pos_bound. lia.
Defined.

(** The library, however it is compiled, implements the interface of the blocks. *)
Definition compiled_transposer (m : macros) (malloc : Z -> option (list Z)) (Hm : forall n, 0 <= n -> mallocs malloc n) : BitTransposer.
Proof.
  refine {| bshuf_trans_bit_elem := compiled_trans_bit_elem m malloc; bshuf_untrans_bit_elem := compiled_untrans_bit_elem m malloc |}.
  - intros inp out q e Hq He Hb Hi Ho. rewrite (proj1 (drivers_agree m malloc q e Hq He (Hm (8 * q * e) ltac:(nia)) inp out Hb Hi Ho)).
    apply trans_scal_transposes; try done. apply Hm. nia.
  - intros inp out q e Hq He Hb Hi Ho. rewrite (proj2 (drivers_agree m malloc q e Hq He (Hm (8 * q * e) ltac:(nia)) inp out Hb Hi Ho)).
    apply untrans_scal_transposes; try done. apply Hm. nia.
Defined.
