(* ===== verification/BigEndian.v ===== *)
(** * Bitshuffle on a big-endian machine

    The two portable routines of [src/source/external/bitshuffle/bitshuffle_core.c] that load eight bytes as a word
    ask the machine for its byte order, [little_endian], and take another transposition and another order of the
    rows on a big-endian one.  Here the byte order is an argument: [bshuf_trans_bit_elem_scal_on] and
    [bshuf_untrans_bit_elem_scal_on] are the whole routines on either machine, with the indices computed
    modulo [2 ^ 64], and both store what the little-endian routines of [Bitshuffle] store. *)

From S2P Require Import Prelude Scatter Bitshuffle.

(** ** The routines, by byte order *)

(** The macro [TRANS_BIT_8X8_BE]. *)
Definition trans_bit_8x8_be (x : Z) : Z :=
  let x := trans_step x 9 0x0055005500550055 in
  let x := trans_step x 18 0x0000333300003333 in
  trans_step x 36 0x000000000F0F0F0F.

Section Machine.
(** Whether the first byte of the word 1 is 1. *)
Context (little_endian : bool).

(** The word that the machine loads from eight bytes. *)
Definition load_word (inp : list Z) (i : Z) : outcome Z :=
  omap_out (fun bs => le_decode (if little_endian then bs else reverse bs)) (mem_read inp i 8).

Definition trans_word (x : Z) : Z := if little_endian then trans_bit_8x8 x else trans_bit_8x8_be x.

Definition bshuf_trans_bit_byte_remainder_on (inp out : list Z) (size elem_size start_byte : Z) : routine :=
  let nbyte := elem_size * size in
  let nbyte_bitrow := nbyte / 8 in
  let bit_row_skip := if little_endian then nbyte_bitrow else u64 (- nbyte_bitrow) in
  let bit_row_offset := if little_endian then 0 else 7 * nbyte_bitrow in
  CHECK_MULT_EIGHT nbyte out (CHECK_MULT_EIGHT start_byte out
    (let! out := foldO (fun out ii =>
         let! x := load_word inp (8 * ii) in
         store_word (fun kk => u64 (bit_row_offset + kk * bit_row_skip + ii)) (trans_word x) out)
       (seqZ (start_byte / 8) (nbyte_bitrow - start_byte / 8)) out in
     Ret (size * elem_size, out))).

Definition bshuf_trans_bit_byte_scal_on (inp out : list Z) (size elem_size : Z) : routine :=
  bshuf_trans_bit_byte_remainder_on inp out size elem_size 0.

Definition bshuf_shuffle_bit_eightelem_scal_on (inp out : list Z) (size elem_size : Z) : routine :=
  let nbyte := elem_size * size in
  let elem_skip := if little_endian then elem_size else u64 (- elem_size) in
  let elem_offset := if little_endian then 0 else 7 * elem_size in
  CHECK_MULT_EIGHT size out
    (let! out := foldO (fun out jj => foldO (fun out ii =>
         let! x := load_word inp (ii + jj) in
         store_word (fun kk => u64 (ii + jj / 8 + elem_offset + kk * elem_skip)) (trans_word x) out)
       (range_by (8 * elem_size) 0 nbyte) out) (range_by 8 0 (8 * elem_size)) out in
     Ret (size * elem_size, out)).

Context (malloc : Z -> option (list Z)).

Definition bshuf_trans_bit_elem_scal_on (inp out : list Z) (size elem_size : Z) : routine :=
  CHECK_MULT_EIGHT size out
    match malloc (size * elem_size) with
    | None => Ret (-1, out)
    | Some tmp_buf =>
        check_err (bshuf_trans_byte_elem_scal inp out size elem_size) (fun out =>
        let! '(count, tmp_buf) := bshuf_trans_bit_byte_scal_on out tmp_buf size elem_size in
        if count <? 0 then Ret (count, out)
        else bshuf_trans_bitrow_eight tmp_buf out size elem_size)
    end.

Definition bshuf_untrans_bit_elem_scal_on (inp out : list Z) (size elem_size : Z) : routine :=
  CHECK_MULT_EIGHT size out
    match malloc (size * elem_size) with
    | None => Ret (-1, out)
    | Some tmp_buf =>
        let! '(count, tmp_buf) := bshuf_trans_byte_bitrow_scal inp tmp_buf size elem_size in
        if count <? 0 then Ret (count, out)
        else bshuf_shuffle_bit_eightelem_scal_on tmp_buf out size elem_size
    end.
End Machine.

(** ** The transposition along the other diagonal *)

(** Bit [j] of byte [i] is bit [7 - i] of byte [7 - j]. *)
Lemma trans_bit_8x8_be_spec x i j : 0 <= i < 8 -> 0 <= j < 8 ->
  Z.testbit (trans_bit_8x8_be x) (8 * i + j) = Z.testbit x (8 * (7 - j) + (7 - i)).
Proof.
  intros Hi Hj. unfold trans_bit_8x8_be.
  assert (Hall : forallb (fun k =>
    let k1 := step_source 36 0x000000000F0F0F0F k in
    let k2 := step_source 18 0x0000333300003333 k1 in
    let k3 := step_source 9 0x0055005500550055 k2 in
    (0 <=? k1) && (k1 <? 64) && (0 <=? k2) && (k2 <? 64) && (k3 =? 8 * (7 - k mod 8) + (7 - k / 8)) &&
    negb (Z.testbit 0x000000000F0F0F0F k && (36 <=? k) && Z.testbit 0x000000000F0F0F0F (k - 36)) &&
    negb (Z.testbit 0x0000333300003333 k1 && (18 <=? k1) && Z.testbit 0x0000333300003333 (k1 - 18)) &&
    negb (Z.testbit 0x0055005500550055 k2 && (9 <=? k2) && Z.testbit 0x0055005500550055 (k2 - 9))) bits64 = true)
    by (vm_compute; reflexivity).
  rewrite forallb_forall in Hall. specialize (Hall (8 * i + j)). cbv zeta in Hall.
  rewrite !andb_true_iff, !negb_true_iff in Hall. destruct Hall as (((((((H1 & H2) & H3) & H4) & H5) & H6) & H7) & H8).
  { apply list_elem_of_In, elem_of_seqZ. lia. }
  rewrite !trans_step_moves; [|lia..|done|lia|lia|done|lia|lia|done].
  apply Z.eqb_eq in H5. rewrite H5. f_equal.
  rewrite <- (Z.mod_unique (8 * i + j) 8 i j), <- (Z.div_unique (8 * i + j) 8 i j) by lia. lia.
Qed.

(** ** What the machine stores *)

Lemma nth_byte_reverse l i : 0 <= i < zlen l -> nth_byte (reverse l) i = nth_byte l (zlen l - 1 - i).
Proof.
  unfold zlen, nth_byte. intros Hi. apply list_lookup_total_correct. rewrite reverse_lookup by lia.
  rewrite list_lookup_lookup_total_lt by lia. do 2 f_equal. lia.
Qed.

(** The word of a big-endian machine. *)
Definition word_be (inp : list Z) (i : Z) : Z := le_decode (reverse (take 8 (drop (Z.to_nat i) inp))).

Lemma load_word_ret le inp i : 0 <= i -> i + 8 <= zlen inp ->
  load_word le inp i = Ret (if le then word inp i else word_be inp i).
Proof. intros. unfold load_word. rewrite mem_read_ret by lia. by destruct le. Qed.

Lemma testbit_word_be inp i j b : bytes inp -> 0 <= i -> i + 8 <= zlen inp -> 0 <= j < 8 -> 0 <= b < 8 ->
  Z.testbit (word_be inp i) (8 * j + b) = Z.testbit (nth_byte inp (i + (7 - j))) b.
Proof.
  intros Hb Hi Hz Hj Hbb. unfold word_be. set (l := take 8 (drop (Z.to_nat i) inp)).
  assert (Hl : zlen l = 8) by (subst l; unfold zlen in *; rewrite length_take, length_drop; lia).
  pose proof (testbit_le_decode (reverse l) (Z.to_nat j) b) as E. rewrite Z2Nat.id in E by lia.
  rewrite E, nth_byte_reverse by (done || lia || (by apply Forall_reverse, Forall_take, Forall_drop) ||
    (rewrite length_reverse; unfold zlen in Hl; lia)).
  f_equal. rewrite Hl. unfold nth_byte, l. apply list_lookup_total_correct.
  rewrite lookup_take_lt, lookup_drop by lia.
  replace (Z.to_nat i + Z.to_nat (8 - 1 - j))%nat with (Z.to_nat (i + (7 - j))) by lia.
  apply list_lookup_lookup_total_lt. unfold zlen in Hz. lia.
Qed.

(** Byte [kk] of the word that is stored last is byte [kk] of the transposed word, or byte [7 - kk]. *)
Definition row (le : bool) (kk : Z) : Z := if le then kk else 7 - kk.

Lemma row_range le kk : 0 <= kk < 8 -> 0 <= row le kk < 8.
Proof. destruct le; cbn; lia. Qed.

Lemma row_row le kk : row le (row le kk) = kk.
Proof. destruct le; cbn; lia. Qed.

Lemma stored_byte le inp i kk : bytes inp -> 0 <= i -> i + 8 <= zlen inp -> 0 <= kk < 8 ->
  u8 (Z.shiftr (trans_word le (if le then word inp i else word_be inp i)) (8 * kk)) = transposed inp i (row le kk).
Proof.
  intros Hb Hi Hz Hk. destruct le; cbn [row trans_word]; [done|].
  apply byte_ext; [unfold u8, wrap; apply Z.mod_pos_bound; lia|apply transposed_range|]. intros j Hj.
  rewrite testbit_transposed by (done || lia). unfold u8, wrap. rewrite Z.mod_pow2_bits_low, Z.shiftr_spec by lia.
  rewrite (Z.add_comm j), trans_bit_8x8_be_spec, testbit_word_be by (done || lia). do 2 f_equal. lia.
Qed.

(** An index computed with a negative skip. *)
Lemma row_index (le : bool) (kk skip ii : Z) : 0 <= (row le kk) * skip + ii < 2 ^ 64 ->
  u64 ((if le then 0 else 7 * skip) + kk * (if le then skip else u64 (- skip)) + ii) = row le kk * skip + ii.
Proof.
  intros H. destruct le; cbn [row] in *; [by apply u64_small|]. etransitivity; [|by apply u64_small]. unfold u64, wrap.
  rewrite (Z.mod_eq (- skip)) by lia. rewrite <- (Z_mod_plus_full ((7 - kk) * skip + ii) (- (kk * (- skip / 2 ^ 64)))).
  f_equal. ring.
Qed.

(** ** The routines on either machine *)

Section Layout.
(** [q] groups of eight elements of [e] bytes, in an array that a machine can address. *)
Context (le : bool) (q e : Z) (Hq : 0 <= q) (He : 0 < e) (Hfit : 8 * q * e < 2 ^ 64).
Notation size := (8 * q).
Notation nbyte := (8 * q * e).

Lemma trans_bit_byte_on_spec inp out : 0 < q -> bytes inp -> zlen inp = nbyte -> zlen out = nbyte ->
  bshuf_trans_bit_byte_scal_on le inp out size e = Ret (size * e, bit_byte_tgt q e inp <$> seqZ 0 nbyte).
Proof using Hq He Hfit.
  intros Hq0 Hb Hi Ho. unfold bshuf_trans_bit_byte_scal_on, bshuf_trans_bit_byte_remainder_on, CHECK_MULT_EIGHT.
  replace (e * size) with (q * e * 8) by lia. rewrite Z_mod_mult, Z.div_mul by lia. cbn [Z.eqb]. change (0 mod 8 =? 0) with true.
  change (0 / 8) with 0. cbv iota.
  rewrite (paints_all (bit_byte_tgt q e inp) nbyte (foldO _ (seqZ 0 (q * e - 0))) out); [done| |done].
  eapply paints_weaken; [apply paints_loop; intros ii Hii%elem_of_seqZ|].
  - rewrite load_word_ret by lia. cbn [obind]. apply paints_word. intros kk Hkk. pose proof (row_range le kk Hkk).
    rewrite row_index by nia. rewrite stored_byte by (done || lia). split; [nia|].
    unfold bit_byte_tgt. destruct (div_mod_at (q * e) (row le kk) ii) as [-> ->]; [lia|]. done.
  - intros i Hir _. pose proof (Z.div_mod i (q * e) ltac:(lia)). pose proof (Z.mod_pos_bound i (q * e) ltac:(lia)).
    exists (i mod (q * e)). split; [apply elem_of_seqZ; lia|]. assert (0 <= i / (q * e) < 8) by nia.
    exists (row le (i / (q * e))). split; [by apply row_range|]. rewrite row_index; rewrite row_row; nia.
Qed.

Lemma shuffle_bit_eightelem_on_spec inp out : bytes inp -> zlen inp = nbyte -> zlen out = nbyte ->
  bshuf_shuffle_bit_eightelem_scal_on le inp out size e = Ret (size * e, eightelem_tgt e inp <$> seqZ 0 nbyte).
Proof using Hq He Hfit.
  intros Hb Hi Ho. unfold bshuf_shuffle_bit_eightelem_scal_on. rewrite size_mult_eight. replace (e * size) with nbyte by lia.
  rewrite (paints_all (eightelem_tgt e inp) nbyte (foldO _ (range_by 8 0 (8 * e))) out); [done| |done].
  assert (Hx : forall kk ii j, 0 <= row le kk * e + (ii + j) < 2 ^ 64 ->
    u64 (ii + j + (if le then 0 else 7 * e) + kk * (if le then e else u64 (- e))) = row le kk * e + (ii + j)).
  { intros kk ii j Hr. rewrite <- row_index by done. f_equal. lia. }
  assert (H8 : forall j, (0 + 8 * j) / 8 = j) by (intros j; rewrite Z.add_0_l, Z.mul_comm; by apply Z.div_mul).
  eapply paints_weaken; [apply paints_loop; intros jj Hjj; apply paints_loop; intros ii Hii|].
  - apply elem_of_range_by in Hjj as (j & Ej & Hj & Hjb), Hii as (i0 & Ei & Hi0 & Hib); [|nia..].
    rewrite load_word_ret by lia. cbn [obind]. apply paints_word. intros kk Hkk. pose proof (row_range le kk Hkk).
    assert (Hj8 : jj / 8 = j) by (rewrite Ej; apply H8). rewrite Hj8, Hx by nia. rewrite stored_byte by (done || lia). split; [nia|]. unfold eightelem_tgt.
    destruct (div_mod_at (8 * e) i0 (row le kk * e + j)) as [E1 E2]; [nia|].
    replace (row le kk * e + (ii + j)) with (i0 * (8 * e) + (row le kk * e + j)) by lia. rewrite E1, E2.
    destruct (div_mod_at e (row le kk) j) as [-> ->]; [lia|]. f_equal. lia.
  - intros i Hir _. pose proof (Z.div_mod i (8 * e) ltac:(lia)). pose proof (Z.mod_pos_bound i (8 * e) ltac:(lia)).
    set (c := i mod (8 * e)) in *. pose proof (Z.div_mod c e ltac:(lia)). pose proof (Z.mod_pos_bound c e ltac:(lia)).
    set (j := c mod e) in *.
    exists (0 + 8 * j). split; [apply elem_of_range_by; [lia..|]; exists j; lia|].
    exists (0 + 8 * e * (i / (8 * e))). split; [apply elem_of_range_by; [lia|nia|]; exists (i / (8 * e)); split_and!; [done|nia|]|].
    { assert (i / (8 * e) + 1 <= q) by nia. nia. }
    assert (0 <= c / e < 8) by nia. exists (row le (c / e)). split; [by apply row_range|]. rewrite H8.
    rewrite Hx; rewrite row_row; lia.
Qed.
End Layout.

(** ** Both machines store the same bytes *)

(** [malloc] returns the memory it was asked for or none. *)
Definition honest (malloc : Z -> option (list Z)) (n : Z) : Prop := forall buf, malloc n = Some buf -> zlen buf = n.

(** The byte order of the machine does not show: for every block that fits the address space, on either
    machine, the routines return and store what the little-endian ones of [Bitshuffle] do, errors included. *)
Lemma byte_order_irrelevant (le : bool) malloc inp out size e :
  0 <= size -> 0 < e -> size * e < 2 ^ 64 -> bytes inp -> honest malloc (size * e) ->
  zlen inp = size * e -> zlen out = size * e ->
  bshuf_trans_bit_elem_scal_on le malloc inp out size e = bshuf_trans_bit_elem_scal malloc inp out size e /\
  bshuf_untrans_bit_elem_scal_on le malloc inp out size e = bshuf_untrans_bit_elem_scal malloc inp out size e.
Proof.
  intros Hs He Hf Hb Hm Hi Ho.
  unfold bshuf_trans_bit_elem_scal_on, bshuf_untrans_bit_elem_scal_on, bshuf_trans_bit_elem_scal, bshuf_untrans_bit_elem_scal.
  unfold CHECK_MULT_EIGHT at 1 2 3 4. destruct (Z.eqb_spec (size mod 8) 0) as [E|]; [|done].
  destruct (malloc (size * e)) as [tmp|] eqn:Em; [|done]. apply Hm in Em.
  apply Z.mod_divide in E as [q ->]; [|lia]. rewrite (Z.mul_comm q) in *. clear Hm.
  assert (Hbin : forall f : Z -> Z, (forall i, 0 <= i < 8 * q * e -> 0 <= f i < 8 * q * e) -> bytes ((fun i => nth_byte inp (f i)) <$> seqZ 0 (8 * q * e))).
  { intros f Hf'. apply bytes_painted. intros i Hir. apply nth_byte_range; [done|]. rewrite Hi. by apply Hf'. }
  split.
  - destruct (Z.eq_dec q 0) as [->|Hq].
    { unfold bshuf_trans_bit_byte_scal_on, bshuf_trans_bit_byte_remainder_on, bshuf_trans_bit_byte_scal, bshuf_trans_bit_byte_remainder.
      by rewrite !Z.mul_0_r. }
    rewrite trans_byte_elem_spec by lia. unfold check_err. cbn [obind].
    rewrite trans_bit_byte_spec, trans_bit_byte_on_spec; try done; try lia; try (by apply zlen_painted; nia).
    apply Hbin. intros i Hir. pose proof (Z.div_mod i (8 * q) ltac:(lia)). pose proof (Z.mod_pos_bound i (8 * q) ltac:(lia)). nia.
  - rewrite trans_byte_bitrow_spec by lia. cbn [obind].
    rewrite shuffle_bit_eightelem_spec, shuffle_bit_eightelem_on_spec; try done; try lia; try (by apply zlen_painted; nia).
    apply Hbin. intros i Hir. pose proof (Z.div_mod i (8 * e) ltac:(lia)). pose proof (Z.mod_pos_bound i (8 * e) ltac:(lia)).
    assert (0 <= i / (8 * e) < q) by nia. nia.
Qed.

(** A block that was transposed on one machine is transposed back on another one. *)
Lemma bitshuffle_crosses_machines (le1 le2 : bool) malloc1 malloc2 inp out out2 q e :
  0 < q -> 0 < e -> 8 * q * e < 2 ^ 64 -> bytes inp -> mallocs malloc1 (8 * q * e) -> mallocs malloc2 (8 * q * e) ->
  zlen inp = 8 * q * e -> zlen out = 8 * q * e -> zlen out2 = 8 * q * e ->
  exists out', bshuf_trans_bit_elem_scal_on le1 malloc1 inp out (8 * q) e = Ret (8 * q * e, out') /\
    bshuf_untrans_bit_elem_scal_on le2 malloc2 out' out2 (8 * q) e = Ret (8 * q * e, inp).
Proof.
  intros Hq He Hf Hb Hm1 Hm2 Hi Ho Ho2.
  assert (Hh : forall malloc, mallocs malloc (8 * q * e) -> honest malloc (8 * q * e)).
  { intros malloc (b & E & Hz) b' E'. rewrite E in E'. by injection E' as <-. }
  destruct (trans_scal_transposes malloc1 inp out q e) as (out' & E & Hb' & Hz' & Ht); try done.
  destruct (untrans_scal_transposes malloc2 out' out2 q e) as (inp' & E' & Hb2 & Hz2 & Ht2); try done.
  exists out'. rewrite (proj1 (byte_order_irrelevant le1 malloc1 inp out (8 * q) e ltac:(lia) He Hf Hb (Hh _ Hm1) Hi Ho)).
  rewrite (proj2 (byte_order_irrelevant le2 malloc2 out' out2 (8 * q) e ltac:(lia) He Hf Hb' (Hh _ Hm2) Hz' Ho2)).
  split; [done|]. rewrite E'. do 2 f_equal. by apply (transpose_inverse (8 * q) (8 * e) _ out' _ (8 * q * e)); try lia.
Qed.

(** On a big-endian machine the transposition for the other byte order would be wrong. *)
Example other_transposition_wrong :
  load_word false demo_elems 0 <> load_word true demo_elems 0 /\
  u8 (trans_bit_8x8 (word_be demo_elems 0)) <> transposed demo_elems 0 7 /\
  bshuf_trans_bit_elem_scal_on false zeroed demo_elems (repeat 7 16) 8 2 =
    Ret (16, [85; 102; 120; 128; 0; 0; 0; 0; 0; 0; 0; 0; 0; 0; 0; 128]).
Proof. split_and!; [vm_compute; congruence..|vm_compute; reflexivity]. Qed.
