(* ===== verification/Bslz4.v ===== *)
(** * Bitshuffle with LZ4

    [src/source/external/bitshuffle]: the chain of pointers ([iochain.c]), the division into blocks and
    the big-endian integers ([bitshuffle_core.c]), the compression of the blocks ([bitshuffle.c]) and
    the HDF5 filter ([bshuf_h5filter.c], for LZ4; [Zstd] has the parts of a build with ZSTD).  A pointer is an offset into its
    array.  The blocks are processed in the order in which the chain hands out its pointers; that several
    threads give the same result is the subject of [IoChain].  The routines that transpose the bits are those of the interface [BitTransposer];
    LZ4 is a parameter, the class [Lz4] with what its documentation promises. *)

From S2P Require Import Prelude Scatter Bitshuffle.

(** ** iochain.c *)

Definition IOC_SIZE : Z := 33.

(** A pointer that was never set is [None]. *)
Record ioc_chain := { next : Z; in_pl : list (option Z); out_pl : list (option Z) }.

Definition ioc_init (in_ptr_0 out_ptr_0 : Z) : ioc_chain :=
  let unset := replicate (Z.to_nat IOC_SIZE) None in
  {| next := 0; in_pl := <[0%nat := Some in_ptr_0]> unset; out_pl := <[0%nat := Some out_ptr_0]> unset |}.

Definition pl_at (pl : list (option Z)) (iter : Z) : outcome Z :=
  match pl !! Z.to_nat (iter mod IOC_SIZE) with Some (Some p) => Ret p | _ => Undef uninitialised end.

Definition pl_set (pl : list (option Z)) (iter p : Z) : list (option Z) :=
  <[Z.to_nat (iter mod IOC_SIZE) := Some p]> pl.

(** [ioc_get_in]: the iteration, the pointer and the chain. *)
Definition ioc_get_in (C : ioc_chain) : outcome (Z * Z * ioc_chain) :=
  let this_iter := next C in
  let C := {| next := next C + 1; in_pl := in_pl C; out_pl := out_pl C |} in
  let! p := pl_at (in_pl C) this_iter in Ret (this_iter, p, C).

Definition ioc_set_next_in (C : ioc_chain) (this_iter p : Z) : ioc_chain :=
  {| next := next C; in_pl := pl_set (in_pl C) (this_iter + 1) p; out_pl := out_pl C |}.

Definition ioc_get_out (C : ioc_chain) (this_iter : Z) : outcome Z := pl_at (out_pl C) this_iter.

Definition ioc_set_next_out (C : ioc_chain) (this_iter p : Z) : ioc_chain :=
  {| next := next C; in_pl := in_pl C; out_pl := pl_set (out_pl C) (this_iter + 1) p |}.

(** The next iteration gets the pointers [i] and [o]. *)
Definition chain_at (C : ioc_chain) (i o : Z) : Prop :=
  length (in_pl C) = 33%nat /\ length (out_pl C) = 33%nat /\ pl_at (in_pl C) (next C) = Ret i /\ pl_at (out_pl C) (next C) = Ret o.

Lemma chain_init i o : chain_at (ioc_init i o) i o.
Proof. split_and!; done. Qed.

Lemma pl_at_set pl iter p : length pl = 33%nat -> pl_at (pl_set pl iter p) iter = Ret p.
Proof.
  intros Hl. unfold pl_at, pl_set, IOC_SIZE. rewrite list_lookup_insert_eq; [done|].
  pose proof (Z.mod_pos_bound iter 33 ltac:(lia)). lia.
Qed.

(** The calls of an iteration, in the order of the callers. *)
Lemma chain_step C i o i' o' : chain_at C i o ->
  exists C1, ioc_get_in C = Ret (next C, i, C1) /\
    let C2 := ioc_set_next_in C1 (next C) i' in
    ioc_get_out C2 (next C) = Ret o /\ chain_at (ioc_set_next_out C2 (next C) o') i' o'.
Proof.
  intros (Hi & Ho & Ei & Eo). unfold ioc_get_in. cbn [in_pl]. rewrite Ei. cbn [obind]. eexists. split; [done|].
  cbn. split; [done|]. unfold chain_at. cbn. unfold pl_set at 1 2. rewrite !length_insert, !pl_at_set by done. done.
Qed.

(** ** Memory given by its parts *)

Lemma mem_read_mid {A} (pre x post : list A) off len : off = zlen pre -> len = zlen x ->
  mem_read (pre ++ x ++ post) off len = Ret x.
Proof.
  intros -> ->. pose proof (zlen_nonneg pre). pose proof (zlen_nonneg x). pose proof (zlen_nonneg post).
  rewrite mem_read_ret by (rewrite ?zlen_app; lia). unfold zlen. by rewrite !Nat2Z.id, drop_app_length, take_app_length.
Qed.

Lemma mem_write_mid {A} (pre old new post : list A) off : off = zlen pre -> zlen old = zlen new ->
  mem_write (pre ++ old ++ post) off new = Ret (pre ++ new ++ post).
Proof.
  intros -> Hz. pose proof (zlen_nonneg pre). pose proof (zlen_nonneg new). pose proof (zlen_nonneg post).
  rewrite mem_write_ret by (rewrite ?zlen_app; lia). f_equal. unfold zlen in *. rewrite Nat2Z.id.
  rewrite <- (Nat.add_0_r (length pre)), list_inserts_app_r. f_equal. apply list_inserts_0_r. lia.
Qed.

Lemma mem_read_head {A} (x post : list A) len : len = zlen x -> mem_read (x ++ post) 0 len = Ret x.
Proof. apply (mem_read_mid []). done. Qed.

Lemma mem_write_head {A} (old new post : list A) : zlen old = zlen new ->
  mem_write (old ++ post) 0 new = Ret (new ++ post).
Proof. by apply (mem_write_mid []). Qed.

(** ** Big-endian integers *)

(** [for (ii = n - 1; ii >= 0; ii--)]. *)
Fixpoint countdown (n : nat) : list Z :=
  match n with O => [] | S n' => Z.of_nat n' :: countdown n' end.

Definition write_BE (n : nat) (buf : list Z) (off num : Z) : outcome (list Z) :=
  let! '(buf, _) := foldO (fun '(buf, num) ii =>
      let! buf := mem_write buf (off + ii) [num mod 2 ^ 8] in Ret (buf, num / 2 ^ 8)) (countdown n) (buf, num) in
  Ret buf.

Definition bshuf_write_uint64_BE (buf : list Z) (off num : Z) : outcome (list Z) := write_BE 8 buf off (u64 num).
Definition bshuf_write_uint32_BE (buf : list Z) (off num : Z) : outcome (list Z) := write_BE 4 buf off (u32 num).

(** The sum and the factor are integers of [w] bits. *)
Definition read_BE (n : nat) (w : Z) (buf : list Z) (off : Z) : outcome Z :=
  let! '(num, _) := foldO (fun '(num, cp) ii =>
      let! b := byte_at buf (off + ii) in Ret (wrap w (num + wrap w (b * cp)), wrap w (cp * 2 ^ 8))) (countdown n) (0, 1) in
  Ret num.

Definition bshuf_read_uint64_BE (buf : list Z) (off : Z) : outcome Z := read_BE 8 64 buf off.
Definition bshuf_read_uint32_BE (buf : list Z) (off : Z) : outcome Z := read_BE 4 32 buf off.

Definition be_encode (n : nat) (z : Z) : list Z := rev (le_encode n z).

Lemma zlen_be_encode n z : zlen (be_encode n z) = Z.of_nat n.
Proof. unfold zlen, be_encode. by rewrite length_rev, length_le_encode. Qed.

Lemma write_BE_spec n pre old post off num : off = zlen pre -> length old = n ->
  write_BE n (pre ++ old ++ post) off num = Ret (pre ++ be_encode n num ++ post).
Proof.
  intros -> Hl. unfold write_BE, be_encode. revert old post num Hl.
  induction n as [|n IH]; intros old post num Hl; [by apply nil_length_inv in Hl as ->|].
  destruct (exists_last (l := old)) as (old' & x & ->); [by intros ->|].
  rewrite length_app in Hl. cbn in Hl. cbn [countdown foldO].
  replace (pre ++ (old' ++ [x]) ++ post) with ((pre ++ old') ++ [x] ++ post) by (by rewrite <- !app_assoc).
  rewrite (mem_write_mid _ _ [num mod 2 ^ 8]); [|rewrite zlen_app; unfold zlen; lia|done]. cbn [obind].
  rewrite <- !app_assoc, IH by lia. cbn [le_encode rev]. by rewrite <- app_assoc.
Qed.

Lemma wrap_add_mul w a b c : 0 < w -> wrap w (wrap w a + wrap w (b * wrap w c)) = wrap w (a + b * c).
Proof. intros Hw. unfold wrap. by rewrite Z.mul_mod_idemp_r, <- Z.add_mod by (apply Z.pow_nonzero; lia). Qed.

Lemma read_BE_spec n w pre z post off : 0 < w -> off = zlen pre -> 0 <= z < 2 ^ w -> 0 <= z < 2 ^ (8 * Z.of_nat n) ->
  read_BE n w (pre ++ be_encode n z ++ post) off = Ret z.
Proof.
  intros Hw -> Hzw Hz. unfold read_BE.
  assert (H : forall l post num cp, exists cp', foldO (fun '(num, cp) ii =>
      let! b := byte_at (pre ++ rev l ++ post) (zlen pre + ii) in Ret (wrap w (num + wrap w (b * cp)), wrap w (cp * 2 ^ 8)))
      (countdown (length l)) (wrap w num, wrap w cp) = Ret (wrap w (num + cp * le_decode l), cp')).
  { clear -Hw. induction l as [|x l IH]; intros post num cp.
    - exists (wrap w cp). cbn. by rewrite Z.mul_0_r, Z.add_0_r.
    - cbn [length countdown foldO].
      assert (E : byte_at (pre ++ rev (x :: l) ++ post) (zlen pre + Z.of_nat (length l)) = Ret x).
      { cbn [rev]. unfold byte_at. rewrite <- app_assoc, app_assoc. cbn [app].
        rewrite list_lookup_middle by (rewrite length_app, length_rev; unfold zlen; lia).
        pose proof (zlen_nonneg pre). by rewrite (proj2 (Z.leb_le _ _)) by lia. }
      rewrite E. cbn [obind rev]. rewrite wrap_add_mul by done. replace (wrap w (wrap w cp * 2 ^ 8)) with (wrap w (cp * 2 ^ 8)).
      2: { unfold wrap. by rewrite Z.mul_mod_idemp_l by (apply Z.pow_nonzero; lia). }
      rewrite <- (app_assoc (rev l)). destruct (IH ([x] ++ post) (num + x * cp) (cp * 2 ^ 8)) as (cp' & E').
      exists cp'. rewrite E'. do 3 f_equal. cbn [le_decode]. change (2 ^ 8) with 256. lia. }
  destruct (H (le_encode n z) post 0 1) as (cp' & E).
  rewrite length_le_encode in E. unfold be_encode.
  replace (wrap w 0, wrap w 1) with (0, 1) in E.
  2: { unfold wrap. rewrite Z.mod_0_l, Z.mod_small; [done|split; [lia|apply Z.pow_gt_1; lia]|apply Z.pow_nonzero; lia]. }
  rewrite E. cbn [obind]. rewrite le_decode_encode by done. f_equal. unfold wrap. rewrite Z.mod_small; lia.
Qed.

Lemma read_BE_head n w z post : 0 < w -> 0 <= z < 2 ^ w -> 0 <= z < 2 ^ (8 * Z.of_nat n) ->
  read_BE n w (be_encode n z ++ post) 0 = Ret z.
Proof. intros. by apply (read_BE_spec n w []). Qed.

Lemma write_BE_head n old post num : length old = n -> write_BE n (old ++ post) 0 num = Ret (be_encode n num ++ post).
Proof. by apply (write_BE_spec n []). Qed.

(** ** bitshuffle_core.c: blocks *)

Definition BSHUF_MIN_RECOMMEND_BLOCK : Z := 128.
Definition BSHUF_BLOCKED_MULT : Z := 8.
Definition BSHUF_TARGET_BLOCK_SIZE_B : Z := 8192.

Definition bshuf_default_block_size (elem_size : Z) : outcome Z :=
  let! block_size := udiv BSHUF_TARGET_BLOCK_SIZE_B elem_size in
  let block_size := block_size / BSHUF_BLOCKED_MULT * BSHUF_BLOCKED_MULT in
  Ret (Z.max block_size BSHUF_MIN_RECOMMEND_BLOCK).

(** [bshufBlockFunDef], with the arrays that the pointers of the chain point into. *)
Notation block_fun := (ioc_chain -> list Z -> list Z -> Z -> Z -> Z -> outcome (Z * ioc_chain * list Z)).

(** The chain, the output, [err] and [cum_count]. *)
Notation wrap_state := (ioc_chain * list Z * Z * Z)%type.

Definition wrap_step (f : block_fun) (inp : list Z) (elem_size option : Z) (st : wrap_state) (n : Z) : outcome wrap_state :=
  let '(C, out, err, cum_count) := st in
  let! '(count, C, out) := f C inp out n elem_size option in
  Ret (C, out, if count <? 0 then count else err, cum_count + count).

Definition bshuf_blocked_wrap_fun (f : block_fun) (inp : list Z) (in_ptr : Z) (out : list Z) (out_ptr : Z)
    (size elem_size block_size option : Z) : outcome (Z * list Z) :=
  let C := ioc_init in_ptr out_ptr in
  let! block_size := if block_size =? 0 then bshuf_default_block_size elem_size else Ret block_size in
  if negb (block_size mod BSHUF_BLOCKED_MULT =? 0) then Ret (-81, out)
  else
    let! st := foldO (fun st _ => wrap_step f inp elem_size option st block_size)
                 (seqZ 0 (size / block_size)) (C, out, 0, 0) in
    let last_block_size := size mod block_size in
    let last_block_size := last_block_size - last_block_size mod BSHUF_BLOCKED_MULT in
    let! '(C, out, err, cum_count) :=
      if last_block_size =? 0 then Ret st else wrap_step f inp elem_size option st last_block_size in
    if err <? 0 then Ret (err, out)
    else
      let leftover_bytes := size mod BSHUF_BLOCKED_MULT * elem_size in
      let! '(this_iter, last_in, C) := ioc_get_in C in
      let C := ioc_set_next_in C this_iter (last_in + leftover_bytes) in
      let! last_out := ioc_get_out C this_iter in
      let! out := memcpy out last_out inp last_in leftover_bytes in
      Ret (cum_count + leftover_bytes, out).

(** The sizes of the blocks. *)
Definition block_sizes (size bs : Z) : list Z :=
  replicate (Z.to_nat (size / bs)) bs ++
  (let last := size mod bs - size mod bs mod 8 in if last =? 0 then [] else [last]).

Section Blocks.
Context (f : block_fun) (e : Z) (opt : Z).

(** A block of [n] elements: [f] consumes [c], stores [p] and returns [cnt]. *)
Definition processes (n : Z) (c p : list Z) (cnt : Z) : Prop :=
  0 <= cnt /\ forall C pre post opre old opost, chain_at C (zlen pre) (zlen opre) -> zlen old = zlen p ->
    exists C', f C (pre ++ c ++ post) (opre ++ old ++ opost) n e opt = Ret (cnt, C', opre ++ p ++ opost) /\
      chain_at C' (zlen pre + zlen c) (zlen opre + zlen p).

Inductive processes_all : list Z -> list Z -> list Z -> Z -> Prop :=
| processes_nil : processes_all [] [] [] 0
| processes_cons n c p cnt ns cs ps cnts :
    processes n c p cnt -> processes_all ns cs ps cnts ->
    processes_all (n :: ns) (c ++ cs) (p ++ ps) (cnt + cnts).

Lemma split_at (l : list Z) n : 0 <= n <= zlen l -> exists a b, l = a ++ b /\ zlen a = n.
Proof.
  intros Hn. exists (take (Z.to_nat n) l), (drop (Z.to_nat n) l). rewrite take_drop. split; [done|].
  unfold zlen in *. rewrite length_take. lia.
Qed.

Lemma run_blocks ns c p cnt : processes_all ns c p cnt -> forall C pre post opre old opost cum,
  chain_at C (zlen pre) (zlen opre) -> zlen old = zlen p ->
  exists C', foldO (wrap_step f (pre ++ c ++ post) e opt) ns (C, opre ++ old ++ opost, 0, cum) =
      Ret (C', opre ++ p ++ opost, 0, cum + cnt) /\
    chain_at C' (zlen pre + zlen c) (zlen opre + zlen p).
Proof.
  induction 1 as [|n c p cnt ns cs ps cnts [Hc Hf] Hall IH]; intros C pre post opre old opost cum HC Ho.
  - exists C. unfold zlen in Ho. destruct old; [|done]. cbn. rewrite !Z.add_0_r. done.
  - rewrite zlen_app in Ho. destruct (split_at old (zlen p)) as (o1 & o2 & -> & Hz1).
    { pose proof (zlen_nonneg p). pose proof (zlen_nonneg ps). lia. }
    rewrite zlen_app in Ho.
    destruct (Hf C pre (cs ++ post) opre o1 (o2 ++ opost) HC Hz1) as (C1 & E1 & HC1).
    cbn [foldO wrap_step]. rewrite <- !app_assoc, E1. cbn [obind]. rewrite (proj2 (Z.ltb_ge cnt 0) Hc).
    destruct (IH C1 (pre ++ c) post (opre ++ p) o2 opost (cum + cnt)) as (C2 & E2 & HC2); [by rewrite !zlen_app|lia|].
    exists C2. rewrite <- !app_assoc in E2. rewrite E2. rewrite !zlen_app in *. split; [do 2 f_equal; lia|].
    by rewrite !Z.add_assoc.
Qed.

Lemma foldO_const {S A} (g : S -> outcome S) (h : S -> A -> outcome S) (a : A) k s :
  (forall s, g s = h s a) -> foldO (fun s _ => g s) (seqZ 0 k) s = foldO h (replicate (Z.to_nat k) a) s.
Proof.
  intros Hg. unfold seqZ. generalize 0%nat at 1. revert s. induction (Z.to_nat k) as [|m IH]; intros s j; [done|].
  cbn [seq fmap list_fmap replicate foldO]. rewrite Hg. destruct (h s a); cbn [obind]; [apply IH|done..].
Qed.

(** The blocks one after the other, then the elements that fill no block. *)
Lemma wrap_blocks size bs c p cnt pre tl post opre old opost : 0 < bs -> bs mod 8 = 0 ->
  processes_all (block_sizes size bs) c p cnt -> zlen tl = size mod 8 * e -> zlen old = zlen p + zlen tl ->
  bshuf_blocked_wrap_fun f (pre ++ (c ++ tl) ++ post) (zlen pre) (opre ++ old ++ opost) (zlen opre) size e bs opt =
    Ret (cnt + zlen tl, opre ++ (p ++ tl) ++ opost).
Proof.
  intros Hbs Hm Hall Htl Ho. unfold bshuf_blocked_wrap_fun, BSHUF_BLOCKED_MULT.
  rewrite (proj2 (Z.eqb_neq bs 0)) by lia. cbn [obind]. rewrite Hm. cbn [Z.eqb negb].
  destruct (split_at old (zlen p)) as (o1 & o2 & -> & Hz1).
  { pose proof (zlen_nonneg p). pose proof (zlen_nonneg tl). lia. }
  rewrite zlen_app in Ho. rewrite <- !app_assoc.
  destruct (run_blocks _ _ _ _ Hall (ioc_init (zlen pre) (zlen opre)) pre (tl ++ post) opre o1 (o2 ++ opost) 0)
    as (C & E & HC); [apply chain_init|lia|].
  unfold block_sizes in E. rewrite foldO_app in E.
  rewrite <- (foldO_const (fun st => wrap_step f (pre ++ c ++ tl ++ post) e opt st bs)) in E by done.
  set (st0 := (_, _, 0, 0)) in *. destruct (foldO (fun st _ => _) (seqZ 0 (size / bs)) st0) as [st|?|?]; [|done..].
  cbn [obind] in *. cbv zeta in E. set (last := size mod bs - _) in *.
  replace (if last =? 0 then Ret st else wrap_step f (pre ++ c ++ tl ++ post) e opt st last)
    with (@Ret wrap_state (C, opre ++ p ++ o2 ++ opost, 0, 0 + cnt)).
  2: { rewrite <- E. destruct (last =? 0); [done|]. cbn [foldO]. by rewrite obind_Ret_r. }
  cbn [obind]. change (0 <? 0) with false. cbv iota. rewrite <- Htl.
  destruct (chain_step C _ _ (zlen pre + zlen c + zlen tl) (zlen opre + zlen p + zlen tl) HC) as (C1 & -> & E2 & _).
  cbn [obind]. rewrite E2. cbn [obind]. unfold memcpy.
  rewrite (app_assoc pre c), mem_read_mid by (rewrite ?zlen_app; done). cbn [obind].
  rewrite (app_assoc opre p), (mem_write_mid (opre ++ p)) by (rewrite ?zlen_app; lia). cbn [obind].
  by rewrite <- !app_assoc, Z.add_0_l.
Qed.

Lemma processes_all_app ns c p cnt ns' c' p' cnt' :
  processes_all ns c p cnt -> processes_all ns' c' p' cnt' ->
  processes_all (ns ++ ns') (c ++ c') (p ++ p') (cnt + cnt').
Proof.
  induction 1; intros H'; [done|]. rewrite <- !app_assoc, <- Z.add_assoc. cbn [app]. constructor; auto.
Qed.
End Blocks.

(** ** Blocks of bits *)

Section BitBlocks.
Context `{BitTransposer}.

(** A routine gets the bytes of the block and the window of the output that it fills. *)
Definition bshuf_bitshuffle_block (C : ioc_chain) (inp out : list Z) (size elem_size option : Z) :
    outcome (Z * ioc_chain * list Z) :=
  let! '(this_iter, i, C) := ioc_get_in C in
  let C := ioc_set_next_in C this_iter (i + size * elem_size) in
  let! o := ioc_get_out C this_iter in
  let C := ioc_set_next_out C this_iter (o + size * elem_size) in
  let! src := mem_read inp i (size * elem_size) in
  let! dst := mem_read out o (size * elem_size) in
  let! '(count, dst) := bshuf_trans_bit_elem src dst size elem_size in
  let! out := mem_write out o dst in
  Ret (count, C, out).

Definition bshuf_bitunshuffle_block (C : ioc_chain) (inp out : list Z) (size elem_size option : Z) :
    outcome (Z * ioc_chain * list Z) :=
  let! '(this_iter, i, C) := ioc_get_in C in
  let C := ioc_set_next_in C this_iter (i + size * elem_size) in
  let! o := ioc_get_out C this_iter in
  let C := ioc_set_next_out C this_iter (o + size * elem_size) in
  let! src := mem_read inp i (size * elem_size) in
  let! dst := mem_read out o (size * elem_size) in
  let! '(count, dst) := bshuf_untrans_bit_elem src dst size elem_size in
  let! out := mem_write out o dst in
  Ret (count, C, out).

Definition bshuf_bitshuffle (inp : list Z) (in_ptr : Z) (out : list Z) (out_ptr size elem_size block_size : Z) : routine :=
  bshuf_blocked_wrap_fun bshuf_bitshuffle_block inp in_ptr out out_ptr size elem_size block_size 0.

Definition bshuf_bitunshuffle (inp : list Z) (in_ptr : Z) (out : list Z) (out_ptr size elem_size block_size : Z) : routine :=
  bshuf_blocked_wrap_fun bshuf_bitunshuffle_block inp in_ptr out out_ptr size elem_size block_size 0.

(** What a block becomes does not depend on what the output held. *)
Lemma transposed_block q e blk : 0 < q -> 0 < e -> bytes blk -> zlen blk = 8 * q * e ->
  exists t, bytes t /\ zlen t = 8 * q * e /\
    (forall out, zlen out = 8 * q * e -> bshuf_trans_bit_elem blk out (8 * q) e = Ret (8 * q * e, t)) /\
    (forall out, zlen out = 8 * q * e -> bshuf_untrans_bit_elem t out (8 * q) e = Ret (8 * q * e, blk)).
Proof.
  intros Hq He Hb Hz. destruct (trans_law blk blk q e) as (t & _ & Hbt & Hzt & Ht); try done.
  exists t. split_and!; try done; intros out Ho.
  - destruct (trans_law blk out q e) as (t' & -> & Hbt' & Hzt' & Ht'); try done. do 2 f_equal.
    apply bytes_ext; [done..|lia|]. rewrite Hzt'. intros k Hk.
    pose proof (Z.div_mod k (8 * q) ltac:(lia)). pose proof (Z.mod_pos_bound k (8 * q) ltac:(lia)).
    assert (0 <= k / (8 * q) < 8 * e) by nia.
    replace k with (k / (8 * q) * (8 * q) + k mod (8 * q)) by lia. by rewrite Ht, Ht'.
  - destruct (untrans_law t out q e) as (b & -> & Hb' & Hz' & Ht'); try done. do 2 f_equal.
    by apply (transpose_inverse (8 * q) (8 * e) _ t _ (8 * q * e)); try lia.
Qed.

Lemma bit_blocks q e opt blk : 0 < q -> 0 < e -> bytes blk -> zlen blk = 8 * q * e ->
  exists t, zlen t = zlen blk /\ processes bshuf_bitshuffle_block e opt (8 * q) blk t (8 * q * e) /\
    processes bshuf_bitunshuffle_block e opt (8 * q) t blk (8 * q * e).
Proof.
  intros Hq He Hb Hz. destruct (transposed_block q e blk) as (t & _ & Hzt & Ht & Hu); try done.
  exists t. split; [lia|]. split; (split; [nia|]); intros C pre post opre old opost HC Ho;
    destruct (chain_step C _ _ (zlen pre + 8 * q * e) (zlen opre + 8 * q * e) HC) as (C1 & E1 & E2 & HC2);
    unfold bshuf_bitshuffle_block, bshuf_bitunshuffle_block; rewrite E1; cbn [obind]; rewrite E2; cbn [obind];
    rewrite !mem_read_mid by lia; cbn [obind]; rewrite ?Ht, ?Hu by lia; cbn [obind];
    rewrite (mem_write_mid opre old) by lia; cbn [obind]; eexists; (split; [done|]); by rewrite ?Hz, ?Hzt.
Qed.
End BitBlocks.

(** ** LZ4 *)

Definition LZ4_MAX_INPUT_SIZE : Z := 0x7E000000.

(** What the library documents.  A call returns its [int] and the bytes that it stores at the start of
    the destination. *)
Class Lz4 := {
  LZ4_compressBound : Z -> Z;
  LZ4_compress_default : list Z -> Z -> Z * list Z;
  LZ4_decompress_safe : list Z -> Z -> Z * list Z;
  lz4_bound_law : forall n, 0 <= n <= LZ4_MAX_INPUT_SIZE -> 0 <= LZ4_compressBound n < 2 ^ 31;
  lz4_roundtrip_law : forall src cap, bytes src -> 0 < zlen src <= LZ4_MAX_INPUT_SIZE -> LZ4_compressBound (zlen src) <= cap ->
    exists data, LZ4_compress_default src cap = (zlen data, data) /\ bytes data /\ 0 < zlen data <= LZ4_compressBound (zlen src) /\
      forall cap', zlen src <= cap' -> LZ4_decompress_safe data cap' = (zlen src, src) }.

(** ** bitshuffle.c *)

Section Lz4Blocks.
Context `{BitTransposer} `{Lz4} (malloc : Z -> option (list Z)).

Definition bshuf_compress_lz4_block (C : ioc_chain) (inp out : list Z) (size elem_size option : Z) :
    outcome (Z * ioc_chain * list Z) :=
  match malloc (size * elem_size) with
  | None => Ret (-1, C, out)
  | Some tmp_buf_bshuf =>
      let dst_capacity := LZ4_compressBound (to_i32 (size * elem_size)) in
      match malloc dst_capacity with
      | None => Ret (-1, C, out)
      | Some tmp_buf_lz4 =>
          let! '(this_iter, i, C) := ioc_get_in C in
          let C := ioc_set_next_in C this_iter (i + size * elem_size) in
          let! src := mem_read inp i (size * elem_size) in
          let! '(count, tmp_buf_bshuf) := bshuf_trans_bit_elem src tmp_buf_bshuf size elem_size in
          if count <? 0 then Ret (count, C, out)
          else
            let '(nbytes, stored) := LZ4_compress_default tmp_buf_bshuf dst_capacity in
            let! tmp_buf_lz4 := mem_write tmp_buf_lz4 0 stored in
            if nbytes <? 0 then Ret (nbytes - 1000, C, out)
            else
              let! o := ioc_get_out C this_iter in
              let C := ioc_set_next_out C this_iter (o + nbytes + 4) in
              let! out := bshuf_write_uint32_BE out o nbytes in
              let! out := memcpy out (o + 4) tmp_buf_lz4 0 nbytes in
              Ret (nbytes + 4, C, out)
      end
  end.

(** LZ4 is given the bytes that the header announces; a header that announces more than the input
    holds is undefined. *)
Definition bshuf_decompress_lz4_block (C : ioc_chain) (inp out : list Z) (size elem_size option : Z) :
    outcome (Z * ioc_chain * list Z) :=
  let! '(this_iter, i, C) := ioc_get_in C in
  let! header := bshuf_read_uint32_BE inp i in
  let nbytes_from_header := to_i32 header in
  let C := ioc_set_next_in C this_iter (i + nbytes_from_header + 4) in
  let! o := ioc_get_out C this_iter in
  let C := ioc_set_next_out C this_iter (o + size * elem_size) in
  match malloc (size * elem_size) with
  | None => Ret (-1, C, out)
  | Some tmp_buf =>
      let! src := mem_read inp (i + 4) nbytes_from_header in
      let '(nbytes, stored) := LZ4_decompress_safe src (to_i32 (size * elem_size)) in
      let! tmp_buf := mem_write tmp_buf 0 stored in
      if nbytes <? 0 then Ret (nbytes - 1000, C, out)
      else if negb (nbytes =? size * elem_size) then Ret (-91, C, out)
      else
        let! dst := mem_read out o (size * elem_size) in
        let! '(count, dst) := bshuf_untrans_bit_elem tmp_buf dst size elem_size in
        let! out := mem_write out o dst in
        if count <? 0 then Ret (count, C, out)
        else Ret (nbytes_from_header + 4, C, out)
  end.

Definition bshuf_compress_lz4_bound (size elem_size block_size : Z) : outcome Z :=
  let! block_size := if block_size =? 0 then bshuf_default_block_size elem_size else Ret block_size in
  if negb (block_size mod BSHUF_BLOCKED_MULT =? 0) then Ret (u64 (-81))
  else
    let bound := (LZ4_compressBound (to_i32 (block_size * elem_size)) + 4) * (size / block_size) in
    let leftover := size mod block_size / BSHUF_BLOCKED_MULT * BSHUF_BLOCKED_MULT in
    let bound := if leftover =? 0 then bound else bound + (LZ4_compressBound (to_i32 (leftover * elem_size)) + 4) in
    Ret (bound + size mod BSHUF_BLOCKED_MULT * elem_size).

Definition bshuf_compress_lz4 (inp : list Z) (in_ptr : Z) (out : list Z) (out_ptr size elem_size block_size : Z) : routine :=
  bshuf_blocked_wrap_fun bshuf_compress_lz4_block inp in_ptr out out_ptr size elem_size block_size 0.

Definition bshuf_decompress_lz4 (inp : list Z) (in_ptr : Z) (out : list Z) (out_ptr size elem_size block_size : Z) : routine :=
  bshuf_blocked_wrap_fun bshuf_decompress_lz4_block inp in_ptr out out_ptr size elem_size block_size 0.

Context (Hmalloc : forall n, 0 <= n -> mallocs malloc n).

Lemma to_i32_id x : 0 <= x < 2 ^ 31 -> to_i32 x = x.
Proof. intros Hx. unfold to_i32, swrap. rewrite Z.mod_small; lia. Qed.

(** A block [blk], its transposition [t] and the compressed form [d] of that. *)
Section OneBlock.
Context (q e opt : Z) (blk t d : list Z).
Context (Hq : 0 < q) (He : 0 < e) (Hz : zlen blk = 8 * q * e) (Hzt : zlen t = 8 * q * e) (Hmax : 8 * q * e < 2 ^ 31).
Context (Hd : 0 < zlen d <= LZ4_compressBound (8 * q * e)) (Hd32 : zlen d < 2 ^ 31).
Notation data := (be_encode 4 (zlen d) ++ d).

Lemma zlen_block : zlen data = zlen d + 4.
Proof. rewrite zlen_app, zlen_be_encode. lia. Qed.

Lemma compress_block :
  (forall out, zlen out = 8 * q * e -> bshuf_trans_bit_elem blk out (8 * q) e = Ret (8 * q * e, t)) ->
  LZ4_compress_default t (LZ4_compressBound (8 * q * e)) = (zlen d, d) ->
  processes bshuf_compress_lz4_block e opt (8 * q) blk data (zlen data).
Proof using Hq He Hz Hzt Hmax Hd Hd32 Hmalloc.
  intros Ht Ec. rewrite zlen_block. split; [lia|]. intros C pre post opre old opost HC Ho. rewrite zlen_block in Ho.
  destruct (Hmalloc (8 * q * e)) as (tmp & Em & Hzm); [nia|].
  destruct (Hmalloc (LZ4_compressBound (8 * q * e))) as (tmp2 & Em2 & Hzm2); [lia|].
  destruct (chain_step C _ _ (zlen pre + 8 * q * e) (zlen opre + zlen d + 4) HC) as (C1 & E1 & E2 & HC2).
  unfold bshuf_compress_lz4_block. rewrite Em, to_i32_id, Em2, E1 by nia. cbn [obind].
  rewrite mem_read_mid by lia. cbn [obind]. rewrite Ht by done. cbn [obind]. rewrite (proj2 (Z.ltb_ge _ _)) by nia. rewrite Ec.
  destruct (split_at tmp2 (zlen d)) as (ta & tb & -> & Hta); [lia|].
  rewrite mem_write_head by done. cbn [obind]. rewrite (proj2 (Z.ltb_ge (zlen d) 0)) by lia.
  rewrite E2. cbn [obind]. destruct (split_at old 4) as (oa & ob & -> & Hoa); [lia|]. rewrite zlen_app in Ho.
  unfold bshuf_write_uint32_BE. rewrite u32_small by lia. rewrite <- !app_assoc, write_BE_spec by (done || (unfold zlen in Hoa; lia)).
  cbn [obind]. unfold memcpy. rewrite mem_read_head by done. cbn [obind].
  rewrite (app_assoc opre), (mem_write_mid (opre ++ _) ob d) by (rewrite ?zlen_app, ?zlen_be_encode; lia). cbn [obind].
  eexists. rewrite <- !app_assoc. split; [done|]. rewrite Hz, !zlen_app, zlen_be_encode in *.
  by replace (zlen opre + (Z.of_nat 4 + zlen d)) with (zlen opre + zlen d + 4) by lia.
Qed.

Lemma decompress_block :
  (forall out, zlen out = 8 * q * e -> bshuf_untrans_bit_elem t out (8 * q) e = Ret (8 * q * e, blk)) ->
  LZ4_decompress_safe d (8 * q * e) = (8 * q * e, t) ->
  processes bshuf_decompress_lz4_block e opt (8 * q) data blk (zlen data).
Proof using Hq He Hz Hzt Hmax Hd Hd32 Hmalloc.
  intros Hu Ed. rewrite zlen_block. split; [lia|]. intros C pre post opre old opost HC Ho.
  destruct (Hmalloc (8 * q * e)) as (tmp & Em & Hzm); [nia|].
  destruct (chain_step C _ _ (zlen pre + zlen d + 4) (zlen opre + 8 * q * e) HC) as (C1 & E1 & E2 & HC2).
  unfold bshuf_decompress_lz4_block. rewrite E1. cbn [obind]. rewrite <- app_assoc. unfold bshuf_read_uint32_BE.
  rewrite read_BE_spec by (done || lia). cbn [obind]. rewrite (to_i32_id (zlen d)) by lia. rewrite E2. cbn [obind]. rewrite Em.
  rewrite (app_assoc pre), (mem_read_mid (pre ++ _) d) by (rewrite ?zlen_app, ?zlen_be_encode; lia). cbn [obind].
  rewrite to_i32_id, Ed by nia. rewrite <- (app_nil_r tmp).
  rewrite mem_write_head by lia. cbn [obind]. rewrite (proj2 (Z.ltb_ge _ _)) by nia.
  rewrite Z.eqb_refl. cbn [negb]. rewrite (mem_read_mid opre old) by lia. cbn [obind]. rewrite app_nil_r, Hu by lia. cbn [obind].
  rewrite (mem_write_mid opre old) by lia. cbn [obind]. rewrite (proj2 (Z.ltb_ge _ _)) by nia.
  eexists. split; [done|]. rewrite zlen_block, Hz. by rewrite Z.add_assoc.
Qed.
End OneBlock.

Lemma bytes_be_encode n z : bytes (be_encode n z).
Proof.
  apply Forall_rev. revert z. induction n; intros z; cbn; constructor; [|done]. apply Z.mod_pos_bound. lia.
Qed.

(** A block and its compressed form. *)
Lemma lz4_blocks q e opt blk : 0 < q -> 0 < e -> bytes blk -> zlen blk = 8 * q * e -> 8 * q * e <= LZ4_MAX_INPUT_SIZE ->
  exists data, bytes data /\ 4 < zlen data <= LZ4_compressBound (8 * q * e) + 4 /\
    processes bshuf_compress_lz4_block e opt (8 * q) blk data (zlen data) /\
    processes bshuf_decompress_lz4_block e opt (8 * q) data blk (zlen data).
Proof using Hmalloc.
  intros Hq He Hb Hz Hmax. destruct (transposed_block q e blk) as (t & Hbt & Hzt & Ht & Hu); try done.
  assert (Hcap : 0 <= LZ4_compressBound (8 * q * e) < 2 ^ 31) by (apply lz4_bound_law; nia).
  destruct (lz4_roundtrip_law t (LZ4_compressBound (8 * q * e))) as (d & Ec & Hbd & Hd & Ed); [done|nia|by rewrite Hzt|].
  rewrite Hzt in Hd, Ed. unfold LZ4_MAX_INPUT_SIZE in Hmax.
  exists (be_encode 4 (zlen d) ++ d). split; [|split].
  - apply Forall_app. split; [apply bytes_be_encode|done].
  - rewrite zlen_block. lia.
  - split; [apply (compress_block q e opt blk t d)|apply (decompress_block q e opt blk t d)]; try done; try lia. by apply Ed.
Qed.

(** *** Whole arrays *)

Definition block_ok (e n : Z) : Prop := 0 < n /\ n mod 8 = 0 /\ n * e <= LZ4_MAX_INPUT_SIZE.

Definition blocks_bound (e : Z) (ns : list Z) : Z := foldr (fun n b => LZ4_compressBound (n * e) + 4 + b) 0 ns.

Lemma lz4_all_blocks e opt ns l : 0 < e -> Forall (block_ok e) ns -> bytes l -> zlen l = foldr Z.add 0 ns * e ->
  exists data, bytes data /\ zlen data <= blocks_bound e ns /\
    processes_all bshuf_compress_lz4_block e opt ns l data (zlen data) /\
    processes_all bshuf_decompress_lz4_block e opt ns data l (zlen data).
Proof using Hmalloc.
  intros He Hns. revert l. induction Hns as [|n ns (Hn & Hm & Hmax) Hns IH]; intros l Hb Hz; cbn [foldr] in *.
  - exists []. destruct l; [|unfold zlen in Hz; cbn in Hz; lia]. split_and!; [constructor|done|constructor..].
  - assert (Hrest : 0 <= foldr Z.add 0 ns) by (clear -Hns; induction Hns as [|? ? (? & _)]; cbn; lia).
    destruct (split_at l (n * e)) as (blk & l' & -> & Hblk); [nia|].
    apply Forall_app in Hb as [Hb1 Hb2]. rewrite zlen_app in Hz.
    apply Z.div_exact in Hm; [|lia]. set (q := n / 8) in *.
    destruct (lz4_blocks q e opt blk) as (d & Hbd & Hzd & Hc & Hd); [lia|lia|done|lia|lia|].
    rewrite <- Hm in Hzd, Hc, Hd.
    destruct (IH l' Hb2 ltac:(lia)) as (ds & Hbds & Hzds & Hcs & Hds).
    exists (d ++ ds). rewrite zlen_app. split_and!; [by apply Forall_app|unfold blocks_bound in *; cbn [foldr]; lia|by constructor..].
Qed.

Lemma block_sizes_ok size bs : 0 <= size -> 0 < bs -> bs mod 8 = 0 ->
  Forall (fun n => 0 < n <= bs /\ n mod 8 = 0) (block_sizes size bs) /\
  foldr Z.add 0 (block_sizes size bs) = size - size mod 8.
Proof using Type.
  intros Hs Hb Hm. apply Z.div_exact in Hm; [|lia]. set (k := bs / 8) in *.
  pose proof (Z.div_mod size bs ltac:(lia)) as Hdm. pose proof (Z.mod_pos_bound size bs ltac:(lia)) as Hr.
  assert (Hmod : size mod bs mod 8 = size mod 8).
  { apply Z.mod_mod_divide. exists k. lia. }
  unfold block_sizes. cbv zeta. rewrite Hmod. set (d := size / bs) in *. assert (0 <= d) by (apply Z.div_pos; lia).
  pose proof (Z.mod_pos_bound size 8 ltac:(lia)). pose proof (Z.mod_le (size mod bs) 8 ltac:(lia) ltac:(lia)). rewrite Hmod in *.
  set (last := size mod bs - size mod 8) in *.
  assert (Hl8 : last mod 8 = 0).
  { unfold last. rewrite <- Hmod. pose proof (Z.div_mod (size mod bs) 8 ltac:(lia)).
    replace (size mod bs - size mod bs mod 8) with (size mod bs / 8 * 8) by lia. apply Z_mod_mult. }
  assert (Hbs8 : bs mod 8 = 0) by (rewrite Hm, Z.mul_comm; apply Z_mod_mult).
  assert (Hsum : forall j x, foldr Z.add 0 (replicate j bs ++ x) = Z.of_nat j * bs + foldr Z.add 0 x).
  { clear. induction j; intros x; cbn [replicate app foldr]; [lia|]. rewrite IHj. lia. }
  rewrite Hsum, Z2Nat.id by done. destruct (Z.eqb_spec last 0) as [E|E]; cbn [foldr].
  - rewrite app_nil_r. split; [apply Forall_replicate; lia|lia].
  - split; [apply Forall_app; split; [apply Forall_replicate; lia|constructor; [lia|constructor]]|lia].
Qed.

Lemma default_block_size_ok e : 0 < e -> exists b, bshuf_default_block_size e = Ret b /\ 128 <= b /\ b mod 8 = 0 /\
  b * e <= Z.max 8192 (128 * e).
Proof using Type.
  intros He. unfold bshuf_default_block_size, udiv, BSHUF_TARGET_BLOCK_SIZE_B, BSHUF_BLOCKED_MULT, BSHUF_MIN_RECOMMEND_BLOCK.
  rewrite (proj2 (Z.eqb_neq e 0)) by lia. cbn [obind]. eexists. split; [done|].
  pose proof (Z.div_mod 8192 e ltac:(lia)). pose proof (Z.mod_pos_bound 8192 e ltac:(lia)).
  pose proof (Z.div_mod (8192 / e) 8 ltac:(lia)). pose proof (Z.mod_pos_bound (8192 / e) 8 ltac:(lia)).
  split; [lia|]. destruct (Z.max_spec (8192 / e / 8 * 8) 128) as [[? ->]|[? ->]].
  - split; [done|lia].
  - split; [apply Z_mod_mult|nia].
Qed.

(** [b] is the block size that the argument [bs] stands for. *)
Definition effective_block (e bs b : Z) : Prop :=
  (if bs =? 0 then bshuf_default_block_size e else Ret bs) = Ret b /\ block_ok e b.

Lemma wrap_effective f inp i out o size e bs b opt : effective_block e bs b ->
  bshuf_blocked_wrap_fun f inp i out o size e bs opt = bshuf_blocked_wrap_fun f inp i out o size e b opt.
Proof using Type.
  intros (E & Hb & _). unfold bshuf_blocked_wrap_fun at 1. rewrite E. cbn [obind].
  unfold bshuf_blocked_wrap_fun. by rewrite (proj2 (Z.eqb_neq b 0)) by lia.
Qed.

Lemma bound_spec size e bs b : 0 <= size -> 0 < e -> effective_block e bs b ->
  bshuf_compress_lz4_bound size e bs = Ret (blocks_bound e (block_sizes size b) + size mod 8 * e).
Proof using Type.
  intros Hs He (E & Hb & Hm & Hmax). unfold bshuf_compress_lz4_bound, BSHUF_BLOCKED_MULT. rewrite E. cbn [obind].
  rewrite Hm. cbn [Z.eqb negb]. f_equal. f_equal. unfold LZ4_MAX_INPUT_SIZE in Hmax.
  unfold block_sizes. cbv zeta.
  assert (Hbb : forall j x, blocks_bound e (replicate j b ++ x) = (LZ4_compressBound (b * e) + 4) * Z.of_nat j + blocks_bound e x).
  { clear. induction j; intros x; cbn [replicate app]; [lia|]. unfold blocks_bound in *. cbn [foldr]. rewrite IHj. lia. }
  rewrite Hbb, to_i32_id by nia. pose proof (Z.mod_pos_bound size b ltac:(lia)).
  pose proof (Z.div_mod (size mod b) 8 ltac:(lia)). pose proof (Z.mod_pos_bound (size mod b) 8 ltac:(lia)).
  replace (size mod b - size mod b mod 8) with (size mod b / 8 * 8) by lia.
  assert (0 <= size / b) by (apply Z.div_pos; lia). rewrite Z2Nat.id by done.
  destruct (Z.eqb_spec (size mod b / 8 * 8) 0); unfold blocks_bound; cbn [foldr]; [lia|]. rewrite to_i32_id by nia. lia.
Qed.

(** An array and its compressed form. *)
Lemma lz4_array size e bs b inp : 0 <= size -> 0 < e -> effective_block e bs b -> bytes inp -> zlen inp = size * e ->
  exists data bound, bytes data /\ bshuf_compress_lz4_bound size e bs = Ret bound /\ zlen data <= bound /\
    (forall pre post opre old opost, zlen old = zlen data ->
      bshuf_compress_lz4 (pre ++ inp ++ post) (zlen pre) (opre ++ old ++ opost) (zlen opre) size e bs =
        Ret (zlen data, opre ++ data ++ opost)) /\
    (forall pre post opre old opost, zlen old = zlen inp ->
      bshuf_decompress_lz4 (pre ++ data ++ post) (zlen pre) (opre ++ old ++ opost) (zlen opre) size e bs =
        Ret (zlen data, opre ++ inp ++ opost)).
Proof using Hmalloc.
  intros Hs He Heff Hb Hz. pose proof Heff as (_ & Hb0 & Hm & Hmax).
  destruct (block_sizes_ok size b) as (Hok & Hsum); [done..|].
  pose proof (Z.mod_pos_bound size 8 ltac:(lia)). pose proof (Z.mod_le size 8 ltac:(lia) ltac:(lia)).
  destruct (split_at inp ((size - size mod 8) * e)) as (body & tl & -> & Hbody); [nia|].
  apply Forall_app in Hb as [Hb1 Hb2]. rewrite zlen_app in Hz.
  assert (Htl : zlen tl = size mod 8 * e) by lia.
  destruct (lz4_all_blocks e 0 (block_sizes size b) body) as (d & Hbd & Hzd & Hc & Hd); [done| |done|by rewrite Hsum|].
  { eapply Forall_impl; [|exact Hok]. intros n (? & ?). split_and!; [lia|done|nia]. }
  exists (d ++ tl). eexists. split; [by apply Forall_app|]. split; [by apply bound_spec|].
  rewrite !zlen_app. split; [lia|]. split; intros pre post opre old opost Ho.
  - unfold bshuf_compress_lz4. rewrite (wrap_effective _ _ _ _ _ _ _ _ b) by done. by rewrite (wrap_blocks _ _ _ _ _ body d (zlen d)).
  - unfold bshuf_decompress_lz4. rewrite (wrap_effective _ _ _ _ _ _ _ _ b) by done. by rewrite (wrap_blocks _ _ _ _ _ d body (zlen d)).
Qed.

(** A block size that is not a multiple of eight. *)
Lemma wrap_bad_block f inp i out o size e bs opt : bs mod 8 <> 0 ->
  bshuf_blocked_wrap_fun f inp i out o size e bs opt = Ret (-81, out).
Proof using Type.
  intros Hm. unfold bshuf_blocked_wrap_fun, BSHUF_BLOCKED_MULT. destruct (Z.eqb_spec bs 0) as [->|_]; [done|].
  cbn [obind]. by rewrite (proj2 (Z.eqb_neq _ _) Hm).
Qed.
End Lz4Blocks.
