(* ===== verification/IoChain.v ===== *)
(** * The chain of pointers with several threads

    [src/source/external/bitshuffle/iochain.c] as it is built, with OpenMP, and the parallel loop of
    [bshuf_blocked_wrap_fun]: any number of threads take the blocks one after the other; the locks of the
    chain pass the pointers from block to block.  A thread is its place in the code of an iteration and its
    local variables; a step of the program is a step of one of the threads.

    When no block fails, the threads do for every interleaving what one thread does that takes the blocks in order,
    without a deadlock; a block that fails keeps its locks ([failed_block_deadlocks]).  What a block is (shuffled, compressed or decompressed) is given by three functions of the
    pointer to its input: the bytes that it takes, the bytes that it stores, and the count that it returns. *)

From stdpp Require Import functions.
From S2P Require Import Prelude Scatter Bitshuffle Bslz4.

(** ** Threads *)

(** The places in the code, in the order of the calls of an iteration: [ioc_get_in], [ioc_set_next_in],
    [ioc_get_out], [ioc_set_next_out], and the output of the block. *)
Inductive stage :=
| Start | WantNext | Take | LockIn | LockIn1 | LockOut1 | UnsetNext | ReadIn
| SetIn | UnsetIn1
| LockOut | ReadOut | UnsetOut
| SetOut | UnsetOut1 | UnsetIn
| Work.

(** The local variables; a pointer that was not read yet is 0. *)
Record thread := { stage_of : stage; this_iter : Z; in_ptr : Z; out_ptr : Z }.

Inductive lock := NextLock | InLock (k : Z) | OutLock (k : Z).

#[global] Instance stage_eq_dec : EqDecision stage.
Proof. solve_decision. Defined.
#[global] Instance lock_eq_dec : EqDecision lock.
Proof. solve_decision. Defined.

Record state := {
  chain : ioc_chain;
  locks : lock -> option nat;        (* the thread that set the lock *)
  threads : list thread;
  left : Z;                          (* iterations that no thread has begun *)
  out_mem : list Z;
  cum_count : Z;
  finished : list Z                  (* the iterations that are complete, the last one first *) }.

Definition set_threads (s : state) (l : list thread) : state :=
  {| chain := chain s; locks := locks s; threads := l; left := left s; out_mem := out_mem s; cum_count := cum_count s; finished := finished s |}.
Definition set_locks (s : state) (l : lock -> option nat) : state :=
  {| chain := chain s; locks := l; threads := threads s; left := left s; out_mem := out_mem s; cum_count := cum_count s; finished := finished s |}.
Definition set_chain (s : state) (C : ioc_chain) : state :=
  {| chain := C; locks := locks s; threads := threads s; left := left s; out_mem := out_mem s; cum_count := cum_count s; finished := finished s |}.

(** Thread [t] goes to a place, with its local variables. *)
Definition goto (s : state) (t : nat) (st : stage) (it p q : Z) : state :=
  set_threads s (<[t := {| stage_of := st; this_iter := it; in_ptr := p; out_ptr := q |}]> (threads s)).

Definition in_slot (it : Z) : lock := InLock (it mod IOC_SIZE).
Definition out_slot (it : Z) : lock := OutLock (it mod IOC_SIZE).

(** [omp_set_lock]: blocks while the lock is set, also by the same thread. *)
Definition omp_set_lock (s : state) (t : nat) (l : lock) (k : state -> state) : outcome (option state) :=
  match locks s l with Some _ => Ret None | None => Ret (Some (k (set_locks s (<[l := Some t]> (locks s))))) end.

(** [omp_unset_lock]: only for the thread that set the lock. *)
Definition omp_unset_lock (s : state) (t : nat) (l : lock) (k : state -> state) : outcome (option state) :=
  if bool_decide (locks s l = Some t) then Ret (Some (k (set_locks s (<[l := None]> (locks s))))) else Undef lock_not_owned.

Section Chain.
Context (in_ptr_0 out_ptr_0 : Z) (consumed : Z -> Z) (produced : Z -> list Z) (count : Z -> Z).
(** Blocks that fail before they ask for their output. *)
Context (fails : Z -> bool).

(** A step of thread [t]; [None] when it is blocked or has nothing to do. *)
Definition thread_step (s : state) (t : nat) : outcome (option state) :=
  match threads s !! t with
  | None => Ret None
  | Some x =>
      let it := this_iter x in
      let p := in_ptr x in
      let q := out_ptr x in
      match stage_of x with
      | Start => if left s =? 0 then Ret None
                 else Ret (Some (goto {| chain := chain s; locks := locks s; threads := threads s; left := left s - 1;
                                         out_mem := out_mem s; cum_count := cum_count s; finished := finished s |} t WantNext 0 0 0))
      | WantNext => omp_set_lock s t NextLock (fun s => goto s t Take 0 0 0)
      | Take => Ret (Some (goto (set_chain s {| next := next (chain s) + 1; in_pl := in_pl (chain s); out_pl := out_pl (chain s) |})
                             t LockIn (next (chain s)) 0 0))
      | LockIn => omp_set_lock s t (in_slot it) (fun s => goto s t LockIn1 it 0 0)
      | LockIn1 => omp_set_lock s t (in_slot (it + 1)) (fun s => goto s t LockOut1 it 0 0)
      | LockOut1 => omp_set_lock s t (out_slot (it + 1)) (fun s => goto s t UnsetNext it 0 0)
      | UnsetNext => omp_unset_lock s t NextLock (fun s => goto s t ReadIn it 0 0)
      | ReadIn => let! p := pl_at (in_pl (chain s)) it in Ret (Some (goto s t SetIn it p 0))
      | SetIn => Ret (Some (goto (set_chain s (ioc_set_next_in (chain s) it (p + consumed p))) t UnsetIn1 it p 0))
      | UnsetIn1 => omp_unset_lock s t (in_slot (it + 1)) (fun s => goto s t LockOut it p 0)
      | LockOut => if fails p then Ret (Some (goto s t Start 0 0 0))
                   else omp_set_lock s t (out_slot it) (fun s => goto s t ReadOut it p 0)
      | ReadOut => let! q := pl_at (out_pl (chain s)) it in Ret (Some (goto s t UnsetOut it p q))
      | UnsetOut => omp_unset_lock s t (out_slot it) (fun s => goto s t SetOut it p q)
      | SetOut => Ret (Some (goto (set_chain s (ioc_set_next_out (chain s) it (q + zlen (produced p)))) t UnsetOut1 it p q))
      | UnsetOut1 => omp_unset_lock s t (out_slot (it + 1)) (fun s => goto s t UnsetIn it p q)
      | UnsetIn => omp_unset_lock s t (in_slot it) (fun s => goto s t Work it p q)
      | Work =>
          let! m := mem_write (out_mem s) q (produced p) in
          Ret (Some (goto {| chain := chain s; locks := locks s; threads := threads s; left := left s; out_mem := m;
                             cum_count := cum_count s + count p; finished := it :: finished s |} t Start 0 0 0))
      end
  end.

Definition step (s s' : state) : Prop := exists t, thread_step s t = Ret (Some s').

(** [ioc_init] and the start of the loop of [m] iterations with [n] threads. *)
Definition init (n : nat) (m : Z) (mem : list Z) : state :=
  {| chain := ioc_init in_ptr_0 out_ptr_0; locks := fun _ => None;
     threads := replicate n {| stage_of := Start; this_iter := 0; in_ptr := 0; out_ptr := 0 |};
     left := m; out_mem := mem; cum_count := 0; finished := [] |}.

(** The threads take their turns as the schedule says. *)
Fixpoint run (s : state) (ts : list nat) : outcome state :=
  match ts with
  | [] => Ret s
  | t :: ts' => let! r := thread_step s t in run (default s r) ts'
  end.

(** ** One thread: the calls in order, as in [bshuf_blocked_wrap_fun] of [Bslz4] *)

Definition block_step (st : ioc_chain * list Z * Z) (_i : Z) : outcome (ioc_chain * list Z * Z) :=
  let '(C, mem, cum) := st in
  let! '(it, p, C) := ioc_get_in C in
  let C := ioc_set_next_in C it (p + consumed p) in
  let! q := ioc_get_out C it in
  let C := ioc_set_next_out C it (q + zlen (produced p)) in
  let! mem := mem_write mem q (produced p) in
  Ret (C, mem, cum + count p).

Definition sequential (m : Z) (mem : list Z) : outcome (ioc_chain * list Z * Z) :=
  foldO block_step (seqZ 0 m) (ioc_init in_ptr_0 out_ptr_0, mem, 0).
End Chain.

(** ** Sequences of pointers *)

Section Pointers.
Context (in_ptr_0 out_ptr_0 : Z) (consumed : Z -> Z) (produced : Z -> list Z).

Fixpoint in_nth (n : nat) : Z :=
  match n with O => in_ptr_0 | S n' => in_nth n' + consumed (in_nth n') end.
Fixpoint out_nth (n : nat) : Z :=
  match n with O => out_ptr_0 | S n' => out_nth n' + zlen (produced (in_nth n')) end.

(** The pointers of iteration [j]. *)
Definition in_seq (j : Z) : Z := in_nth (Z.to_nat j).
Definition out_seq (j : Z) : Z := out_nth (Z.to_nat j).

Lemma in_seq_S j : 0 <= j -> in_seq (j + 1) = in_seq j + consumed (in_seq j).
Proof. intros Hj. unfold in_seq. replace (Z.to_nat (j + 1)) with (S (Z.to_nat j)) by lia. done. Qed.

Lemma out_seq_S j : 0 <= j -> out_seq (j + 1) = out_seq j + zlen (produced (in_seq j)).
Proof. intros Hj. unfold out_seq, in_seq. replace (Z.to_nat (j + 1)) with (S (Z.to_nat j)) by lia. done. Qed.

Lemma out_seq_mono i j : 0 <= i <= j -> out_seq i <= out_seq j.
Proof.
  intros Hij. replace j with (i + Z.of_nat (Z.to_nat (j - i))) by lia. set (n := Z.to_nat (j - i)). clearbody n.
  induction n as [|n IH]; [rewrite Z.add_0_r; lia|]. replace (i + Z.of_nat (S n)) with (i + Z.of_nat n + 1) by lia.
  rewrite out_seq_S by lia. pose proof (zlen_nonneg (produced (in_seq (i + Z.of_nat n)))). lia.
Qed.
End Pointers.

(** ** The order of the places, and what a thread holds *)

Definition ord (st : stage) : Z :=
  match st with
  | Start => 0 | WantNext => 1 | Take => 2 | LockIn => 3 | LockIn1 => 4 | LockOut1 => 5 | UnsetNext => 6 | ReadIn => 7
  | SetIn => 8 | UnsetIn1 => 9 | LockOut => 10 | ReadOut => 11 | UnsetOut => 12 | SetOut => 13 | UnsetOut1 => 14
  | UnsetIn => 15 | Work => 16
  end.

Definition at_ (x : thread) : Z := ord (stage_of x).

(** The thread has an iteration; it has locks of the chain or will have them. *)
Definition busy (x : thread) : Prop := 3 <= at_ x.
Definition active (x : thread) : Prop := 3 <= at_ x <= 15.

Definition holds (x : thread) (l : lock) : Prop :=
  match l with
  | NextLock => 2 <= at_ x <= 6
  | InLock k => (4 <= at_ x <= 15 /\ k = this_iter x mod IOC_SIZE) \/ (5 <= at_ x <= 9 /\ k = (this_iter x + 1) mod IOC_SIZE)
  | OutLock k => (6 <= at_ x <= 14 /\ k = (this_iter x + 1) mod IOC_SIZE) \/ (11 <= at_ x <= 12 /\ k = this_iter x mod IOC_SIZE)
  end.

(** A lock is set by the thread that holds it. *)
Definition lock_inv (lk : lock -> option nat) (thr : list thread) : Prop :=
  forall l t, lk l = Some t <-> exists x, thr !! t = Some x /\ holds x l.

Lemma lookup_insert_cases {A} (l : list A) t x y t' : l !! t = Some x ->
  (<[t := y]> l) !! t' = (if decide (t' = t) then Some y else l !! t').
Proof.
  intros Hx. destruct (decide (t' = t)) as [->|Hne]; [|by apply list_lookup_insert_ne].
  apply list_lookup_insert_eq. by eapply lookup_lt_Some.
Qed.

Lemma lock_keep lk thr t x y : lock_inv lk thr -> thr !! t = Some x -> (forall l, holds y l <-> holds x l) -> lock_inv lk (<[t := y]> thr).
Proof.
  intros H Hx Hy l t'. rewrite (H l t'). rewrite (lookup_insert_cases _ _ x) by done. case_decide as E; [|done].
  subst t'. rewrite Hx. split; intros (z & E & Hz); simplify_eq; eexists; (split; [done|]); by apply Hy.
Qed.

Lemma lock_acquire lk thr t x y l0 : lock_inv lk thr -> thr !! t = Some x -> lk l0 = None ->
  (forall l, holds y l <-> holds x l \/ l = l0) -> lock_inv (<[l0 := Some t]> lk) (<[t := y]> thr).
Proof.
  intros H Hx Hfree Hy l t'. rewrite (lookup_insert_cases _ _ x) by done. destruct (decide (l = l0)) as [->|Hl].
  - rewrite fn_lookup_insert. split.
    + intros [= <-]. exists y. rewrite decide_True by done. split; [done|]. apply Hy. by right.
    + intros (z & E & Hz). case_decide as Et; [by subst|]. rewrite (proj2 (H l0 t')) in Hfree; [done|by exists z].
  - rewrite fn_lookup_insert_ne by done. rewrite (H l t'). case_decide as Et; [|done]. subst t'. rewrite Hx.
    split; intros (z & E & Hz); simplify_eq; eexists; (split; [done|]); specialize (Hy l); naive_solver.
Qed.

Lemma lock_release lk thr t x y l0 : lock_inv lk thr -> thr !! t = Some x -> lk l0 = Some t ->
  (forall l, holds y l <-> holds x l /\ l <> l0) -> lock_inv (<[l0 := None]> lk) (<[t := y]> thr).
Proof.
  intros H Hx Hheld Hy l t'. rewrite (lookup_insert_cases _ _ x) by done. destruct (decide (l = l0)) as [->|Hl].
  - rewrite fn_lookup_insert. split; [done|]. intros (z & E & Hz). case_decide as Et.
    + simplify_eq. by apply Hy in Hz as [_ ?].
    + rewrite (proj2 (H l0 t')) in Hheld; [congruence|by exists z].
  - rewrite fn_lookup_insert_ne by done. rewrite (H l t'). case_decide as Et; [|done]. subst t'. rewrite Hx.
    split; intros (z & E & Hz); simplify_eq; eexists; (split; [done|]); specialize (Hy l); naive_solver.
Qed.

(** *** Iterations *)

(** Iteration [j] has not reached place [c] yet. *)
Definition pend (c : Z) (thr : list thread) (j : Z) : Prop :=
  exists t x, thr !! t = Some x /\ active x /\ this_iter x = j /\ at_ x < c.

(** The pointers of the chain: iteration [j] has stored that of iteration [j + 1], and it is there until
    iteration [j + 33] stores its own. *)
Definition data_inv (c : Z) (pl : list (option Z)) (sq : Z -> Z) (thr : list thread) (nxt : Z) : Prop :=
  length pl = 33%nat /\
  forall j, -1 <= j < nxt -> ~ pend c thr j -> nxt <= j + 33 \/ pend c thr (j + 33) -> pl_at pl (j + 1) = Ret (sq (j + 1)).

Record iter_inv (thr : list thread) (nxt : Z) : Prop := {
  iter_range : forall t x, thr !! t = Some x -> busy x -> 0 <= this_iter x < nxt;
  iter_distinct : forall t t' x x', thr !! t = Some x -> thr !! t' = Some x' -> busy x -> busy x' -> this_iter x = this_iter x' -> t = t';
  iter_newest : forall t x, thr !! t = Some x -> 3 <= at_ x <= 6 -> this_iter x = nxt - 1;
  iter_window : forall t x, thr !! t = Some x -> active x -> nxt - 33 <= this_iter x;
  iter_window' : forall t x, thr !! t = Some x -> active x -> this_iter x = nxt - 33 ->
    exists t' x', thr !! t' = Some x' /\ 3 <= at_ x' <= 4 /\ this_iter x' = nxt - 1 }.

Lemma insert_inv (thr : list thread) t x y t' x' : thr !! t = Some x -> <[t := y]> thr !! t' = Some x' ->
  (t' = t /\ x' = y) \/ (thr !! t' = Some x' /\ t' <> t).
Proof. intros Hx. rewrite (lookup_insert_cases _ _ x) by done. case_decide; [|auto]. intros [= <-]. auto. Qed.

Lemma insert_self (thr : list thread) t x y : thr !! t = Some x -> <[t := y]> thr !! t = Some y.
Proof. intros Hx. rewrite (lookup_insert_cases _ _ x) by done. by rewrite decide_True. Qed.

Lemma insert_other (thr : list thread) t x y t' : thr !! t = Some x -> t' <> t -> <[t := y]> thr !! t' = thr !! t'.
Proof. intros Hx Hne. rewrite (lookup_insert_cases _ _ x) by done. by rewrite decide_False. Qed.

(** A thread that moves on within its iteration. *)
Lemma iter_move thr nxt t x y : iter_inv thr nxt -> thr !! t = Some x -> active x -> busy y -> this_iter y = this_iter x ->
  (at_ y <= 6 -> at_ x <= 6) -> (3 <= at_ x <= 4 -> 3 <= at_ y <= 4 \/ forall t' x', thr !! t' = Some x' -> active x' -> this_iter x' <> nxt - 33) ->
  iter_inv (<[t := y]> thr) nxt.
Proof.
  intros H Hx Ha Hb Hi Hn Hw. destruct H as [H1 H2 H3 H4 H5]. unfold active, busy in *.
  assert (Hstill : forall t' x', thr !! t' = Some x' -> 3 <= at_ x' <= 4 -> this_iter x' = nxt - 1 ->
    (exists t1 x1, thr !! t1 = Some x1 /\ active x1 /\ this_iter x1 = nxt - 33) ->
    exists t' x', <[t := y]> thr !! t' = Some x' /\ 3 <= at_ x' <= 4 /\ this_iter x' = nxt - 1).
  { intros t' x' Hx' Hs Hi' (t1 & x1 & Hx1 & Ha1 & Hi1). destruct (decide (t' = t)) as [->|].
    - simplify_eq. destruct Hw as [Hw|Hw]; [done| |by destruct (Hw t1 x1)].
      exists t, y. rewrite (insert_self _ _ x) by done. split; [done|]. split; [done|lia].
    - exists t', x'. by rewrite (insert_other _ _ x). }
  split; [intros t' x' [[-> ->]|[? ?]]%(insert_inv _ _ x) ?| |intros t' x' [[-> ->]|[? ?]]%(insert_inv _ _ x) ?..|
    intros t' x' [[-> ->]|[? ?]]%(insert_inv _ _ x) Ha' Hi']; unfold active, busy in *; try done.
  - rewrite Hi. apply (H1 t x); [done|lia].
  - eauto.
  - intros t1 t2 x1 x2 [[-> ->]|[? ?]]%(insert_inv _ _ x) [[-> ->]|[? ?]]%(insert_inv _ _ x) ? ? ?; try done;
      [eapply (H2 t t2 x x2); eauto; lia|eapply (H2 t1 t x1 x); eauto; lia|eauto].
  - rewrite Hi. apply (H3 t x); [done|lia].
  - eauto.
  - rewrite Hi. apply (H4 t x); [done|lia].
  - eauto.
  - destruct (H5 t x) as (t1 & x1 & ? & ? & ?); [done|done|congruence|]. apply (Hstill t1 x1); try done. exists t, x. split; [done|]. split; [lia|congruence].
  - destruct (H5 t' x') as (t1 & x1 & ? & ? & ?); [done..|]. apply (Hstill t1 x1); try done. by exists t', x'.
Qed.

(** A thread without an iteration, or at the end of one. *)
Lemma iter_idle thr nxt t x y : iter_inv thr nxt -> thr !! t = Some x -> ~ active x -> at_ y < 3 -> iter_inv (<[t := y]> thr) nxt.
Proof.
  intros [H1 H2 H3 H4 H5] Hx Ha Hb. unfold active, busy in *.
  split; [intros t' x' [[-> ->]|[? ?]]%(insert_inv _ _ x) ?| |intros t' x' [[-> ->]|[? ?]]%(insert_inv _ _ x) ?..|
    intros t' x' [[-> ->]|[? ?]]%(insert_inv _ _ x) Ha' Hi']; unfold active, busy in *; try done; try lia; eauto.
  - intros t1 t2 x1 x2 [[-> ->]|[? ?]]%(insert_inv _ _ x) [[-> ->]|[? ?]]%(insert_inv _ _ x) ? ? ?; unfold busy in *; try done; try lia; eauto.
  - destruct (H5 t' x') as (t1 & x1 & ? & ? & ?); [done..|]. exists t1, x1. rewrite (insert_other _ _ x); try done. intros ->. simplify_eq. lia.
Qed.

(** A thread that takes the next iteration. *)
Lemma iter_take thr nxt t x y : iter_inv thr nxt -> thr !! t = Some x -> at_ x < 3 -> 3 <= at_ y <= 4 -> this_iter y = nxt -> 0 <= nxt ->
  (forall t' x', thr !! t' = Some x' -> ~ 3 <= at_ x' <= 6) -> iter_inv (<[t := y]> thr) (nxt + 1).
Proof.
  intros [H1 H2 H3 H4 H5] Hx Ha Hb Hi Hn Hfree. unfold active, busy in *.
  split; [intros t' x' [[-> ->]|[? ?]]%(insert_inv _ _ x) ?| |intros t' x' [[-> ->]|[? ?]]%(insert_inv _ _ x) ?..|
    intros t' x' [[-> ->]|[? ?]]%(insert_inv _ _ x) Ha' Hi']; unfold active, busy in *; try done; try lia.
  - specialize (H1 t' x'). naive_solver lia.
  - intros t1 t2 x1 x2 [[-> ->]|[? ?]]%(insert_inv _ _ x) [[-> ->]|[? ?]]%(insert_inv _ _ x) ? ? ?; try done; [|pose proof (H1 t1 x1); naive_solver lia|eauto].
    pose proof (H1 t2 x2). naive_solver lia.
  - by destruct (Hfree t' x').
  - destruct (decide (this_iter x' = nxt - 33)) as [E|]; [|pose proof (H4 t' x'); naive_solver lia].
    destruct (H5 t' x') as (t1 & x1 & ? & ? & ?); [done..|]. destruct (Hfree t1 x1); [done|lia].
  - exists t, y. rewrite (insert_self _ _ x) by done. split; [done|]. lia.
Qed.

(** *** Pointers *)

Lemma pend_other c thr t x y j : thr !! t = Some x ->
  pend c (<[t := y]> thr) j <-> (active y /\ this_iter y = j /\ at_ y < c) \/
    exists t' x', t' <> t /\ thr !! t' = Some x' /\ active x' /\ this_iter x' = j /\ at_ x' < c.
Proof.
  intros Hx. split.
  - intros (t' & x' & [[-> ->]|[? ?]]%(insert_inv _ _ x) & Hp); [by left|right|done]. by exists t', x'.
  - intros [Hp|(t' & x' & ? & ? & Hp)]; [exists t, y|exists t', x'].
    + by rewrite (insert_self _ _ x).
    + by rewrite (insert_other _ _ x).
Qed.

Lemma pend_same c thr t x y j : thr !! t = Some x ->
  ((active y /\ this_iter y = j /\ at_ y < c) <-> (active x /\ this_iter x = j /\ at_ x < c)) ->
  pend c (<[t := y]> thr) j <-> pend c thr j.
Proof. intros Hx E. rewrite <- (list_insert_id thr t x Hx) at 2. rewrite !(pend_other _ _ _ x) by done. by rewrite E. Qed.

Lemma data_keep c pl sq thr nxt t x y : data_inv c pl sq thr nxt -> thr !! t = Some x ->
  (forall j, (active y /\ this_iter y = j /\ at_ y < c) <-> (active x /\ this_iter x = j /\ at_ x < c)) ->
  data_inv c pl sq (<[t := y]> thr) nxt.
Proof.
  intros [Hl H] Hx E. split; [done|]. intros j Hj. rewrite !(pend_same _ _ _ x) by (done || apply E). by apply H.
Qed.

Lemma data_take c pl sq thr nxt t x y : data_inv c pl sq thr nxt -> thr !! t = Some x -> ~ active x -> active y -> at_ y < c -> this_iter y = nxt ->
  data_inv c pl sq (<[t := y]> thr) (nxt + 1).
Proof.
  intros [Hl H] Hx Ha Hy Hc Hi. split; [done|]. intros j Hj Hnp Hlast.
  assert (Hne : j <> nxt) by (intros ->; apply Hnp, (pend_other _ _ _ x); [done|by left]).
  assert (Hold : forall i, i <> nxt -> pend c (<[t := y]> thr) i <-> pend c thr i).
  { intros i Hi'. apply (pend_same _ _ _ x); [done|]. split; intros (? & ? & ?); [lia|done]. }
  apply H; [lia|by rewrite <- Hold|]. destruct (decide (j + 33 = nxt)); [left; lia|]. destruct Hlast as [|Hlast]; [left; lia|right]. by rewrite <- Hold.
Qed.

(** Iteration [it] stores the pointer of the next one. *)
Lemma data_set c pl sq thr nxt t x y p : data_inv c pl sq thr nxt -> iter_inv thr nxt -> thr !! t = Some x -> active x -> active y ->
  at_ x < c -> c <= at_ y -> this_iter y = this_iter x -> p = sq (this_iter x + 1) ->
  data_inv c (pl_set pl (this_iter x + 1) p) sq (<[t := y]> thr) nxt.
Proof.
  intros [Hl H] Hit Hx Ha Hy Hcx Hcy Hi ->. split; [unfold pl_set; by rewrite length_insert|]. intros j Hj Hnp Hlast.
  destruct (decide (j = this_iter x)) as [->|Hne]; [by apply pl_at_set|].
  pose proof (iter_window _ _ Hit t x Hx Ha) as Hwx. pose proof (iter_range _ _ Hit t x Hx ltac:(unfold busy, active in *; lia)) as Hrx.
  assert (Hold : forall i, pend c thr i -> i = this_iter x \/ pend c (<[t := y]> thr) i).
  { intros i (t' & x' & Hx' & Ha' & Hi' & Hc'). destruct (decide (t' = t)) as [->|]; [left; simplify_eq; congruence|right].
    exists t', x'. by rewrite (insert_other _ _ x). }
  assert (Hnew : forall i, pend c (<[t := y]> thr) i -> i <> this_iter x /\ pend c thr i).
  { intros i Hp. apply (pend_other _ _ _ x) in Hp; [|done]. destruct Hp as [(? & ? & ?)|(t' & x' & Ht & Hx' & Ha' & Hi' & Hc')]; [lia|].
    split; [|by exists t', x']. intros ->. apply Ht, (iter_distinct _ _ Hit t' t x' x); try done; unfold busy, active in *; lia. }
  assert (E : (j + 1) mod 33 <> (this_iter x + 1) mod 33).
  { intros E. pose proof (Z.div_mod (j + 1) 33 ltac:(lia)). pose proof (Z.div_mod (this_iter x + 1) 33 ltac:(lia)).
    destruct Hlast as [|Hlast]; [lia|]. destruct (Hnew _ Hlast) as [Hn33 (t' & x' & Hx' & Ha' & Hi' & _)].
    pose proof (iter_window _ _ Hit t' x' Hx' Ha'). lia. }
  unfold pl_set, pl_at, IOC_SIZE in *. rewrite list_lookup_insert_ne.
  - apply H; [done|intros Hp; destruct (Hold _ Hp); done|]. destruct Hlast as [|Hlast]; [by left|right]. by apply Hnew.
  - pose proof (Z.mod_pos_bound (j + 1) 33 ltac:(lia)). pose proof (Z.mod_pos_bound (this_iter x + 1) 33 ltac:(lia)). lia.
Qed.

(** *** What the locks guarantee *)

Section Guarantees.
Context (lk : lock -> option nat) (thr : list thread) (nxt : Z).
Context (Hlk : lock_inv lk thr) (Hit : iter_inv thr nxt).

Lemma lock_excl l t t' x x' : thr !! t = Some x -> thr !! t' = Some x' -> holds x l -> holds x' l -> t = t'.
Proof using Hlk.
  intros Hx Hx' Hh Hh'. assert (E : lk l = Some t) by (apply Hlk; eauto). assert (E' : lk l = Some t') by (apply Hlk; eauto). congruence.
Qed.

Lemma window_ready c t x : 4 < c -> thr !! t = Some x -> active x -> nxt <= this_iter x + 32 \/ pend c thr (this_iter x + 32).
Proof using Hit.
  intros Hc Hx Ha. pose proof (iter_window _ _ Hit t x Hx Ha). destruct (decide (this_iter x = nxt - 33)) as [E|]; [right|left; lia].
  destruct (iter_window' _ _ Hit t x Hx Ha E) as (t' & x' & Hx' & Hs & Hi'). exists t', x'. split; [done|]. unfold active. lia.
Qed.

Lemma in_ready t x : thr !! t = Some x -> 4 <= at_ x <= 15 -> ~ pend 9 thr (this_iter x - 1).
Proof using Hlk Hit.
  intros Hx Hs (t' & x' & Hx' & Ha' & Hi' & Hc'). unfold active in *. pose proof (iter_range _ _ Hit t x Hx ltac:(unfold busy; lia)).
  destruct (Z.le_gt_cases (at_ x') 6); [pose proof (iter_newest _ _ Hit t' x' Hx' ltac:(lia)); lia|].
  assert (t' = t); [|subst; simplify_eq; lia]. apply (lock_excl (in_slot (this_iter x)) t' t x' x); try done; unfold in_slot; cbn.
  - right. split; [lia|]. f_equal. lia.
  - left. split; [lia|done].
Qed.

Lemma out_ready t x : thr !! t = Some x -> 11 <= at_ x <= 12 -> ~ pend 14 thr (this_iter x - 1).
Proof using Hlk Hit.
  intros Hx Hs (t' & x' & Hx' & Ha' & Hi' & Hc'). unfold active in *. pose proof (iter_range _ _ Hit t x Hx ltac:(unfold busy; lia)).
  destruct (Z.le_gt_cases (at_ x') 6); [pose proof (iter_newest _ _ Hit t' x' Hx' ltac:(lia)); lia|].
  assert (t' = t); [|subst; simplify_eq; lia]. apply (lock_excl (out_slot (this_iter x)) t' t x' x); try done; unfold out_slot; cbn.
  - left. split; [lia|]. f_equal. lia.
  - right. split; [lia|done].
Qed.

(** The slot behind the newest iteration is free only when the iteration that is 32 older has left the chain. *)
Lemma oldest_gone t x : thr !! t = Some x -> at_ x = 4 -> lk (in_slot (this_iter x + 1)) = None ->
  forall t' x', thr !! t' = Some x' -> active x' -> this_iter x' <> nxt - 33.
Proof using Hlk Hit.
  intros Hx Hs Hfree t' x' Hx' Ha' E. pose proof (iter_newest _ _ Hit t x Hx ltac:(lia)) as Hn.
  destruct (decide (at_ x' = 3)) as [E3|]; [pose proof (iter_newest _ _ Hit t' x' Hx' ltac:(lia)); lia|].
  enough (lk (in_slot (this_iter x + 1)) = Some t') by congruence. apply Hlk. exists x'. split; [done|]. unfold in_slot, active in *. cbn. left.
  split; [lia|]. unfold IOC_SIZE. replace (this_iter x + 1) with (this_iter x' + 1 * 33) by lia. by rewrite Z_mod_plus_full.
Qed.
End Guarantees.

(** ** The invariant *)

Fixpoint sumZ {A} (f : A -> Z) (l : list A) : Z :=
  match l with [] => 0 | x :: l' => f x + sumZ f l' end.

Lemma sumZ_insert {A} (f : A -> Z) l t x y : l !! t = Some x -> sumZ f (<[t := y]> l) = sumZ f l - f x + f y.
Proof.
  revert t. induction l as [|z l IH]; intros [|t] Hx; try done; cbn in Hx; [simplify_eq; cbn; lia|].
  specialize (IH _ Hx). change (<[S t := y]> (z :: l)) with (z :: <[t := y]> l). cbn [sumZ]. lia.
Qed.

Lemma sumZ_perm {A} (f : A -> Z) l l' : l ≡ₚ l' -> sumZ f l = sumZ f l'.
Proof. induction 1; cbn; lia. Qed.

Lemma sumZ_app {A} (f : A -> Z) l l' : sumZ f (l ++ l') = sumZ f l + sumZ f l'.
Proof. induction l; cbn; lia. Qed.

(** Threads that will take an iteration. *)
Definition waiting (x : thread) : Z := if (1 <=? at_ x) && (at_ x <=? 2) then 1 else 0.

Lemma waiting_spec x : waiting x = if decide (1 <= at_ x <= 2) then 1 else 0.
Proof. unfold waiting. destruct (Z.leb_spec 1 (at_ x)), (Z.leb_spec (at_ x) 2); case_decide; cbn; lia. Qed.

Section Invariant.
Context (in_ptr_0 out_ptr_0 : Z) (consumed : Z -> Z) (produced : Z -> list Z) (count : Z -> Z).
Notation inS := (in_seq in_ptr_0 consumed).
Notation outS := (out_seq in_ptr_0 out_ptr_0 consumed produced).

(** The iterations of [l] have stored their output, the rest of the memory is as before. *)
Record written (mem0 mem : list Z) (l : list Z) : Prop := {
  written_len : zlen mem = zlen mem0;
  written_in : forall i r, i ∈ l -> 0 <= r < zlen (produced (inS i)) -> mem !! Z.to_nat (outS i + r) = produced (inS i) !! Z.to_nat r;
  written_out : forall k : nat, (forall i, i ∈ l -> ~ (outS i <= Z.of_nat k < outS (i + 1))) -> mem !! k = mem0 !! k }.

Record inv (m : Z) (mem0 : list Z) (s : state) : Prop := {
  inv_lock : lock_inv (locks s) (threads s);
  inv_iter : iter_inv (threads s) (next (chain s));
  inv_in : data_inv 9 (in_pl (chain s)) inS (threads s) (next (chain s));
  inv_out : data_inv 14 (out_pl (chain s)) outS (threads s) (next (chain s));
  inv_ptr : forall t x, threads s !! t = Some x -> (8 <= at_ x -> in_ptr x = inS (this_iter x)) /\ (12 <= at_ x -> out_ptr x = outS (this_iter x));
  inv_next : 0 <= next (chain s) /\ 0 <= left s;
  inv_total : next (chain s) + left s + sumZ waiting (threads s) = m;
  inv_nodup : NoDup (finished s);
  inv_log : forall i, i ∈ finished s <-> 0 <= i < next (chain s) /\ forall t x, threads s !! t = Some x -> busy x -> this_iter x <> i;
  inv_mem : written mem0 (out_mem s) (finished s);
  inv_cum : cum_count s = sumZ (fun i => count (inS i)) (finished s) }.

(** A thread without an iteration does not count for the log. *)
Lemma log_same (thr : list thread) t x y i : thr !! t = Some x -> (busy x <-> busy y) -> (busy y -> this_iter y = this_iter x) ->
  (forall t' x', <[t := y]> thr !! t' = Some x' -> busy x' -> this_iter x' <> i) <-> (forall t' x', thr !! t' = Some x' -> busy x' -> this_iter x' <> i).
Proof using Type.
  intros Hx Hb Hi. split; intros H t' x' Hx' Hb'.
  - destruct (decide (t' = t)) as [->|]; [|apply (H t' x'); [by rewrite (insert_other _ _ x)|done]].
    simplify_eq. rewrite <- Hi by (by apply Hb). apply (H t y); [by rewrite (insert_self _ _ x)|by apply Hb].
  - apply (insert_inv _ _ x) in Hx' as [[-> ->]|[? ?]]; [|eauto|done]. rewrite Hi by done. apply (H t x); [done|by apply Hb].
Qed.

(** A step within an iteration that leaves the chain alone. *)
Lemma chain_move m mem0 s t x y lk : inv m mem0 s -> threads s !! t = Some x -> active x -> at_ y = at_ x + 1 -> at_ x <> 8 -> at_ x <> 13 ->
  this_iter y = this_iter x -> (at_ x = 4 -> locks s (in_slot (this_iter x + 1)) = None) ->
  (8 <= at_ y -> in_ptr y = inS (this_iter x)) -> (12 <= at_ y -> out_ptr y = outS (this_iter x)) ->
  lock_inv lk (<[t := y]> (threads s)) -> inv m mem0 (set_threads (set_locks s lk) (<[t := y]> (threads s))).
Proof using Type.
  intros H Hx Ha Hs H8 H13 Hi Hw Hp Hq Hlk. destruct H. unfold active in *.
  split; cbn [chain locks threads left out_mem cum_count finished set_threads set_locks]; try done.
  - eapply iter_move; try done; unfold busy; try lia. intros H34. destruct (decide (at_ x = 3)); [left; lia|right].
    eapply oldest_gone; try done; [lia|apply Hw; lia].
  - eapply data_keep; [done|done|]. intros j. unfold active. rewrite Hi. lia.
  - eapply data_keep; [done|done|]. intros j. unfold active. rewrite Hi. lia.
  - intros t' x' [[-> ->]|[? ?]]%(insert_inv _ _ x); [rewrite Hi; auto|eauto|done].
  - rewrite (sumZ_insert _ _ _ x) by done. rewrite !waiting_spec, !decide_False by lia. lia.
  - intros i. rewrite inv_log0. apply and_iff_compat_l. symmetry. apply (log_same _ _ x); [done|unfold busy; lia|done].
Qed.

(** A thread between two iterations. *)
Lemma inv_idle m mem0 s t x y lk k : inv m mem0 s -> threads s !! t = Some x -> at_ x < 3 -> at_ y < 3 -> 0 <= left s - k ->
  waiting y - waiting x = k -> lock_inv lk (<[t := y]> (threads s)) ->
  inv m mem0 {| chain := chain s; locks := lk; threads := <[t := y]> (threads s); left := left s - k; out_mem := out_mem s; cum_count := cum_count s; finished := finished s |}.
Proof using Type.
  intros H Hx Ha Hb Hl Hw Hlk. destruct H. unfold active in *.
  split; cbn [chain locks threads left out_mem cum_count finished]; try done.
  - eapply iter_idle; try done. unfold active. lia.
  - eapply data_keep; [done|done|]. intros j. unfold active. lia.
  - eapply data_keep; [done|done|]. intros j. unfold active. lia.
  - intros t' x' [[-> ->]|[? ?]]%(insert_inv _ _ x); [lia|eauto|done].
  - lia.
  - rewrite (sumZ_insert _ _ _ x) by done. lia.
  - intros i. rewrite inv_log0. apply and_iff_compat_l. symmetry. apply (log_same _ _ x); [done|unfold busy; lia|unfold busy; lia].
Qed.

Lemma chain_take m mem0 s t x y : inv m mem0 s -> threads s !! t = Some x -> at_ x = 2 -> at_ y = 3 -> this_iter y = next (chain s) ->
  lock_inv (locks s) (<[t := y]> (threads s)) ->
  inv m mem0 (set_threads (set_chain s {| next := next (chain s) + 1; in_pl := in_pl (chain s); out_pl := out_pl (chain s) |}) (<[t := y]> (threads s))).
Proof using Type.
  intros H Hx Ha Hb Hi Hlk. destruct H. unfold active in *.
  split; cbn [chain locks threads left out_mem cum_count finished set_threads set_chain next in_pl out_pl]; try done.
  - eapply iter_take; try done; try lia. intros t' x' Hx' Hs.
    assert (t' = t); [|subst; simplify_eq; lia]. eapply (lock_excl _ _ inv_lock0 NextLock); try done; cbn; lia.
  - eapply data_take; try done; unfold active; lia.
  - eapply data_take; try done; unfold active; lia.
  - intros t' x' [[-> ->]|[? ?]]%(insert_inv _ _ x); [lia|eauto|done].
  - lia.
  - rewrite (sumZ_insert _ _ _ x) by done. rewrite !waiting_spec, (decide_False (P := 1 <= at_ y <= 2)), decide_True by lia. lia.
  - intros i. rewrite inv_log0. split.
    + intros [Hr Hno]. split; [lia|]. intros t' x' [[-> ->]|[? ?]]%(insert_inv _ _ x) Hb'; [lia|eauto|done].
    + intros [Hr Hno]. assert (i <> next (chain s)).
      { intros ->. apply (Hno t y); [by rewrite (insert_self _ _ x)|unfold busy; lia|done]. }
      split; [lia|]. intros t' x' Hx' Hb'. destruct (decide (t' = t)) as [->|]; [simplify_eq; unfold busy in *; lia|].
      apply (Hno t' x'); [by rewrite (insert_other _ _ x)|done].
Qed.

Lemma inv_set_in m mem0 s t x y : inv m mem0 s -> threads s !! t = Some x -> at_ x = 8 -> at_ y = 9 -> this_iter y = this_iter x -> in_ptr y = in_ptr x ->
  lock_inv (locks s) (<[t := y]> (threads s)) ->
  inv m mem0 (set_threads (set_chain s (ioc_set_next_in (chain s) (this_iter x) (in_ptr x + consumed (in_ptr x)))) (<[t := y]> (threads s))).
Proof using Type.
  intros H Hx Ha Hb Hi Hp Hlk. destruct H. pose proof (iter_range _ _ inv_iter0 t x Hx ltac:(unfold busy; lia)) as Hr.
  destruct (inv_ptr0 t x Hx) as [Hin _].
  split; cbn [chain locks threads left out_mem cum_count finished set_threads set_chain ioc_set_next_in next in_pl out_pl]; try done.
  - eapply iter_move; try done; unfold busy, active; lia.
  - eapply data_set; try done; unfold active; try lia. rewrite Hin by lia. by rewrite in_seq_S by lia.
  - eapply data_keep; [done|done|]. intros j. unfold active. rewrite Hi. lia.
  - intros t' x' [[-> ->]|[? ?]]%(insert_inv _ _ x); [|eauto|done]. rewrite Hi, Hp. split; [intros; apply Hin; lia|lia].
  - rewrite (sumZ_insert _ _ _ x) by done. rewrite !waiting_spec, !decide_False by lia. lia.
  - intros i. rewrite inv_log0. apply and_iff_compat_l. symmetry. apply (log_same _ _ x); [done|unfold busy; lia|done].
Qed.

Lemma inv_set_out m mem0 s t x y : inv m mem0 s -> threads s !! t = Some x -> at_ x = 13 -> at_ y = 14 -> this_iter y = this_iter x ->
  in_ptr y = in_ptr x -> out_ptr y = out_ptr x -> lock_inv (locks s) (<[t := y]> (threads s)) ->
  inv m mem0 (set_threads (set_chain s (ioc_set_next_out (chain s) (this_iter x) (out_ptr x + zlen (produced (in_ptr x))))) (<[t := y]> (threads s))).
Proof using Type.
  intros H Hx Ha Hb Hi Hp Hq Hlk. destruct H. pose proof (iter_range _ _ inv_iter0 t x Hx ltac:(unfold busy; lia)) as Hr.
  destruct (inv_ptr0 t x Hx) as [Hin Hout].
  split; cbn [chain locks threads left out_mem cum_count finished set_threads set_chain ioc_set_next_out next in_pl out_pl]; try done.
  - eapply iter_move; try done; unfold busy, active; lia.
  - eapply data_keep; [done|done|]. intros j. unfold active. rewrite Hi. lia.
  - eapply data_set; try done; unfold active; try lia. rewrite Hin, Hout by lia. by rewrite out_seq_S by lia.
  - intros t' x' [[-> ->]|[? ?]]%(insert_inv _ _ x); [|eauto|done]. rewrite Hi, Hp, Hq. split; intros; [apply Hin|apply Hout]; lia.
  - rewrite (sumZ_insert _ _ _ x) by done. rewrite !waiting_spec, !decide_False by lia. lia.
  - intros i. rewrite inv_log0. apply and_iff_compat_l. symmetry. apply (log_same _ _ x); [done|unfold busy; lia|done].
Qed.

(** The output of an iteration. *)
Lemma written_more mem0 mem l i : written mem0 mem l -> 0 <= out_ptr_0 -> 0 <= i -> outS (i + 1) <= zlen mem0 -> i ∉ l -> (forall j, j ∈ l -> 0 <= j) ->
  exists mem', mem_write mem (outS i) (produced (inS i)) = Ret mem' /\ written mem0 mem' (i :: l).
Proof using Type.
  intros [Hl Hin Hout] H0 Hi Hz Hni Hpos. rewrite out_seq_S in Hz by done. pose proof (out_seq_mono in_ptr_0 out_ptr_0 consumed produced 0 i ltac:(lia)) as Hm0.
  change (outS 0) with out_ptr_0 in Hm0. pose proof (zlen_nonneg (produced (inS i))) as Hp0.
  destruct (mem_write mem (outS i) (produced (inS i))) as [mem'|?|?] eqn:W; [|rewrite mem_write_ret in W by lia; done..].
  exists mem'. split; [done|]. split.
  - by rewrite (mem_write_zlen _ _ _ _ W).
  - intros j r [->|Hj]%elem_of_cons Hr.
    + rewrite (mem_write_lookup _ _ _ _ _ W), decide_True by lia. f_equal. lia.
    + specialize (Hpos j Hj). pose proof (out_seq_mono in_ptr_0 out_ptr_0 consumed produced 0 j ltac:(lia)) as Hmj. change (outS 0) with out_ptr_0 in Hmj.
      rewrite (mem_write_lookup _ _ _ _ _ W), decide_False; [by apply Hin|].
      pose proof (out_seq_S in_ptr_0 out_ptr_0 consumed produced j Hpos). assert (j <> i) by (intros ->; done).
      destruct (Z.lt_ge_cases j i).
      * pose proof (out_seq_mono in_ptr_0 out_ptr_0 consumed produced (j + 1) i ltac:(lia)). lia.
      * pose proof (out_seq_mono in_ptr_0 out_ptr_0 consumed produced (i + 1) j ltac:(lia)). rewrite out_seq_S in * by lia. lia.
  - intros k Hk. assert (Hki : ~ (outS i <= Z.of_nat k < outS (i + 1))) by (apply Hk; by left). rewrite out_seq_S in Hki by done.
    rewrite (mem_write_lookup _ _ _ _ _ W), decide_False by lia. apply Hout. intros j Hj. apply Hk. by right.
Qed.

Lemma inv_work m mem0 s t x y : inv m mem0 s -> 0 <= out_ptr_0 -> outS m <= zlen mem0 -> threads s !! t = Some x -> at_ x = 16 -> at_ y = 0 ->
  lock_inv (locks s) (<[t := y]> (threads s)) ->
  exists mem', mem_write (out_mem s) (out_ptr x) (produced (in_ptr x)) = Ret mem' /\
  inv m mem0 {| chain := chain s; locks := locks s; threads := <[t := y]> (threads s); left := left s; out_mem := mem';
                cum_count := cum_count s + count (in_ptr x); finished := this_iter x :: finished s |}.
Proof using Type.
  intros H H0 Hz Hx Ha Hb Hlk. destruct H. pose proof (iter_range _ _ inv_iter0 t x Hx ltac:(unfold busy; lia)) as Hr.
  destruct (inv_ptr0 t x Hx) as [Hin Hout]. rewrite Hin, Hout by lia.
  assert (Hm : next (chain s) <= m).
  { assert (0 <= sumZ waiting (threads s)); [|lia]. clear. induction (threads s) as [|z l IH]; cbn; [lia|]. rewrite waiting_spec. case_decide; lia. }
  assert (Hni : this_iter x ∉ finished s). { rewrite inv_log0. intros [_ Hno]. apply (Hno t x); [done|unfold busy; lia|done]. }
  destruct (written_more mem0 (out_mem s) (finished s) (this_iter x)) as (mem' & E & Hwr); try done; [lia| |intros j Hj; apply inv_log0 in Hj; lia|].
  { pose proof (out_seq_mono in_ptr_0 out_ptr_0 consumed produced (this_iter x + 1) m ltac:(lia)). lia. }
  exists mem'. split; [done|].
  split; cbn [chain locks threads left out_mem cum_count finished]; try done.
  - eapply iter_idle; try done; unfold active; lia.
  - eapply data_keep; [done|done|]. intros j. unfold active. lia.
  - eapply data_keep; [done|done|]. intros j. unfold active. lia.
  - intros t' x' [[-> ->]|[? ?]]%(insert_inv _ _ x); [lia|eauto|done].
  - rewrite (sumZ_insert _ _ _ x) by done. rewrite !waiting_spec, !decide_False by lia. lia.
  - by apply list.NoDup_cons.
  - intros i. rewrite elem_of_cons, inv_log0. split.
    + intros [->|[Hi Hno]].
      * split; [done|]. intros t' x' [[-> ->]|[Hx' Ht]]%(insert_inv _ _ x) Hb' E'; [unfold busy in *; lia| |done].
        apply Ht, (iter_distinct _ _ inv_iter0 t' t x' x); try done. unfold busy. lia.
      * split; [done|]. intros t' x' [[-> ->]|[? ?]]%(insert_inv _ _ x) Hb'; [unfold busy in *; lia|eauto|done].
    + intros [Hi Hno]. destruct (decide (i = this_iter x)); [by left|right]. split; [done|]. intros t' x' Hx' Hb'.
      destruct (decide (t' = t)) as [->|]; [simplify_eq; done|]. apply (Hno t' x'); [by rewrite (insert_other _ _ x)|done].
  - cbn [sumZ]. rewrite inv_cum0. lia.
Qed.
End Invariant.

(** ** Every step *)

Definition remaining (x : thread) : Z := if at_ x =? 0 then 0 else 17 - at_ x.
Definition measure (s : state) : Z := 17 * left s + sumZ remaining (threads s).

(** The lock that a thread asks for. *)
Definition wants (x : thread) : option lock :=
  match stage_of x with
  | WantNext => Some NextLock
  | LockIn => Some (in_slot (this_iter x))
  | LockIn1 => Some (in_slot (this_iter x + 1))
  | LockOut1 => Some (out_slot (this_iter x + 1))
  | LockOut => Some (out_slot (this_iter x))
  | _ => None
  end.

Lemma slots_differ it : it mod IOC_SIZE <> (it + 1) mod IOC_SIZE.
Proof. unfold IOC_SIZE. intros E. pose proof (Z.div_mod it 33 ltac:(lia)). pose proof (Z.div_mod (it + 1) 33 ltac:(lia)). lia. Qed.

Definition kind (l : lock) : Z := match l with NextLock => 0 | InLock _ => 1 | OutLock _ => 2 end.
Definition index (l : lock) : Z := match l with NextLock => 0 | InLock k | OutLock k => k end.

Lemma lock_eq l l' : l = l' <-> kind l = kind l' /\ index l = index l'.
Proof. split; [by intros ->|]. destruct l, l'; cbn; intros [? ?]; congruence || lia. Qed.

(** The thread at another place of the same iteration. *)
Definition mk (st : stage) (x : thread) (p q : Z) : thread := {| stage_of := st; this_iter := this_iter x; in_ptr := p; out_ptr := q |}.

(** The locks that a thread holds at two places, compared. *)
Ltac holds_tac x Hat :=
  let l := fresh "l" in
  intros l; pose proof (slots_differ (this_iter x)); unfold at_ in Hat; destruct l as [|?k|?k];
  unfold mk, holds, at_, in_slot, out_slot; cbn [stage_of this_iter ord]; rewrite Hat, ?lock_eq; cbn [kind index]; lia.

Lemma sum_waiting_nonneg thr : 0 <= sumZ waiting thr.
Proof. induction thr as [|x thr IH]; cbn [sumZ]; [lia|]. unfold waiting at 1. case_match; lia. Qed.

Section Steps.
Context (in_ptr_0 out_ptr_0 : Z) (consumed : Z -> Z) (produced : Z -> list Z) (count : Z -> Z) (fails : Z -> bool).
Context (m : Z) (mem0 : list Z).
(** None of the blocks fails. *)
Context (Hok : forall j, 0 <= j < m -> fails (in_seq in_ptr_0 consumed j) = false).
Context (Hout0 : 0 <= out_ptr_0) (Hfit : out_seq in_ptr_0 out_ptr_0 consumed produced m <= zlen mem0).
Notation thread_step := (thread_step consumed produced count fails).
Notation inv := (inv in_ptr_0 out_ptr_0 consumed produced count m mem0).

(** A step that succeeded. *)
Definition good_step (s : state) (t : nat) (x : thread) : Prop :=
  exists s' y, thread_step s t = Ret (Some s') /\ inv s' /\ measure s' = measure s - 1 /\ threads s' = <[t := y]> (threads s).

Definition blocked (s : state) (x : thread) : Prop := exists l t', wants x = Some l /\ locks s l = Some t'.

Lemma measure_move s t x y lk : threads s !! t = Some x -> 1 <= at_ x -> at_ y = at_ x + 1 ->
  measure (set_threads (set_locks s lk) (<[t := y]> (threads s))) = measure s - 1.
Proof using Type.
  intros Hx Ha Hy. unfold measure. cbn. rewrite (sumZ_insert _ _ _ x) by done. unfold remaining.
  destruct (Z.eqb_spec (at_ x) 0), (Z.eqb_spec (at_ y) 0); lia.
Qed.

Definition stays (s : state) (t : nat) (x : thread) : Prop :=
  thread_step s t = Ret None /\ ((stage_of x = Start /\ left s = 0) \/ blocked s x).

Lemma acquire_step s t x y l : inv s -> threads s !! t = Some x -> active x -> at_ y = at_ x + 1 -> at_ x <> 8 -> at_ x <> 13 ->
  this_iter y = this_iter x -> (at_ x = 4 -> l = in_slot (this_iter x + 1)) ->
  (8 <= at_ y -> in_ptr y = in_ptr x /\ 8 <= at_ x) -> at_ y < 12 ->
  (forall l', holds y l' <-> holds x l' \/ l' = l) -> wants x = Some l ->
  thread_step s t = omp_set_lock s t l (fun s => set_threads s (<[t := y]> (threads s))) -> good_step s t x \/ stays s t x.
Proof using Type.
  intros H Hx Ha Hy H8 H13 Hi H4 Hp Hq Hh Hw E. unfold omp_set_lock in E. destruct (locks s l) as [t'|] eqn:El.
  { right. split; [done|]. right. by exists l, t'. }
  left. exists (set_threads (set_locks s (<[l := Some t]> (locks s))) (<[t := y]> (threads s))), y. split; [done|].
  split; [|split; [apply (measure_move _ _ x); [done|unfold active in *; lia|done]|done]].
  destruct (inv_ptr _ _ _ _ _ _ _ _ H t x Hx) as [Hpx Hqx].
  apply (chain_move _ _ _ _ _ _ _ _ _ x); try done; [intros E4; by rewrite <- (H4 E4)| |lia|].
  - intros H8'. destruct (Hp H8') as [-> ?]. by apply Hpx.
  - apply (lock_acquire _ _ _ x); try done. apply H.
Qed.

Lemma release_step s t x y l : inv s -> threads s !! t = Some x -> active x -> at_ y = at_ x + 1 -> at_ x <> 8 -> at_ x <> 13 -> at_ x <> 4 ->
  this_iter y = this_iter x -> (8 <= at_ y -> in_ptr y = in_ptr x /\ 8 <= at_ x) -> (12 <= at_ y -> out_ptr y = out_ptr x /\ 12 <= at_ x) ->
  holds x l -> (forall l', holds y l' <-> holds x l' /\ l' <> l) ->
  thread_step s t = omp_unset_lock s t l (fun s => set_threads s (<[t := y]> (threads s))) -> good_step s t x.
Proof using Type.
  intros H Hx Ha Hy H8 H13 H4 Hi Hp Hq Hl Hh E. unfold omp_unset_lock in E.
  assert (El : locks s l = Some t) by (apply (inv_lock _ _ _ _ _ _ _ _ H); eauto). rewrite bool_decide_true in E by done.
  exists (set_threads (set_locks s (<[l := None]> (locks s))) (<[t := y]> (threads s))), y. split; [done|].
  split; [|split; [apply (measure_move _ _ x); [done|unfold active in *; lia|done]|done]].
  destruct (inv_ptr _ _ _ _ _ _ _ _ H t x Hx) as [Hpx Hqx].
  apply (chain_move _ _ _ _ _ _ _ _ _ x); try done.
  - intros H8'. destruct (Hp H8') as [-> ?]. by apply Hpx.
  - intros H12. destruct (Hq H12) as [-> ?]. by apply Hqx.
  - apply (lock_release _ _ _ x); try done. apply H.
Qed.

(** A step of the thread that changes no lock. *)
Lemma keep_locks s t x y : inv s -> threads s !! t = Some x -> (forall l, holds y l <-> holds x l) -> lock_inv (locks s) (<[t := y]> (threads s)).
Proof using Type. intros H Hx Hh. apply (lock_keep _ _ _ x); [apply H|done|done]. Qed.

Ltac by_place x Hst Hat :=
  unfold active; first [done|holds_tac x Hat|unfold wants; by rewrite Hst|
    unfold mk, holds, in_slot, out_slot, at_ in *; cbn [stage_of this_iter in_ptr out_ptr ord]; rewrite ?Hat; done || lia || (split; done || lia)].

Ltac sum_tac x Hst := unfold measure; cbn [left threads set_threads set_locks set_chain goto];
  rewrite (sumZ_insert _ _ _ x) by done; unfold remaining, at_, mk; cbn [stage_of ord]; rewrite Hst; cbn [ord Z.eqb]; lia.

Lemma start_step s t x : inv s -> threads s !! t = Some x -> stage_of x = Start -> left s <> 0 -> good_step s t x.
Proof using Type.
  intros H Hx Hst Hl. assert (Hat : at_ x = 0) by (unfold at_; by rewrite Hst).
  set (y := {| stage_of := WantNext; this_iter := 0; in_ptr := 0; out_ptr := 0 |}).
  eexists _, y. split; [unfold IoChain.thread_step; rewrite Hx, Hst, (proj2 (Z.eqb_neq _ _) Hl); reflexivity|].
  split; [|split; [sum_tac x Hst|done]].
  pose proof (inv_next _ _ _ _ _ _ _ _ H) as [_ Hleft].
  refine (inv_idle _ _ _ _ _ _ _ s t x y (locks s) 1 _ _ _ _ _ _ _); try done; try lia; [|].
  - rewrite !waiting_spec, decide_True, decide_False by (unfold at_; rewrite ?Hst; cbn; lia). lia.
  - apply (keep_locks _ _ x); [done|done|]. unfold y. holds_tac x Hat.
Qed.

Lemma want_step s t x : inv s -> threads s !! t = Some x -> stage_of x = WantNext -> good_step s t x \/ stays s t x.
Proof using Type.
  intros H Hx Hst. assert (Hat : at_ x = 1) by (unfold at_; by rewrite Hst).
  set (y := {| stage_of := Take; this_iter := 0; in_ptr := 0; out_ptr := 0 |}).
  assert (E : thread_step s t = omp_set_lock s t NextLock (fun s => goto s t Take 0 0 0)) by (unfold IoChain.thread_step; by rewrite Hx, Hst).
  unfold omp_set_lock in E. destruct (locks s NextLock) as [t'|] eqn:El.
  { right. split; [done|]. right. exists NextLock, t'. unfold wants. by rewrite Hst. }
  left. eexists _, y. split; [exact E|]. split; [|split; [sum_tac x Hst|done]].
  pose proof (inv_next _ _ _ _ _ _ _ _ H) as [_ Hleft].
  assert (Hi : inv {| chain := chain s; locks := <[NextLock := Some t]> (locks s); threads := <[t := y]> (threads s); left := left s - 0;
    out_mem := out_mem s; cum_count := cum_count s; finished := finished s |}); [|rewrite Z.sub_0_r in Hi; exact Hi].
  apply (inv_idle _ _ _ _ _ _ _ _ _ x); try done; try lia; [|].
  - rewrite !waiting_spec, !decide_True by (unfold at_; rewrite ?Hst; cbn; lia). lia.
  - apply (lock_acquire _ _ _ x); [apply H|done|done|]. unfold y. holds_tac x Hat.
Qed.

Lemma take_step s t x : inv s -> threads s !! t = Some x -> stage_of x = Take -> good_step s t x.
Proof using Type.
  intros H Hx Hst. assert (Hat : at_ x = 2) by (unfold at_; by rewrite Hst).
  set (y := {| stage_of := LockIn; this_iter := next (chain s); in_ptr := 0; out_ptr := 0 |}).
  eexists _, y. split; [unfold IoChain.thread_step; rewrite Hx, Hst; reflexivity|]. split; [|split; [sum_tac x Hst|done]].
  apply (chain_take _ _ _ _ _ _ _ s t x y); try done. apply (keep_locks _ _ x); [done|done|]. unfold y. holds_tac x Hat.
Qed.

(** Reading a pointer. *)
Lemma read_in_step s t x : inv s -> threads s !! t = Some x -> stage_of x = ReadIn -> good_step s t x.
Proof using Type.
  intros H Hx Hst. assert (Hat : at_ x = 7) by (unfold at_; by rewrite Hst). assert (Ha : active x) by (unfold active; lia).
  pose proof (iter_range _ _ (inv_iter _ _ _ _ _ _ _ _ H) t x Hx ltac:(unfold busy; lia)) as Hr.
  assert (Hp : pl_at (in_pl (chain s)) (this_iter x) = Ret (in_seq in_ptr_0 consumed (this_iter x))).
  { destruct (inv_in _ _ _ _ _ _ _ _ H) as [_ Hd]. specialize (Hd (this_iter x - 1)). replace (this_iter x - 1 + 1) with (this_iter x) in Hd by lia.
    replace (this_iter x - 1 + 33) with (this_iter x + 32) in Hd by lia.
    apply Hd; [lia|apply (in_ready _ _ _ (inv_lock _ _ _ _ _ _ _ _ H) (inv_iter _ _ _ _ _ _ _ _ H) t x); [done|lia]|
      apply (window_ready _ _ (inv_iter _ _ _ _ _ _ _ _ H) 9 t x); [lia|done|done]]. }
  set (y := mk SetIn x (in_seq in_ptr_0 consumed (this_iter x)) 0).
  eexists _, y. split; [unfold IoChain.thread_step; rewrite Hx, Hst; cbn zeta; rewrite Hp; reflexivity|]. split; [|split; [sum_tac x Hst|done]].
  assert (Hy : at_ y = 8) by done. apply (chain_move _ _ _ _ _ _ _ s t x y (locks s)); try done; try lia.
  apply (keep_locks _ _ x); [done|done|]. unfold y. holds_tac x Hat.
Qed.

Lemma read_out_step s t x : inv s -> threads s !! t = Some x -> stage_of x = ReadOut -> good_step s t x.
Proof using Type.
  intros H Hx Hst. assert (Hat : at_ x = 11) by (unfold at_; by rewrite Hst). assert (Ha : active x) by (unfold active; lia).
  pose proof (iter_range _ _ (inv_iter _ _ _ _ _ _ _ _ H) t x Hx ltac:(unfold busy; lia)) as Hr.
  destruct (inv_ptr _ _ _ _ _ _ _ _ H t x Hx) as [Hpx _].
  assert (Hq : pl_at (out_pl (chain s)) (this_iter x) = Ret (out_seq in_ptr_0 out_ptr_0 consumed produced (this_iter x))).
  { destruct (inv_out _ _ _ _ _ _ _ _ H) as [_ Hd]. specialize (Hd (this_iter x - 1)). replace (this_iter x - 1 + 1) with (this_iter x) in Hd by lia.
    replace (this_iter x - 1 + 33) with (this_iter x + 32) in Hd by lia.
    apply Hd; [lia|apply (out_ready _ _ _ (inv_lock _ _ _ _ _ _ _ _ H) (inv_iter _ _ _ _ _ _ _ _ H) t x); [done|lia]|
      apply (window_ready _ _ (inv_iter _ _ _ _ _ _ _ _ H) 14 t x); [lia|done|done]]. }
  set (y := mk UnsetOut x (in_ptr x) (out_seq in_ptr_0 out_ptr_0 consumed produced (this_iter x))).
  eexists _, y. split; [unfold IoChain.thread_step; rewrite Hx, Hst; cbn zeta; rewrite Hq; reflexivity|]. split; [|split; [sum_tac x Hst|done]].
  assert (Hy : at_ y = 12) by done. apply (chain_move _ _ _ _ _ _ _ s t x y (locks s)); try done; try lia; [intros _; apply Hpx; lia|].
  apply (keep_locks _ _ x); [done|done|]. unfold y. holds_tac x Hat.
Qed.

Lemma set_in_step s t x : inv s -> threads s !! t = Some x -> stage_of x = SetIn -> good_step s t x.
Proof using Type.
  intros H Hx Hst. assert (Hat : at_ x = 8) by (unfold at_; by rewrite Hst). set (y := mk UnsetIn1 x (in_ptr x) 0).
  eexists _, y. split; [unfold IoChain.thread_step; rewrite Hx, Hst; reflexivity|]. split; [|split; [sum_tac x Hst|done]].
  apply (inv_set_in _ _ _ _ _ _ _ s t x y); try done. apply (keep_locks _ _ x); [done|done|]. unfold y. holds_tac x Hat.
Qed.

Lemma set_out_step s t x : inv s -> threads s !! t = Some x -> stage_of x = SetOut -> good_step s t x.
Proof using Type.
  intros H Hx Hst. assert (Hat : at_ x = 13) by (unfold at_; by rewrite Hst). set (y := mk UnsetOut1 x (in_ptr x) (out_ptr x)).
  eexists _, y. split; [unfold IoChain.thread_step; rewrite Hx, Hst; reflexivity|]. split; [|split; [sum_tac x Hst|done]].
  apply (inv_set_out _ _ _ _ _ _ _ s t x y); try done. apply (keep_locks _ _ x); [done|done|]. unfold y. holds_tac x Hat.
Qed.

Lemma work_step s t x : inv s -> threads s !! t = Some x -> stage_of x = Work -> good_step s t x.
Proof using Hout0 Hfit.
  intros H Hx Hst. assert (Hat : at_ x = 16) by (unfold at_; by rewrite Hst).
  set (y := {| stage_of := Start; this_iter := 0; in_ptr := 0; out_ptr := 0 |}).
  destruct (inv_work in_ptr_0 out_ptr_0 consumed produced count m mem0 s t x y) as (mem' & W & Hi); try done.
  { apply (keep_locks _ _ x); [done|done|]. unfold y. holds_tac x Hat. }
  eexists _, y. split; [unfold IoChain.thread_step; rewrite Hx, Hst; cbn zeta; rewrite W; reflexivity|]. split; [exact Hi|split; [sum_tac x Hst|done]].
Qed.

Lemma step_cases s t x : inv s -> threads s !! t = Some x -> good_step s t x \/ stays s t x.
Proof using Hok Hout0 Hfit.
  intros H Hx. destruct (inv_ptr _ _ _ _ _ _ _ _ H t x Hx) as [Hpx Hqx].
  assert (E : thread_step s t = thread_step s t) by done. unfold IoChain.thread_step at 2 in E. rewrite Hx in E.
  destruct (stage_of x) eqn:Hst; assert (Hat : at_ x = ord (stage_of x)) by done; rewrite Hst in Hat; cbn [ord] in Hat.
  - destruct (decide (left s = 0)) as [El|]; [right|left; by apply start_step].
    rewrite (proj2 (Z.eqb_eq _ _) El) in E. split; [done|]. by left.
  - by apply want_step.
  - left. by apply take_step.
  - eapply (acquire_step _ _ _ (mk LockIn1 x 0 0) (in_slot (this_iter x))); try by_place x Hst Hat.
  - eapply (acquire_step _ _ _ (mk LockOut1 x 0 0) (in_slot (this_iter x + 1))); try by_place x Hst Hat.
  - eapply (acquire_step _ _ _ (mk UnsetNext x 0 0) (out_slot (this_iter x + 1))); try by_place x Hst Hat.
  - left. eapply (release_step _ _ _ (mk ReadIn x 0 0) NextLock); try by_place x Hst Hat.
  - left. by apply read_in_step.
  - left. by apply set_in_step.
  - left. eapply (release_step _ _ _ (mk LockOut x (in_ptr x) 0) (in_slot (this_iter x + 1))); try by_place x Hst Hat.
  - assert (Hno : fails (in_ptr x) = false).
    { rewrite Hpx by lia. apply Hok. pose proof (iter_range _ _ (inv_iter _ _ _ _ _ _ _ _ H) t x Hx ltac:(unfold busy; lia)).
      pose proof (inv_total _ _ _ _ _ _ _ _ H). pose proof (inv_next _ _ _ _ _ _ _ _ H). pose proof (sum_waiting_nonneg (threads s)). lia. }
    rewrite Hno in E.
    eapply (acquire_step _ _ _ (mk ReadOut x (in_ptr x) 0) (out_slot (this_iter x))); try by_place x Hst Hat.
  - left. by apply read_out_step.
  - left. eapply (release_step _ _ _ (mk SetOut x (in_ptr x) (out_ptr x)) (out_slot (this_iter x))); try by_place x Hst Hat.
  - left. by apply set_out_step.
  - left. eapply (release_step _ _ _ (mk UnsetIn x (in_ptr x) (out_ptr x)) (out_slot (this_iter x + 1))); try by_place x Hst Hat.
  - left. eapply (release_step _ _ _ (mk Work x (in_ptr x) (out_ptr x)) (in_slot (this_iter x))); try by_place x Hst Hat.
  - left. by apply work_step.
Qed.

(** ** No deadlock *)

#[local] Instance active_dec x : Decision (active x).
Proof using Type. unfold active. apply _. Defined.

(** The oldest iteration that has not left the chain. *)
Lemma oldest_active (thr : list thread) t x : thr !! t = Some x -> active x ->
  exists t' x', thr !! t' = Some x' /\ active x' /\ forall t1 x1, thr !! t1 = Some x1 -> active x1 -> 0 <= this_iter x1 -> this_iter x' <= this_iter x1.
Proof using Type.
  remember (Z.to_nat (this_iter x)) as n eqn:En. revert t x En. induction (lt_wf n) as [n _ IH]. intros t x En Hx Ha.
  destruct (decide (Exists (fun x1 => active x1 /\ 0 <= this_iter x1 < this_iter x) thr)) as [Hex|Hno].
  - apply list.Exists_exists in Hex as (x1 & Hin & Ha1 & Hlt). apply list_elem_of_lookup in Hin as (t1 & Hx1).
    apply (IH (Z.to_nat (this_iter x1)) ltac:(lia) t1 x1); done.
  - exists t, x. split_and!; try apply Ha; [done|]. intros t1 x1 Hx1 Ha1 Hr. apply Z.nlt_ge. intros Hlt. apply Hno, list.Exists_exists.
    exists x1. split; [by eapply list_elem_of_lookup_2|]. done.
Qed.

(** It is never blocked. *)
Lemma oldest_runs s t x : inv s -> threads s !! t = Some x -> active x ->
  (forall t1 x1, threads s !! t1 = Some x1 -> active x1 -> 0 <= this_iter x1 -> this_iter x <= this_iter x1) -> ~ blocked s x.
Proof using Type.
  intros H Hx Ha Hold (l & t' & Hw & Hl). apply (inv_lock _ _ _ _ _ _ _ _ H) in Hl as (z & Hz & Hh).
  pose proof (inv_iter _ _ _ _ _ _ _ _ H) as Hit. set (nxt := next (chain s)) in *.
  pose proof (iter_window _ _ Hit t x Hx Ha) as Hwx. pose proof (slots_differ (this_iter x)) as Hd.
  assert (Hsame : busy z -> this_iter z = this_iter x -> z = x).
  { intros Hbz E. assert (t' = t); [|subst; congruence]. apply (iter_distinct _ _ Hit t' t z x); try done. unfold busy, active in *. lia. }
  assert (Hage : active z -> this_iter x <= this_iter z < nxt).
  { intros Haz. assert (Hb : busy z) by (unfold busy, active in *; lia). pose proof (iter_range _ _ Hit t' z Hz Hb). split; [|lia]. apply (Hold t' z); [done|done|lia]. }
  unfold wants, active, busy in *.
  destruct (stage_of x) eqn:Hst; try done; assert (Hat : at_ x = ord (stage_of x)) by done; rewrite Hst in Hat; cbn [ord] in Hat; injection Hw as <-;
    unfold in_slot, out_slot in Hh; cbn [holds] in Hh; try lia.
  - pose proof (iter_newest _ _ Hit t x Hx ltac:(lia)). rewrite (Hsame ltac:(lia) ltac:(lia)) in Hh. lia.
  - pose proof (iter_newest _ _ Hit t x Hx ltac:(lia)). rewrite (Hsame ltac:(lia) ltac:(lia)) in Hh. lia.
  - pose proof (iter_newest _ _ Hit t x Hx ltac:(lia)). rewrite (Hsame ltac:(lia) ltac:(lia)) in Hh. lia.
  - specialize (Hage ltac:(lia)). unfold IOC_SIZE in *. pose proof (Z.div_mod (this_iter z) 33 ltac:(lia)).
    pose proof (Z.div_mod (this_iter z + 1) 33 ltac:(lia)). pose proof (Z.div_mod (this_iter x) 33 ltac:(lia)).
    destruct Hh as [[Hs E]|[Hs E]]; [|rewrite (Hsame ltac:(lia) ltac:(lia)) in Hs; lia].
    assert (this_iter z = this_iter x + 32) by lia.
    destruct (iter_window' _ _ Hit t x Hx ltac:(unfold active; lia) ltac:(lia)) as (t1 & x1 & Hx1 & Hs1 & Hi1).
    assert (t1 = t') by (apply (iter_distinct _ _ Hit t1 t' x1 z); try done; unfold busy; lia). subst. simplify_eq. lia.
Qed.

(** Some thread can go on, or all iterations are done. *)
Lemma progress s : inv s -> threads s <> [] ->
  (exists t s', thread_step s t = Ret (Some s')) \/ (left s = 0 /\ forall t x, threads s !! t = Some x -> stage_of x = Start).
Proof using Hok Hout0 Hfit.
  intros H Hne.
  destruct (decide (Exists (fun x => stage_of x <> Start) (threads s))) as [Hex|Hall].
  - left. assert (Hgo : forall t x, threads s !! t = Some x -> stage_of x <> Start -> ~ blocked s x -> exists t s', thread_step s t = Ret (Some s')).
    { intros t x Hx Hns Hnb. destruct (step_cases s t x H Hx) as [(s' & y & E & _)|[_ [[? _]|?]]]; [eauto|done|done]. }
    apply list.Exists_exists in Hex as (x & Hin & Hns). apply list_elem_of_lookup in Hin as (t & Hx).
    assert (Hact : forall t x, threads s !! t = Some x -> active x -> exists t s', thread_step s t = Ret (Some s')).
    { intros t0 x0 Hx0 Ha0. destruct (oldest_active _ t0 x0 Hx0 Ha0) as (t1 & x1 & Hx1 & Ha1 & Hold).
      apply (Hgo t1 x1 Hx1); [|by apply (oldest_runs s t1 x1)]. intros E. unfold active, at_ in Ha1. rewrite E in Ha1. cbn in Ha1. lia. }
    destruct (decide (active x)) as [Ha|Hna]; [by apply (Hact t x)|].
    destruct (stage_of x) eqn:Hst; try (exfalso; apply Hna; unfold active, at_; rewrite Hst; cbn; lia); try done.
    + destruct (locks s NextLock) as [t'|] eqn:El.
      * apply (inv_lock _ _ _ _ _ _ _ _ H) in El as (z & Hz & Hh). cbn in Hh. destruct (decide (at_ z = 2)) as [E2|].
        -- apply (Hgo t' z Hz); unfold at_ in E2; destruct (stage_of z) eqn:Hsz; try done. intros (l & ? & Hw & _). unfold wants in Hw. by rewrite Hsz in Hw.
        -- apply (Hact t' z Hz). unfold active. lia.
      * apply (Hgo t x Hx); [by rewrite Hst|]. intros (l & t' & Hw & Hl). unfold wants in Hw. rewrite Hst in Hw. injection Hw as <-. congruence.
    + apply (Hgo t x Hx); [by rewrite Hst|]. intros (l & ? & Hw & _). unfold wants in Hw. by rewrite Hst in Hw.
    + apply (Hgo t x Hx); [by rewrite Hst|]. intros (l & ? & Hw & _). unfold wants in Hw. by rewrite Hst in Hw.
  - assert (Hs : forall t x, threads s !! t = Some x -> stage_of x = Start).
    { intros t x Hx. destruct (decide (stage_of x = Start)) as [|Hn]; [done|]. destruct Hall. apply list.Exists_exists. exists x. split; [by eapply list_elem_of_lookup_2|done]. }
    destruct (decide (left s = 0)); [by right|left]. destruct (threads s) as [|x thr] eqn:Et; [done|].
    destruct (start_step s 0 x) as (s' & y & E & _); [done|by rewrite Et|by apply (Hs 0%nat)|done|]. by exists 0%nat, s'.
Qed.
End Steps.

(** ** From the start of the loop to its end *)

Section Runs.
Context (in_ptr_0 out_ptr_0 : Z) (consumed : Z -> Z) (produced : Z -> list Z) (count : Z -> Z) (fails : Z -> bool).
Notation step := (step consumed produced count fails).
Notation inS := (in_seq in_ptr_0 consumed).
Notation outS := (out_seq in_ptr_0 out_ptr_0 consumed produced).
Notation inv := (inv in_ptr_0 out_ptr_0 consumed produced count).

Lemma sumZ_replicate {A} (f : A -> Z) n x : sumZ f (replicate n x) = Z.of_nat n * f x.
Proof using Type. induction n; cbn [replicate sumZ]; lia. Qed.

Lemma init_inv n m mem0 : 0 <= m -> inv m mem0 (init in_ptr_0 out_ptr_0 n m mem0).
Proof using Type.
  intros Hm.
  assert (Hthr : forall t x, threads (init in_ptr_0 out_ptr_0 n m mem0) !! t = Some x -> at_ x = 0) by (intros t x [-> _]%lookup_replicate; done).
  assert (Hd : forall j, -1 <= j < 0 -> j = -1) by lia.
  split; try done; cbn [init chain locks threads left out_mem cum_count finished ioc_init next].
  - intros l t. split; [done|]. intros (x & Hx & Hh). apply Hthr in Hx. destruct l; cbn in Hh; lia.
  - split; unfold active, busy; intros; repeat match goal with Hx : _ !! _ = Some _ |- _ => apply Hthr in Hx end; lia.
  - split; [done|]. intros j ->%Hd _ _. done.
  - split; [done|]. intros j ->%Hd _ _. done.
  - intros t x Hx%Hthr. lia.
  - rewrite sumZ_replicate. change (waiting _) with 0. lia.
  - constructor.
  - intros i. split; [intros Hi; by apply elem_of_nil in Hi|lia].
  - split; [done| |done]. intros i r Hi. by apply elem_of_nil in Hi.
Qed.

Lemma nsteps_inv n m mem0 k s : (forall j, 0 <= j < m -> fails (inS j) = false) -> 0 <= m -> 0 <= out_ptr_0 -> outS m <= zlen mem0 -> nsteps step k (init in_ptr_0 out_ptr_0 n m mem0) s ->
  inv m mem0 s /\ measure s = 17 * m - Z.of_nat k /\ length (threads s) = n.
Proof using Type.
  intros Hok Hm H0 Hz Hs. revert s Hs. induction k as [|k IH]; intros s Hs.
  - inversion Hs; subst. split; [by apply init_inv|]. split; [|cbn; apply length_replicate].
    unfold measure. cbn [init threads left]. rewrite sumZ_replicate. change (remaining _) with 0. lia.
  - apply nsteps_inv_r in Hs as (s1 & Hs1 & t & E). destruct (IH s1 Hs1) as (Hi & Hmeas & Hlen).
    destruct (threads s1 !! t) as [x|] eqn:Hx; [|unfold thread_step in E; by rewrite Hx in E].
    destruct (step_cases in_ptr_0 out_ptr_0 consumed produced count fails m mem0 Hok H0 Hz s1 t x Hi Hx)
      as [(s' & y & E' & Hi' & Hm' & Ht')|[E' _]]; [|congruence].
    assert (s' = s) as -> by congruence. split; [done|]. split; [lia|]. by rewrite Ht', length_insert.
Qed.

(** What the iterations store does not depend on their order. *)
Lemma written_unique mem0 mem mem' l l' : (forall i, i ∈ l <-> i ∈ l') -> (forall i, i ∈ l -> 0 <= i) -> 0 <= out_ptr_0 ->
  written in_ptr_0 out_ptr_0 consumed produced mem0 mem l -> written in_ptr_0 out_ptr_0 consumed produced mem0 mem' l' -> mem = mem'.
Proof using Type.
  intros Hl Hpos H0 [_ Hin Hout] [_ Hin' Hout']. apply list_eq. intros k.
  destruct (decide (Exists (fun i => outS i <= Z.of_nat k < outS (i + 1)) l)) as [Hex|Hno].
  - apply list.Exists_exists in Hex as (i & Hi & Hr). rewrite out_seq_S in Hr by auto.
    specialize (Hin i (Z.of_nat k - outS i) Hi ltac:(lia)). specialize (Hin' i (Z.of_nat k - outS i) (proj1 (Hl i) Hi) ltac:(lia)).
    replace (Z.to_nat (outS i + (Z.of_nat k - outS i))) with k in * by lia. congruence.
  - rewrite Hout, Hout'; [done| |]; intros i Hi Hr; apply Hno, list.Exists_exists; exists i; (split; [by (done || apply Hl)|done]).
Qed.

(** One thread. *)
Lemma sequential_spec m mem0 : 0 <= m -> 0 <= out_ptr_0 -> outS m <= zlen mem0 ->
  exists C mem', sequential in_ptr_0 out_ptr_0 consumed produced count m mem0 = Ret (C, mem', sumZ (fun i => count (inS i)) (seqZ 0 m)) /\
    next C = m /\ chain_at C (inS m) (outS m) /\ written in_ptr_0 out_ptr_0 consumed produced mem0 mem' (reverse (seqZ 0 m)).
Proof using Type.
  intros Hm H0. unfold sequential. rewrite <- (Z2Nat.id m) by done. set (n := Z.to_nat m). clearbody n. clear Hm m.
  induction n as [|n IH]; intros Hz.
  - exists (ioc_init in_ptr_0 out_ptr_0), mem0. split; [done|]. split; [done|]. split; [apply chain_init|]. split; [done| |done].
    intros i r Hi. by apply elem_of_nil in Hi.
  - replace (Z.of_nat (S n)) with (Z.of_nat n + 1) in * by lia. pose proof Hz as Hz'. rewrite out_seq_S in Hz' by lia.
    pose proof (zlen_nonneg (produced (inS (Z.of_nat n)))).
    destruct IH as (C & mem' & E & HnC & HC & Hw); [lia|]. rewrite seqZ_app, foldO_app, E by lia. cbn [obind].
    change (seqZ (0 + Z.of_nat n) 1) with [0 + (0 + Z.of_nat n)]. rewrite !Z.add_0_l. cbn [foldO]. unfold block_step at 1.
    destruct (chain_step C _ _ (inS (Z.of_nat n) + consumed (inS (Z.of_nat n))) (outS (Z.of_nat n) + zlen (produced (inS (Z.of_nat n)))) HC)
      as (C1 & E1 & E2 & HC2). rewrite E1. cbn [obind]. rewrite E2. cbn [obind].
    destruct (written_more in_ptr_0 out_ptr_0 consumed produced mem0 mem' (reverse (seqZ 0 (Z.of_nat n))) (Z.of_nat n)) as (mem2 & E3 & Hw2); try done; try lia.
    { rewrite elem_of_reverse. intros Hi%elem_of_seqZ. lia. }
    { intros j. rewrite elem_of_reverse. intros Hi%elem_of_seqZ. lia. }
    rewrite E3. cbn [obind]. eexists _, mem2. split; [rewrite sumZ_app; cbn [sumZ]; do 2 f_equal; lia|].
    split; [unfold ioc_get_in in E1; apply obind_Ret_iff in E1 as (? & _ & E1); simplify_eq; cbn; lia|].
    split; [rewrite in_seq_S, out_seq_S by lia; exact HC2|]. rewrite reverse_snoc. exact Hw2.
Qed.

Lemma sum_remaining_nonneg l : 0 <= sumZ remaining l.
Proof using Type.
  induction l as [|x l IH]; [done|]. cbn [sumZ]. unfold remaining at 1, at_. destruct (stage_of x); cbn [ord Z.eqb]; lia.
Qed.

Lemma sumZ_zero {A} (f : A -> Z) l : (forall t x, l !! t = Some x -> f x = 0) -> sumZ f l = 0.
Proof using Type.
  intros Hf. induction l as [|x l IH]; [done|]. cbn [sumZ]. rewrite (Hf 0%nat x) by done. rewrite IH; [done|]. intros t y Hy. by apply (Hf (S t)).
Qed.

(** The state in which all threads are done. *)
Lemma final_state m mem0 s : inv m mem0 s -> 0 <= m -> 0 <= out_ptr_0 -> outS m <= zlen mem0 -> left s = 0 ->
  (forall t x, threads s !! t = Some x -> stage_of x = Start) ->
  measure s = 0 /\ finished s ≡ₚ seqZ 0 m /\
  exists C, sequential in_ptr_0 out_ptr_0 consumed produced count m mem0 = Ret (C, out_mem s, cum_count s) /\
    next (chain s) = next C /\ chain_at C (inS m) (outS m) /\ chain_at (chain s) (inS m) (outS m).
Proof using Type.
  clear fails. intros Hi Hm H0 Hz Hl Hst. destruct Hi.
  assert (Hat : forall t x, threads s !! t = Some x -> at_ x = 0) by (intros t x Hx; unfold at_; by rewrite (Hst t x Hx)).
  assert (Hnext : next (chain s) = m).
  { rewrite <- inv_total0, Hl, sumZ_zero; [lia|]. intros t x Hx%Hat. rewrite waiting_spec, decide_False by lia. done. }
  split; [unfold measure; rewrite Hl, sumZ_zero; [lia|intros t x Hx%Hat; unfold remaining; by rewrite Hx]|].
  assert (Hlog : forall i, i ∈ finished s <-> 0 <= i < m).
  { intros i. rewrite inv_log0, Hnext. split; [tauto|]. intros Hr. split; [done|]. intros t x Hx%Hat Hb. unfold busy in Hb. lia. }
  assert (Hperm : finished s ≡ₚ seqZ 0 m).
  { apply NoDup_Permutation; [done|apply NoDup_seqZ|]. intros i. rewrite Hlog, elem_of_seqZ. lia. }
  split; [done|]. destruct (sequential_spec m mem0 Hm H0 Hz) as (C & mem' & E & HnC & HC & Hw).
  exists C. rewrite E. split; [|split; [lia|split; [done|]]].
  - assert (mem' = out_mem s) as ->.
    { eapply (written_unique mem0 mem' (out_mem s)); [| |done|exact Hw|done].
      - intros i. rewrite elem_of_reverse, Hlog, elem_of_seqZ. lia.
      - intros i. rewrite elem_of_reverse, elem_of_seqZ. lia. }
    do 2 f_equal. rewrite inv_cum0. symmetry. by apply sumZ_perm.
  - destruct inv_in0 as [Hli Hdi], inv_out0 as [Hlo Hdo]. rewrite Hnext in *.
    assert (Hnp : forall c j, ~ pend c (threads s) j) by (intros c j (t & x & Hx%Hat & Ha & _); unfold active in Ha; lia).
    split; [done|]. split; [done|]. rewrite Hnext. specialize (Hdi (m - 1)). specialize (Hdo (m - 1)). replace (m - 1 + 1) with m in * by lia.
    split; [apply Hdi|apply Hdo]; auto with lia.
Qed.
End Runs.

(** Some thread can go on as long as not all 17 steps of every block are taken, and then none. *)
Lemma chain_progress in_ptr_0 out_ptr_0 consumed produced count fails (n : nat) m mem0 (k : nat) s :
  (forall j, 0 <= j < m -> fails (in_seq in_ptr_0 consumed j) = false) ->
  (0 < n)%nat -> 0 <= m -> 0 <= out_ptr_0 -> out_seq in_ptr_0 out_ptr_0 consumed produced m <= zlen mem0 ->
  nsteps (step consumed produced count fails) k (init in_ptr_0 out_ptr_0 n m mem0) s ->
  Z.of_nat k < 17 * m /\ (exists s', step consumed produced count fails s s') \/
  Z.of_nat k = 17 * m /\ (forall s', ~ step consumed produced count fails s s') /\
    left s = 0 /\ forall t x, threads s !! t = Some x -> stage_of x = Start.
Proof.
  intros Hok Hn Hm H0 Hz Hs. destruct (nsteps_inv _ _ _ _ _ fails n m mem0 k s Hok Hm H0 Hz Hs) as (Hi & Hmeas & Hlen).
  destruct (progress in_ptr_0 out_ptr_0 consumed produced count fails m mem0 Hok H0 Hz s Hi) as [(t & s' & E)|[Hl Hst]];
    [intros E; rewrite E in Hlen; cbn in Hlen; lia|left|right].
  - split; [|by exists s', t]. destruct (threads s !! t) as [x|] eqn:Hx; [|unfold thread_step in E; by rewrite Hx in E].
    destruct (step_cases in_ptr_0 out_ptr_0 consumed produced count fails m mem0 Hok H0 Hz s t x Hi Hx)
      as [(s2 & y & E2 & Hi2 & Hm2 & _)|[E2 _]]; [|congruence].
    pose proof (sum_remaining_nonneg (threads s2)). pose proof (inv_next _ _ _ _ _ _ _ _ Hi2). unfold measure in Hm2, Hmeas. lia.
  - destruct (final_state _ _ _ _ _ m mem0 s Hi Hm H0 Hz Hl Hst) as (Hmeas0 & _ & _). split; [lia|]. split; [|done].
    intros s' (t & E). destruct (threads s !! t) as [x|] eqn:Hx; unfold thread_step in E; rewrite Hx in E; [|done].
    by rewrite (Hst t x Hx), Hl in E.
Qed.

(** A run to the end. *)
Lemma complete_run in_ptr_0 out_ptr_0 consumed produced count fails (n : nat) m mem0 :
  (forall j, 0 <= j < m -> fails (in_seq in_ptr_0 consumed j) = false) ->
  (0 < n)%nat -> 0 <= m -> 0 <= out_ptr_0 -> out_seq in_ptr_0 out_ptr_0 consumed produced m <= zlen mem0 ->
  forall k : nat, Z.of_nat k <= 17 * m ->
  exists s, nsteps (step consumed produced count fails) k (init in_ptr_0 out_ptr_0 n m mem0) s.
Proof.
  intros Hok Hn Hm H0 Hz k. induction k as [|k IH]; intros Hk; [eexists; constructor|].
  destruct IH as [s Hs]; [lia|].
  destruct (chain_progress _ _ _ _ _ fails n m mem0 k s Hok Hn Hm H0 Hz Hs) as [[_ [s' Hs']]|[E _]]; [|lia].
  exists s'. by eapply nsteps_r.
Qed.

(** C26: The parallel loop over the blocks when none of them fails, for any number of threads and blocks and every
    interleaving: no thread reads a pointer that is not set, releases a lock of another one or stores outside the output;
    after 17 steps for each block nothing is left to do, and before that some thread can always go on;
    then every block has been processed once, and the chain, the output and the count are those of one thread that
    processes the blocks in order.  (A block that fails keeps its locks and blocks the others for ever:
    [failed_block_deadlocks].) *)
Theorem parallel_blocks_sequential (in_ptr_0 out_ptr_0 : Z) (consumed : Z -> Z) (produced : Z -> list Z) (count : Z -> Z)
    (fails : Z -> bool) (n : nat) (m : Z) (mem0 : list Z) (k : nat) (s : state) :
  (forall j, 0 <= j < m -> fails (in_seq in_ptr_0 consumed j) = false) ->
  (0 < n)%nat -> 0 <= m -> 0 <= out_ptr_0 -> out_seq in_ptr_0 out_ptr_0 consumed produced m <= zlen mem0 ->
  nsteps (step consumed produced count fails) k (init in_ptr_0 out_ptr_0 n m mem0) s ->
  (forall t, exists r, thread_step consumed produced count fails s t = Ret r) /\
  (Z.of_nat k < 17 * m /\ (exists s', step consumed produced count fails s s') \/
   Z.of_nat k = 17 * m /\ (forall s', ~ step consumed produced count fails s s') /\
     finished s ≡ₚ seqZ 0 m /\
     exists C, sequential in_ptr_0 out_ptr_0 consumed produced count m mem0 = Ret (C, out_mem s, cum_count s) /\
       next (chain s) = next C /\
       let i := in_seq in_ptr_0 consumed m in let o := out_seq in_ptr_0 out_ptr_0 consumed produced m in
       chain_at C i o /\ chain_at (chain s) i o).
Proof.
  intros Hok Hn Hm H0 Hz Hs. destruct (nsteps_inv _ _ _ _ _ fails n m mem0 k s Hok Hm H0 Hz Hs) as (Hi & Hmeas & Hlen).
  split.
  { intros t. destruct (threads s !! t) as [x|] eqn:Hx; [|exists None; unfold thread_step; by rewrite Hx].
    destruct (step_cases in_ptr_0 out_ptr_0 consumed produced count fails m mem0 Hok H0 Hz s t x Hi Hx) as [(s' & y & E & _)|[E _]]; eauto. }
  destruct (chain_progress _ _ _ _ _ fails n m mem0 k s Hok Hn Hm H0 Hz Hs) as [?|(Hk & Hno & Hl & Hst)]; [by left|right].
  destruct (final_state _ _ _ _ _ m mem0 s Hi Hm H0 Hz Hl Hst) as (_ & Hperm & Hseq). done.
Qed.

(** A schedule is a sequence of steps, less the turns of threads that are blocked. *)
Lemma run_nsteps consumed produced count fails ts s s' : run consumed produced count fails s ts = Ret s' ->
  exists k, nsteps (step consumed produced count fails) k s s'.
Proof.
  revert s. induction ts as [|t ts IH]; intros s E; cbn [run] in E; [injection E as ->; exists 0%nat; constructor|].
  apply obind_Ret_iff in E as (r & Er & E). apply IH in E as (k & Hk). destruct r as [s1|]; [|by exists k].
  exists (S k). econstructor; [by exists t|exact Hk].
Qed.

(** Two threads that take turns, three blocks of two bytes of which each stores one. *)
Definition demo_result (s : state) : list Z * Z * list Z := (out_mem s, cum_count s, finished s).

Lemma demo_result_ok : omap_out demo_result
    (run (fun _ => 2) (fun p => [p]) (fun _ => 1) (fun _ => false) (init 10 0 2 3 [7; 7; 7; 7]) (concat (replicate 60 [0%nat; 1%nat]))) =
  Ret ([10; 12; 14; 7], 3, [2; 1; 0]).
Proof. vm_compute. reflexivity. Qed.

Lemma omap_out_Ret {A B} (f : A -> B) c b : omap_out f c = Ret b -> exists a, c = Ret a /\ f a = b.
Proof. destruct c; cbn; [|done..]. intros [= <-]. eauto. Qed.

Lemma demo_reached : exists s k, demo_result s = ([10; 12; 14; 7], 3, [2; 1; 0]) /\
  nsteps (step (fun _ => 2) (fun p => [p]) (fun _ => 1) (fun _ => false)) k (init 10 0 2 3 [7; 7; 7; 7]) s.
Proof.
  destruct (omap_out_Ret _ _ _ demo_result_ok) as (s & E & Hs). destruct (run_nsteps _ _ _ _ _ _ _ E) as (k & Hk).
  exists s, k. by split.
Qed.

Lemma parallel_blocks_sequential_witness : exists s k,
  demo_result s = ([10; 12; 14; 7], 3, [2; 1; 0]) /\
  nsteps (step (fun _ => 2) (fun p => [p]) (fun _ => 1) (fun _ => false)) k (init 10 0 2 3 [7; 7; 7; 7]) s /\
  forall t, exists r, thread_step (fun _ => 2) (fun p => [p]) (fun _ => 1) (fun _ => false) s t = Ret r.
Proof.
  destruct demo_reached as (s & k & Hs & Hk). exists s, k. split; [exact Hs|]. split; [exact Hk|].
  refine (proj1 (parallel_blocks_sequential 10 0 (fun _ => 2) (fun p => [p]) (fun _ => 1) (fun _ => false) 2 3 [7; 7; 7; 7] k s (fun _ _ => eq_refl) _ _ _ _ Hk));
    [lia|lia|lia|].
  vm_compute. discriminate.
Defined.

(** A block that fails after it has taken its input, as when [bshuf_trans_bit_elem] finds no memory, keeps two
    locks of the chain: the thread that has the next block waits for ever, here the same thread. *)
Lemma failed_block_deadlocks :
  omap_out (fun s => (stage_of <$> threads s, thread_step (fun _ => 2) (fun p => [p]) (fun _ => 1) (fun p => p =? 10) s 0))
    (run (fun _ => 2) (fun p => [p]) (fun _ => 1) (fun p => p =? 10) (init 10 0 1 2 [7; 7]) (replicate 60 0%nat)) =
  Ret ([LockOut], Ret None).
Proof. vm_compute. reflexivity. Qed.

(** ** The blocks of [bshuf_blocked_wrap_fun] *)

(** The input, the output and the count of a block. *)
Notation blockio := (list Z * list Z * Z)%type.

(** The block whose input starts at [p], when the first one starts at [off]. *)
Fixpoint block_at (off : Z) (bl : list blockio) (p : Z) : blockio :=
  match bl with
  | [] => ([], [], 0)
  | b :: bl' => if p =? off then b else block_at (off + zlen b.1.1) bl' p
  end.

Definition inputs (bl : list blockio) : list Z := concat ((fun b : blockio => b.1.1) <$> bl).
Definition outputs (bl : list blockio) : list Z := concat ((fun b : blockio => b.1.2) <$> bl).

Lemma block_at_nth off bl1 b bl2 : Forall (fun b : blockio => 0 < zlen b.1.1) bl1 -> block_at off (bl1 ++ b :: bl2) (off + zlen (inputs bl1)) = b.
Proof.
  intros H. revert off. induction H as [|b1 bl1 Hb _ IH]; intros off.
  - cbn. by rewrite Z.add_0_r, Z.eqb_refl.
  - cbn [app block_at]. unfold inputs. cbn [fmap list_fmap concat]. rewrite zlen_app. fold (inputs bl1). pose proof (zlen_nonneg (inputs bl1)).
    rewrite (proj2 (Z.eqb_neq _ _)) by lia. rewrite Z.add_assoc. apply IH.
Qed.

Lemma inputs_snoc bl b : inputs (bl ++ [b]) = inputs bl ++ b.1.1.
Proof. unfold inputs. rewrite fmap_app, concat_app. cbn. by rewrite app_nil_r. Qed.

Section Loop.
Context (f : ioc_chain -> list Z -> list Z -> Z -> Z -> Z -> outcome (Z * ioc_chain * list Z)) (e opt bs : Z).
Context (blocks : list blockio) (off : Z).
Context (Hblocks : Forall (fun b : blockio => 0 < zlen b.1.1 /\ processes f e opt bs b.1.1 b.1.2 b.2) blocks).

Definition consumed_at (p : Z) : Z := zlen (block_at off blocks p).1.1.
Definition produced_at (p : Z) : list Z := (block_at off blocks p).1.2.
Definition count_at (p : Z) : Z := (block_at off blocks p).2.

Lemma blocks_nonempty bl : Forall (fun b : blockio => 0 < zlen b.1.1 /\ processes f e opt bs b.1.1 b.1.2 b.2) bl -> Forall (fun b : blockio => 0 < zlen b.1.1) bl.
Proof using Type. intros H. eapply Forall_impl; [|exact H]. by intros b [? _]. Qed.

(** One thread stores the outputs of the blocks one after the other. *)
Lemma steps_blocks bl2 : forall bl1 C opre old opost cum j, blocks = bl1 ++ bl2 -> chain_at C (off + zlen (inputs bl1)) (zlen opre) ->
  zlen old = zlen (outputs bl2) ->
  exists C', foldO (block_step consumed_at produced_at count_at) (seqZ j (Z.of_nat (length bl2))) (C, opre ++ old ++ opost, cum) =
      Ret (C', opre ++ outputs bl2 ++ opost, cum + sumZ snd bl2).
Proof using Hblocks.
  induction bl2 as [|b bl2 IH]; intros bl1 C opre old opost cum j Hbl HC Ho.
  - exists C. cbn. change (zlen (outputs [])) with 0 in Ho. unfold zlen in Ho. destruct old; [|done]. by rewrite Z.add_0_r.
  - change (outputs (b :: bl2)) with (b.1.2 ++ outputs bl2) in *. rewrite zlen_app in Ho.
    assert (Hat : block_at off blocks (off + zlen (inputs bl1)) = b).
    { rewrite Hbl. apply block_at_nth, blocks_nonempty. rewrite Hbl in Hblocks. by apply Forall_app in Hblocks as [? _]. }
    destruct (split_at old (zlen b.1.2)) as (o1 & o2 & -> & Hz1).
    { pose proof (zlen_nonneg b.1.2). pose proof (zlen_nonneg (outputs bl2)). lia. }
    rewrite zlen_app in Ho. replace (Z.of_nat (length (b :: bl2))) with (1 + Z.of_nat (length bl2)) by (cbn; lia).
    rewrite seqZ_app by lia. change (seqZ j 1) with [0 + j]. cbn [app foldO block_step].
    destruct (chain_step C _ _ (off + zlen (inputs bl1) + zlen b.1.1) (zlen opre + zlen b.1.2) HC) as (C1 & E1 & E2 & HC2).
    rewrite E1. cbn [obind]. unfold consumed_at, produced_at, count_at. rewrite Hat, E2. cbn [obind]. rewrite <- !app_assoc, (mem_write_mid opre o1) by lia. cbn [obind].
    destruct (IH (bl1 ++ [b]) (ioc_set_next_out (ioc_set_next_in C1 (next C) (off + zlen (inputs bl1) + zlen b.1.1)) (next C) (zlen opre + zlen b.1.2))
      (opre ++ b.1.2) o2 opost (cum + b.2) (j + 1)) as (C2 & E3).
    + by rewrite <- app_assoc.
    + by rewrite inputs_snoc, !zlen_app, Z.add_assoc.
    + lia.
    + exists C2. rewrite <- !app_assoc in E3. unfold consumed_at, produced_at, count_at in E3. rewrite E3. cbn [sumZ]. do 2 f_equal. lia.
Qed.

Lemma blocks_processed : processes_all f e opt (replicate (length blocks) bs) (inputs blocks) (outputs blocks) (sumZ snd blocks).
Proof using Hblocks.
  clear off. induction Hblocks as [|b bl [_ Hb] Hbl IH]; [constructor|]. cbn [length replicate sumZ].
  change (inputs (b :: bl)) with (b.1.1 ++ inputs bl). change (outputs (b :: bl)) with (b.1.2 ++ outputs bl).
  constructor; [exact Hb|by apply IH].
Qed.
End Loop.

(** The end of the output of the blocks. *)
Lemma out_seq_blocks off o blocks bl1 bl2 : Forall (fun b : blockio => 0 < zlen b.1.1) blocks -> blocks = bl1 ++ bl2 ->
  in_seq off (consumed_at blocks off) (Z.of_nat (length bl1)) = off + zlen (inputs bl1) /\
  out_seq off o (consumed_at blocks off) (produced_at blocks off) (Z.of_nat (length bl1)) = o + zlen (outputs bl1).
Proof.
  intros H. revert bl2. induction bl1 as [|b bl1 IH] using rev_ind; intros bl2 E; [split; [change (zlen (inputs [])) with 0|change (zlen (outputs [])) with 0]; by rewrite Z.add_0_r|].
  rewrite <- app_assoc in E. destruct (IH _ E) as [Ei Eo].
  assert (Hat : block_at off blocks (off + zlen (inputs bl1)) = b).
  { rewrite E. apply block_at_nth. rewrite E in H. by apply Forall_app in H as [? _]. }
  replace (Z.of_nat (length (bl1 ++ [b]))) with (Z.of_nat (length bl1) + 1) by (rewrite length_app; cbn; lia).
  rewrite in_seq_S, out_seq_S, Ei, Eo by lia. unfold consumed_at, produced_at. rewrite Hat.
  rewrite inputs_snoc. unfold outputs. rewrite fmap_app, concat_app. cbn [fmap list_fmap concat]. rewrite app_nil_r, !zlen_app. lia.
Qed.

(** The starts of the blocks are where the threads take their input. *)
Lemma blocks_do_not_fail blocks (fails : Z -> bool) off : Forall (fun b : blockio => 0 < zlen b.1.1) blocks ->
  (forall bl1 b bl2, blocks = bl1 ++ b :: bl2 -> fails (off + zlen (inputs bl1)) = false) ->
  forall j, 0 <= j < Z.of_nat (length blocks) -> fails (in_seq off (consumed_at blocks off) j) = false.
Proof.
  intros Hne Hf j Hj. destruct (lookup_lt_is_Some_2 blocks (Z.to_nat j)) as [b Hb]; [lia|].
  pose proof (take_drop_middle blocks (Z.to_nat j) b Hb) as E. symmetry in E. set (bl1 := take (Z.to_nat j) blocks) in *.
  destruct (out_seq_blocks off 0 blocks bl1 _ Hne E) as [Ei _].
  replace (Z.of_nat (length bl1)) with j in Ei by (unfold bl1; rewrite length_take; lia). rewrite Ei. by eapply Hf.
Qed.

(** C27: The parallel loop of [bshuf_blocked_wrap_fun] over blocks that the block function processes without an error (as
    it does when it shuffles, compresses, or decompresses valid data): whatever the number of threads and the interleaving,
    some thread can go on for 17 steps per block and none after that, and then the output and the count are those of the
    loop with one thread, and the chain is ready for the rest of the data.  (A block for which the function returns an
    error leaves the other threads waiting: [failed_block_deadlocks].) *)
Theorem parallel_loop_refines_wrap f (e opt bs : Z) (blocks : list blockio) (fails : Z -> bool) (pre post opre old opost : list Z) (n k : nat) (s : state) :
  let inp := pre ++ inputs blocks ++ post in
  let m := Z.of_nat (length blocks) in
  let go := step (consumed_at blocks (zlen pre)) (produced_at blocks (zlen pre)) (count_at blocks (zlen pre)) fails in
  Forall (fun b : blockio => 0 < zlen b.1.1 /\ processes f e opt bs b.1.1 b.1.2 b.2) blocks ->
  (forall bl1 b bl2, blocks = bl1 ++ b :: bl2 -> fails (zlen pre + zlen (inputs bl1)) = false) ->
  zlen old = zlen (outputs blocks) -> (0 < n)%nat ->
  nsteps go k (init (zlen pre) (zlen opre) n m (opre ++ old ++ opost)) s ->
  Z.of_nat k < 17 * m /\ (exists s', go s s') \/
  Z.of_nat k = 17 * m /\ (forall s', ~ go s s') /\
    exists C, foldO (fun st _ => wrap_step f inp e opt st bs) (seqZ 0 m) (ioc_init (zlen pre) (zlen opre), opre ++ old ++ opost, 0, 0) =
        Ret (C, out_mem s, 0, cum_count s) /\
      out_mem s = opre ++ outputs blocks ++ opost /\
      let i := zlen pre + zlen (inputs blocks) in let o := zlen opre + zlen (outputs blocks) in chain_at C i o /\ chain_at (chain s) i o.
Proof.
  intros inp m go Hb Hf Ho Hn Hs. pose proof (blocks_nonempty f e opt bs blocks Hb) as Hne. pose proof (zlen_nonneg opre) as Hpre. pose proof (zlen_nonneg opost) as Hpost.
  assert (Hm : 0 <= m) by lia. destruct (out_seq_blocks (zlen pre) (zlen opre) blocks blocks [] Hne) as [Ei Eo]; [by rewrite app_nil_r|]. fold m in Ei, Eo.
  assert (Hfit : out_seq (zlen pre) (zlen opre) (consumed_at blocks (zlen pre)) (produced_at blocks (zlen pre)) m <= zlen (opre ++ old ++ opost)).
  { rewrite Eo, !zlen_app. lia. }
  pose proof (blocks_do_not_fail blocks fails (zlen pre) Hne Hf) as Hok. fold m in Hok.
  destruct (nsteps_inv _ _ _ _ _ fails n m _ k s Hok Hm Hpre Hfit Hs) as (Hi & _ & _).
  destruct (chain_progress _ _ _ _ _ fails n m _ k s Hok Hn Hm Hpre Hfit Hs) as [?|(Hk & Hno & Hl & Hst)]; [by left|right].
  split; [done|]. split; [done|].
  destruct (final_state _ _ _ _ _ m _ s Hi Hm Hpre Hfit Hl Hst) as (_ & _ & C1 & Eseq & _ & _ & HC). rewrite Ei, Eo in HC.
  destruct (steps_blocks f e opt bs blocks (zlen pre) Hb blocks [] (ioc_init (zlen pre) (zlen opre)) opre old opost 0 0) as (C2 & E2);
    [done|cbn; rewrite Z.add_0_r; apply chain_init|done|]. unfold sequential in Eseq. fold m in E2. rewrite E2 in Eseq. injection Eseq as _ Eout Ecum.
  destruct (run_blocks f e opt _ _ _ _ (blocks_processed f e opt bs blocks Hb) (ioc_init (zlen pre) (zlen opre)) pre post opre old opost 0)
    as (C & E & HC'); [apply chain_init|done|].
  exists C. rewrite (foldO_const _ (wrap_step f inp e opt) bs) by done. unfold m. rewrite Nat2Z.id. fold inp in E. rewrite E, <- Eout, <- Ecum. done.
Qed.

(** Two threads and a block of eight elements of two bytes, from the start of the loop to its end. *)
Lemma parallel_loop_refines_wrap_witness : exists (t : list Z) (s : state),
  let blocks := [(demo_elems, t, 16)] in
  let go := step (consumed_at blocks 0) (produced_at blocks 0) (count_at blocks 0) (fun _ => false) in
  zlen t = 16 /\ nsteps go 17 (init 0 0 2 1 (repeat 7 16)) s /\ (forall s', ~ go s s') /\
    exists C, foldO (fun st _ => wrap_step (@bshuf_bitshuffle_block portable) demo_elems 2 0 st 8) (seqZ 0 1) (ioc_init 0 0, repeat 7 16, 0, 0) =
        Ret (C, out_mem s, 0, cum_count s) /\ out_mem s = t.
Proof.
  assert (Hb : bytes demo_elems) by (unfold demo_elems, bytes; repeat (constructor; [lia|]); constructor).
  destruct (@bit_blocks portable 1 2 0 demo_elems ltac:(lia) ltac:(lia) Hb eq_refl) as (t & Hz & Ht & _).
  set (blocks := [(demo_elems, t, 16)]).
  assert (Hout : zlen (repeat 7 16) = zlen (outputs blocks)).
  { unfold outputs, blocks. cbn [fmap list_fmap concat fst snd]. rewrite app_nil_r, Hz. reflexivity. }
  assert (Hfit : out_seq 0 0 (consumed_at blocks 0) (produced_at blocks 0) 1 <= zlen (repeat 7 16)).
  { destruct (out_seq_blocks 0 0 blocks blocks []) as [_ E]; [constructor; [reflexivity|constructor]|reflexivity|].
    change (Z.of_nat (length blocks)) with 1 in E. rewrite E, <- Hout. reflexivity. }
  destruct (complete_run 0 0 (consumed_at blocks 0) (produced_at blocks 0) (count_at blocks 0) (fun _ => false) 2 1 (repeat 7 16)
    (fun _ _ => eq_refl) ltac:(lia) ltac:(lia) ltac:(lia) Hfit 17 ltac:(lia)) as [s Hs].
  exists t, s. cbv zeta. fold blocks. split; [exact Hz|]. split; [exact Hs|].
  destruct (parallel_loop_refines_wrap (@bshuf_bitshuffle_block portable) 2 0 8 blocks (fun _ => false) [] [] [] (repeat 7 16) [] 2 17 s)
    as [[Hlt _]|(_ & Hno & C & E & Eo & _)].
  - constructor; [split; [reflexivity|exact Ht]|constructor].
  - reflexivity.
  - exact Hout.
  - lia.
  - exact Hs.
  - exfalso. change (17 < 17) in Hlt. lia.
  - split; [exact Hno|]. exists C. cbn [app] in E, Eo. rewrite app_nil_r in Eo. unfold outputs, blocks in Eo.
    cbn [fmap list_fmap concat fst snd] in Eo. rewrite app_nil_r in Eo. split; [exact E|exact Eo].
Defined.
