(* ===== verification/H5Bitshuffle.v ===== *)
(** * The HDF5 filter of bitshuffle

    [src/source/external/bitshuffle/bshuf_h5filter.c], built without ZSTD: the options that a
    dataset stores and the filter that HDF5 calls when it writes and when it reads a chunk.  Pushing a
    message on the error stack of HDF5 has no effect on the result and is left out. *)

From S2P Require Import Prelude Scatter Bitshuffle Bslz4.

Definition H5Z_FLAG_REVERSE : Z := 0x100.
Definition BSHUF_VERSION_MAJOR : Z := 0.
Definition BSHUF_VERSION_MINOR : Z := 4.
Definition BSHUF_H5_COMPRESS_LZ4 : Z := 2.
Definition BSHUF_H5_COMPRESS_ZSTD : Z := 3.

(** [bshuf_h5_set_local]: the options of the filter (none when [H5Pget_filter_by_id2] fails) and the size of
    the type give the values for [H5Pmodify_filter], or -1.  The check of the compression pushes an error
    and goes on. *)
Definition bshuf_h5_set_local (options : option (list Z)) (type_size : Z) : outcome (option (list Z)) :=
  match options with
  | None => Ret None
  | Some opts =>
      let tmp_values := take 8 (opts ++ replicate 8 0) in
      let nelements := zlen opts in
      let values := list_inserts 3 (take (Z.to_nat nelements) tmp_values) (replicate 11 0) in
      let nelements := 3 + nelements in
      let elem_size := u32 type_size in
      if elem_size <=? 0 then Ret None
      else
        let values := <[0%nat := BSHUF_VERSION_MAJOR]> (<[1%nat := BSHUF_VERSION_MINOR]> (<[2%nat := elem_size]> values)) in
        if (3 <? nelements) && negb (values !!! 3%nat mod 8 =? 0) then Ret None
        else let! values := mem_read values 0 nelements in Ret (Some values)
  end.

Section Filter.
Context `{BitTransposer} `{Lz4} (malloc : Z -> option (list Z)).

(** What the filter returns, [*buf_size] and [*buf]. *)
Notation filtered := (outcome (Z * Z * list Z)).

Definition bshuf_h5_filter (flags : Z) (cd_values : list Z) (nbytes buf_size : Z) (buf : list Z) : filtered :=
  let cd_nelmts := zlen cd_values in
  let failed : filtered := Ret (0, buf_size, buf) in
  if cd_nelmts <? 3 then failed
  else
    let elem_size := cd_values !!! 2%nat in
    let block_size := if 3 <? cd_nelmts then cd_values !!! 3%nat else 0 in
    let! block_size := if block_size =? 0 then bshuf_default_block_size elem_size else Ret block_size in
    let codec := cd_values !!! 4%nat in
    if (4 <? cd_nelmts) && (codec =? BSHUF_H5_COMPRESS_ZSTD) then failed
    else
      let compression := (4 <? cd_nelmts) && ((codec =? BSHUF_H5_COMPRESS_LZ4) || (codec =? BSHUF_H5_COMPRESS_ZSTD)) in
      let reverse := negb (Z.land flags H5Z_FLAG_REVERSE =? 0) in
      let! '(nbytes_uncomp, block_size, in_buf, buf_size_out) :=
        if compression then
          if reverse then
            let! nbytes_uncomp := bshuf_read_uint64_BE buf 0 in
            let! header := bshuf_read_uint32_BE buf 8 in
            let! block_size := udiv header elem_size in
            Ret (nbytes_uncomp, block_size, 12, nbytes_uncomp)
          else
            let! size := udiv nbytes elem_size in
            let! bound := bshuf_compress_lz4_bound size elem_size block_size in
            Ret (nbytes, block_size, 0, bound + 12)
        else Ret (nbytes, block_size, 0, nbytes) in
      let! rest := umod nbytes_uncomp elem_size in
      if negb (rest =? 0) then failed
      else
        let! size := udiv nbytes_uncomp elem_size in
        match malloc buf_size_out with
        | None => failed
        | Some out_buf =>
            let! '(err, out_buf, nbytes_out) :=
              if compression then
                if reverse then
                  let! '(err, out_buf) := bshuf_decompress_lz4 malloc buf in_buf out_buf 0 size elem_size block_size in
                  Ret (to_i32 err, out_buf, nbytes_uncomp)
                else
                  let! out_buf := bshuf_write_uint64_BE out_buf 0 nbytes_uncomp in
                  let! out_buf := bshuf_write_uint32_BE out_buf 8 (block_size * elem_size) in
                  let! '(err, out_buf) := bshuf_compress_lz4 malloc buf in_buf out_buf 12 size elem_size block_size in
                  Ret (to_i32 err, out_buf, u64 (to_i32 err + 12))
              else if reverse then
                let! '(err, out_buf) := bshuf_bitunshuffle buf in_buf out_buf 0 size elem_size block_size in
                Ret (to_i32 err, out_buf, nbytes)
              else
                let! '(err, out_buf) := bshuf_bitshuffle buf in_buf out_buf 0 size elem_size block_size in
                Ret (to_i32 err, out_buf, nbytes) in
            if err <? 0 then failed else Ret (nbytes_out, buf_size_out, out_buf)
        end.

Context (Hmalloc : forall n, 0 <= n -> mallocs malloc n).

(** A chunk as the filter stores it: the size of the image, the size of a block, the compressed blocks. *)
Definition chunk_of (n block_bytes : Z) (data : list Z) : list Z := be_encode 8 n ++ be_encode 4 block_bytes ++ data.

Definition lz4_options (e bs : Z) : list Z := [BSHUF_VERSION_MAJOR; BSHUF_VERSION_MINOR; e; bs; BSHUF_H5_COMPRESS_LZ4].

(** The branch of [bshuf_h5_filter] that a dataset with the options for LZ4 takes; [Hopt] gives its block
    size. *)
Ltac lz4_branch Hopt :=
  unfold bshuf_h5_filter; change (zlen (lz4_options _ _)) with 5;
  change (5 <? 3) with false; change (3 <? 5) with true; change (4 <? 5) with true; cbv iota zeta;
  change (lz4_options ?e ?opt !!! 2%nat) with e; change (lz4_options ?e ?opt !!! 3%nat) with opt;
  change (lz4_options _ _ !!! 4%nat) with BSHUF_H5_COMPRESS_LZ4; rewrite Hopt; cbn [obind];
  change (BSHUF_H5_COMPRESS_LZ4 =? BSHUF_H5_COMPRESS_ZSTD) with false;
  change (BSHUF_H5_COMPRESS_LZ4 =? BSHUF_H5_COMPRESS_LZ4) with true.

(** Reading a chunk. *)
Lemma filter_reads size e bs b opt block_bytes inp data post buf_size :
  0 <= size -> 0 < e -> 0 <= block_bytes < 2 ^ 32 -> size * e < 2 ^ 64 -> zlen inp = size * e -> zlen data < 2 ^ 31 ->
  (if opt =? 0 then bshuf_default_block_size e else Ret opt) = Ret b -> block_bytes / e = bs ->
  (forall pre post opre old opost, zlen old = zlen inp ->
      bshuf_decompress_lz4 malloc (pre ++ data ++ post) (zlen pre) (opre ++ old ++ opost) (zlen opre) size e bs =
        Ret (zlen data, opre ++ inp ++ opost)) ->
  bshuf_h5_filter H5Z_FLAG_REVERSE (lz4_options e opt) (zlen (chunk_of (size * e) block_bytes data)) buf_size
      (chunk_of (size * e) block_bytes data ++ post) =
    Ret (size * e, size * e, inp).
Proof using Hmalloc.
  intros Hs He Hbb H64 Hz Hd Hopt Hbs Hdec. lz4_branch Hopt.
  change (Z.land H5Z_FLAG_REVERSE H5Z_FLAG_REVERSE =? 0) with false. cbn [andb orb negb].
  unfold chunk_of. rewrite <- !app_assoc. unfold bshuf_read_uint64_BE, bshuf_read_uint32_BE.
  rewrite read_BE_head by (done || nia). cbn [obind].
  rewrite (read_BE_spec 4 32 (be_encode 8 (size * e))) by (rewrite ?zlen_be_encode; done || lia). cbn [obind].
  unfold udiv, umod. rewrite (proj2 (Z.eqb_neq e 0)) by lia. cbn [obind]. rewrite Z_mod_mult, Z.div_mul, Hbs by lia. cbn [obind Z.eqb negb].
  destruct (Hmalloc (size * e)) as (out & -> & Ho); [nia|].
  specialize (Hdec (be_encode 8 (size * e) ++ be_encode 4 block_bytes) post [] out [] ltac:(lia)).
  rewrite <- !app_assoc, !app_nil_r in Hdec. cbn [app] in Hdec. rewrite zlen_app, !zlen_be_encode in Hdec.
  change (Z.of_nat 8 + Z.of_nat 4) with 12 in Hdec. change (zlen []) with 0 in Hdec. rewrite Hdec. cbn [obind].
  pose proof (zlen_nonneg data). rewrite to_i32_id by lia. by rewrite (proj2 (Z.ltb_ge (zlen data) 0)) by lia.
Qed.

Lemma effective_self e opt b : effective_block e opt b -> effective_block e b b.
Proof using Type. intros (_ & Hb). split; [|done]. destruct Hb. by rewrite (proj2 (Z.eqb_neq b 0)) by lia. Qed.

(** Writing a chunk. *)
Lemma filter_writes size e opt b bound inp post buf_size : 0 <= size -> 0 < e -> effective_block e opt b -> bytes inp ->
  zlen inp = size * e -> bshuf_compress_lz4_bound size e b = Ret bound -> bound + 12 < 2 ^ 31 -> size * e < 2 ^ 64 ->
  exists data rest, bytes data /\ zlen data <= bound /\
    bshuf_h5_filter 0 (lz4_options e opt) (size * e) buf_size (inp ++ post) =
      Ret (zlen (chunk_of (size * e) (b * e) data), bound + 12, chunk_of (size * e) (b * e) data ++ rest) /\
    zlen (chunk_of (size * e) (b * e) data) + zlen rest = bound + 12 /\
    (forall pre post opre old opost, zlen old = zlen inp ->
      bshuf_decompress_lz4 malloc (pre ++ data ++ post) (zlen pre) (opre ++ old ++ opost) (zlen opre) size e b =
        Ret (zlen data, opre ++ inp ++ opost)).
Proof using Hmalloc.
  intros Hs He Heff Hb Hz Hbound H31 H64. pose proof Heff as (Hopt & Hb0 & _ & Hmax). unfold LZ4_MAX_INPUT_SIZE in Hmax.
  destruct (lz4_array malloc Hmalloc size e b b inp) as (data & bound' & Hbd & Hb' & Hzd & Hc & Hd); [done|done|by apply (effective_self e opt)|done|done|].
  rewrite Hbound in Hb'. injection Hb' as <-. pose proof (zlen_nonneg data).
  assert (Hzc : zlen (chunk_of (size * e) (b * e) data) = 12 + zlen data)
    by (unfold chunk_of; rewrite !zlen_app, !zlen_be_encode; lia).
  destruct (Hmalloc (bound + 12)) as (out & Em & Ho); [lia|].
  destruct (split_at out 8) as (o8 & out1 & -> & Ho8); [lia|]. rewrite zlen_app in Ho.
  destruct (split_at out1 4) as (o4 & out2 & -> & Ho4); [lia|]. rewrite zlen_app in Ho.
  destruct (split_at out2 (zlen data)) as (od & rest & -> & Hod); [lia|]. rewrite zlen_app in Ho.
  exists data, rest. split_and!; [done|done| |lia|done].
  lz4_branch Hopt.
  change (Z.land 0 H5Z_FLAG_REVERSE =? 0) with true. cbn [andb orb negb].
  unfold udiv, umod. rewrite (proj2 (Z.eqb_neq e 0)) by lia. cbn [obind]. rewrite Z.div_mul, Hbound by lia. cbn [obind].
  rewrite Z_mod_mult. cbn [obind Z.eqb negb]. rewrite Z.div_mul by lia. rewrite Em.
  unfold bshuf_write_uint64_BE, bshuf_write_uint32_BE. rewrite u64_small by nia.
  rewrite write_BE_head by (unfold zlen in Ho8; lia). cbn [obind]. rewrite u32_small by nia.
  rewrite (write_BE_spec 4 (be_encode 8 (size * e))) by (rewrite ?zlen_be_encode; unfold zlen in Ho4; done || lia). cbn [obind].
  specialize (Hc [] post (be_encode 8 (size * e) ++ be_encode 4 (b * e)) od rest Hod).
  cbn [app] in Hc. rewrite <- !app_assoc, zlen_app, !zlen_be_encode in Hc.
  change (Z.of_nat 8 + Z.of_nat 4) with 12 in Hc. change (zlen []) with 0 in Hc. rewrite Hc. cbn [obind].
  rewrite to_i32_id by lia. rewrite (proj2 (Z.ltb_ge (zlen data) 0)) by lia. rewrite Hzc, u64_small by lia.
  unfold chunk_of. rewrite <- !app_assoc. do 3 f_equal. lia.
Qed.

(** Writing a chunk, and reading what the first call announced of it; the header of the chunk has the size of a block. *)
Lemma filter_write_read size e bs b bound inp :
  0 <= size -> 0 < e < 2 ^ 32 -> effective_block e bs b -> bytes inp -> zlen inp = size * e -> size * e < 2 ^ 64 ->
  bshuf_compress_lz4_bound size e b = Ret bound -> bound + 12 < 2 ^ 31 ->
  exists n stored,
    bshuf_h5_filter 0 (lz4_options e bs) (size * e) (size * e) inp = Ret (n, bound + 12, stored) /\
    12 <= n <= bound + 12 /\ zlen stored = bound + 12 /\
    bshuf_read_uint32_BE (take (Z.to_nat n) stored) 8 = Ret (b * e) /\
    bshuf_h5_filter H5Z_FLAG_REVERSE (lz4_options e bs) n n (take (Z.to_nat n) stored) = Ret (size * e, size * e, inp).
Proof using Hmalloc.
  intros Hs He Heff Hb Hz H64 Hbound H31. pose proof Heff as (Hopt & Hb0 & _ & Hmax). unfold LZ4_MAX_INPUT_SIZE in Hmax.
  destruct (filter_writes size e bs b bound inp [] (size * e)) as (data & rest & Hbd & Hzd & Hw & Hzs & Hdec); [lia|lia|done..|].
  assert (Hzc : zlen (chunk_of (size * e) (b * e) data) = 12 + zlen data)
    by (unfold chunk_of; rewrite !zlen_app, !zlen_be_encode; lia).
  rewrite app_nil_r in Hw. pose proof (zlen_nonneg data).
  exists (zlen (chunk_of (size * e) (b * e) data)), (chunk_of (size * e) (b * e) data ++ rest).
  split; [done|]. split; [lia|]. split; [by rewrite zlen_app|].
  replace (take _ _) with (chunk_of (size * e) (b * e) data) by (unfold zlen; by rewrite Nat2Z.id, take_app_length). split.
  - unfold bshuf_read_uint32_BE, chunk_of. apply (read_BE_spec 4 32 (be_encode 8 (size * e))); rewrite ?zlen_be_encode; nia.
  - pose proof (filter_reads size e b b bs (b * e) inp data [] (zlen (chunk_of (size * e) (b * e) data))) as E.
    rewrite app_nil_r in E. apply E; try done; try nia. by rewrite Z.div_mul by lia.
Qed.

Lemma set_local_lz4 bs e : 0 <= bs -> bs mod 8 = 0 -> 0 < e < 2 ^ 32 ->
  bshuf_h5_set_local (Some [bs; BSHUF_H5_COMPRESS_LZ4]) e = Ret (Some (lz4_options e bs)).
Proof using Type.
  intros Hbs Hm He. unfold bshuf_h5_set_local. cbv zeta. rewrite u32_small by lia. rewrite (proj2 (Z.leb_gt e 0)) by lia.
  change (3 <? 3 + zlen [bs; BSHUF_H5_COMPRESS_LZ4]) with true. cbn [andb].
  match goal with |- context [?l !!! 3%nat] => change (l !!! 3%nat) with bs end. rewrite Hm. cbn [Z.eqb negb]. done.
Qed.
End Filter.

(** C23: A chunk of an HDF5 dataset that is created with the options [bs] (a block size, 0 for the default)
    and LZ4 for elements of [e] bytes: [bshuf_h5_set_local] accepts the options, the filter writes a chunk of at most the
    size it computes beforehand, with its header, and the filter that reads what HDF5 stored of it, the
    bytes the first call announced, gives the data back.  The routines that transpose the bits are any that satisfy
    their interface, LZ4 is any library that does what is documented. *)
Theorem h5_filter_roundtrip `{BitTransposer} `{Lz4} (malloc : Z -> option (list Z)) (size e bs b bound : Z) (inp : list Z) :
  (forall n, 0 <= n -> mallocs malloc n) ->
  0 <= size -> 0 < e < 2 ^ 32 -> 0 <= bs -> bs mod 8 = 0 -> effective_block e bs b ->
  bytes inp -> zlen inp = size * e -> size * e < 2 ^ 64 ->
  bshuf_compress_lz4_bound size e b = Ret bound -> bound + 12 < 2 ^ 31 ->
  exists options n stored,
    bshuf_h5_set_local (Some [bs; BSHUF_H5_COMPRESS_LZ4]) e = Ret (Some options) /\
    bshuf_h5_filter malloc 0 options (size * e) (size * e) inp = Ret (n, bound + 12, stored) /\
    12 <= n <= bound + 12 /\ zlen stored = bound + 12 /\
    bshuf_h5_filter malloc H5Z_FLAG_REVERSE options n n (take (Z.to_nat n) stored) = Ret (size * e, size * e, inp).
Proof.
  intros Hm Hs He Hbs Hb8 Heff Hb Hz H64 Hbound H31.
  destruct (filter_write_read malloc Hm size e bs b bound inp) as (n & stored & Hw & Hn & Hzs & _ & Hr); try done.
  exists (lz4_options e bs), n, stored. split; [by apply set_local_lz4|]. done.
Qed.

(** A library that stores its input as it is. *)
Definition stored_bound (n : Z) : Z := n + n / 255 + 16.

Program Definition stored_lz4 : Lz4 := {|
  LZ4_compressBound := stored_bound;
  LZ4_compress_default := fun src _ => (zlen src, src);
  LZ4_decompress_safe := fun src _ => (zlen src, src) |}.
Next Obligation.
  intros n Hn. unfold LZ4_MAX_INPUT_SIZE in Hn. unfold stored_bound.
  pose proof (Z.div_mod n 255 ltac:(lia)). pose proof (Z.mod_pos_bound n 255 ltac:(lia)). lia.
Qed.
Next Obligation.
  intros src cap Hb Hz _. exists src. cbv beta. split; [done|]. split; [done|]. split; [|done]. unfold stored_bound.
  pose proof (Z.div_mod (zlen src) 255 ltac:(lia)). pose proof (Z.mod_pos_bound (zlen src) 255 ltac:(lia)). lia.
Qed.

Definition demo_chunk : list Z := demo_elems ++ [9; 0; 10; 0; 11; 0].

Lemma demo_chunk_bytes : bytes demo_chunk.
Proof. unfold demo_chunk, demo_elems, bytes. cbn [app]. repeat (constructor; [lia|]). constructor. Qed.

Lemma h5_filter_roundtrip_witness :
  @bshuf_h5_filter portable stored_lz4 zeroed 0 (lz4_options 2 8) 22 22 demo_chunk =
    Ret (38, 54, [0; 0; 0; 0; 0; 0; 0; 22; 0; 0; 0; 16; 0; 0; 0; 16;
      85; 102; 120; 128; 0; 0; 0; 0; 0; 0; 0; 0; 0; 0; 0; 128; 9; 0; 10; 0; 11; 0] ++ replicate 16 0) /\
  exists options n stored,
    bshuf_h5_set_local (Some [8; BSHUF_H5_COMPRESS_LZ4]) 2 = Ret (Some options) /\
    @bshuf_h5_filter portable stored_lz4 zeroed 0 options (11 * 2) (11 * 2) demo_chunk = Ret (n, 42 + 12, stored) /\
    12 <= n <= 42 + 12 /\ zlen stored = 42 + 12 /\
    @bshuf_h5_filter portable stored_lz4 zeroed H5Z_FLAG_REVERSE options n n (take (Z.to_nat n) stored) = Ret (11 * 2, 11 * 2, demo_chunk).
Proof.
  split; [vm_compute; reflexivity|].
  apply (@h5_filter_roundtrip portable stored_lz4 zeroed 11 2 8 8 42 demo_chunk); try lia; try reflexivity.
  - apply zeroed_mallocs.
  - split; [reflexivity|]. split_and!; [lia|reflexivity|unfold LZ4_MAX_INPUT_SIZE; lia].
  - exact demo_chunk_bytes.
Defined.
