(* ===== verification/Zstd.v ===== *)
(** * Bitshuffle with ZSTD

    [src/source/external/bitshuffle/bitshuffle.c] and [bshuf_h5filter.c] with [ZSTD_SUPPORT] defined (the build of this
    repository does not define it, a build of the library may): the blocks that ZSTD compresses, the bound of their size
    and the filter of HDF5 with its ZSTD branches.  ZSTD is a parameter, the class [Zstd] with what
    its documentation promises.  Seen through [zstd_codec] it is a codec like LZ4, and on blocks of at most
    [LZ4_MAX_INPUT_SIZE] bytes the routines for ZSTD are those for LZ4 with that codec, so that the theorems of [Bslz4] and
    [H5Bitshuffle] carry over. *)

From S2P Require Import Prelude Scatter Bitshuffle Bslz4 H5Bitshuffle.

(** ** The library *)

(** A call returns its [size_t], an error as a negative number modulo [2 ^ 64], and the bytes that it stores at the
    start of the destination. *)
Class Zstd := {
  ZSTD_compressBound : Z -> Z;
  ZSTD_compress : list Z -> Z -> Z -> Z * list Z;
  ZSTD_decompress : list Z -> Z -> Z * list Z;
  zstd_bound_law : forall n, 0 <= n <= LZ4_MAX_INPUT_SIZE -> 0 <= ZSTD_compressBound n < 2 ^ 31;
  zstd_roundtrip_law : forall src cap lvl, bytes src -> 0 < zlen src <= LZ4_MAX_INPUT_SIZE -> ZSTD_compressBound (zlen src) <= cap ->
    exists data, ZSTD_compress src cap lvl = (zlen data, data) /\ bytes data /\ 0 < zlen data <= ZSTD_compressBound (zlen src) /\
      forall cap', zlen src <= cap' -> ZSTD_decompress data cap' = (zlen src, src) }.

(** ** bitshuffle.c *)

Section Blocks.
Context `{BitTransposer} `{Zstd} (malloc : Z -> option (list Z)).

Definition bshuf_compress_zstd_block (C : ioc_chain) (inp out : list Z) (size elem_size comp_lvl : Z) :
    outcome (Z * ioc_chain * list Z) :=
  match malloc (size * elem_size) with
  | None => Ret (-1, C, out)
  | Some tmp_buf_bshuf =>
      let tmp_buf_zstd_size := ZSTD_compressBound (size * elem_size) in
      match malloc tmp_buf_zstd_size with
      | None => Ret (-1, C, out)
      | Some tmp_buf_zstd =>
          let! '(this_iter, i, C) := ioc_get_in C in
          let C := ioc_set_next_in C this_iter (i + size * elem_size) in
          let! src := mem_read inp i (size * elem_size) in
          let! '(count, tmp_buf_bshuf) := bshuf_trans_bit_elem src tmp_buf_bshuf size elem_size in
          if count <? 0 then Ret (count, C, out)
          else
            let '(n, stored) := ZSTD_compress tmp_buf_bshuf tmp_buf_zstd_size comp_lvl in
            let nbytes := to_i64 n in
            let! tmp_buf_zstd := mem_write tmp_buf_zstd 0 stored in
            if nbytes <? 0 then Ret (nbytes - 1000, C, out)
            else
              let! o := ioc_get_out C this_iter in
              let C := ioc_set_next_out C this_iter (o + nbytes + 4) in
              let! out := bshuf_write_uint32_BE out o nbytes in
              let! out := memcpy out (o + 4) tmp_buf_zstd 0 nbytes in
              Ret (nbytes + 4, C, out)
      end
  end.

Definition bshuf_decompress_zstd_block (C : ioc_chain) (inp out : list Z) (size elem_size option : Z) :
    outcome (Z * ioc_chain * list Z) :=
  let! '(this_iter, i, C) := ioc_get_in C in
  let! header := bshuf_read_uint32_BE inp i in
  let nbytes_from_header := to_i32 header in
  let C := ioc_set_next_in C this_iter (i + nbytes_from_header + 4) in
  let! o := ioc_get_out C this_iter in
  let C := ioc_set_next_out C this_iter (o + size * elem_size) in
  match malloc (size * elem_size) with
  | None => Ret (-1, C, out)
  | Some tmp_buf =>
      let! src := mem_read inp (i + 4) (u64 nbytes_from_header) in
      let '(n, stored) := ZSTD_decompress src (size * elem_size) in
      let nbytes := to_i64 n in
      let! tmp_buf := mem_write tmp_buf 0 stored in
      if nbytes <? 0 then Ret (nbytes - 1000, C, out)
      else if negb (nbytes =? size * elem_size) then Ret (-91, C, out)
      else
        let! dst := mem_read out o (size * elem_size) in
        let! '(count, dst) := bshuf_untrans_bit_elem tmp_buf dst size elem_size in
        let! out := mem_write out o dst in
        if count <? 0 then Ret (count, C, out)
        else Ret (nbytes_from_header + 4, C, out)
  end.

Definition bshuf_compress_zstd_bound (size elem_size block_size : Z) : outcome Z :=
  let! block_size := if block_size =? 0 then bshuf_default_block_size elem_size else Ret block_size in
  if negb (block_size mod BSHUF_BLOCKED_MULT =? 0) then Ret (u64 (-81))
  else
    let bound := (ZSTD_compressBound (block_size * elem_size) + 4) * (size / block_size) in
    let leftover := size mod block_size / BSHUF_BLOCKED_MULT * BSHUF_BLOCKED_MULT in
    let bound := if leftover =? 0 then bound else bound + (ZSTD_compressBound (leftover * elem_size) + 4) in
    Ret (bound + size mod BSHUF_BLOCKED_MULT * elem_size).

Definition bshuf_compress_zstd (inp : list Z) (in_ptr : Z) (out : list Z) (out_ptr size elem_size block_size comp_lvl : Z) : routine :=
  bshuf_blocked_wrap_fun bshuf_compress_zstd_block inp in_ptr out out_ptr size elem_size block_size comp_lvl.

Definition bshuf_decompress_zstd (inp : list Z) (in_ptr : Z) (out : list Z) (out_ptr size elem_size block_size : Z) : routine :=
  bshuf_blocked_wrap_fun bshuf_decompress_zstd_block inp in_ptr out out_ptr size elem_size block_size 0.
End Blocks.

(** ** bshuf_h5filter.c with ZSTD_SUPPORT *)

Section Filter.
Context `{BitTransposer} `{Lz4} `{Zstd} (malloc : Z -> option (list Z)).

(** The level is read before the number of values is compared with anything but 3. *)
Definition bshuf_h5_filter_zstd (flags : Z) (cd_values : list Z) (nbytes buf_size : Z) (buf : list Z) :
    outcome (Z * Z * list Z) :=
  let cd_nelmts := zlen cd_values in
  let failed := Ret (0, buf_size, buf) in
  if cd_nelmts <? 3 then failed
  else
    let elem_size := cd_values !!! 2%nat in
    let! level := byte_at cd_values 5 in
    let comp_lvl := to_i32 level in
    let block_size := if 3 <? cd_nelmts then cd_values !!! 3%nat else 0 in
    let! block_size := if block_size =? 0 then bshuf_default_block_size elem_size else Ret block_size in
    let codec := cd_values !!! 4%nat in
    let compression := (4 <? cd_nelmts) && ((codec =? BSHUF_H5_COMPRESS_LZ4) || (codec =? BSHUF_H5_COMPRESS_ZSTD)) in
    let reverse := negb (Z.land flags H5Z_FLAG_REVERSE =? 0) in
    let! '(nbytes_uncomp, block_size, in_buf, buf_size_out) :=
      if compression then
        if reverse then
          let! nbytes_uncomp := bshuf_read_uint64_BE buf 0 in
          let! header := bshuf_read_uint32_BE buf 8 in
          let! block_size := udiv header elem_size in
          Ret (nbytes_uncomp, block_size, 12, nbytes_uncomp)
        else
          let! size := udiv nbytes elem_size in
          let! bound := if codec =? BSHUF_H5_COMPRESS_LZ4 then bshuf_compress_lz4_bound size elem_size block_size
                        else bshuf_compress_zstd_bound size elem_size block_size in
          Ret (nbytes, block_size, 0, bound + 12)
      else Ret (nbytes, block_size, 0, nbytes) in
    let! rest := umod nbytes_uncomp elem_size in
    if negb (rest =? 0) then failed
    else
      let! size := udiv nbytes_uncomp elem_size in
      match malloc buf_size_out with
      | None => failed
      | Some out_buf =>
          let! '(err, out_buf, nbytes_out) :=
            if compression then
              if reverse then
                let! '(err, out_buf) :=
                  if codec =? BSHUF_H5_COMPRESS_LZ4 then bshuf_decompress_lz4 malloc buf in_buf out_buf 0 size elem_size block_size
                  else bshuf_decompress_zstd malloc buf in_buf out_buf 0 size elem_size block_size in
                Ret (to_i32 err, out_buf, nbytes_uncomp)
              else
                let! out_buf := bshuf_write_uint64_BE out_buf 0 nbytes_uncomp in
                let! out_buf := bshuf_write_uint32_BE out_buf 8 (block_size * elem_size) in
                let! '(err, out_buf) :=
                  if codec =? BSHUF_H5_COMPRESS_LZ4 then bshuf_compress_lz4 malloc buf in_buf out_buf 12 size elem_size block_size
                  else bshuf_compress_zstd malloc buf in_buf out_buf 12 size elem_size block_size comp_lvl in
                Ret (to_i32 err, out_buf, u64 (to_i32 err + 12))
            else if reverse then
              let! '(err, out_buf) := bshuf_bitunshuffle buf in_buf out_buf 0 size elem_size block_size in
              Ret (to_i32 err, out_buf, nbytes)
            else
              let! '(err, out_buf) := bshuf_bitshuffle buf in_buf out_buf 0 size elem_size block_size in
              Ret (to_i32 err, out_buf, nbytes) in
          if err <? 0 then failed else Ret (nbytes_out, buf_size_out, out_buf)
      end.
End Filter.

(** ** ZSTD as a codec like LZ4 *)

#[program]
Definition zstd_codec `{Zstd} (lvl : Z) : Lz4 := {|
  LZ4_compressBound := ZSTD_compressBound;
  LZ4_compress_default src cap := let '(n, stored) := ZSTD_compress src cap lvl in (to_i64 n, stored);
  LZ4_decompress_safe src cap := let '(n, stored) := ZSTD_decompress src cap in (to_i64 n, stored);
  lz4_bound_law := zstd_bound_law |}.
Next Obligation.
  intros H lvl src cap Hb Hz Hc. destruct (zstd_roundtrip_law src cap lvl Hb Hz Hc) as (data & Ec & Hbd & Hd & Ed).
  pose proof (zstd_bound_law (zlen src)). unfold LZ4_MAX_INPUT_SIZE in *.
  exists data. cbv beta. rewrite Ec, to_i64_small by lia. split; [done|]. split; [done|]. split; [done|]. intros cap' Hc'. cbv beta.
  rewrite Ed by done. by rewrite to_i64_small by lia.
Qed.

(** *** Routines that agree on the blocks of an array *)

Lemma foldO_ext {S A} (f g : S -> A -> outcome S) (l : list A) s : (forall s x, f s x = g s x) -> foldO f l s = foldO g l s.
Proof. intros Hfg. revert s. induction l as [|x l IH]; intros s; cbn [foldO]; [done|]. rewrite Hfg. destruct (g s x); cbn [obind]; [apply IH|done..]. Qed.

Lemma wrap_fun_ext (f g : ioc_chain -> list Z -> list Z -> Z -> Z -> Z -> outcome (Z * ioc_chain * list Z)) inp i out o size e b opt opt' :
  0 <= size -> 0 < b ->
  (forall C out n, 0 < n <= b -> f C inp out n e opt = g C inp out n e opt') ->
  bshuf_blocked_wrap_fun f inp i out o size e b opt = bshuf_blocked_wrap_fun g inp i out o size e b opt'.
Proof.
  intros Hs Hb Hfg. assert (Hstep : forall st n, 0 < n <= b -> wrap_step f inp e opt st n = wrap_step g inp e opt' st n).
  { intros (((C & out') & err) & cum) n Hn. cbn. by rewrite Hfg. }
  unfold bshuf_blocked_wrap_fun, BSHUF_BLOCKED_MULT. rewrite (proj2 (Z.eqb_neq b 0)) by lia. cbn [obind].
  destruct (negb _); [done|]. rewrite (foldO_ext _ (fun st _ => wrap_step g inp e opt' st b)) by (intros; by apply Hstep; lia).
  destruct (foldO _ _ _) as [st|?|?]; cbn [obind]; [|done..]. cbv zeta.
  pose proof (Z.mod_pos_bound size b ltac:(lia)). pose proof (Z.mod_pos_bound (size mod b) 8 ltac:(lia)).
  pose proof (Z.mod_le (size mod b) 8 ltac:(lia) ltac:(lia)).
  destruct (Z.eqb_spec (size mod b - size mod b mod 8) 0); [done|]. by rewrite Hstep by lia.
Qed.

Section Codec.
Context `{BitTransposer} `{Zstd} (malloc : Z -> option (list Z)).

(** The blocks: an [int] holds the sizes. *)
Lemma compress_zstd_block_codec C inp out n e lvl : 0 <= n * e < 2 ^ 31 ->
  bshuf_compress_zstd_block malloc C inp out n e lvl = @bshuf_compress_lz4_block _ (zstd_codec lvl) malloc C inp out n e 0.
Proof using Type.
  intros Hn. unfold bshuf_compress_zstd_block, bshuf_compress_lz4_block. cbn [LZ4_compressBound zstd_codec LZ4_compress_default].
  rewrite to_i32_id by done. destruct (malloc (n * e)); [|done]. destruct (malloc _); [|done].
  destruct (ioc_get_in C) as [[[it i] C1]|?|?]; cbn [obind]; [|done..].
  destruct (mem_read inp i (n * e)); cbn [obind]; [|done..].
  destruct (bshuf_trans_bit_elem _ _ _ _) as [[count t]|?|?]; cbn [obind]; [|done..]. destruct (count <? 0); [done|].
  by destruct (ZSTD_compress t _ lvl).
Qed.

Lemma to_i32_range x : - 2 ^ 31 <= to_i32 x < 2 ^ 31.
Proof using Type. unfold to_i32, swrap. pose proof (Z.mod_pos_bound (x + 2 ^ (32 - 1)) (2 ^ 32) ltac:(lia)). lia. Qed.

(** A negative size is as far out of bounds as the [size_t] that it becomes. *)
Lemma mem_read_size (inp : list Z) off h : - 2 ^ 31 <= h < 2 ^ 31 -> zlen inp < 2 ^ 63 -> mem_read inp off (u64 h) = mem_read inp off h.
Proof using Type.
  intros Hh Hz. destruct (Z.lt_ge_cases h 0); [|by rewrite u64_small by lia].
  assert (E : u64 h = h + 2 ^ 64) by (unfold u64, wrap; symmetry; apply (Z.mod_unique _ _ (-1)); lia).
  rewrite E. unfold mem_read, in_block. rewrite (proj2 (Z.leb_gt 0 h)) by lia.
  destruct (Z.leb_spec 0 off); [|done]. by rewrite (proj2 (Z.leb_gt (off + (h + 2 ^ 64)) _)), !andb_false_r by lia.
Qed.

Lemma decompress_zstd_block_codec C inp out n e lvl opt : 0 <= n * e < 2 ^ 31 -> zlen inp < 2 ^ 63 ->
  bshuf_decompress_zstd_block malloc C inp out n e opt = @bshuf_decompress_lz4_block _ (zstd_codec lvl) malloc C inp out n e 0.
Proof using Type.
  intros Hn Hz. unfold bshuf_decompress_zstd_block, bshuf_decompress_lz4_block. cbn [zstd_codec LZ4_decompress_safe].
  rewrite (to_i32_id (n * e)) by done.
  destruct (ioc_get_in C) as [[[it i] C1]|?|?]; cbn [obind]; [|done..].
  destruct (bshuf_read_uint32_BE inp i) as [h|?|?]; cbn [obind]; [|done..].
  destruct (ioc_get_out _ it) as [o|?|?]; cbn [obind]; [|done..]. destruct (malloc (n * e)); [|done].
  rewrite mem_read_size by (done || apply to_i32_range). destruct (mem_read _ _ _) as [src|?|?]; cbn [obind]; [|done..].
  by destruct (ZSTD_decompress src (n * e)).
Qed.

(** The arrays. *)
Lemma compress_zstd_codec inp i out o size e bs b lvl : 0 <= size -> 0 < e -> effective_block e bs b ->
  bshuf_compress_zstd malloc inp i out o size e bs lvl = @bshuf_compress_lz4 _ (zstd_codec lvl) malloc inp i out o size e bs.
Proof using Type.
  intros Hs He Heff. unfold bshuf_compress_zstd, bshuf_compress_lz4. rewrite !(wrap_effective _ _ _ _ _ _ _ bs b) by done.
  destruct Heff as (_ & Hb & _ & Hmax). unfold LZ4_MAX_INPUT_SIZE in Hmax.
  apply wrap_fun_ext; [done..|]. intros. apply compress_zstd_block_codec. nia.
Qed.

Lemma decompress_zstd_codec inp i out o size e bs b lvl : 0 <= size -> 0 < e -> effective_block e bs b -> zlen inp < 2 ^ 63 ->
  bshuf_decompress_zstd malloc inp i out o size e bs = @bshuf_decompress_lz4 _ (zstd_codec lvl) malloc inp i out o size e bs.
Proof using Type.
  intros Hs He Heff Hz. unfold bshuf_decompress_zstd, bshuf_decompress_lz4. rewrite !(wrap_effective _ _ _ _ _ _ _ bs b) by done.
  destruct Heff as (_ & Hb & _ & Hmax). unfold LZ4_MAX_INPUT_SIZE in Hmax.
  apply wrap_fun_ext; [done..|]. intros. apply decompress_zstd_block_codec; [nia|done].
Qed.

Lemma zstd_bound_codec size e bs b lvl : 0 <= size -> 0 < e -> effective_block e bs b ->
  bshuf_compress_zstd_bound size e bs = @bshuf_compress_lz4_bound (zstd_codec lvl) size e bs.
Proof using Type.
  intros Hs He (E & Hb & _ & Hmax). unfold LZ4_MAX_INPUT_SIZE in Hmax. unfold bshuf_compress_zstd_bound, bshuf_compress_lz4_bound.
  rewrite E. cbn [obind LZ4_compressBound zstd_codec]. destruct (negb _); [done|]. unfold BSHUF_BLOCKED_MULT.
  pose proof (Z.mod_pos_bound size b ltac:(lia)). pose proof (Z.div_mod (size mod b) 8 ltac:(lia)).
  pose proof (Z.mod_pos_bound (size mod b) 8 ltac:(lia)).
  assert (0 <= size mod b / 8 * 8 <= b) by lia.
  rewrite (to_i32_id (b * e)), (to_i32_id (size mod b / 8 * 8 * e)) by nia. done.
Qed.

(** The filter. *)
Context `{Lz4}.

Definition zstd_options (e bs lvl : Z) : list Z := [BSHUF_VERSION_MAJOR; BSHUF_VERSION_MINOR; e; bs; BSHUF_H5_COMPRESS_ZSTD; lvl].

Ltac zstd_branch :=
  unfold bshuf_h5_filter_zstd, bshuf_h5_filter; change (zlen (lz4_options _ _)) with 5; change (zlen (zstd_options _ _ _)) with 6;
  change (byte_at (zstd_options _ _ ?l) 5) with (@Ret Z l);
  change (5 <? 3) with false; change (3 <? 5) with true; change (4 <? 5) with true;
  change (6 <? 3) with false; change (3 <? 6) with true; change (4 <? 6) with true; cbv iota zeta; cbn [obind];
  change (zstd_options ?e ?opt _ !!! 2%nat) with e; change (zstd_options ?e ?opt _ !!! 3%nat) with opt;
  change (zstd_options _ _ _ !!! 4%nat) with BSHUF_H5_COMPRESS_ZSTD;
  change (lz4_options ?e ?opt !!! 2%nat) with e; change (lz4_options ?e ?opt !!! 3%nat) with opt;
  change (lz4_options _ _ !!! 4%nat) with BSHUF_H5_COMPRESS_LZ4;
  change (BSHUF_H5_COMPRESS_ZSTD =? BSHUF_H5_COMPRESS_LZ4) with false; change (BSHUF_H5_COMPRESS_ZSTD =? BSHUF_H5_COMPRESS_ZSTD) with true;
  change (BSHUF_H5_COMPRESS_LZ4 =? BSHUF_H5_COMPRESS_ZSTD) with false; change (BSHUF_H5_COMPRESS_LZ4 =? BSHUF_H5_COMPRESS_LZ4) with true.

Lemma filter_zstd_writes e opt b lvl nbytes buf_size buf : 0 < e -> effective_block e opt b -> 0 <= nbytes ->
  bshuf_h5_filter_zstd malloc 0 (zstd_options e opt lvl) nbytes buf_size buf =
    @bshuf_h5_filter _ (zstd_codec (to_i32 lvl)) malloc 0 (lz4_options e opt) nbytes buf_size buf.
Proof using Type.
  intros He Heff Hn. pose proof (effective_self _ _ _ Heff) as Hself. destruct Heff as (Hopt & _). zstd_branch. rewrite Hopt. cbn [obind].
  change (Z.land 0 H5Z_FLAG_REVERSE =? 0) with true. cbn [andb orb negb].
  unfold udiv, umod. rewrite (proj2 (Z.eqb_neq e 0)) by lia. cbn [obind].
  assert (0 <= nbytes / e) by (apply Z.div_pos; lia). rewrite (zstd_bound_codec _ e b b (to_i32 lvl)) by done.
  destruct (bshuf_compress_lz4_bound _ _ _) as [bound|?|?]; cbn [obind]; [|done..]. destruct (negb _); [done|].
  destruct (malloc (bound + 12)) as [out|]; [|done].
  destruct (bshuf_write_uint64_BE out 0 nbytes) as [out1|?|?]; cbn [obind]; [|done..].
  destruct (bshuf_write_uint32_BE out1 8 (b * e)) as [out2|?|?]; cbn [obind]; [|done..].
  by rewrite (compress_zstd_codec _ _ _ _ _ e b b).
Qed.

Lemma read_BE_nonneg n w buf off v : 0 < w -> read_BE n w buf off = Ret v -> 0 <= v.
Proof using Type.
  intros Hw. unfold read_BE. cut (forall l num cp num' cp', 0 <= num -> foldO (fun '(num, cp) ii =>
      let! b := byte_at buf (off + ii) in Ret (wrap w (num + wrap w (b * cp)), wrap w (cp * 2 ^ 8))) l (num, cp) = Ret (num', cp') -> 0 <= num').
  { intros Hc E. destruct (foldO _ _ _) as [[num cp]|?|?] eqn:Ef; [|done..]. injection E as <-. by eapply Hc. }
  induction l as [|i l IH]; intros num cp num' cp' Hn E; cbn [foldO] in E; [by simplify_eq|].
  destruct (byte_at buf (off + i)); cbn [obind] in E; [|done..]. apply IH in E; [done|]. unfold wrap. apply Z.mod_pos_bound. lia.
Qed.

Lemma filter_zstd_reads e opt b lvl h nbytes buf_size buf : 0 < e ->
  bshuf_read_uint32_BE buf 8 = Ret h -> effective_block e (h / e) b -> zlen buf < 2 ^ 63 ->
  bshuf_h5_filter_zstd malloc H5Z_FLAG_REVERSE (zstd_options e opt lvl) nbytes buf_size buf =
    @bshuf_h5_filter _ (zstd_codec (to_i32 lvl)) malloc H5Z_FLAG_REVERSE (lz4_options e opt) nbytes buf_size buf.
Proof using Type.
  intros He Hh Heff Hz. zstd_branch.
  destruct (if opt =? 0 then bshuf_default_block_size e else Ret opt); cbn [obind]; [|done..].
  change (Z.land H5Z_FLAG_REVERSE H5Z_FLAG_REVERSE =? 0) with false. cbn [andb orb negb].
  destruct (bshuf_read_uint64_BE buf 0) as [n|?|?] eqn:En; cbn [obind]; [|done..]. rewrite Hh. cbn [obind].
  unfold udiv, umod. rewrite (proj2 (Z.eqb_neq e 0)) by lia. cbn [obind]. destruct (negb _); [done|].
  destruct (malloc n) as [out|]; [|done]. apply read_BE_nonneg in En; [|done].
  by rewrite (decompress_zstd_codec _ _ _ _ _ e (h / e) b (to_i32 lvl)) by (done || apply Z.div_pos; lia).
Qed.
End Codec.

(** A chunk of a dataset with ZSTD: the filter that was built with ZSTD writes a chunk of at most the size it
    computes beforehand and gives the data back from what HDF5 stored of it, for every level.  [bshuf_h5_set_local] accepts the
    options. *)
Lemma h5_zstd_roundtrip `{BitTransposer} `{Lz4} `{Zstd} (malloc : Z -> option (list Z)) (size e bs b lvl bound : Z) (inp : list Z) :
  (forall n, 0 <= n -> mallocs malloc n) ->
  0 <= size -> 0 < e < 2 ^ 32 -> 0 <= bs -> bs mod 8 = 0 -> effective_block e bs b ->
  bytes inp -> zlen inp = size * e -> size * e < 2 ^ 64 ->
  bshuf_compress_zstd_bound size e b = Ret bound -> bound + 12 < 2 ^ 31 ->
  exists options n stored,
    bshuf_h5_set_local (Some [bs; BSHUF_H5_COMPRESS_ZSTD; lvl]) e = Ret (Some options) /\
    bshuf_h5_filter_zstd malloc 0 options (size * e) (size * e) inp = Ret (n, bound + 12, stored) /\
    12 <= n <= bound + 12 /\ zlen stored = bound + 12 /\
    bshuf_h5_filter_zstd malloc H5Z_FLAG_REVERSE options n n (take (Z.to_nat n) stored) = Ret (size * e, size * e, inp).
Proof.
  intros Hm Hs He Hbs Hb8 Heff Hb Hz H64 Hbound H31. pose proof (effective_self _ _ _ Heff) as Hself.
  rewrite (zstd_bound_codec size e b b (to_i32 lvl)) in Hbound by (done || lia).
  destruct (@filter_write_read _ (zstd_codec (to_i32 lvl)) malloc Hm size e bs b bound inp) as (n & stored & Hw & Hn & Hzs & Hh & Hr); try done.
  exists (zstd_options e bs lvl), n, stored. split; [|split; [|split; [done|split; [done|]]]].
  - unfold bshuf_h5_set_local. cbv zeta. rewrite u32_small by lia. rewrite (proj2 (Z.leb_gt e 0)) by lia.
    change (3 <? 3 + zlen [bs; BSHUF_H5_COMPRESS_ZSTD; lvl]) with true. cbn [andb].
    match goal with |- context [?l !!! 3%nat] => change (l !!! 3%nat) with bs end. rewrite Hb8. cbn [Z.eqb negb]. done.
  - rewrite (filter_zstd_writes malloc e bs b) by (done || nia). done.
  - rewrite (filter_zstd_reads malloc e bs b lvl (b * e)); [done|lia|done|by rewrite Z.div_mul by lia|].
    unfold zlen in *. rewrite length_take. lia.
Qed.

(** The other datasets: with six or more values the filter that was built with ZSTD does what the other
    one does. *)
Lemma zstd_build_agrees `{BitTransposer} `{Lz4} `{Zstd} malloc flags cd_values nbytes buf_size buf :
  6 <= zlen cd_values -> cd_values !!! 4%nat <> BSHUF_H5_COMPRESS_ZSTD ->
  bshuf_h5_filter_zstd malloc flags cd_values nbytes buf_size buf = bshuf_h5_filter malloc flags cd_values nbytes buf_size buf.
Proof.
  intros Hl Hc. unfold bshuf_h5_filter_zstd, bshuf_h5_filter. rewrite byte_at_ret by lia. cbv zeta. cbn [obind].
  rewrite (proj2 (Z.eqb_neq _ _) Hc), andb_false_r, orb_false_r.
  destruct (cd_values !!! 4%nat =? BSHUF_H5_COMPRESS_LZ4); [done|]. by rewrite andb_false_r.
Qed.

(** But it reads the level first, whatever the compression: five values, the options of a dataset with
    LZ4, or three, those without compression, are read past their end. *)
Lemma zstd_build_level_out_of_bounds `{BitTransposer} `{Lz4} `{Zstd} malloc flags cd_values nbytes buf_size buf :
  3 <= zlen cd_values < 6 ->
  bshuf_h5_filter_zstd malloc flags cd_values nbytes buf_size buf = Undef out_of_bounds.
Proof.
  intros Hl. unfold bshuf_h5_filter_zstd. rewrite (proj2 (Z.ltb_ge _ _)) by lia. cbv zeta. unfold byte_at.
  rewrite lookup_ge_None_2; [done|]. unfold zlen in Hl. lia.
Qed.

(** A library that stores its input as it is, and the chunk of a dataset with it. *)
#[program]
Definition stored_zstd : Zstd := {|
  ZSTD_compressBound := stored_bound;
  ZSTD_compress src _ _ := (zlen src, src);
  ZSTD_decompress src _ := (zlen src, src) |}.
Next Obligation. exact (@lz4_bound_law stored_lz4). Qed.
Next Obligation. intros src cap lvl. exact (@lz4_roundtrip_law stored_lz4 src cap). Qed.

Example zstd_chunk :
  @bshuf_h5_filter_zstd portable stored_lz4 stored_zstd zeroed 0 (zstd_options 2 8 5) 22 22 demo_chunk =
    Ret (38, 54, [0; 0; 0; 0; 0; 0; 0; 22; 0; 0; 0; 16; 0; 0; 0; 16;
      85; 102; 120; 128; 0; 0; 0; 0; 0; 0; 0; 0; 0; 0; 0; 128; 9; 0; 10; 0; 11; 0] ++ replicate 16 0).
Proof. vm_compute. reflexivity. Qed.
