(* ===== verification/H5Blosc2.v ===== *)
(** * The HDF5 filter of Blosc2

    [src/source/external/hdf5-blosc2/blosc2_filter.c]: the values that a dataset stores for the filter, and
    the filter function that HDF5 calls for a chunk.  The Blosc2 library is a record of the calls that the
    filter makes; [blosc2_documented_schunk] is what its documentation promises of them.  The error stack and the
    release of memory have no effect on the result and are left out. *)

From S2P Require Import Prelude Bitshuffle Bslz4 H5Bitshuffle.

Definition FILTER_BLOSC2_VERSION : Z := 1.
Definition BLOSC_BLOSCLZ : Z := 0.

(** ** blosc2_set_local *)

(** A type: its size, and the size of its base when it is an array. *)
Record h5_type : Type := { ty_size : Z; ty_array_of : option Z }.

(** The values for [H5Pmodify_filter], or -1.  [options] are the values of the filter ([None] when they cannot be
    read), [chunkdims] the dimensions of a chunk ([None] for an error). *)
Definition blosc2_set_local (options : option (list Z)) (ty : h5_type) (chunkdims : option (list Z)) : outcome (option (list Z)) :=
  match options with
  | None => Ret None
  | Some opts =>
      let values := take 8 (opts ++ replicate 8 0) in
      let nelements := Z.max (zlen opts) 4 in
      let values := <[0%nat := FILTER_BLOSC2_VERSION]> values in
      match chunkdims with
      | None => Ret None
      | Some dims =>
          let typesize := u32 (ty_size ty) in
          if (32 <? zlen dims) || (typesize =? 0) then Ret None
          else
            let basetypesize := match ty_array_of ty with Some n => u32 n | None => typesize end in
            let values := <[2%nat := basetypesize]> values in
            let bufsize := foldl (fun b d => u32 (b * u32 d)) typesize dims in
            let values := <[3%nat := bufsize]> values in
            let! values := mem_read values 0 nelements in Ret (Some values)
      end
  end.

(** ** blosc2_filter_function *)

(** [blosc2_cparams], the members that the filter sets. *)
Record cparams : Type := { cp_compcode : Z; cp_blocksize : Z; cp_typesize : Z; cp_filter : Z; cp_clevel : Z }.

(** The calls of the library.  Calls on a super-chunk are functions of what it was made from. *)
Record blosc2_library : Type := {
  compcode_to_compname : Z -> Z;
  schunk_new : cparams -> bool;
  schunk_append_buffer : cparams -> list Z -> Z;
  schunk_to_buffer : cparams -> list Z -> Z * list Z * bool;
  schunk_from_buffer : list Z -> bool;
  schunk_get_lazychunk : list Z -> Z * list Z;
  cbuffer_sizes : list Z -> Z;
  decompress_ctx : list Z -> Z -> Z * list Z
}.

Section Filter.
Context (lib : blosc2_library) (malloc : Z -> option (list Z)).

(** The compressed chunk: the status and the buffer, [None] for [goto failed]. *)
Definition filter_compress (cd_values : list Z) (nbytes : Z) (buf : list Z) : outcome (option (Z * list Z)) :=
  let! blocksize := byte_at cd_values 1 in
  let! typesize := byte_at cd_values 2 in
  let! clevel := byte_at cd_values 4 in
  let! doshuffle := byte_at cd_values 5 in
  let! compcode := if 7 <=? zlen cd_values then byte_at cd_values 6 else Ret BLOSC_BLOSCLZ in
  if (7 <=? zlen cd_values) && (compcode_to_compname lib compcode =? -1) then Ret None
  else
    let p := {| cp_compcode := compcode; cp_blocksize := to_i32 blocksize; cp_typesize := to_i32 typesize;
                cp_filter := doshuffle; cp_clevel := clevel |} in
    if negb (schunk_new lib p) then Ret None
    else
      let! data := mem_read buf 0 (to_i32 nbytes) in
      if schunk_append_buffer lib p data <? 0 then Ret None
      else
        let '(status, outbuf, needs_free) := schunk_to_buffer lib p data in
        if (status <? 0) || negb needs_free then Ret None else Ret (Some (status, outbuf)).

(** The decompressed chunk: the status, the buffer and its size. *)
Definition filter_decompress (nbytes : Z) (buf : list Z) : outcome (option (Z * list Z * Z)) :=
  let! data := mem_read buf 0 nbytes in
  if negb (schunk_from_buffer lib data) then Ret None
  else
    let '(cbytes, chunk) := schunk_get_lazychunk lib data in
    if cbytes <? 0 then Ret None
    else
      let outbuf_size := u64 (cbuffer_sizes lib chunk) in
      match malloc outbuf_size with
      | None => Ret None
      | Some outbuf =>
          let (status, stored) := decompress_ctx lib chunk (to_i32 outbuf_size) in
          let! outbuf := mem_write outbuf 0 stored in
          if status <=? 0 then Ret None else Ret (Some (status, outbuf, outbuf_size))
      end.

(** What the filter returns, [*buf_size] and [*buf]. *)
Definition blosc2_filter_function (flags : Z) (cd_values : list Z) (nbytes buf_size : Z) (buf : list Z) : outcome (Z * Z * list Z) :=
  let! guess := byte_at cd_values 3 in
  let! result :=
    if Z.land flags H5Z_FLAG_REVERSE =? 0 then
      let! r := filter_compress cd_values nbytes buf in
      Ret ((fun '(status, outbuf) => (status, outbuf, guess)) <$> r)
    else filter_decompress nbytes buf in
  Ret match result with
      | Some (status, outbuf, outbuf_size) => if 0 <? status then (status, outbuf_size, outbuf) else (0, buf_size, buf)
      | None => (0, buf_size, buf)
      end.

(** ** Round trip *)

(** What the library documents: a buffer with a size that a chunk can have is compressed into a frame, and the
    chunk of that frame is decompressed to it. *)
Definition blosc2_documented_schunk : Prop := forall p src, 0 < zlen src < 2 ^ 31 - 32 -> 
  schunk_new lib p = true /\ 0 <= schunk_append_buffer lib p src /\
  exists frame chunk cbytes, schunk_to_buffer lib p src = (zlen frame, frame, true) /\ 0 < zlen frame /\
    schunk_from_buffer lib frame = true /\ schunk_get_lazychunk lib frame = (cbytes, chunk) /\ 0 <= cbytes /\
    cbuffer_sizes lib chunk = zlen src /\ forall cap, zlen src <= cap -> decompress_ctx lib chunk cap = (zlen src, src).

Context (Hlib : blosc2_documented_schunk) (Hmalloc : forall n, 0 <= n -> mallocs malloc n).

Lemma byte_at_some (l : list Z) i x : 0 <= i -> l !! Z.to_nat i = Some x -> byte_at l i = Ret x.
Proof using Type. intros Hi E. unfold byte_at. rewrite E. by rewrite (proj2 (Z.leb_le 0 i)) by lia. Qed.

(** The filter restores what it compressed, for any values that [blosc2_set_local] and the caller stored.  The size of
    the buffer that it reports is not the size of the compressed buffer but the value computed for the dataset. *)
Lemma blosc2_filter_roundtrip cd buf guess compcode : 6 <= zlen cd -> cd !! 3%nat = Some guess -> 0 < zlen buf < 2 ^ 31 - 32 ->
  (7 <= zlen cd -> cd !! 6%nat = Some compcode /\ compcode_to_compname lib compcode <> -1) ->
  exists frame, blosc2_filter_function 0 cd (zlen buf) (zlen buf) buf = Ret (zlen frame, guess, frame) /\
    blosc2_filter_function H5Z_FLAG_REVERSE cd (zlen frame) (zlen frame) frame = Ret (zlen buf, zlen buf, buf).
Proof using Hlib Hmalloc.
  intros Hcd Hguess Hbuf Hcode.
  assert (Hat : forall i, 0 <= i < 6 -> exists x, byte_at cd i = Ret x).
  { intros i Hi. eexists. apply byte_at_ret. lia. }
  destruct (Hat 1) as (x1 & E1), (Hat 2) as (x2 & E2), (Hat 4) as (x4 & E4), (Hat 5) as (x5 & E5); try lia.
  unfold blosc2_filter_function, filter_compress. rewrite (byte_at_some cd 3 guess ltac:(lia) Hguess). cbn [obind].
  change (Z.land 0 H5Z_FLAG_REVERSE =? 0) with true. change (Z.land H5Z_FLAG_REVERSE H5Z_FLAG_REVERSE =? 0) with false. cbv iota.
  rewrite E1, E2, E4, E5. cbn [obind].
  assert (Hcc : exists c, (if 7 <=? zlen cd then byte_at cd 6 else Ret BLOSC_BLOSCLZ) = Ret c /\
      (7 <=? zlen cd) && (compcode_to_compname lib c =? -1) = false).
  { destruct (Z.leb_spec 7 (zlen cd)) as [Hl|Hl]; [|by eexists].
    destruct (Hcode Hl) as (E6 & Hne). exists compcode. rewrite (byte_at_some cd 6 compcode ltac:(lia) E6). split; [done|]. by apply Z.eqb_neq. }
  destruct Hcc as (c & -> & Hc). cbn [obind]. rewrite Hc.
  rewrite (to_i32_id (zlen buf)), mem_read_full by (done || lia). set (p := {| cp_compcode := _ |}).
  destruct (Hlib p buf Hbuf) as (Hn & Ha & frame & chunk & cbytes & Hto & Hf0 & Hfrom & Hlazy & Hcb & Hsz & Hdec).
  rewrite Hn. cbn [negb obind]. rewrite (proj2 (Z.ltb_ge _ _) Ha), Hto.
  rewrite (proj2 (Z.ltb_ge (zlen frame) 0)) by lia. cbn [orb negb obind fmap option_fmap option_map].
  exists frame. rewrite (proj2 (Z.ltb_lt 0 (zlen frame)) Hf0). split; [done|].
  unfold filter_decompress. rewrite mem_read_full by done. cbn [obind]. rewrite Hfrom. cbn [negb]. rewrite Hlazy.
  rewrite (proj2 (Z.ltb_ge cbytes 0) Hcb), Hsz, u64_small by lia.
  destruct (Hmalloc (zlen buf)) as (out & -> & Ho); [lia|]. rewrite to_i32_id, Hdec by lia.
  rewrite <- (app_nil_r out), mem_write_head by done. cbn [obind]. rewrite (proj2 (Z.leb_gt (zlen buf) 0)) by lia. cbn [obind].
  rewrite (proj2 (Z.ltb_lt 0 (zlen buf))) by lia. by rewrite app_nil_r.
Qed.
End Filter.

(** The size of a chunk is computed in 32 bits: a chunk of 4 GiB has the size 0. *)
Lemma blosc2_chunk_size_wraps :
  blosc2_set_local (Some []) {| ty_size := 4; ty_array_of := None |} (Some [32768; 32768]) = Ret (Some [1; 0; 4; 0]).
Proof. reflexivity. Qed.

(** A library that stores its input, behind a byte that marks a frame. *)
Definition stored_blosc2 : blosc2_library := {|
  compcode_to_compname := fun c => c; schunk_new := fun _ => true; schunk_append_buffer := fun _ _ => 1;
  schunk_to_buffer := fun _ src => (zlen (66 :: src), 66 :: src, true);
  schunk_from_buffer := fun f => match f with 66 :: _ => true | _ => false end;
  schunk_get_lazychunk := fun f => (zlen (drop 1 f), drop 1 f);
  cbuffer_sizes := fun c => zlen c; decompress_ctx := fun c _ => (zlen c, c) |}.

Lemma stored_blosc2_documented : blosc2_documented_schunk stored_blosc2.
Proof.
  intros p src Hz. split; [done|]. split; [done|]. exists (66 :: src), src, (zlen src).
  split_and!; try done; rewrite ?zlen_cons; lia.
Qed.
