(* ===== verification/Compress.v ===== *)
(** * std-data-compress: compressed images

    [src/source/std-data-compress/blosc2/src/compress.cpp] and
    [src/source/std-data-compress/h5bitshuffle-lz4/src/compress.cpp].  Both services read the complete images
    from the ring of the detector, compress them into a ring of their own with slots of the same size,
    and publish the metadata with the compressed size.  Blosc2 is a parameter with what its documentation
    promises; the other service uses the bitshuffle of [Bslz4].  The loop is modelled on parsed
    messages. *)

From S2P Require Import Prelude Scatter Protocol Config RamBuffer Stats Bitshuffle Bslz4 H5Bitshuffle.

(** ** Arguments *)

(** The action of [--threads], the same in both programs, after [std::stoul] or [std::stoi]. *)
Definition threads_argument (value : Z) : outcome Z :=
  if (value <? 1) || (128 <? value) || negb (Z.rem value 2 =? 0) then Throw runtime_error else Ret value.

(** The action of [--level]. *)
Definition level_argument (value : Z) : outcome Z :=
  if (value <? 1) || (9 <? value) then Throw runtime_error else Ret value.

(** The action of [--block_size]. *)
Definition block_size_argument (value : Z) : outcome Z :=
  if value <? 0 then Throw runtime_error else Ret value.

(** One thread, the first value that the message of the error recommends, is refused. *)
Lemma one_thread_refused : threads_argument 1 = Throw runtime_error.
Proof. reflexivity. Qed.

(** ** State *)

Record compress_state : Type := {
  cs_receiver : RamBuffer;
  cs_sender : RamBuffer;
  cs_mem : shm;
  cs_converted_bytes : Z;
  cs_header : list Z;
  cs_sent : list pb_image;
  cs_stats : CompressionStats.CompressionStatsCollector
}.

(** [htobe64] and [htobe32], as they are copied to memory. *)
Definition htobe64 (x : Z) : list Z := be_encode 8 (u64 x).
Definition htobe32 (x : Z) : list Z := be_encode 4 (u32 x).

(** [main] up to the loop, of either service; [sink] is the suffix of its stream. *)
Definition compress_new (os : syscalls) (config : DetectorConfig) (sink : string) (now : Z) (s : shm) : outcome compress_state :=
  let! converted_bytes := converted_image_n_bytes config in
  let! slots := slots_number config in
  let! '(rcv, s) := RamBuffer_new os (String.append (Config.detector_name config) "-image") converted_bytes slots s in
  let! '(snd, s) := RamBuffer_new os (String.append (Config.detector_name config) sink) converted_bytes slots s in
  Ret {| cs_receiver := rcv; cs_sender := snd; cs_mem := s; cs_converted_bytes := converted_bytes;
         cs_header := htobe64 converted_bytes; cs_sent := [];
         cs_stats := CompressionStats.Build_CompressionStatsCollector
           (TimedStatsCollector_new (Config.detector_name config) (stats_collection_period config) "" now) converted_bytes 0 0 |}.

Definition set_compressed (meta : pb_image) (size : Z) (c : pb_compression) : pb_image :=
  {| pb_image_id := pb_image_id meta; pb_height := pb_height meta; pb_width := pb_width meta; pb_size := u64 size;
     pb_dt := pb_dt meta; pb_st := pb_st meta; pb_cp := c; pb_det := pb_det meta |}.

(** The end of an iteration: publish what was compressed, count it, print the statistics. *)
Definition publish (st : compress_state) (s : shm) (meta : option pb_image) (compressed : Z) : compress_state :=
  {| cs_receiver := cs_receiver st; cs_sender := cs_sender st; cs_mem := s;
     cs_converted_bytes := cs_converted_bytes st; cs_header := cs_header st;
     cs_sent := cs_sent st ++ option_list meta;
     cs_stats := CompressionStats.process (cs_stats st) compressed |}.

Definition print (now now_rate : Z) (st : compress_state) : option (list stat) * compress_state :=
  let (report, t) := print_stats now now_rate (cs_stats st) in
  (report, {| cs_receiver := cs_receiver st; cs_sender := cs_sender st; cs_mem := cs_mem st;
              cs_converted_bytes := cs_converted_bytes st; cs_header := cs_header st; cs_sent := cs_sent st; cs_stats := t |}).

Definition rx_bytes (st : compress_state) : list Z := shm_bytes (cs_mem st) (shm_fd_ (cs_receiver st)).
Definition tx_bytes (st : compress_state) : list Z := shm_bytes (cs_mem st) (shm_fd_ (cs_sender st)).

Definition good_image (meta : pb_image) : bool := bool_decide (pb_st meta = st_good_image).

(** ** blosc2 *)

Section Blosc2Service.
(** [blosc2_compress_ctx] with the context of the service: the source and the size of the destination
    give the [int] that it returns and the bytes that it stores. *)
Variable (blosc2_compress_ctx : list Z -> Z -> Z * list Z).

(** One iteration. *)
Definition blosc2_step (now now_rate : Z) (msg : option pb_image) (st : compress_state) :
    outcome (option (list stat) * compress_state) :=
  let! st' :=
    match msg with
    | None => Ret st
    | Some meta =>
        if good_image meta then
          let! src := get_data (cs_receiver st) (pb_image_id meta) in
          let! image := mem_read (rx_bytes st) src (cs_converted_bytes st) in
          let! dst := get_data (cs_sender st) (pb_image_id meta) in
          let (compressed_size, stored) := blosc2_compress_ctx image (cs_converted_bytes st) in
          let! tx := mem_write (tx_bytes st) dst stored in
          let s := shm_set (cs_mem st) (shm_fd_ (cs_sender st)) tx in
          let sent := if 0 <? compressed_size then Some (set_compressed meta compressed_size cp_blosc2) else None in
          Ret (publish st s sent compressed_size)
        else Ret st
    end in
  Ret (print now now_rate st').
End Blosc2Service.

(** ** h5bitshuffle-lz4 *)

Section BitshuffleService.
Context `{BitTransposer} `{Lz4} (malloc : Z -> option (list Z)).

(** [config.bit_depth / 8]. *)
Definition element_size (config : DetectorConfig) : Z := Z.quot (bit_depth config) 8.

(** The number of bytes of the image that are compressed: an image of a pco camera has the size of its metadata. *)
Definition image_bytes (config : DetectorConfig) (meta : pb_image) (st : compress_state) : Z :=
  if is_type config "pco" then pb_size meta else cs_converted_bytes st.

(** One iteration; [block_size] is the argument of the program, in bytes. *)
Definition h5bitshuffle_step (config : DetectorConfig) (block_size now now_rate : Z) (msg : option pb_image) (st : compress_state) :
    outcome (option (list stat) * compress_state) :=
  let! st' :=
    match msg with
    | None => Ret st
    | Some meta =>
        if good_image meta then
          let! compression_buffer := get_data (cs_sender st) (pb_image_id meta) in
          let converted_bytes := image_bytes config meta st in
          let header := if is_type config "pco" then htobe64 converted_bytes else cs_header st in
          let! tx := mem_write (tx_bytes st) compression_buffer header in
          let! tx := mem_write tx (compression_buffer + 8) (htobe32 block_size) in
          let! src := get_data (cs_receiver st) (pb_image_id meta) in
          let! n := udiv converted_bytes (u64 (element_size config)) in
          let bs := Z.quot block_size (element_size config) in
          let! '(count, tx) := bshuf_compress_lz4 malloc (rx_bytes st) src tx (compression_buffer + 12)
                                 n (u64 (element_size config)) (u64 bs) in
          let size := to_i32 count in
          let s := shm_set (cs_mem st) (shm_fd_ (cs_sender st)) tx in
          let sent := if 0 <? size then Some (set_compressed meta (size + 12) cp_h5bitshuffle_lz4) else None in
          Ret (publish {| cs_receiver := cs_receiver st; cs_sender := cs_sender st; cs_mem := cs_mem st;
                          cs_converted_bytes := converted_bytes; cs_header := header;
                          cs_sent := cs_sent st; cs_stats := cs_stats st |} s sent size)
        else Ret st
    end in
  Ret (print now now_rate st').
End BitshuffleService.

(** ** Correctness *)

(** The rings of a running service: mapped, and different objects. *)
Definition compress_ok (st : compress_state) : Prop :=
  wf_ram (cs_receiver st) /\ wf_ram (cs_sender st) /\ shm_fd_ (cs_receiver st) <> shm_fd_ (cs_sender st) /\
  zlen (rx_bytes st) = buffer_bytes_ (cs_receiver st) /\ zlen (tx_bytes st) = buffer_bytes_ (cs_sender st).

Lemma mem_split (m : list Z) off len : 0 <= off -> 0 <= len -> off + len <= zlen m ->
  exists pre mid post, m = pre ++ mid ++ post /\ zlen pre = off /\ zlen mid = len.
Proof.
  intros Ho Hl Hz. destruct (split_at m off) as (pre & r & -> & Hp); [lia|]. rewrite zlen_app in Hz.
  destruct (split_at r len) as (mid & post & -> & Hm); [lia|]. by exists pre, mid, post.
Qed.

Lemma mem_read_split (m x : list Z) off len : mem_read m off len = Ret x ->
  exists pre post, m = pre ++ x ++ post /\ zlen pre = off /\ zlen x = len.
Proof.
  intros E. destruct (mem_read_inv _ _ _ _ E) as (Ho & Hl & Hz & _).
  destruct (mem_split m off len) as (pre & mid & post & -> & Hp & Hm); [lia..|].
  rewrite mem_read_mid in E by lia. injection E as <-. by exists pre, post.
Qed.

(** Storing [d] at the start of a slot leaves the other slots alone. *)
Lemma slot_kept rb m m' id d : wf_ram rb -> mem_write m (id mod n_slots_ rb * data_bytes_ rb) d = Ret m' -> zlen d <= data_bytes_ rb ->
  forall id', id' mod n_slots_ rb <> id mod n_slots_ rb -> slot_data rb m' id' = slot_data rb m id'.
Proof.
  intros Hwf W Hd id' Hne. unfold slot_data. destruct (slot_offset rb id' Hwf) as (-> & _). cbn [obind].
  apply (mem_read_write_disjoint _ _ _ _ _ _ W). pose proof Hwf as (_ & H0 & _).
  destruct (slots_disjoint (data_bytes_ rb) (id mod n_slots_ rb) (id' mod n_slots_ rb)) as [?|?]; [done|congruence|right; lia|left; lia].
Qed.

(** What an iteration leaves: [d] at the start of the slot of [id], the other slots and the images of the
    source untouched. *)
Record stored (st st' : compress_state) (id : Z) (d : list Z) : Prop := {
  sd_ok : compress_ok st';
  sd_rings : cs_receiver st' = cs_receiver st /\ cs_sender st' = cs_sender st;
  sd_source : rx_bytes st' = rx_bytes st;
  sd_slot : mem_read (tx_bytes st') (id mod n_slots_ (cs_sender st) * data_bytes_ (cs_sender st)) (zlen d) = Ret d;
  sd_others : forall id', id' mod n_slots_ (cs_sender st) <> id mod n_slots_ (cs_sender st) ->
    slot_data (cs_sender st) (tx_bytes st') id' = slot_data (cs_sender st) (tx_bytes st) id'
}.

Lemma stored_write st st' id d tx : compress_ok st ->
  mem_write (tx_bytes st) (id mod n_slots_ (cs_sender st) * data_bytes_ (cs_sender st)) d = Ret tx -> zlen d <= data_bytes_ (cs_sender st) ->
  cs_receiver st' = cs_receiver st -> cs_sender st' = cs_sender st ->
  cs_mem st' = shm_set (cs_mem st) (shm_fd_ (cs_sender st)) tx -> stored st st' id d.
Proof.
  intros (Hr & Hs & Hne & Hzr & Hzs) W Hd E1 E2 E3.
  assert (Htx : tx_bytes st' = tx) by (unfold tx_bytes; by rewrite E2, E3, shm_bytes_set_eq).
  assert (Hrx : rx_bytes st' = rx_bytes st) by (unfold rx_bytes; rewrite E1, E3; by apply shm_bytes_set_ne).
  split; rewrite ?Htx; [|done..|by apply (mem_read_write_same _ _ _ _ _ W)|by apply (slot_kept _ _ _ _ d)].
  unfold compress_ok. rewrite Htx, Hrx, E1, E2. split_and!; try done. by rewrite (mem_write_zlen _ _ _ _ W).
Qed.

Section Blosc2Correct.
Context (blosc2_compress_ctx : list Z -> Z -> Z * list Z) (blosc2_decompress_ctx : list Z -> Z -> Z * list Z).

(** What Blosc2 documents of the two calls: the compressed bytes stay within the destination, and a
    result that is positive is their number, from which the source is recovered. *)
Definition blosc2_documented : Prop := forall src cap n d, blosc2_compress_ctx src cap = (n, d) ->
  zlen d <= cap /\ (0 < n -> n = zlen d /\ forall cap', zlen src <= cap' -> blosc2_decompress_ctx d cap' = (zlen src, src)).

(** An iteration on a complete image. *)
Lemma blosc2_step_good now now_rate meta st image n d : blosc2_documented -> compress_ok st -> good_image meta = true ->
  cs_converted_bytes st = data_bytes_ (cs_sender st) -> data_bytes_ (cs_receiver st) = data_bytes_ (cs_sender st) ->
  slot_data (cs_receiver st) (rx_bytes st) (pb_image_id meta) = Ret image ->
  blosc2_compress_ctx image (cs_converted_bytes st) = (n, d) ->
  exists report st', blosc2_step blosc2_compress_ctx now now_rate (Some meta) st = Ret (report, st') /\
    stored st st' (pb_image_id meta) d /\
    cs_sent st' = cs_sent st ++ (if 0 <? n then [set_compressed meta n cp_blosc2] else []) /\
    (0 < n -> blosc2_decompress_ctx d (cs_converted_bytes st) = (zlen image, image)).
Proof using Type.
  intros Hdoc Hok Hgood Hconv Hsame Himg Hc. pose proof Hok as (Hr & Hs & Hne & Hzr & Hzs).
  destruct (Hdoc _ _ _ _ Hc) as (Hcap & Hdec). unfold slot_data in Himg.
  destruct (slot_offset (cs_receiver st) (pb_image_id meta) Hr) as (Hro & _). rewrite Hro in Himg. cbn [obind] in Himg.
  destruct (slot_offset (cs_sender st) (pb_image_id meta) Hs) as (Hso & Hs0 & Hs1). pose proof (ring_fits _ Hs).
  assert (Hzi : zlen image = cs_converted_bytes st) by (apply mem_read_zlen in Himg; lia).
  unfold blosc2_step. rewrite Hgood, Hro, Hso. cbn [obind].
  rewrite <- Hzi, (mem_read_zlen _ _ _ _ Himg), Himg. cbn [obind]. rewrite <- (mem_read_zlen _ _ _ _ Himg), Hzi, Hc.
  destruct (mem_write (tx_bytes st) _ d) as [tx|?|?] eqn:W; [|rewrite mem_write_ret in W by lia; done..]. cbn [obind].
  unfold print. destruct (print_stats _ _ _) as [report t]. eexists _, _. split; [done|].
  split; [apply (stored_write _ _ _ _ tx); done || lia|]. split; [cbn; by destruct (0 <? n)|].
  intros Hn. destruct (Hdec Hn) as (_ & E). rewrite E by lia. by rewrite Hzi.
Qed.
End Blosc2Correct.

Section BitshuffleCorrect.
Context `{BitTransposer} `{Lz4} (malloc : Z -> option (list Z)) (Hmalloc : forall n, 0 <= n -> mallocs malloc n).

(** The header and the compressed image in the memory of the ring. *)
Lemma chunk_stored tx dst n bb count inp src size e bs data (Hdst : 0 <= dst) : dst + 12 + zlen data <= zlen tx ->
  0 <= n < 2 ^ 64 -> 0 <= bb < 2 ^ 32 -> count = zlen data ->
  (forall opre old opost, zlen old = zlen data ->
      bshuf_compress_lz4 malloc inp src (opre ++ old ++ opost) (zlen opre) size e bs = Ret (count, opre ++ data ++ opost)) ->
  exists tx', (let! tx := mem_write tx dst (htobe64 n) in
    let! tx := mem_write tx (dst + 8) (htobe32 bb) in
    bshuf_compress_lz4 malloc inp src tx (dst + 12) size e bs) = Ret (count, tx') /\
    mem_write tx dst (chunk_of n bb data) = Ret tx'.
Proof using Type.
  intros Hfit Hn Hbb -> Hc. pose proof (zlen_nonneg data).
  destruct (mem_split tx dst (12 + zlen data)) as (pre & mid & post & -> & Hp & Hm); [lia..|].
  destruct (split_at mid 8) as (o8 & m1 & -> & H8); [lia|]. rewrite zlen_app in Hm.
  destruct (split_at m1 4) as (o4 & od & -> & H4); [lia|]. rewrite zlen_app in Hm.
  unfold htobe64, htobe32. rewrite u64_small, u32_small by lia. rewrite <- !app_assoc.
  rewrite (mem_write_mid pre o8) by (rewrite ?zlen_be_encode; lia). cbn [obind].
  rewrite (app_assoc pre), (mem_write_mid (pre ++ _) o4) by (rewrite ?zlen_app, ?zlen_be_encode; lia). cbn [obind].
  specialize (Hc ((pre ++ be_encode 8 n) ++ be_encode 4 bb) od post ltac:(lia)).
  rewrite !zlen_app, !zlen_be_encode in Hc. replace (zlen pre + Z.of_nat 8 + Z.of_nat 4) with (dst + 12) in Hc by lia.
  rewrite <- !app_assoc in *. rewrite Hc. eexists. split; [done|].
  replace (o8 ++ o4 ++ od ++ post) with ((o8 ++ o4 ++ od) ++ post) by (by rewrite <- !app_assoc).
  rewrite mem_write_mid; [|done|unfold chunk_of; rewrite !zlen_app, !zlen_be_encode; lia]. unfold chunk_of. by rewrite <- !app_assoc.
Qed.

(** What a run into an array of the size of the bound stores is what the bytes of any array become. *)
Lemma run_length size e bs b inp bound n full : 0 <= size -> 0 < e -> effective_block e bs b -> bytes inp -> zlen inp = size * e ->
  bshuf_compress_lz4_bound size e bs = Ret bound ->
  bshuf_compress_lz4 malloc inp 0 (replicate (Z.to_nat bound) 0) 0 size e bs = Ret (n, full) ->
  exists data, zlen data = n /\ zlen data <= bound /\ full = data ++ drop (length data) (replicate (Z.to_nat bound) 0) /\
    (forall pre post opre old opost, zlen old = zlen data ->
      bshuf_compress_lz4 malloc (pre ++ inp ++ post) (zlen pre) (opre ++ old ++ opost) (zlen opre) size e bs =
        Ret (zlen data, opre ++ data ++ opost)) /\
    (forall pre post opre old opost, zlen old = zlen inp ->
      bshuf_decompress_lz4 malloc (pre ++ data ++ post) (zlen pre) (opre ++ old ++ opost) (zlen opre) size e bs =
        Ret (zlen data, opre ++ inp ++ opost)).
Proof using Hmalloc.
  intros Hs He Heff Hb Hz Hbound Hrun.
  destruct (lz4_array malloc Hmalloc size e bs b inp) as (data & bound' & _ & Hb' & Hle & Hc & Hd); [done..|].
  rewrite Hbound in Hb'. injection Hb' as <-. pose proof (zlen_nonneg data).
  pose proof (Hc [] [] [] (take (length data) (replicate (Z.to_nat bound) 0)) (drop (length data) (replicate (Z.to_nat bound) 0))) as E.
  cbn [app] in E. rewrite take_drop, app_nil_r in E. change (zlen []) with 0 in E. rewrite E in Hrun.
  - injection Hrun as <- <-. exists data. by split_and!.
  - unfold zlen in *. rewrite length_take, length_replicate. lia.
Qed.

(** An iteration on a complete image whose compressed form fits into the memory of the ring. *)
Lemma h5bitshuffle_step_writes config block_size now now_rate meta st image size b bound n full :
  let e := element_size config in let id := pb_image_id meta in
  compress_ok st -> cs_header st = htobe64 (cs_converted_bytes st) -> good_image meta = true ->
  0 < e < 2 ^ 32 -> 0 <= size -> image_bytes config meta st = size * e -> size * e < 2 ^ 64 ->
  mem_read (rx_bytes st) (id mod n_slots_ (cs_receiver st) * data_bytes_ (cs_receiver st)) (size * e) = Ret image -> bytes image ->
  0 <= block_size < 2 ^ 31 -> effective_block e (block_size / e) b ->
  bshuf_compress_lz4_bound size e (block_size / e) = Ret bound -> bound + 12 < 2 ^ 31 ->
  bshuf_compress_lz4 malloc image 0 (replicate (Z.to_nat bound) 0) 0 size e (block_size / e) = Ret (n, full) ->
  0 < n -> id mod n_slots_ (cs_sender st) * data_bytes_ (cs_sender st) + (n + 12) <= buffer_bytes_ (cs_sender st) ->
  exists report st' chunk tx', h5bitshuffle_step malloc config block_size now now_rate (Some meta) st = Ret (report, st') /\
    mem_write (tx_bytes st) (id mod n_slots_ (cs_sender st) * data_bytes_ (cs_sender st)) chunk = Ret tx' /\
    cs_receiver st' = cs_receiver st /\ cs_sender st' = cs_sender st /\
    cs_mem st' = shm_set (cs_mem st) (shm_fd_ (cs_sender st)) tx' /\ zlen chunk = n + 12 /\
    cs_sent st' = cs_sent st ++ [set_compressed meta (n + 12) cp_h5bitshuffle_lz4] /\
    cs_header st' = htobe64 (cs_converted_bytes st') /\
    forall opt, bshuf_h5_filter malloc H5Z_FLAG_REVERSE (lz4_options e opt) (n + 12) (n + 12) chunk = Ret (size * e, size * e, image).
Proof using Hmalloc.
  intros e id Hok Hhdr Hgood He Hs Hbytes H64 Himg Hb Hbs Heff Hbound H31 Hrun Hn Hfit. pose proof Hok as (Hr & Hsn & _ & _ & Hzs).
  pose proof (mem_read_zlen _ _ _ _ Himg) as Hzi.
  destruct (run_length size e (block_size / e) b image bound n full) as (data & <- & Hle & _ & Hc & Hd); try done; try lia.
  destruct (slot_offset (cs_receiver st) id Hr) as (Hro & _).
  destruct (slot_offset (cs_sender st) id Hsn) as (Hso & Hs0 & Hs1). pose proof (ring_fits _ Hsn).
  destruct (mem_read_split _ _ _ _ Himg) as (ipre & ipost & Erx & Hip & _).
  destruct (chunk_stored (tx_bytes st) _ (size * e) block_size (zlen data) (rx_bytes st) (zlen ipre) size e (block_size / e) data Hs0)
    as (tx' & Estep & W); [lia|nia|lia|done|intros; rewrite Erx; by apply Hc|].
  assert (Hchunk : zlen (chunk_of (size * e) block_size data) = zlen data + 12)
    by (unfold chunk_of; rewrite !zlen_app, !zlen_be_encode; lia).
  assert (Hheader : (if is_type config "pco" then htobe64 (image_bytes config meta st) else cs_header st) = htobe64 (size * e)).
  { rewrite Hhdr, <- Hbytes. unfold image_bytes. by destruct (is_type config "pco"). }
  assert (Ebs : u64 (Z.quot block_size e) = block_size / e).
  { rewrite Z.quot_div_nonneg by lia. apply u64_small. split; [apply Z.div_pos; lia|].
    apply Z.le_lt_trans with block_size; [apply Z.div_le_upper_bound; nia|lia]. }
  apply obind_Ret_iff in Estep as (tx1 & E1 & (tx2 & E2 & E3)%obind_Ret_iff).
  unfold h5bitshuffle_step. rewrite Hgood. fold e. fold id. rewrite Hso. cbn [obind]. rewrite Hheader, E1. cbn [obind]. rewrite E2. cbn [obind].
  rewrite Hro. cbn [obind]. rewrite (u64_small e), Hbytes, Ebs, <- Hip by lia. unfold udiv. rewrite (proj2 (Z.eqb_neq e 0)) by lia. cbn [obind].
  rewrite Z.div_mul, E3 by lia. cbn [obind]. rewrite to_i32_id, (proj2 (Z.ltb_lt 0 (zlen data)) Hn) by lia.
  unfold print. destruct (print_stats _ _ _) as [report t]. eexists _, _, (chunk_of (size * e) block_size data), tx'.
  do 8 (split; [done|]).
  intros opt. destruct (default_block_size_ok e) as (bd & Ebd & _); [lia|].
  rewrite <- Hchunk at 1. rewrite <- (app_nil_r (chunk_of _ _ _)) at 2.
  apply (filter_reads malloc Hmalloc size e (block_size / e) (if opt =? 0 then bd else opt)); try done; try lia.
  by destruct (opt =? 0).
Qed.
End BitshuffleCorrect.

(** C22: std-data-compress with bitshuffle and LZ4, on a complete image whose compressed form, with the header, fits into a
    slot of the ring of the service: the iteration publishes the metadata with the compressed size, stores exactly the compressed
    bytes in the slot of the image and touches no other slot and not the source; and what it stored is a chunk that the
    bitshuffle filter of HDF5 decodes, whatever the block size of the dataset, to the image. *)
Theorem compressed_image_decodes `{BitTransposer} `{Lz4} (malloc : Z -> option (list Z)) config block_size now now_rate meta st image size b bound n full :
  let e := element_size config in let id := pb_image_id meta in
  (forall n, 0 <= n -> mallocs malloc n) ->
  compress_ok st -> cs_header st = htobe64 (cs_converted_bytes st) -> good_image meta = true ->
  0 < e < 2 ^ 32 -> 0 <= size -> image_bytes config meta st = size * e -> size * e < 2 ^ 64 ->
  mem_read (rx_bytes st) (id mod n_slots_ (cs_receiver st) * data_bytes_ (cs_receiver st)) (size * e) = Ret image -> bytes image ->
  0 <= block_size < 2 ^ 31 -> effective_block e (block_size / e) b ->
  bshuf_compress_lz4_bound size e (block_size / e) = Ret bound -> bound + 12 < 2 ^ 31 ->
  bshuf_compress_lz4 malloc image 0 (replicate (Z.to_nat bound) 0) 0 size e (block_size / e) = Ret (n, full) ->
  0 < n -> n + 12 <= data_bytes_ (cs_sender st) ->
  exists report st' chunk, h5bitshuffle_step malloc config block_size now now_rate (Some meta) st = Ret (report, st') /\
    stored st st' id chunk /\ zlen chunk = n + 12 /\
    cs_sent st' = cs_sent st ++ [set_compressed meta (n + 12) cp_h5bitshuffle_lz4] /\
    cs_header st' = htobe64 (cs_converted_bytes st') /\
    forall opt, bshuf_h5_filter malloc H5Z_FLAG_REVERSE (lz4_options e opt) (n + 12) (n + 12) chunk = Ret (size * e, size * e, image).
Proof.
  intros e id Hm Hok ? ? ? ? ? ? ? ? ? ? ? ? Hrun Hn Hfit. pose proof Hok as (_ & Hs & _).
  destruct (slot_offset (cs_sender st) id Hs) as (_ & _ & Hs1). pose proof (ring_fits _ Hs).
  destruct (h5bitshuffle_step_writes malloc Hm config block_size now now_rate meta st image size b bound n full)
    as (report & st' & chunk & tx' & E & W & E1 & E2 & E3 & Hz & Hsent & Hh & Hf); try done; [fold id; lia|].
  exists report, st', chunk. split_and!; try done. apply (stored_write _ _ _ _ tx'); try done. lia.
Qed.

(** A compressed form that is larger than the slot runs into the next slot. *)
Lemma compressed_image_overruns `{BitTransposer} `{Lz4} (malloc : Z -> option (list Z)) config block_size now now_rate meta st image size b bound n full :
  let e := element_size config in let id := pb_image_id meta in let w := cs_sender st in
  (forall n, 0 <= n -> mallocs malloc n) ->
  compress_ok st -> cs_header st = htobe64 (cs_converted_bytes st) -> good_image meta = true ->
  0 < e < 2 ^ 32 -> 0 <= size -> image_bytes config meta st = size * e -> size * e < 2 ^ 64 ->
  mem_read (rx_bytes st) (id mod n_slots_ (cs_receiver st) * data_bytes_ (cs_receiver st)) (size * e) = Ret image -> bytes image ->
  0 <= block_size < 2 ^ 31 -> effective_block e (block_size / e) b ->
  bshuf_compress_lz4_bound size e (block_size / e) = Ret bound -> bound + 12 < 2 ^ 31 ->
  bshuf_compress_lz4 malloc image 0 (replicate (Z.to_nat bound) 0) 0 size e (block_size / e) = Ret (n, full) ->
  0 < n -> data_bytes_ w < n + 12 -> id mod n_slots_ w * data_bytes_ w + (n + 12) <= buffer_bytes_ w ->
  exists report st' chunk, h5bitshuffle_step malloc config block_size now now_rate (Some meta) st = Ret (report, st') /\
    zlen chunk = n + 12 /\
    mem_read (tx_bytes st') (id mod n_slots_ w * data_bytes_ w + data_bytes_ w) (n + 12 - data_bytes_ w) =
      Ret (drop (Z.to_nat (data_bytes_ w)) chunk).
Proof.
  intros e id w Hm Hok ? ? ? ? ? ? ? ? ? ? ? ? Hrun Hn Hover Hfit. pose proof Hok as (_ & Hs & _). pose proof Hs as (_ & Hd0 & _).
  destruct (slot_offset (cs_sender st) id Hs) as (_ & Ho0 & _).
  destruct (h5bitshuffle_step_writes malloc Hm config block_size now now_rate meta st image size b bound n full)
    as (report & st' & chunk & tx' & E & W & E1 & E2 & E3 & Hz & _); try done.
  exists report, st', chunk. split; [done|]. split; [done|]. fold id w in W, Ho0. fold w in Hd0.
  replace (tx_bytes st') with tx' by (unfold tx_bytes; by rewrite E2, E3, shm_bytes_set_eq).
  destruct (split_at chunk (data_bytes_ w)) as (c1 & c2 & -> & Hc1); [lia|]. rewrite zlen_app in Hz.
  destruct (mem_split (tx_bytes st) (id mod n_slots_ w * data_bytes_ w) (n + 12)) as (pre & mid & post & Et & Hp & Hmid).
  { done. } { lia. } { destruct Hok as (_ & _ & _ & _ & ->). done. }
  rewrite Et, mem_write_mid in W by (rewrite ?zlen_app; lia). injection W as <-.
  rewrite <- app_assoc, app_assoc, mem_read_mid by (rewrite ?zlen_app; lia). f_equal. rewrite <- Hc1. unfold zlen. by rewrite Nat2Z.id, drop_app_length.
Qed.


(** Rings with slots of 64 bytes; the image of the first slot has eleven elements of two bytes. *)
Definition demo_ring_of (name : string) (fd : Z) : RamBuffer :=
  {| buffer_name_ := name; n_slots_ := 4; data_bytes_ := 64; buffer_bytes_ := 2097152; shm_fd_ := fd |}.

Definition demo_pco : DetectorConfig :=
  {| Config.detector_name := "PCO"; detector_type := "pco"; n_modules := 1; bit_depth := 16;
     image_pixel_height := 4; image_pixel_width := 8; start_udp_port := 50000;
     log_level := "info"; stats_collection_period := 10;
     max_number_of_forwarders_spawned := 8; use_all_forwarders := true;
     gpfs_block_size := 16777216; sender_sends_full_images := false;
     module_sync_queue_size := 50; number_of_writers := 0; ram_buffer_gb := 0;
     delay_filter_timeout := 10; switch_user_active := false; ls_configs := ∅; modules := ∅ |}.

Definition demo_compress : compress_state :=
  {| cs_receiver := demo_ring_of "PCO-image" 0; cs_sender := demo_ring_of "PCO-h5bitshuffle-lz4" 1;
     cs_mem := {| shm_names := ∅; shm_next := 2;
                  shm_objects := <[0 := demo_chunk ++ replicate (Z.to_nat 2097130) 0]> {[1 := replicate (Z.to_nat 2097152) 0]} |};
     cs_converted_bytes := 64; cs_header := htobe64 64; cs_sent := [];
     cs_stats := CompressionStats.Build_CompressionStatsCollector (TimedStatsCollector_new "PCO" 10 "" 0) 64 0 0 |}.

Definition demo_pco_meta : pb_image :=
  {| pb_image_id := 0; pb_height := 1; pb_width := 11; pb_size := 22; pb_dt := dt_uint16; pb_st := st_good_image;
     pb_cp := cp_none; pb_det := dm_not_set |}.

Lemma demo_ring_of_wf name fd : wf_ram (demo_ring_of name fd).
Proof. repeat split; vm_compute; discriminate || reflexivity. Qed.

Lemma demo_rx : rx_bytes demo_compress = demo_chunk ++ replicate (Z.to_nat 2097130) 0.
Proof. unfold rx_bytes, shm_bytes. cbn [demo_compress cs_mem cs_receiver demo_ring_of shm_fd_ shm_objects]. by rewrite lookup_insert_eq. Qed.

Lemma demo_tx : tx_bytes demo_compress = replicate (Z.to_nat 2097152) 0.
Proof.
  unfold tx_bytes, shm_bytes. cbn [demo_compress cs_mem cs_sender demo_ring_of shm_fd_ shm_objects].
  by rewrite lookup_insert_ne, lookup_singleton_eq by done.
Qed.

Lemma demo_compress_ok : compress_ok demo_compress.
Proof.
  split; [apply demo_ring_of_wf|]. split; [apply demo_ring_of_wf|]. split; [done|]. rewrite demo_rx, demo_tx, zlen_app, !zlen_replicate.
  split; [|by rewrite Z2Nat.id]. rewrite Z2Nat.id by lia. reflexivity.
Qed.

Lemma compressed_image_decodes_witness :
  exists report st' chunk, @h5bitshuffle_step portable stored_lz4 zeroed demo_pco 16 0 0 (Some demo_pco_meta) demo_compress = Ret (report, st') /\
    stored demo_compress st' 0 chunk /\ zlen chunk = 26 + 12 /\
    cs_sent st' = cs_sent demo_compress ++ [set_compressed demo_pco_meta (26 + 12) cp_h5bitshuffle_lz4] /\
    cs_header st' = htobe64 (cs_converted_bytes st') /\
    forall opt, @bshuf_h5_filter portable stored_lz4 zeroed H5Z_FLAG_REVERSE (lz4_options 2 opt) (26 + 12) (26 + 12) chunk = Ret (11 * 2, 11 * 2, demo_chunk).
Proof.
  apply (@compressed_image_decodes portable stored_lz4 zeroed demo_pco 16 0 0 demo_pco_meta demo_compress demo_chunk 11 8 42 26
    ([0; 0; 0; 16; 85; 102; 120; 128; 0; 0; 0; 0; 0; 0; 0; 0; 0; 0; 0; 128; 9; 0; 10; 0; 11; 0] ++ replicate 16 0)).
  - apply zeroed_mallocs.
  - exact demo_compress_ok.
  - reflexivity.
  - reflexivity.
  - change (element_size demo_pco) with 2. lia.
  - lia.
  - reflexivity.
  - change (element_size demo_pco) with 2. lia.
  - rewrite demo_rx. apply mem_read_head. reflexivity.
  - exact demo_chunk_bytes.
  - lia.
  - split; [reflexivity|]. change (element_size demo_pco) with 2. split_and!; [lia|reflexivity|unfold LZ4_MAX_INPUT_SIZE; lia].
  - reflexivity.
  - lia.
  - vm_compute. reflexivity.
  - lia.
  - cbn [demo_compress cs_sender demo_ring_of data_bytes_]. lia.
Defined.
