(* ===== verification/Arguments.v ===== *)
(** * Arguments and logging

    [src/source/utils/include/utils/args.hpp], [src/source/utils/log/include/utils/log/logger.hpp] and the
    [read_arguments] of every program: what a program declares to its parser, what it takes back from it, and how it starts
    or ends.  The parser is the library argparse, a parameter: the class [Argparse] with what is documented.  It
    keeps every value as an [std::any], so that a value taken at another type than the one that was stored
    throws; the programs are compared with their declarations in this respect. *)

From Stdlib Require Import Ascii.
From S2P Require Import Prelude Protocol Config ConfigReader Publishers Compress.

(** ** Values *)

Inductive socket_type : Type := so_pull | so_sub.

(** The types of the values. *)
Inductive arg_type : Type := GString | GInt | GU16 | GSize | GBool | GStream | GSocket.

#[global] Instance arg_type_eq_dec : EqDecision arg_type.
Proof. solve_decision. Defined.

Definition arg_denote (t : arg_type) : Type :=
  match t with GString => string | GInt | GU16 | GSize => Z | GBool => bool | GStream => stream_type | GSocket => socket_type end.

Definition arg_typed (t : arg_type) : arg_denote t -> Prop :=
  match t with
  | GInt => in_i32
  | GU16 => in_u 16
  | GSize => in_u 64
  | _ => fun _ => True
  end.

(** [std::any]. *)
Definition any : Type := {t : arg_type & arg_denote t}.
Definition any_of (t : arg_type) (x : arg_denote t) : any := existT t x.

Definition any_cast (t : arg_type) (v : any) : outcome (arg_denote t) :=
  match decide (projT1 v = t) with left e => Ret (eq_rect _ arg_denote (projT2 v) _ e) | right _ => Throw bad_any_cast end.

(** ** Declarations *)

(** What an argument does with its text: keeps it, scans a number, calls a function of the program; a flag has no text. *)
Inductive action : Type :=
| AStore
| AScan (t : arg_type)
| ACall (t : arg_type) (f : string -> outcome (arg_denote t))
| AFlag.

Definition action_type (a : action) : arg_type :=
  match a with AStore => GString | AScan t => t | ACall t _ => t | AFlag => GBool end.

Record argument : Type := { a_name : string; a_action : action; a_default : option any; a_required : bool }.

(** A positional argument, or an option that is [required()]. *)
Definition required (name : string) (a : action) : argument :=
  {| a_name := name; a_action := a; a_default := None; a_required := true |}.
Definition optional (name : string) (a : action) (t : arg_type) (d : arg_denote t) : argument :=
  {| a_name := name; a_action := a; a_default := Some (any_of t d); a_required := false |}.
Definition flag (name : string) : argument :=
  {| a_name := name; a_action := AFlag; a_default := Some (any_of GBool false); a_required := false |}.

#[global] Instance argument_inhabited : Inhabited argument := populate (flag EmptyString).

Definition run_action (scan : forall t, string -> outcome (arg_denote t)) (a : action) (text : string) : outcome any :=
  match a with
  | AStore => Ret (any_of GString text)
  | AScan t => let! x := scan t text in Ret (any_of t x)
  | ACall t f => let! x := f text in Ret (any_of t x)
  | AFlag => Ret (any_of GBool true)
  end.

(** ** The library *)

(** [parse_args] throws a [std::runtime_error] of its own or lets an exception of an action pass. *)
Class Argparse := {
  scan : forall t, string -> outcome (arg_denote t);
  parse_args : list argument -> list string -> outcome (gmap string any);
  scan_law : forall t s x, scan t s = Ret x -> arg_typed t x;
  parse_law : forall l argv vals a, parse_args l argv = Ret vals -> NoDup (a_name <$> l) -> a ∈ l ->
    match vals !! a_name a with
    | Some v => a_default a = Some v \/ exists text, run_action scan (a_action a) text = Ret v
    | None => a_default a = None /\ a_required a = false
    end;
  throw_law : forall l argv e, parse_args l argv = Throw e ->
    e = runtime_error \/ exists a text, a ∈ l /\ run_action scan (a_action a) text = Throw e }.

(** ** args.hpp *)

(** A program that goes on, or [std::exit]. *)
Inductive start_of (A : Type) : Type := Started (a : A) | Exited (code : Z).
Arguments Started {A} _.
Arguments Exited {A} _.

Definition create_parser : list argument := [required "detector_json_filename" AStore].

Section Parse.
Context `{Argparse}.

(** Only a [std::runtime_error] is caught. *)
Definition parse_arguments (l : list argument) (argv : list string) : outcome (start_of (gmap string any)) :=
  match parse_args l argv with
  | Ret vals => Ret (Started vals)
  | Throw runtime_error => Ret (Exited 1)
  | Throw e => Throw e
  | Undef u => Undef u
  end.

(** [program->get<T>(name)]. *)
Definition get (t : arg_type) (vals : gmap string any) (name : string) : outcome (arg_denote t) :=
  match vals !! name with Some v => any_cast t v | None => Throw logic_error end.
End Parse.

(** ** Actions of the programs *)

(** [std::stoul]: a minus sign is accepted. *)
Definition unsigned_long (negative : bool) (s : string) : outcome Z :=
  match s with
  | String c _ =>
      match digit_of c with
      | Some _ => if bool_decide (digits 0 s < 2 ^ 64) then Ret (if negative then u64 (- digits 0 s) else digits 0 s) else Throw out_of_range
      | None => Throw invalid_argument
      end
  | EmptyString => Throw invalid_argument
  end.

Definition stoul (s : string) : outcome Z :=
  match skip_space s with
  | String c s' => if code c =? 45 then unsigned_long true s' else if code c =? 43 then unsigned_long false s' else unsigned_long false (String c s')
  | EmptyString => Throw invalid_argument
  end.

(** A choice between the keys of a map. *)
Definition choose {A} (type_map : list (string * A)) (arg : string) : outcome A :=
  match list_find (fun kv => fst kv = arg) type_map with Some (_, (_, v)) => Ret v | None => Throw runtime_error end.

Definition ZMQ_PULL_number : Z := 7.
Definition ZMQ_SUB_number : Z := 2.

(** ** The programs *)

(** What a program declares behind the name of the file, and what it takes from the parser. *)
Record program : Type := { p_arguments : list argument; p_gets : list (string * arg_type) }.

Notation "'source_suffix'" := (optional "--source_suffix" AStore GString "image"%string).
Notation "'with_module_id'" := {| p_arguments := [required "module_id" (AScan GU16)]; p_gets := [("module_id"%string, GU16)] |}.
Notation "'config_only'" := {| p_arguments := []; p_gets := [] |}.
Local Open Scope string_scope.

Definition udp_recv_gf_program : program := with_module_id.
Definition udp_recv_eg_program : program := with_module_id.
Definition udp_recv_jf_program : program := with_module_id.
Definition convert_gf_program : program := with_module_id.
Definition convert_eg_program : program := with_module_id.

Definition convert_jf_program : program := {|
  p_arguments := [optional "--gains_and_pedestals" AStore GString ""; required "module_id" (AScan GU16)];
  p_gets := [("module_id", GU16); ("--gains_and_pedestals", GString)] |}.

Definition sync_module_program : program := config_only.
Definition sync_stream_program : program := config_only.
Definition shm_holder_program : program := config_only.
Definition chunk_sender_program : program := config_only.
Definition meta_writer_program : program := config_only.
Definition udp_dump_program : program := config_only.

Definition sync_metadata_program : program := {|
  p_arguments := [required "metadata_stream_address" AStore]; p_gets := [("metadata_stream_address", GString)] |}.

Definition det_writer_program : program := {|
  p_arguments := [required "writer_id" (AScan GU16); source_suffix];
  p_gets := [("writer_id", GU16); ("--source_suffix", GString)] |}.

Definition det_driver_program : program := {|
  p_arguments := [source_suffix; optional "--port" (AScan GSize) GSize 8080; flag "--with_metadata_writer"];
  p_gets := [("--source_suffix", GString); ("--port", GSize); ("--with_metadata_writer", GBool)] |}.

Definition buffer_driver_program : program := {|
  p_arguments := [required "--stream_address" AStore; optional "--port" (AScan GSize) GSize 8080];
  p_gets := [("--stream_address", GString); ("--port", GSize)] |}.

Definition buffer_writer_program : program := {|
  p_arguments := [required "--root_dir" AStore; required "--db_address" AStore; optional "--timeout" (AScan GSize) GSize 1];
  p_gets := [("--db_address", GString); ("--root_dir", GString); ("--timeout", GSize)] |}.

Definition buffer_reader_program : program := {|
  p_arguments := [required "--root_dir" AStore; required "--db_address" AStore];
  p_gets := [("--root_dir", GString); ("--db_address", GString)] |}.

Definition delay_filter_program : program := {|
  p_arguments := [source_suffix]; p_gets := [("--source_suffix", GString)] |}.

Definition gf_filter_program : program := {|
  p_arguments := [source_suffix; flag "--no_filter"]; p_gets := [("--source_suffix", GString); ("--no_filter", GBool)] |}.

Definition metadata_stream_program : program := {|
  p_arguments := [required "stream_address" AStore; source_suffix];
  p_gets := [("stream_address", GString); ("--source_suffix", GString)] |}.

Definition stream_send_program : program := {|
  p_arguments := [required "stream_address" AStore; required "image_part" (AScan GInt)];
  p_gets := [("stream_address", GString); ("image_part", GInt)] |}.

Definition stream_receive_program : program := {|
  p_arguments := [required "stream_address" AStore; required "image_part" (AScan GInt)];
  p_gets := [("stream_address", GString); ("image_part", GInt)] |}.

Definition live_stream_program : program := {|
  p_arguments := [required "stream_address" AStore;
    optional "--source_suffix_meta" AStore GString "image"; optional "--source_suffix_image" AStore GString "image";
    optional "--type" (ACall GStream (choose [("bsread", bsread); ("array-1.0", array10)])) GStream array10];
  p_gets := [("stream_address", GString); ("--source_suffix_meta", GString); ("--source_suffix_image", GString); ("--type", GStream)] |}.

Definition array10_program : program := {|
  p_arguments := [required "stream_address" AStore; optional "--number_of_connections" (AScan GSize) GSize 4;
    optional "--type" (ACall GInt (choose [("pull", ZMQ_PULL_number); ("sub", ZMQ_SUB_number)])) GInt ZMQ_PULL_number];
  p_gets := [("stream_address", GString); ("--type", GInt); ("--number_of_connections", GSize)] |}.

Definition bsread_program : program := {|
  p_arguments := [required "stream_address" AStore; optional "--number_of_connections" (AScan GSize) GSize 4;
    optional "--type" (ACall GSocket (choose [("pull", so_pull); ("sub", so_sub)])) GSocket so_pull];
  p_gets := [("stream_address", GString); ("--type", GSocket); ("--number_of_connections", GSize)] |}.

Definition blosc2_program : program := {|
  p_arguments := [required "--threads" (ACall GSize (fun arg => let! value := stoul arg in threads_argument value));
    optional "--level" (ACall GSize (fun arg => let! value := stoul arg in level_argument value)) GSize 5];
  p_gets := [("--threads", GSize); ("--level", GSize)] |}.

Definition h5bitshuffle_program : program := {|
  p_arguments := [required "--threads" (ACall GInt (fun arg => let! value := stoi arg in threads_argument value));
    optional "--block_size" (ACall GInt (fun arg => let! value := stoi arg in block_size_argument value)) GInt 0];
  p_gets := [("--threads", GInt); ("--block_size", GInt)] |}.

(** The delay is declared as a text and taken as a number. *)
Definition udp_replay_program : program := {|
  p_arguments := [required "ms_delay" AStore; required "folder_path" AStore];
  p_gets := [("folder_path", GString); ("ms_delay", GInt)] |}.
Local Close Scope string_scope.

Definition programs : list program :=
  [udp_recv_gf_program; udp_recv_eg_program; udp_recv_jf_program; convert_gf_program; convert_eg_program; convert_jf_program;
   sync_module_program; sync_stream_program; sync_metadata_program; shm_holder_program; chunk_sender_program;
   meta_writer_program; udp_dump_program; det_writer_program; det_driver_program; buffer_driver_program; buffer_writer_program;
   buffer_reader_program; delay_filter_program; gf_filter_program; metadata_stream_program; stream_send_program;
   stream_receive_program; live_stream_program; array10_program; bsread_program; blosc2_program; h5bitshuffle_program].

Definition arguments_of (p : program) : list argument := create_parser ++ p_arguments p.

Section Start.
Context `{Argparse} `{Json json} (files : gmap string string).

Definition take_all (vals : gmap string any) (gets : list (string * arg_type)) : outcome (list any) :=
  foldO (fun l '(name, t) => let! x := get t vals name in Ret (l ++ [any_of t x])) gets [].

(** The arguments are parsed, the configuration is read, the values are taken in their order. *)
Definition read_arguments (p : program) (argv : list string) : outcome (start_of (DetectorConfig * list any)) :=
  let! r := parse_arguments (arguments_of p) argv in
  match r with
  | Exited c => Ret (Exited c)
  | Started vals =>
      let! file := get GString vals "detector_json_filename"%string in
      let! config := read_config_from_json_file (json := json) files file in
      let! l := take_all vals (p_gets p) in
      Ret (Started (config, l))
  end.
End Start.

(** ** logger.hpp *)

Inductive level : Type := lv_trace | lv_debug | lv_info | lv_warn | lv_err | lv_critical | lv_off.

(** [std::tolower] in the C locale. *)
Definition tolower (c : ascii) : ascii :=
  if (65 <=? code c) && (code c <=? 90) then ascii_of_N (Z.to_N (code c + 32)) else c.

Fixpoint to_lower (s : string) : string :=
  match s with String c s' => String (tolower c) (to_lower s') | EmptyString => EmptyString end.

Definition log_level_map : list (string * level) :=
  [("trace", lv_trace); ("debug", lv_debug); ("info", lv_info); ("warn", lv_warn); ("warning", lv_warn); ("err", lv_err);
   ("error", lv_err); ("critical", lv_critical); ("off", lv_off)]%string.

Definition to_log_level (l : string) : outcome level :=
  match list_find (fun kv => fst kv = to_lower l) log_level_map with
  | Some (_, (_, v)) => Ret v
  | None => Throw invalid_argument
  end.

(** The constructor of [logger] leaves the level of the default logger. *)
Definition logger_new (log_level : string) : outcome level := to_log_level log_level.

(** ** Values are taken at the type they are stored at *)

Definition stores_type (a : argument) (t : arg_type) : bool :=
  bool_decide (action_type (a_action a) = t) &&
  match a_default a with Some v => bool_decide (projT1 v = t) | None => a_required a end.

Definition well_typed (p : program) : bool :=
  bool_decide (NoDup (a_name <$> arguments_of p)) &&
  forallb (fun '(n, t) => existsb (fun a => bool_decide (a_name a = n) && stores_type a t) (arguments_of p))
    (("detector_json_filename"%string, GString) :: p_gets p).

Lemma programs_well_typed : forallb well_typed programs = true.
Proof. vm_compute. reflexivity. Qed.

(** The values of the defaults and of the functions of a program fit their types. *)
Definition argument_ok (a : argument) : Prop :=
  match a_default a with Some v => arg_typed (projT1 v) (projT2 v) | None => True end /\
  match a_action a with ACall t f => forall s x, f s = Ret x -> arg_typed t x | _ => True end.

Lemma bind_ret {A B} (m : outcome A) (k : A -> outcome B) y : (let! x := m in k x) = Ret y -> exists x, m = Ret x /\ k x = Ret y.
Proof. destruct m; [|done..]. eauto. Qed.

Lemma threads_accepted value x : threads_argument value = Ret x -> x = value /\ 2 <= x <= 128 /\ Z.even x = true.
Proof.
  unfold threads_argument. destruct (_ || _) eqn:E; [done|]. intros [= <-].
  rewrite !orb_false_iff, !Z.ltb_ge, negb_false_iff, Z.eqb_eq in E. destruct E as [[E1 E2] E3].
  rewrite Z.rem_mod_nonneg, Zmod_even in E3 by lia. destruct (Z.even value) eqn:Ev; [|done]. split_and!; try done.
  destruct (decide (value = 1)) as [->|]; [done|lia].
Qed.

Lemma level_accepted value x : level_argument value = Ret x -> x = value /\ 1 <= x <= 9.
Proof. unfold level_argument. destruct (_ || _) eqn:E; [done|]. intros [= <-]. rewrite orb_false_iff, !Z.ltb_ge in E. lia. Qed.

Lemma block_size_accepted value x : block_size_argument value = Ret x -> x = value /\ 0 <= x.
Proof. unfold block_size_argument. destruct (Z.ltb_spec value 0); [done|]. by intros [= <-]. Qed.

Lemma programs_ok p : p ∈ programs -> Forall argument_ok (arguments_of p).
Proof.
  intros Hp. assert (H : Forall (fun p => Forall argument_ok (arguments_of p)) programs); [|by rewrite list.Forall_forall in H; apply H].
  clear p Hp. unfold programs, arguments_of.
  repeat (apply Forall_cons_2; [repeat (apply Forall_cons_2; [split; cbn; try done; try (unfold in_u, in_i32; lia)|]); try apply Forall_nil_2|]);
    try apply Forall_nil_2.
  - intros s x. unfold choose. destruct (list_find _ _) as [[i [k v]]|] eqn:E; [|done]. intros [= <-].
    apply list_find_Some in E as (E & _). destruct i as [|[|i]]; cbn in E; simplify_eq; unfold in_i32; vm_compute; split; congruence.
  - intros s x (v & _ & Hx)%bind_ret. apply threads_accepted in Hx as (-> & ? & _). unfold in_u. lia.
  - intros s x (v & _ & Hx)%bind_ret. apply level_accepted in Hx as (-> & ?). unfold in_u. lia.
  - intros s x (v & _ & Hx)%bind_ret. apply threads_accepted in Hx as (-> & ? & _). unfold in_i32. lia.
  - intros s x (v & Hv & Hx)%bind_ret. apply block_size_accepted in Hx as (-> & ?). by apply stoi_range in Hv.
Qed.

Section Typed.
Context `{Argparse}.

Lemma any_cast_same t x : any_cast t (any_of t x) = Ret x.
Proof using Type.
  unfold any_cast. cbn. destruct (decide (t = t)) as [e|]; [|done]. by rewrite (proof_irrel e eq_refl).
Qed.

Lemma any_of_inj t x y : any_of t x = any_of t y -> x = y.
Proof using Type. intros E%(f_equal (any_cast t)). rewrite !any_cast_same in E. by injection E. Qed.

Lemma any_cast_other t v : projT1 v <> t -> any_cast t v = Throw bad_any_cast.
Proof using Type. intros Hn. unfold any_cast. by destruct (decide _). Qed.

Lemma run_action_typed a text v : argument_ok a -> run_action scan (a_action a) text = Ret v ->
  exists x, v = any_of (action_type (a_action a)) x /\ arg_typed _ x.
Proof using Type.
  intros (_ & Ha). unfold run_action. destruct (a_action a) as [|t|t f|]; cbn.
  - intros [= <-]. by eexists.
  - intros (x & Hx & [= <-])%bind_ret. apply scan_law in Hx. eauto.
  - intros (x & Hx & [= <-])%bind_ret. apply Ha in Hx. eauto.
  - intros [= <-]. by eexists.
Qed.

(** An argument that stores values of type [t] gives one. *)
Lemma get_stored l argv vals a t : parse_args l argv = Ret vals -> NoDup (a_name <$> l) -> a ∈ l -> argument_ok a -> stores_type a t = true ->
  exists x, get t vals (a_name a) = Ret x /\ arg_typed t x.
Proof using Type.
  intros Hp Hnd Ha Hok Hs. unfold stores_type in Hs. apply andb_true_iff in Hs as [Ht Hd]. apply bool_decide_eq_true in Ht as <-.
  pose proof (parse_law l argv vals a Hp Hnd Ha) as Hl. unfold get. destruct (vals !! a_name a) as [v|].
  - destruct Hl as [E|(text & E)].
    + destruct Hok as (Hok & _). rewrite E in Hok, Hd. apply bool_decide_eq_true in Hd. destruct v as [t x]. cbn in Hd, Hok. subst t.
      exists x. split; [apply any_cast_same|done].
    + apply run_action_typed in E as (x & -> & Hx); [|done]. exists x. split; [apply any_cast_same|done].
  - destruct Hl as [E Hr]. rewrite E in Hd. congruence.
Qed.

Lemma take_all_typed p argv vals : p ∈ programs -> parse_args (arguments_of p) argv = Ret vals ->
  (exists file, get GString vals "detector_json_filename" = Ret file) /\
  exists l, take_all vals (p_gets p) = Ret l /\
    Forall2 (fun '(n, t) v => exists x, v = any_of t x /\ arg_typed t x /\ get t vals n = Ret x) (p_gets p) l.
Proof using Type.
  intros Hp Hv. pose proof programs_well_typed as Hall. rewrite forallb_forall in Hall.
  specialize (Hall p (proj1 (list_elem_of_In _ _) Hp)). apply andb_true_iff in Hall as [Hnd Hall]. apply bool_decide_eq_true in Hnd.
  assert (Hget : forall n t, (n, t) ∈ (("detector_json_filename"%string, GString) :: p_gets p) -> exists x, get t vals n = Ret x /\ arg_typed t x).
  { intros n t Hin. rewrite forallb_forall in Hall. specialize (Hall _ (proj1 (list_elem_of_In _ _) Hin)). cbv beta iota in Hall.
    apply existsb_exists in Hall as (a & Ha%list_elem_of_In & [E Hs]%andb_true_iff). apply bool_decide_eq_true in E as <-.
    pose proof (programs_ok p Hp) as Hok. rewrite list.Forall_forall in Hok. by eapply get_stored; eauto. }
  split; [destruct (Hget _ _ ltac:(by left)) as (x & E & _); eauto|].
  assert (Hf : forall gets l0, (forall n t, (n, t) ∈ gets -> exists x, get t vals n = Ret x /\ arg_typed t x) -> exists l,
    foldO (fun l '(name, t) => let! x := get t vals name in Ret (l ++ [any_of t x])) gets l0 = Ret (l0 ++ l) /\
    Forall2 (fun '(n, t) v => exists x, v = any_of t x /\ arg_typed t x /\ get t vals n = Ret x) gets l).
  { clear. induction gets as [|[n t] gets IH]; intros l0 Hg; [exists []; by rewrite app_nil_r|].
    destruct (Hg n t ltac:(by left)) as (x & E & Hx). destruct (IH (l0 ++ [any_of t x])) as (l & El & Hl); [by intros; apply Hg; right|].
    exists (any_of t x :: l). cbn [foldO]. rewrite E. cbn [obind]. rewrite El, <- app_assoc. split; [done|]. constructor; eauto. }
  destruct (Hf (p_gets p) []) as (l & E & Hl); [intros; apply Hget; by right|]. exists l. done.
Qed.
End Typed.

(** C32: every program but the tool that replays recorded packets, whatever the parser makes of the words of the command line, if it does
    what it documents: values are taken back at the types at which they were stored, so that after the parser has returned all of them are
    there, fit their C++ types, and the program starts as soon as its configuration can be read; an error of the parser
    ends the program with code 1; any other exception is one that the action of a declared argument threw. *)
Theorem arguments_well_typed `{Argparse} `{Json json} (files : gmap string string) (p : program) (argv : list string) :
  p ∈ programs ->
  (forall vals, parse_args (arguments_of p) argv = Ret vals -> exists file l,
    get GString vals "detector_json_filename" = Ret file /\
    Forall2 (fun '(n, t) v => exists x, v = any_of t x /\ arg_typed t x /\ get t vals n = Ret x) (p_gets p) l /\
    read_arguments (json := json) files p argv =
      (let! c := read_config_from_json_file (json := json) files file in Ret (Started (c, l)))) /\
  (parse_args (arguments_of p) argv = Throw runtime_error -> read_arguments (json := json) files p argv = Ret (Exited 1)) /\
  (forall e, parse_args (arguments_of p) argv = Throw e -> e <> runtime_error ->
    read_arguments (json := json) files p argv = Throw e /\
    exists a text, a ∈ arguments_of p /\ run_action scan (a_action a) text = Throw e).
Proof.
  intros Hp. unfold read_arguments, parse_arguments. split_and!.
  - intros vals Hv. destruct (take_all_typed p argv vals Hp Hv) as ((file & Hf) & l & Hl & Ht). exists file, l. split; [done|]. split; [done|].
    rewrite Hv. cbn [obind]. rewrite Hf. cbn [obind]. rewrite Hl. by destruct (read_config_from_json_file _ _).
  - intros ->. done.
  - intros e He Hn. split; [rewrite He; by destruct e|]. by destruct (throw_law _ _ _ He).
Qed.

(** The tool that replays packets never gets further than its arguments. *)
Lemma udp_replay_never_starts `{Argparse} `{Json json} files argv c l : ~ read_arguments (json := json) files udp_replay_program argv = Ret (Started (c, l)).
Proof.
  unfold read_arguments, parse_arguments. destruct (parse_args _ argv) as [vals|e|u] eqn:Ep; cbn [obind]; [|by destruct e|done].
  destruct (get GString vals "detector_json_filename") as [file|?|?]; cbn [obind]; [|done..].
  destruct (read_config_from_json_file _ _); cbn [obind]; [|done..].
  unfold take_all. cbn [p_gets udp_replay_program foldO]. destruct (get GString vals "folder_path"); cbn [obind]; [|done..].
  assert (E : exists text, vals !! "ms_delay"%string = Some (any_of GString text)).
  { pose proof (parse_law _ _ _ (required "ms_delay" AStore) Ep) as Hl. cbn in Hl. destruct (vals !! "ms_delay"%string).
    - destruct Hl as [?|(text & [= <-])]; [|set_solver|done|eauto]. apply (bool_decide_eq_true_1 _). vm_compute. reflexivity.
    - destruct Hl as [_ ?]; [|set_solver|done]. apply (bool_decide_eq_true_1 _). vm_compute. reflexivity. }
  destruct E as (text & E). unfold get. rewrite E, any_cast_other by done. done.
Qed.

(** ** What the compressors and the drivers start with *)

Section Ranges.
Context `{Argparse}.

Lemma get_call l argv vals a t f : parse_args l argv = Ret vals -> NoDup (a_name <$> l) -> a ∈ l -> a_action a = ACall t f -> stores_type a t = true ->
  exists x, get t vals (a_name a) = Ret x /\ (a_default a = Some (any_of t x) \/ exists text, f text = Ret x).
Proof using Type.
  intros Hp Hnd Ha Hf Hs. pose proof (parse_law l argv vals a Hp Hnd Ha) as Hl. unfold stores_type in Hs. rewrite Hf in Hs, Hl.
  apply andb_true_iff in Hs as [_ Hd]. unfold get. destruct (vals !! a_name a) as [v|].
  - destruct Hl as [E|(text & (x & Hx & [= <-])%bind_ret)]; [|exists x; rewrite any_cast_same; eauto].
    rewrite E in Hd |- *. apply bool_decide_eq_true in Hd. destruct v as [t' x]. cbn in Hd. subst t'. exists x. rewrite any_cast_same. auto.
  - destruct Hl as [E Hr]. rewrite E in Hd. congruence.
Qed.

(** The number of threads is even and at most 128, the level is from 1 to 9. *)
Lemma blosc2_starts_in_range argv vals : parse_args (arguments_of blosc2_program) argv = Ret vals -> exists threads lvl,
  get GSize vals "--threads" = Ret threads /\ get GSize vals "--level" = Ret lvl /\
  2 <= threads <= 128 /\ Z.even threads = true /\ 1 <= lvl <= 9.
Proof using Type.
  intros Hp. assert (Hnd : NoDup (a_name <$> arguments_of blosc2_program)) by (apply (bool_decide_eq_true_1 _); vm_compute; reflexivity).
  destruct (get_call _ _ _ (arguments_of blosc2_program !!! 1%nat) GSize (fun arg => let! value := stoul arg in threads_argument value) Hp Hnd) as (x & E & Hx); [set_solver|done|done|].
  destruct (get_call _ _ _ (arguments_of blosc2_program !!! 2%nat) GSize (fun arg => let! value := stoul arg in level_argument value) Hp Hnd) as (y & Ey & Hy); [set_solver|done|done|].
  exists x, y. split; [exact E|]. split; [exact Ey|].
  destruct Hx as [?|(text & (v & _ & Hx)%bind_ret)]; [done|]. apply threads_accepted in Hx as (-> & ? & ?). split; [done|]. split; [done|].
  destruct Hy as [Hy|(text' & (v' & _ & Hy)%bind_ret)]; [apply Some_inj, any_of_inj in Hy; subst; lia|]. by apply level_accepted in Hy as (-> & ?).
Qed.

Lemma h5bitshuffle_starts_in_range argv vals : parse_args (arguments_of h5bitshuffle_program) argv = Ret vals -> exists threads block_size,
  get GInt vals "--threads" = Ret threads /\ get GInt vals "--block_size" = Ret block_size /\
  2 <= threads <= 128 /\ Z.even threads = true /\ 0 <= block_size.
Proof using Type.
  intros Hp. assert (Hnd : NoDup (a_name <$> arguments_of h5bitshuffle_program)) by (apply (bool_decide_eq_true_1 _); vm_compute; reflexivity).
  destruct (get_call _ _ _ (arguments_of h5bitshuffle_program !!! 1%nat) GInt (fun arg => let! value := stoi arg in threads_argument value) Hp Hnd) as (x & E & Hx); [set_solver|done|done|].
  destruct (get_call _ _ _ (arguments_of h5bitshuffle_program !!! 2%nat) GInt (fun arg => let! value := stoi arg in block_size_argument value) Hp Hnd) as (y & Ey & Hy); [set_solver|done|done|].
  exists x, y. split; [exact E|]. split; [exact Ey|].
  destruct Hx as [?|(text & (v & _ & Hx)%bind_ret)]; [done|]. apply threads_accepted in Hx as (-> & ? & ?). split; [done|]. split; [done|].
  destruct Hy as [Hy|(text' & (v' & _ & Hy)%bind_ret)]; [by apply Some_inj, any_of_inj in Hy; subst|]. by apply block_size_accepted in Hy as (-> & ?).
Qed.
End Ranges.

(** The acceptor of both drivers: [static_cast<port_type>(port)]. *)
Definition listening_port (port : Z) : Z := u16 port.

(** A port that a [uint16_t] does not hold is accepted, and another one listened on. *)
Lemma listening_port_wraps : (forall port, in_u 16 port -> listening_port port = port) /\ in_u 64 73616 /\ listening_port 73616 = 8080.
Proof. split; [|split; [unfold in_u; lia|reflexivity]]. intros port Hp. by apply u16_small. Qed.

(** ** Levels *)

Lemma tolower_idem c : tolower (tolower c) = tolower c.
Proof. destruct c as [[] [] [] [] [] [] [] []]; reflexivity. Qed.

Lemma to_lower_idem s : to_lower (to_lower s) = to_lower s.
Proof. induction s as [|c s IH]; cbn; [done|]. by rewrite tolower_idem, IH. Qed.

(** A level is one of nine names in any case; a configuration with another one ends the program. *)
Lemma log_level_accepted l :
  (exists v, logger_new l = Ret v) <-> to_lower l ∈ (fst <$> log_level_map).
Proof.
  unfold logger_new, to_log_level. destruct (list_find _ _) as [[i [k v]]|] eqn:E.
  - split; [intros _|eauto]. apply list_find_Some in E as (E & <- & _). apply list_elem_of_fmap. exists (k, v). split; [done|]. by eapply list_elem_of_lookup_2.
  - split; [by intros (? & ?)|]. intros (kv & Ek & Hin)%list_elem_of_fmap. rewrite list_find_None in E. rewrite list.Forall_forall in E. by destruct (E kv Hin).
Qed.

Lemma log_level_case l : logger_new (to_lower l) = logger_new l.
Proof. unfold logger_new, to_log_level. by rewrite to_lower_idem. Qed.

(** A configuration without a level starts with [info]. *)
Lemma default_level_starts : logger_new "info" = Ret lv_info /\ logger_new "WARNING" = Ret lv_warn /\ logger_new "verbose" = Throw invalid_argument.
Proof. split_and!; reflexivity. Qed.

(** ** A parser *)

(** Positional arguments in their order, options by their long names. *)
Section Plain.

Definition plain_scan (t : arg_type) : string -> outcome (arg_denote t) :=
  match t return string -> outcome (arg_denote t) with
  | GInt => stoi
  | GU16 => fun s => let! x := stoi s in if bool_decide (in_u 16 x) then Ret x else Throw out_of_range
  | GSize => fun s => let! x := stoul s in if bool_decide (in_u 64 x) then Ret x else Throw out_of_range
  | _ => fun _ => Throw logic_error
  end.

Definition is_option (w : string) : bool := String.prefix "--" w.

Fixpoint read_words (l pos : list argument) (acc : gmap string any) (argv : list string) : outcome (gmap string any) :=
  match argv with
  | [] =>
      if bool_decide (pos = []) && forallb (fun a => negb (a_required a) || bool_decide (is_Some (acc !! a_name a))) l
      then Ret acc else Throw runtime_error
  | w :: rest =>
      if is_option w then
        match list_find (fun a => a_name a = w) l with
        | Some (_, a) =>
            match a_action a, rest with
            | AFlag, _ => let! v := run_action plain_scan AFlag w in read_words l pos (<[w := v]> acc) rest
            | f, text :: rest' => let! v := run_action plain_scan f text in read_words l pos (<[w := v]> acc) rest'
            | _, [] => Throw runtime_error
            end
        | None => Throw runtime_error
        end
      else
        match pos with
        | a :: pos' => let! v := run_action plain_scan (a_action a) w in read_words l pos' (<[a_name a := v]> acc) rest
        | [] => Throw runtime_error
        end
  end.

Definition plain_defaults (l : list argument) : gmap string any :=
  list_to_map (omap (fun a => (fun d => (a_name a, d)) <$> a_default a) l).

Definition plain_parse (l : list argument) (argv : list string) : outcome (gmap string any) :=
  let! acc := read_words l (base.filter (fun a => is_option (a_name a) = false) l) ∅ argv in Ret (acc ∪ plain_defaults l).

(** Every value is what an argument of that name made of a word. *)
Definition made (l : list argument) (acc : gmap string any) : Prop :=
  forall k v, acc !! k = Some v -> exists a text, a ∈ l /\ a_name a = k /\ run_action plain_scan (a_action a) text = Ret v.

Lemma made_insert l acc a text v : made l acc -> a ∈ l -> run_action plain_scan (a_action a) text = Ret v -> made l (<[a_name a := v]> acc).
Proof. intros Hm Ha Hv k w [(<- & <-)|(_ & Hk)]%lookup_insert_Some; eauto. Qed.

(** What the words give, or what an action or the parser throws. *)
Definition words_ok (l : list argument) (r : outcome (gmap string any)) : Prop :=
  match r with
  | Ret acc => made l acc /\ forall a, a ∈ l -> a_required a = true -> is_Some (acc !! a_name a)
  | Throw e => e = runtime_error \/ exists a text, a ∈ l /\ run_action plain_scan (a_action a) text = Throw e
  | Undef _ => True
  end.

(** A word that an argument takes. *)
Lemma take_word l a text (k : any -> outcome (gmap string any)) : a ∈ l ->
  (forall v, run_action plain_scan (a_action a) text = Ret v -> words_ok l (k v)) ->
  words_ok l (let! v := run_action plain_scan (a_action a) text in k v).
Proof. intros Ha Hk. destruct (run_action _ _ _) eqn:E; cbn; eauto. Qed.

Lemma read_words_ok l n : forall argv pos acc, (length argv <= n)%nat -> pos ⊆ l -> made l acc -> words_ok l (read_words l pos acc argv).
Proof.
  induction n as [|n IH]; intros [|w rest] pos acc Hn Hpos Hm; cbn in Hn; try lia; cbn [read_words].
  1-2: destruct (_ && _) eqn:E; [|by left]; apply andb_true_iff in E as [_ E]; split; [done|]; intros a Ha Hr;
    rewrite forallb_forall in E; specialize (E a (proj1 (list_elem_of_In _ _) Ha)); rewrite Hr in E; by apply bool_decide_eq_true in E.
  destruct (is_option w).
  - destruct (list_find _ l) as [[i a]|] eqn:E; [|by left]. apply list_find_Some in E as (E & <- & _).
    apply list_elem_of_lookup_2 in E.
    destruct (a_action a) eqn:Ea; rewrite <- ?Ea; [destruct rest as [|text rest]; [by left|]..|];
      apply take_word; try done; intros v Hv; apply IH; try done; try (cbn in Hn; lia); by eapply made_insert.
  - destruct pos as [|a pos]; [by left|]. assert (Ha : a ∈ l) by set_solver.
    apply take_word; [done|]. intros v Hv. apply IH; [lia|set_solver|by eapply made_insert].
Qed.

Lemma plain_words l argv : words_ok l (read_words l (base.filter (fun a => is_option (a_name a) = false) l) ∅ argv).
Proof. eapply read_words_ok; [done| |by intros ? ? ?%lookup_empty_Some]. intros a [_ Ha]%list_elem_of_filter. done. Qed.

Lemma name_unique l a b : NoDup (a_name <$> l) -> a ∈ l -> b ∈ l -> a_name a = a_name b -> a = b.
Proof.
  induction l as [|c l IH]; intros Hnd Ha Hb E; [by apply elem_of_nil in Ha|]. cbn in Hnd. apply list.NoDup_cons in Hnd as [Hc Hnd].
  assert (Hx : forall x, x ∈ l -> a_name x <> a_name c) by (intros x Hx Ex; apply Hc; rewrite <- Ex; apply list_elem_of_fmap; eauto).
  apply elem_of_cons in Ha as [->|Ha], Hb as [->|Hb]; [done|by destruct (Hx b Hb)|by destruct (Hx a Ha)|by apply IH].
Qed.

Lemma defaults_lookup l a : NoDup (a_name <$> l) -> a ∈ l -> plain_defaults l !! a_name a = a_default a.
Proof.
  unfold plain_defaults. induction l as [|b l IH]; intros Hnd Ha; [by apply elem_of_nil in Ha|]. cbn in Hnd.
  apply list.NoDup_cons in Hnd as [Hb Hnd]. apply elem_of_cons in Ha as [->|Ha].
  - cbn. destruct (a_default b) as [d|]; cbn; [by rewrite lookup_insert_eq|]. apply not_elem_of_list_to_map_1.
    intros Hin. apply Hb. apply list_elem_of_fmap in Hin as ([k d] & -> & (a & Ha & E)%list_elem_of_omap). cbn.
    apply fmap_Some in E as (? & _ & [= -> _]). apply list_elem_of_fmap. eauto.
  - assert (Hne : a_name b <> a_name a) by (intros E; apply Hb; rewrite E; apply list_elem_of_fmap; eauto).
    cbn. destruct (a_default b) as [d|]; cbn; [rewrite lookup_insert_ne by done|]; by apply IH.
Qed.
End Plain.

#[program]
Definition plain_argparse : Argparse := {| scan := plain_scan; parse_args := plain_parse |}.
Next Obligation.
  intros t s x. destruct t; cbn; try done.
  - apply stoi_range.
  - intros (v & _ & Hv)%bind_ret. case_bool_decide; [by injection Hv as <-|done].
  - intros (v & _ & Hv)%bind_ret. case_bool_decide; [by injection Hv as <-|done].
Qed.
Next Obligation.
  intros l argv vals a Hp Hnd Ha. unfold plain_parse in Hp. apply bind_ret in Hp as (acc & Hacc & [= <-]).
  pose proof (plain_words l argv) as Hw. rewrite Hacc in Hw. destruct Hw as [Hm Hr].
  rewrite lookup_union, defaults_lookup by done. destruct (acc !! a_name a) as [v|] eqn:E.
  - rewrite union_Some_l. right. apply Hm in E as (b & text & Hb & Hn & Hv). exists text.
    assert (b = a) as ->; [|done]. by apply (name_unique l).
  - destruct (a_default a) as [d|]; [by left|]. split; [done|].
    destruct (a_required a) eqn:Er; [|done]. destruct (Hr a Ha Er). congruence.
Qed.
Next Obligation.
  intros l argv e Hp. unfold plain_parse in Hp. pose proof (plain_words l argv) as Hw.
  destruct (read_words _ _ _ _); cbn in Hp; [done| |done]. injection Hp as <-. exact Hw.
Qed.

(** The command lines of a compressor and of a live stream. *)
Definition argument_texts : gmap string tree := {["doc" := demo_document demo_streams]}%string.
Definition argument_files : gmap string string := {["eg.json" := "doc"]}%string.

Definition live_words : list string := ["eg.json"; "tcp://127.0.0.1:5000"; "--type"; "bsread"]%string.

Definition live_arguments : outcome (start_of (DetectorConfig * list any)) :=
  @read_arguments plain_argparse tree (tree_json argument_texts) argument_files live_stream_program live_words.

Definition live_values : list any :=
  [any_of GString "tcp://127.0.0.1:5000"; any_of GString "image"; any_of GString "image"; any_of GStream bsread]%string.

Lemma live_parsed : exists vals, @parse_args plain_argparse (arguments_of live_stream_program) live_words = Ret vals.
Proof.
  generalize (eq_refl : match @parse_args plain_argparse (arguments_of live_stream_program) live_words with Ret _ => true | _ => false end = true).
  generalize (@parse_args plain_argparse (arguments_of live_stream_program) live_words). intros [vals|?|?]; [eauto|done..].
Qed.

Lemma live_started : exists c, live_arguments = Ret (Started (c, live_values)) /\ n_modules c = 2.
Proof.
  assert (E : omap_out (fun r => match r with Started (c, l) => Some (n_modules c, l) | Exited _ => None end) live_arguments = Ret (Some (2, live_values)))
    by (vm_compute; reflexivity).
  revert E. generalize live_arguments. intros [[[c l]|?]|?|?]; cbn [omap_out]; try done. intros [= En ->]. exists c. done.
Qed.

Lemma arguments_well_typed_witness :
  exists c vals file l,
    @parse_args plain_argparse (arguments_of live_stream_program) live_words = Ret vals /\
    get GString vals "detector_json_filename" = Ret file /\
    Forall2 (fun '(n, t) v => exists x, v = any_of t x /\ arg_typed t x /\ get t vals n = Ret x) (p_gets live_stream_program) l /\
    live_arguments = Ret (Started (c, l)) /\ l = live_values /\ n_modules c = 2.
Proof.
  destruct live_parsed as (vals & Ep). destruct live_started as (c & He & Hn).
  assert (Hp : live_stream_program ∈ programs) by (apply (list_elem_of_lookup_2 _ 23); reflexivity).
  destruct (proj1 (@arguments_well_typed plain_argparse tree (tree_json argument_texts) argument_files live_stream_program live_words Hp) vals Ep)
    as (file & l & Hf & Ht & Hr).
  change (@read_arguments plain_argparse tree (tree_json argument_texts) argument_files live_stream_program live_words) with live_arguments in Hr.
  assert (Hl : l = live_values).
  { rewrite He in Hr. revert Hr. generalize (@read_config_from_json_file tree (tree_json argument_texts) argument_files file).
    intros [c'|?|?]; [|discriminate..]. cbn [obind]. intros Hr. injection Hr. congruence. }
  exists c, vals, file, l. split; [exact Ep|]. split; [exact Hf|]. split; [exact Ht|]. split; [rewrite Hl; exact He|]. split; [exact Hl|exact Hn].
Defined.

(** A word that is no number is not an error of the parser: the exception of [std::stoul] ends the program. *)
Lemma threads_not_a_number :
  @read_arguments plain_argparse tree (tree_json argument_texts) argument_files blosc2_program ["eg.json"; "--threads"; "two"]%string = Throw invalid_argument /\
  @read_arguments plain_argparse tree (tree_json argument_texts) argument_files blosc2_program ["eg.json"; "--threads"; "1"]%string = Ret (Exited 1) /\
  exists c, @read_arguments plain_argparse tree (tree_json argument_texts) argument_files blosc2_program ["eg.json"; "--threads"; "6"]%string =
    Ret (Started (c, [any_of GSize 6; any_of GSize 5])).
Proof. split_and!; [vm_compute; reflexivity..|]. eexists. vm_compute. reflexivity. Qed.

Lemma udp_replay_refused :
  @read_arguments plain_argparse tree (tree_json argument_texts) argument_files udp_replay_program ["eg.json"; "10"; "/data"]%string = Throw bad_any_cast.
Proof. vm_compute. reflexivity. Qed.
