(* ===== verification/ConvertLoop.v ===== *)
(** * The loop of the converter services

    The three [main.cpp] of [src/source/std-data-convert] share one loop: receive the
    metadata of a module's frame, convert the frame from the receiver's ring into the slot
    of its image in the sender's ring, and pass the metadata on without data.  They differ
    in the converter, which is the argument [conv] here: from the bytes of the frame and
    the bytes of the slot to the new bytes of the slot.  [ImageConverter] is what the loop
    relies on; [ConvertGf], [ConvertEg] and [ConvertJf] provide it. *)

From S2P Require Import Prelude Formats Config RamBuffer Stats.

(** ** Views of bytes as wider cells

    [reinterpret_cast<uint16_t*>(bytes)]: cells of [k] bytes, little-endian. *)

Fixpoint words (k n : nat) (bs : list Z) : list Z :=
  match n with
  | O => []
  | S n' => le_decode (take k bs) :: words k n' (drop k bs)
  end.

Fixpoint unwords (k : nat) (ws : list Z) : list Z :=
  match ws with
  | [] => []
  | w :: ws' => le_encode k w ++ unwords k ws'
  end.

Lemma length_words k n bs : length (words k n bs) = n.
Proof. revert bs. induction n; intros; simpl; auto. Qed.

Lemma length_unwords k ws : length (unwords k ws) = (k * length ws)%nat.
Proof.
  induction ws as [|w ws IH]; simpl; [lia|].
  rewrite length_app, length_le_encode, IH. lia.
Qed.

Lemma words_unwords k ws :
  Forall (fun v => 0 <= v < 2 ^ (8 * Z.of_nat k)) ws -> words k (length ws) (unwords k ws) = ws.
Proof.
  induction 1 as [|v ws Hv _ IH]; simpl; [done|].
  rewrite take_app_length', drop_app_length' by (symmetry; apply length_le_encode).
  by rewrite le_decode_encode, IH.
Qed.

Lemma half_length (old : list Z) n : 0 <= n -> zlen old = 2 * n -> (length old / 2)%nat = Z.to_nat n.
Proof.
  intros Hn Ho. rewrite <- (Nat2Z.id (length old)). unfold zlen in Ho. rewrite Ho.
  rewrite Z2Nat.inj_mul by lia. rewrite Nat.mul_comm. by apply Nat.div_mul.
Qed.

(** ** The size test of the Eiger and Jungfrau converters *)

(** [abs(a - b) != expected] on [int] operands and an unsigned constant. *)
Definition size_differs (a b expected : Z) : outcome bool :=
  let! d := i32 (a - b) in
  let! diff := i32 (Z.abs d) in
  Ret (negb (u32 diff =? expected)).

Lemma size_differs_ret a b expected :
  in_i32 (a - b) -> 0 <= expected < 2 ^ 31 -> Z.abs (a - b) = expected ->
  size_differs a b expected = Ret false.
Proof.
  intros Hd He Hab. unfold size_differs. rewrite i32_ret by done. cbn [obind].
  rewrite i32_ret by (unfold in_i32; lia). cbn [obind].
  by rewrite Hab, u32_small, Z.eqb_refl by lia.
Qed.

Lemma size_differs_false a b expected :
  size_differs a b expected = Ret false -> 0 <= expected < 2 ^ 32 -> Z.abs (a - b) = expected.
Proof.
  unfold size_differs. intros (d & [-> Hd]%i32_inv & (x & [-> Hx]%i32_inv & [= E])%obind_Ret_iff)%obind_Ret_iff He.
  apply negb_false_iff, Z.eqb_eq in E. unfold in_i32 in Hx. rewrite u32_small in E by lia. done.
Qed.

(** ** The loop *)

Record converter_state : Type := {
  receiver : Communicator;
  sender : Communicator;
  mem : shm;
  meta : list Z;
  stats : ModuleStats.ModuleStatsCollector
}.

Section Loop.
Variable (conv : list Z -> list Z -> outcome (list Z)).
Variable (frame_n_bytes converted_bytes : Z).

(** The span over the slot of [id]: [converted_bytes] bytes behind [sender.get_data(id)]. *)
Definition convert_slot (snd : Communicator) (s : shm) (image : list Z) (id : Z) : outcome shm :=
  let! off := get_data (buffer snd) id in
  let m := shm_bytes s (shm_fd_ (buffer snd)) in
  let! old := mem_read m off converted_bytes in
  let! new := conv image old in
  let! m' := mem_write m off new in
  Ret (shm_set s (shm_fd_ (buffer snd)) m').

(** One iteration.  [msg] is the incoming message, [None] when [zmq_recv] fails. *)
Definition convert_step (now now_rate : Z) (msg : option (list Z)) (st : converter_state) :
  outcome (option (list stat) * converter_state) :=
  let! '(meta', id, image) := receive (receiver st) (meta st) msg in
  let! st' :=
    match image with
    | Some off =>
        if id =? INVALID_IMAGE_ID then Ret (Build_converter_state (receiver st) (sender st) (mem st) meta' (stats st))
        else
          let! frame := mem_read (shm_bytes (mem st) (shm_fd_ (buffer (receiver st)))) off frame_n_bytes in
          let! s1 := convert_slot (sender st) (mem st) frame id in
          let! '(snd, s2) := send (sender st) s1 id meta' None in
          Ret (Build_converter_state (receiver st) snd s2 meta' (ModuleStats.process (stats st)))
    | None => Ret (Build_converter_state (receiver st) (sender st) (mem st) meta' (stats st))
    end in
  let (report, t) := print_stats now now_rate (stats st') in
  Ret (report, Build_converter_state (receiver st') (sender st') (mem st') (meta st') t).
End Loop.

(** The part of the three [main] functions that opens the two streams.  The names are
    built from the detector's name and the module's number. *)
Definition converter_streams (os : syscalls) (config : DetectorConfig) (source_name : string)
  (frame_n_bytes module_id now : Z) (s : shm) : outcome converter_state :=
  let! converted_bytes := converted_image_n_bytes config in
  let! '(rcv, s1) := Communicator_new os
      {| rbc_buffer_name := source_name; rbc_n_bytes_data := frame_n_bytes;
         rbc_n_buffer_slots := RECEIVER_RAM_BUFFER_N_SLOTS |}
      {| stream_name := source_name; conn_type := CONN_TYPE_CONNECT |} s in
  let! slots := slots_number config in
  let! '(snd, s2) := Communicator_new os
      {| rbc_buffer_name := String.append (Config.detector_name config) "-image";
         rbc_n_bytes_data := converted_bytes; rbc_n_buffer_slots := slots |}
      {| stream_name := String.append (Config.detector_name config) "-sync";
         conn_type := CONN_TYPE_CONNECT |} s1 in
  Ret {| receiver := rcv; sender := snd; mem := s2;
         meta := replicate (Z.to_nat DET_FRAME_STRUCT_BYTES) 0;
         stats := ModuleStats.new (Config.detector_name config)
                    (stats_collection_period config) module_id now |}.

(** ** The converters' promise *)

(** A converter accepts every frame and slot of the sizes of its service, and keeps the
    size of the slot. *)
Class ImageConverter (conv : list Z -> list Z -> outcome (list Z)) (n_in n_out : Z) : Prop :=
  conv_total : forall frame old, zlen frame = n_in -> zlen old = n_out ->
    exists new, conv frame old = Ret new /\ zlen new = n_out.

(** The two rings of a running service: mapped, of the sizes it was started with, and
    different objects. *)
Definition converter_ok (n_in n_out : Z) (st : converter_state) : Prop :=
  let r := buffer (receiver st) in let w := buffer (sender st) in
  wf_ram r /\ wf_ram w /\ data_bytes_ r = n_in /\ data_bytes_ w = n_out /\
  shm_fd_ r <> shm_fd_ w /\
  zlen (shm_bytes (mem st) (shm_fd_ r)) = buffer_bytes_ r /\
  zlen (shm_bytes (mem st) (shm_fd_ w)) = buffer_bytes_ w /\
  zlen (meta st) = DET_FRAME_STRUCT_BYTES.

Section Correctness.
Context (conv : list Z -> list Z -> outcome (list Z)) (n_in n_out : Z) `{!ImageConverter conv n_in n_out}.

(** Converting in place replaces one slot. *)
Lemma convert_slot_spec snd s frame id :
  wf_ram (buffer snd) -> data_bytes_ (buffer snd) = n_out -> zlen frame = n_in ->
  zlen (shm_bytes s (shm_fd_ (buffer snd))) = buffer_bytes_ (buffer snd) ->
  exists old new s', slot_data (buffer snd) (shm_bytes s (shm_fd_ (buffer snd))) id = Ret old /\
    conv frame old = Ret new /\
    convert_slot conv n_out snd s frame id = Ret s' /\
    s' = shm_set s (shm_fd_ (buffer snd)) (shm_bytes s' (shm_fd_ (buffer snd))) /\
    zlen (shm_bytes s' (shm_fd_ (buffer snd))) = buffer_bytes_ (buffer snd) /\
    forall id', slot_data (buffer snd) (shm_bytes s' (shm_fd_ (buffer snd))) id' =
      if decide (id' mod n_slots_ (buffer snd) = id mod n_slots_ (buffer snd)) then Ret new
      else slot_data (buffer snd) (shm_bytes s (shm_fd_ (buffer snd))) id'.
Proof using ImageConverter0.
  intros Hwf Hd Hf Hm. set (m := shm_bytes s (shm_fd_ (buffer snd))) in *.
  destruct (slot_data_len (buffer snd) m id Hwf Hm) as (old & Hold & Hl & Hr).
  destruct (conv_total frame old) as (new & Hnew & Hln); [done|congruence|].
  destruct (write_block_spec (buffer snd) m id new Hwf Hm) as (m' & Hw & Hlm & Hs); [lia|].
  exists old, new, (shm_set s (shm_fd_ (buffer snd)) m'). rewrite shm_bytes_set_eq.
  rewrite take_ge in Hs by (unfold zlen in *; lia).
  destruct (slot_offset (buffer snd) id Hwf) as (Ho & ? & ?).
  split_and!; try done; [|congruence].
  unfold convert_slot. rewrite Ho. cbn [obind]. fold m. rewrite <- Hd, Hr. cbn [obind].
  rewrite Hnew. cbn [obind]. unfold write_block, memcpy in Hw. rewrite Ho in Hw. cbn [obind] in Hw.
  rewrite mem_read_full in Hw by congruence. cbn [obind] in Hw. by rewrite Hw.
Qed.

Lemma convert_step_frame `{DetFrame T} now now_rate (x : T) st :
  converter_ok n_in n_out st -> wf_packed x -> image_id (common x) <> INVALID_IMAGE_ID ->
  let r := buffer (receiver st) in let w := buffer (sender st) in
  let id := image_id (common x) in
  exists frame old new report st',
    slot_data r (shm_bytes (mem st) (shm_fd_ r)) id = Ret frame /\
    slot_data w (shm_bytes (mem st) (shm_fd_ w)) id = Ret old /\
    conv frame old = Ret new /\
    convert_step conv n_in n_out now now_rate (Some (encode x)) st = Ret (report, st') /\
    converter_ok n_in n_out st' /\
    sent (sender st') = sent (sender st) ++ [encode x] /\
    shm_bytes (mem st') (shm_fd_ r) = shm_bytes (mem st) (shm_fd_ r) /\
    forall id', slot_data w (shm_bytes (mem st') (shm_fd_ w)) id' =
      if decide (id' mod n_slots_ w = id mod n_slots_ w) then Ret new
      else slot_data w (shm_bytes (mem st) (shm_fd_ w)) id'.
Proof using ImageConverter0.
  intros (Hr & Hw & Hdr & Hdw & Hne & Hmr & Hmw & Hmeta) Hx Hid r w id.
  destruct (slot_data_len r _ id Hr Hmr) as (frame & Hframe & Hlf & Hrf).
  destruct (convert_slot_spec (sender st) (mem st) frame id Hw Hdw) as
    (old & new & s' & Hold & Hnew & Hc & Hs' & Hls & Hslots); [by rewrite Hlf|done|].
  destruct (slot_offset r id Hr) as (Ho & _).
  exists frame, old, new. unfold convert_step, receive. fold r.
  rewrite recv_into_full, cast_image_id_encode by
    (done || (pose proof (encode_zlen x Hx); rewrite frame_size in *; unfold zlen in *; lia)).
  fold id. rewrite Ho. cbn [obind]. apply Z.eqb_neq in Hid. fold id in Hid. rewrite Hid.
  unfold r, w in *. rewrite <- Hdr, Hrf. cbn [obind]. rewrite Hc. cbn [obind].
  unfold send, write, write_block. cbn [obind].
  destruct (print_stats now now_rate _) as [report t]. eexists _, _.
  split; [done|]. split; [done|]. split; [done|]. split; [reflexivity|].
  cbn [receiver sender mem meta stats]. rewrite shm_bytes_set_eq.
  assert (Hother : shm_bytes s' (shm_fd_ (buffer (receiver st))) =
                   shm_bytes (mem st) (shm_fd_ (buffer (receiver st)))).
  { rewrite Hs'. by apply shm_bytes_set_ne. }
  split_and!; try done.
  - unfold converter_ok. cbn [receiver sender mem meta]. unfold zmq_send. cbn [buffer].
    rewrite shm_bytes_set_eq, shm_bytes_set_ne, Hother by done.
    split_and!; try done. rewrite <- (frame_size (T := T)). by apply encode_zlen.
  - by rewrite shm_bytes_set_ne.
Qed.
End Correctness.
