(* ===== verification/ConvertGf.v ===== *)
(** * GigaFRoST converter

    [src/source/std-data-convert/std-data-convert-gf]: [converter.cpp] unpacks the 12-bit
    pixels of one of the eight modules and stores them at the module's place in the image;
    [main.cpp] runs it between two RAM buffers.  The input is a list of bytes, the output a
    list of 16-bit pixels.  The bit-field struct [conversion_handle] is the three bytes it
    occupies. *)

From S2P Require Import Prelude Formats Config RamBuffer Stats GfGeometry Scatter ConvertLoop.

Record GfConverter : Type := {
  height : Z;
  width : Z;
  start_index : Z;
  row_jump : Z
}.

(** The enumerators in the order of their numbers; other numbers behave like [NE]. *)
Definition quadrant_of (i : Z) : gf.quadrant_id :=
  if i =? 0 then gf.SW else if i =? 1 then gf.SE else if i =? 2 then gf.NW else gf.NE.

Definition calculate_start_index (module_id : Z) (quadrant : gf.quadrant_id)
  (image_height image_width : Z) : Z :=
  let odd := if Z.rem module_id 2 =? 0 then 0 else image_width in
  match quadrant with
  | gf.SW => u64 (u64 (image_height / 2 * image_width) + odd)
  | gf.SE => u64 (u64 (u64 (image_height / 2 * image_width) + image_width / 2) + odd)
  | gf.NW => u64 (u64 (u64 (image_height - 1) / 2 * image_width) - odd)
  | gf.NE => u64 (u64 (u64 (u64 (image_height - 1) / 2 * image_width) + image_width / 2) - odd)
  end.

Definition calculate_row_jump (quadrant : gf.quadrant_id) (image_width : Z) : outcome Z :=
  let! a := i32 (2 * to_i32 image_width) in
  i32 (a * match quadrant with gf.NW | gf.NE => -1 | _ => 1 end).

Definition GfConverter_new (image_height image_width : Z) (q : gf.quadrant_id) (module_id : Z) :
  outcome GfConverter :=
  let! jump := calculate_row_jump q image_width in
  Ret {| height := image_height; width := image_width;
         start_index := calculate_start_index module_id q image_height image_width;
         row_jump := jump |}.

(** The two stores of the inner loop. *)
Definition convert_pair (input : list Z) (st : Z * list Z) (j : Z) : outcome (Z * list Z) :=
  let (i, output) := st in
  let! c := mem_read input (3 * i) 3 in
  match c with
  | [b0; b1; b2] =>
      let p11 := b0 in let p21 := Z.land b1 15 in
      let p12 := Z.shiftr b1 4 in let p22 := b2 in
      let! out1 := mem_write output j [Z.lor p11 (Z.shiftl p21 8)] in
      let! out2 := mem_write out1 (j + 1) [Z.lor p12 (Z.shiftl p22 4)] in
      Ret (u32 (i + 1), out2)
  | _ => Undef out_of_bounds
  end.

Definition convert_row (c : GfConverter) (input : list Z) (st : Z * list Z) (row : Z) :
  outcome (Z * list Z) :=
  let! a := i32 (row_jump c * row) in
  let start_row := to_i64 (u64 (a + start_index c)) in
  let end_row := to_i64 (u64 (start_row + width c / 2)) in
  foldO (convert_pair input) ((fun t => start_row + 2 * t) <$> seqZ 0 ((end_row - start_row + 1) / 2)) st.

Definition convert (c : GfConverter) (input output : list Z) : outcome (list Z) :=
  omap_out snd (foldO (convert_row c input) (seqZ 0 (height c / 4)) (0, output)).

(** ** main.cpp *)

Definition gf_converter_of_module (image_height image_width module_id : Z) : outcome GfConverter :=
  GfConverter_new image_height image_width (quadrant_of (Z.rem module_id 8 / 2)) module_id.

(** [convert] on the bytes of the slot, which it views as 16-bit pixels. *)
Definition gf_convert_bytes (c : GfConverter) (input output_buffer : list Z) : outcome (list Z) :=
  let n := (length output_buffer / 2)%nat in
  let! output := convert c input (words 2 n output_buffer) in
  Ret (unwords 2 output ++ drop (2 * n) output_buffer).

(** One iteration of the loop. *)
Definition gf_convert_step (c : GfConverter) (module_bytes converted_bytes : Z) :=
  convert_step (gf_convert_bytes c) module_bytes converted_bytes.

(** What [main] does in front of the loop. *)
Definition gf_convert_main (os : syscalls) (config : DetectorConfig) (source_name : string)
  (module_id now : Z) (s : shm) : outcome (GfConverter * Z * Z * converter_state) :=
  let h := u64 (image_pixel_height config) in let w := u64 (image_pixel_width config) in
  let! module_bytes := converter_module_bytes h w in
  let! converted_bytes := converted_image_n_bytes config in
  let! st := converter_streams os config source_name module_bytes module_id now s in
  let! c := gf_converter_of_module h w module_id in
  Ret (c, module_bytes, converted_bytes, st).

(** ** Specification *)

(** Pixel number [p] of a stream of 12-bit pixels, two in three bytes. *)
Definition pixel12 (input : list Z) (p : Z) : Z :=
  let b k := default 0 (input !! Z.to_nat (3 * (p / 2) + k)) in
  if Z.even p then Z.lor (b 0) (Z.shiftl (Z.land (b 1) 15) 8)
  else Z.lor (Z.shiftr (b 1) 4) (Z.shiftl (b 2) 4).

(** The image row and column of row [r], column [x] of module [m] (0 to 7): the rows of a
    quadrant alternate between its two modules, and the northern quadrants grow upwards
    from the middle. *)
Definition image_row (h m r : Z) : Z :=
  if m <? 4 then h / 2 + 2 * r + m mod 2 else h / 2 - 1 - 2 * r - m mod 2.

Definition image_column (w m x : Z) : Z := if (m / 2) mod 2 =? 0 then x else w / 2 + x.

Definition pixel_place (h w m p : Z) : Z :=
  image_row h m (p / (w / 2)) * w + image_column w m (p mod (w / 2)).

(** ** Correctness *)

(** An image of whole 4 x 4 blocks whose pixel offsets fit into an [int]. *)
Definition gf_image_size (h w : Z) : Prop :=
  0 < h /\ 0 < w /\ h mod 4 = 0 /\ w mod 4 = 0 /\ h * w < 2 ^ 30 /\ w < 2 ^ 29.

Lemma module_cases m : 0 <= m < 8 -> m = 0 \/ m = 1 \/ m = 2 \/ m = 3 \/ m = 4 \/ m = 5 \/ m = 6 \/ m = 7.
Proof. lia. Qed.

(** Evaluate what depends on the number of a module only. *)
Ltac eval_module :=
  repeat match goal with
  | |- context [quadrant_of ?t] =>
      let v := eval vm_compute in (quadrant_of t) in change (quadrant_of t) with v
  | |- context [?x <? 4] => let v := eval vm_compute in (x <? 4) in change (x <? 4) with v
  | |- context [?x mod 2 =? 0] =>
      let v := eval vm_compute in (x mod 2 =? 0) in change (x mod 2 =? 0) with v
  | |- context [Z.rem ?x 2 =? 0] =>
      let v := eval vm_compute in (Z.rem x 2 =? 0) in change (Z.rem x 2 =? 0) with v
  | |- context [?x mod 2] => let v := eval vm_compute in (x mod 2) in change (x mod 2) with v
  end; cbv iota beta.

(** The numbers of a converter, for the blocks [h = 4 * a], [w = 4 * b]. *)
Lemma converter_numbers a b m :
  0 < a -> 0 < b -> 4 * a * (4 * b) < 2 ^ 30 -> 4 * b < 2 ^ 29 -> 0 <= m < 8 ->
  exists c, gf_converter_of_module (4 * a) (4 * b) m = Ret c /\
    height c = 4 * a /\ width c = 4 * b /\
    row_jump c = (if m <? 4 then 8 * b else - (8 * b)) /\
    start_index c = image_row (4 * a) m 0 * (4 * b) + image_column (4 * b) m 0 /\
    0 <= start_index c < 4 * a * (4 * b).
Proof.
  intros Ha Hb Hab Hw Hm. unfold gf_converter_of_module, GfConverter_new, calculate_row_jump.
  unfold to_i32. rewrite swrap_small by lia.
  assert (Hh : 4 * a / 2 = 2 * a).
  { replace (4 * a) with (2 * a * 2) by lia. apply Z.div_mul. lia. }
  assert (Hh1 : (4 * a - 1) / 2 = 2 * a - 1).
  { symmetry. apply Z.div_unique with 1; lia. }
  assert (Hw2 : 4 * b / 2 = 2 * b).
  { replace (4 * b) with (2 * b * 2) by lia. apply Z.div_mul. lia. }
  assert (a <= a * b) by nia. assert (b <= a * b) by nia.
  assert (E1 : i32 (2 * (4 * b)) = Ret (8 * b)) by (rewrite i32_ret; [f_equal; lia|unfold in_i32; lia]).
  rewrite E1. cbn [obind].
  assert (E2 : i32 (8 * b * 1) = Ret (8 * b)) by (rewrite i32_ret; [f_equal; lia|unfold in_i32; lia]).
  assert (E3 : i32 (8 * b * -1) = Ret (- (8 * b))) by (rewrite i32_ret; [f_equal; lia|unfold in_i32; lia]).
  unfold image_row, image_column. rewrite Hh, Hw2.
  destruct (module_cases m Hm) as [->|[->|[->|[->|[->|[->|[->| ->]]]]]]]; eval_module;
    cbn [obind]; rewrite ?E2, ?E3; cbn [obind];
    eexists; (split; [reflexivity|]); cbn [height width row_jump start_index];
    (split; [done|]); (split; [done|]); (split; [done|]);
    unfold calculate_start_index; eval_module;
    rewrite ?Hh, ?Hw2, ?(u64_small (4 * a - 1)), ?Hh1 by lia;
    rewrite ?(u64_small (2 * a * (4 * b))), ?(u64_small ((2 * a - 1) * (4 * b))) by nia;
    rewrite ?(u64_small (2 * a * (4 * b) + 2 * b)), ?(u64_small ((2 * a - 1) * (4 * b) + 2 * b)) by nia;
    rewrite u64_small by nia; (split; [ring|nia]).
Qed.

Lemma read3 (m : list Z) i :
  0 <= i -> 3 * i + 3 <= zlen m ->
  let b k := default 0 (m !! Z.to_nat (3 * i + k)) in
  mem_read m (3 * i) 3 = Ret [b 0; b 1; b 2].
Proof.
  intros Hi Hl b. rewrite mem_read_ret by lia. f_equal.
  assert (Hb : forall k, 0 <= k < 3 -> m !! (Z.to_nat (3 * i) + Z.to_nat k)%nat = Some (b k)).
  { intros k Hk. unfold b. replace (Z.to_nat (3 * i + k)) with (Z.to_nat (3 * i) + Z.to_nat k)%nat by lia.
    destruct (m !! (Z.to_nat (3 * i) + Z.to_nat k)%nat) eqn:E; [done|].
    apply lookup_ge_None in E. unfold zlen in Hl. lia. }
  pose proof (Hb 0 ltac:(lia)) as H0. pose proof (Hb 1 ltac:(lia)) as H1. pose proof (Hb 2 ltac:(lia)) as H2.
  rewrite <- !lookup_drop in H0, H1, H2.
  change (Z.to_nat 0) with 0%nat in H0. change (Z.to_nat 1) with 1%nat in H1.
  change (Z.to_nat 2) with 2%nat in H2. change (Z.to_nat 3) with 3%nat.
  destruct (drop (Z.to_nat (3 * i)) m) as [|x [|y [|z l]]]; try done.
  simpl in *. injection H0 as ->. injection H1 as ->. injection H2 as ->. by destruct l.
Qed.

Lemma pixel12_pair input i :
  0 <= i ->
  let b k := default 0 (input !! Z.to_nat (3 * i + k)) in
  pixel12 input (2 * i) = Z.lor (b 0) (Z.shiftl (Z.land (b 1) 15) 8) /\
  pixel12 input (2 * i + 1) = Z.lor (Z.shiftr (b 1) 4) (Z.shiftl (b 2) 4).
Proof.
  intros Hi b. unfold pixel12.
  assert (E1 : 2 * i / 2 = i) by (rewrite Z.mul_comm; apply Z.div_mul; lia).
  assert (E2 : (2 * i + 1) / 2 = i) by (symmetry; apply Z.div_unique with 1; lia).
  rewrite E1, E2, Z.even_mul. rewrite Z.even_add, Z.even_mul. done.
Qed.

(** A pass of the inner loop stores two consecutive pixels. *)
Lemma convert_pair_scatter input i out j loc :
  0 <= i < 2 ^ 31 -> 3 * i + 3 <= zlen input ->
  loc (2 * i) = j -> loc (2 * i + 1) = j + 1 ->
  convert_pair input (i, out) j =
    let! out' := scatter loc (pixel12 input) [2 * i; 2 * i + 1] out in Ret (i + 1, out').
Proof.
  intros Hi Hl E1 E2. unfold convert_pair, scatter.
  rewrite (read3 input i) by lia. destruct (pixel12_pair input i ltac:(lia)) as [P1 P2].
  cbn [obind foldO]. rewrite P1, P2, E1, E2.
  destruct (mem_write out j _) as [o1|?|?]; cbn [obind]; [|done..].
  destruct (mem_write o1 (j + 1) _) as [o2|?|?]; cbn [obind]; [|done..].
  by rewrite u32_small by lia.
Qed.

Lemma pairs_scatter input i0 out s loc (T : nat) :
  0 <= i0 -> i0 + Z.of_nat T < 2 ^ 31 -> 3 * (i0 + Z.of_nat T) <= zlen input ->
  (forall t, 0 <= t < Z.of_nat T -> loc (2 * (i0 + t)) = s + 2 * t /\
                                   loc (2 * (i0 + t) + 1) = s + 2 * t + 1) ->
  foldO (convert_pair input) ((fun t => s + 2 * t) <$> seqZ 0 (Z.of_nat T)) (i0, out) =
    let! out' := scatter loc (pixel12 input) (seqZ (2 * i0) (2 * Z.of_nat T)) out in
    Ret (i0 + Z.of_nat T, out').
Proof.
  induction T as [|T IH]; intros Hi Hm Hl Hloc.
  - simpl. by rewrite Z.add_0_r.
  - replace (Z.of_nat (S T)) with (Z.of_nat T + 1) in * by lia.
    rewrite seqZ_app, fmap_app, foldO_app by lia.
    rewrite IH by (try lia; intros; apply Hloc; lia).
    replace (2 * (Z.of_nat T + 1)) with (2 * Z.of_nat T + 2) by lia.
    rewrite seqZ_app, scatter_app by lia.
    destruct (scatter _ _ (seqZ (2 * i0) (2 * Z.of_nat T)) out) as [o|?|?]; cbn [obind]; [|done..].
    destruct (Hloc (Z.of_nat T) ltac:(lia)) as [L1 L2].
    change (seqZ (0 + Z.of_nat T) 1) with [0 + Z.of_nat T]. cbn [fmap list_fmap foldO].
    rewrite (convert_pair_scatter input (i0 + Z.of_nat T) o _ loc) by (rewrite ?L1, ?L2; lia).
    replace (seqZ (2 * i0 + 2 * Z.of_nat T) 2) with [2 * (i0 + Z.of_nat T); 2 * (i0 + Z.of_nat T) + 1].
    + destruct (scatter _ _ _ o); cbn [obind]; [|done..]. by rewrite Z.add_assoc.
    + unfold seqZ. change (Z.to_nat 2) with 2%nat. cbn [seq fmap list_fmap].
      apply (f_equal2 cons); [lia|]. apply (f_equal2 cons); [lia|done].
Qed.

Lemma half_quarter a : 4 * a / 2 = 2 * a.
Proof. replace (4 * a) with (2 * a * 2) by lia. apply Z.div_mul. lia. Qed.

Lemma div_mul_add q r n : 0 <= r < n -> (q * n + r) / n = q /\ (q * n + r) mod n = r.
Proof.
  intros Hr. split; symmetry; [apply Z.div_unique with r|apply Z.mod_unique with q]; lia.
Qed.

Section Rows.
Context (a b m : Z) (input : list Z) (c : GfConverter).
Context (Ha : 0 < a) (Hb : 0 < b) (Hab : 4 * a * (4 * b) < 2 ^ 30) (Hw : 4 * b < 2 ^ 29)
        (Hm : 0 <= m < 8) (Hin : 3 * (a * b) <= zlen input).
Context (Hc : gf_converter_of_module (4 * a) (4 * b) m = Ret c).

Lemma numbers_of_c :
  height c = 4 * a /\ width c = 4 * b /\ row_jump c = (if m <? 4 then 8 * b else - (8 * b)) /\
  start_index c = image_row (4 * a) m 0 * (4 * b) + image_column (4 * b) m 0 /\
  0 <= start_index c < 4 * a * (4 * b).
Proof using All.
  destruct (converter_numbers a b m Ha Hb Hab Hw Hm) as (c' & Hc' & H').
  rewrite Hc in Hc'. by injection Hc' as ->.
Qed.

(** Where row [r] of the module starts. *)
Lemma row_start r :
  0 <= r < a ->
  image_row (4 * a) m r * (4 * b) + image_column (4 * b) m 0 = row_jump c * r + start_index c /\
  0 <= row_jump c * r + start_index c < 4 * a * (4 * b).
Proof using All.
  intros Hr. destruct numbers_of_c as (_ & _ & Hj & Hs & _).
  assert (E : image_row (4 * a) m r * (4 * b) + image_column (4 * b) m 0
              = row_jump c * r + start_index c).
  { rewrite Hs, Hj. unfold image_row. destruct (m <? 4); ring. }
  split; [done|]. rewrite <- E. unfold image_row, image_column. rewrite !half_quarter.
  pose proof (Z.mod_pos_bound m 2 ltac:(lia)). destruct (m <? 4), ((m / 2) mod 2 =? 0); nia.
Qed.

(** The places of the pixels of row [r]. *)
Lemma row_places r p :
  0 <= r < a -> 0 <= p < 2 * b ->
  pixel_place (4 * a) (4 * b) m (r * (2 * b) + p) = row_jump c * r + start_index c + p.
Proof using All.
  intros Hr Hp. destruct (row_start r Hr) as [<- _]. unfold pixel_place. rewrite half_quarter.
  destruct (div_mul_add r p (2 * b) Hp) as [-> ->]. unfold image_column.
  destruct ((m / 2) mod 2 =? 0); lia.
Qed.

Lemma convert_row_scatter r out :
  0 <= r < a ->
  convert_row c input (b * r, out) r =
    let! out' := scatter (pixel_place (4 * a) (4 * b) m) (pixel12 input)
                   (seqZ (2 * b * r) (2 * b)) out in Ret (b * (r + 1), out').
Proof using All.
  intros Hr. destruct numbers_of_c as (_ & Hwd & Hj & _ & _). destruct (row_start r Hr) as [_ Hrb].
  unfold convert_row. rewrite i32_ret by (unfold in_i32; rewrite Hj in *; destruct (m <? 4); nia).
  cbn [obind]. rewrite Hwd, half_quarter, to_i64_u64 by lia.
  rewrite to_i64_u64 by lia. set (s := row_jump c * r + start_index c) in *.
  replace ((s + 2 * b - s + 1) / 2) with b by (apply Z.div_unique with 1; lia).
  rewrite <- (Z2Nat.id b) at 1 by lia.
  rewrite (pairs_scatter input (b * r) out s (pixel_place (4 * a) (4 * b) m));
    rewrite ?Z2Nat.id by lia; [| nia | nia | nia |].
  - replace (2 * (b * r)) with (2 * b * r) by lia.
    destruct (scatter _ _ _ out); cbn [obind]; [|done..]. do 2 f_equal. lia.
  - intros t Ht. replace (2 * (b * r + t)) with (r * (2 * b) + 2 * t) by lia.
    replace (r * (2 * b) + 2 * t + 1) with (r * (2 * b) + (2 * t + 1)) by lia.
    rewrite !row_places by lia. unfold s. lia.
Qed.

Lemma convert_rows_scatter (R : nat) out :
  Z.of_nat R <= a ->
  foldO (convert_row c input) (seqZ 0 (Z.of_nat R)) (0, out) =
    let! out' := scatter (pixel_place (4 * a) (4 * b) m) (pixel12 input)
                   (seqZ 0 (2 * b * Z.of_nat R)) out in Ret (b * Z.of_nat R, out').
Proof using All.
  induction R as [|R IH]; intros HR; [simpl; by rewrite !Z.mul_0_r|].
  replace (Z.of_nat (S R)) with (Z.of_nat R + 1) in * by lia.
  rewrite seqZ_app, foldO_app, IH by lia.
  replace (2 * b * (Z.of_nat R + 1)) with (2 * b * Z.of_nat R + 2 * b) by lia.
  rewrite seqZ_app, scatter_app by nia.
  destruct (scatter _ _ (seqZ 0 (2 * b * Z.of_nat R)) out) as [o|?|?]; cbn [obind]; [|done..].
  change (seqZ (0 + Z.of_nat R) 1) with [0 + Z.of_nat R]. cbn [foldO]. rewrite !Z.add_0_l.
  rewrite convert_row_scatter by lia. apply obind_Ret_r.
Qed.

(** The converter is the loop that stores pixel [p] at its place, for all pixels of the
    module in order. *)
Lemma convert_scatter out :
  convert c input out =
    scatter (pixel_place (4 * a) (4 * b) m) (pixel12 input) (seqZ 0 (2 * (a * b))) out.
Proof using All.
  unfold convert. destruct numbers_of_c as (-> & _).
  replace (4 * a / 4) with (Z.of_nat (Z.to_nat a))
    by (rewrite (Z.mul_comm 4), Z.div_mul by lia; lia).
  rewrite convert_rows_scatter, Z2Nat.id by lia. replace (2 * b * a) with (2 * (a * b)) by lia.
  unfold omap_out. by destruct (scatter _ _ (seqZ 0 (2 * (a * b))) out).
Qed.
End Rows.

(** ** The eight modules tile the image *)

(** The module that owns pixel ([y], [x]) of the image, and the pixel's number in it. *)
Definition pixel_at (h w y x : Z) : Z * Z :=
  let side := if x <? w / 2 then 0 else 1 in
  let c := if x <? w / 2 then x else x - w / 2 in
  if y <? h / 2 then
    let d := h / 2 - 1 - y in (4 + 2 * side + d mod 2, d / 2 * (w / 2) + c)
  else
    let d := y - h / 2 in (2 * side + d mod 2, d / 2 * (w / 2) + c).

Lemma pixel_place_at a b y x :
  0 < a -> 0 < b -> 0 <= y < 4 * a -> 0 <= x < 4 * b ->
  let (m, p) := pixel_at (4 * a) (4 * b) y x in
  0 <= m < 8 /\ 0 <= p < 2 * (a * b) /\ pixel_place (4 * a) (4 * b) m p = y * (4 * b) + x.
Proof.
  intros Ha Hb Hy Hx. unfold pixel_at, pixel_place, image_row, image_column. rewrite !half_quarter.
  set (c := if x <? 2 * b then x else x - 2 * b).
  assert (Hc : 0 <= c < 2 * b) by (unfold c; destruct (Z.ltb_spec x (2 * b)); lia).
  set (side := if x <? 2 * b then 0 else 1).
  assert (Hside : (side = 0 /\ x = c) \/ (side = 1 /\ x = 2 * b + c)).
  { unfold side, c. destruct (Z.ltb_spec x (2 * b)); lia. }
  assert (Hgen : forall d, 0 <= d < 2 * a ->
    let o := d mod 2 in let r := d / 2 in 0 <= o < 2 /\ 0 <= r < a /\ d = 2 * r + o).
  { intros d Hd. pose proof (Z.div_mod d 2 ltac:(lia)). pose proof (Z.mod_pos_bound d 2 ltac:(lia)). lia. }
  destruct (Z.ltb_spec y (2 * a)).
  - destruct (Hgen (2 * a - 1 - y)) as (Ho & Hr & Hd); [lia|]. cbv zeta in *.
    set (o := (2 * a - 1 - y) mod 2) in *. set (r := (2 * a - 1 - y) / 2) in *.
    destruct (div_mul_add r c (2 * b) Hc) as [-> ->].
    destruct (Z.ltb_spec (4 + 2 * side + o) 4); [lia|].
    replace ((4 + 2 * side + o) mod 2) with o by (apply Z.mod_unique with (2 + side); lia).
    replace ((4 + 2 * side + o) / 2) with (2 + side) by (apply Z.div_unique with o; lia).
    split; [lia|]. split; [nia|].
    clearbody c side o r. replace y with (2 * a - 1 - 2 * r - o) by lia.
    destruct Hside as [[-> ->]|[-> ->]]; eval_module; ring.
  - destruct (Hgen (y - 2 * a)) as (Ho & Hr & Hd); [lia|]. cbv zeta in *.
    set (o := (y - 2 * a) mod 2) in *. set (r := (y - 2 * a) / 2) in *.
    destruct (div_mul_add r c (2 * b) Hc) as [-> ->].
    destruct (Z.ltb_spec (2 * side + o) 4); [|lia].
    replace ((2 * side + o) mod 2) with o by (apply Z.mod_unique with side; lia).
    replace ((2 * side + o) / 2) with side by (apply Z.div_unique with o; lia).
    split; [lia|]. split; [nia|].
    clearbody c side o r. replace y with (2 * a + 2 * r + o) by lia.
    destruct Hside as [[-> ->]|[-> ->]]; eval_module; ring.
Qed.

(** Where pixel [p] of module [m] goes, and that it is found there again. *)
Lemma pixel_at_place a b m p :
  0 < a -> 0 < b -> 0 <= m < 8 -> 0 <= p < 2 * (a * b) ->
  exists y x, 0 <= y < 4 * a /\ 0 <= x < 4 * b /\
    pixel_place (4 * a) (4 * b) m p = y * (4 * b) + x /\
    pixel_at (4 * a) (4 * b) y x = (m, p).
Proof.
  intros Ha Hb Hm Hp.
  assert (Hd := Z.div_mod p (2 * b) ltac:(lia)).
  pose proof (Z.mod_pos_bound p (2 * b) ltac:(lia)) as Hc.
  set (r := p / (2 * b)) in *. set (c := p mod (2 * b)) in *.
  assert (Hr : 0 <= r < a) by nia.
  assert (Hm2 := Z.div_mod m 2 ltac:(lia)). pose proof (Z.mod_pos_bound m 2 ltac:(lia)) as Ho.
  set (o := m mod 2) in *. set (s := m / 2) in *.
  assert (Hs2 := Z.div_mod s 2 ltac:(lia)). pose proof (Z.mod_pos_bound s 2 ltac:(lia)) as Hs.
  set (side := s mod 2) in *. set (north := s / 2) in *.
  exists (image_row (4 * a) m r), (image_column (4 * b) m c).
  unfold pixel_at, pixel_place, image_row, image_column. rewrite !half_quarter. fold o s r c.
  fold side.
  assert (Hside : side = 0 \/ side = 1) by lia. assert (Hn : north = 0 \/ north = 1) by lia.
  assert (D : (2 * r + o) / 2 = r /\ (2 * r + o) mod 2 = o).
  { rewrite (Z.mul_comm 2). by apply div_mul_add. }
  destruct D as [D1 D2].
  destruct Hn as [Hn|Hn]; [destruct (Z.ltb_spec m 4); [|lia]|destruct (Z.ltb_spec m 4); [lia|]];
    destruct Hside as [Hsd|Hsd]; rewrite Hsd; cbn [Z.eqb];
    (split; [lia|split; [lia|split; [lia|]]]).
  - destruct (Z.ltb_spec (2 * a + 2 * r + o) (2 * a)); [lia|].
    destruct (Z.ltb_spec c (2 * b)); [|lia].
    replace (2 * a + 2 * r + o - 2 * a) with (2 * r + o) by lia. rewrite D1, D2. f_equal; lia.
  - destruct (Z.ltb_spec (2 * a + 2 * r + o) (2 * a)); [lia|].
    destruct (Z.ltb_spec (2 * b + c) (2 * b)); [lia|].
    replace (2 * a + 2 * r + o - 2 * a) with (2 * r + o) by lia. rewrite D1, D2. f_equal; lia.
  - destruct (Z.ltb_spec (2 * a - 1 - 2 * r - o) (2 * a)); [|lia].
    destruct (Z.ltb_spec c (2 * b)); [|lia].
    replace (2 * a - 1 - (2 * a - 1 - 2 * r - o)) with (2 * r + o) by lia. rewrite D1, D2. f_equal; lia.
  - destruct (Z.ltb_spec (2 * a - 1 - 2 * r - o) (2 * a)); [|lia].
    destruct (Z.ltb_spec (2 * b + c) (2 * b)); [lia|].
    replace (2 * a - 1 - (2 * a - 1 - 2 * r - o)) with (2 * r + o) by lia. rewrite D1, D2. f_equal; lia.
Qed.

(** One converter, cell by cell. *)
Lemma convert_module a b m input out :
  0 < a -> 0 < b -> 4 * a * (4 * b) < 2 ^ 30 -> 4 * b < 2 ^ 29 -> 0 <= m < 8 ->
  3 * (a * b) <= zlen input -> zlen out = 4 * a * (4 * b) ->
  exists c out', gf_converter_of_module (4 * a) (4 * b) m = Ret c /\
    convert c input out = Ret out' /\ zlen out' = zlen out /\
    forall y x, 0 <= y < 4 * a -> 0 <= x < 4 * b ->
      let (m', p) := pixel_at (4 * a) (4 * b) y x in
      out' !! Z.to_nat (y * (4 * b) + x) =
        if m' =? m then Some (pixel12 input p) else out !! Z.to_nat (y * (4 * b) + x).
Proof.
  intros Ha Hb Hab Hw Hm Hin Hout.
  destruct (converter_numbers a b m Ha Hb Hab Hw Hm) as (c & Hc & _).
  pose proof (convert_scatter a b m input c Ha Hb Hab Hw Hm Hin Hc out) as Hconv.
  assert (Hplace : forall p, p ∈ seqZ 0 (2 * (a * b)) -> exists y x,
    0 <= y < 4 * a /\ 0 <= x < 4 * b /\ pixel_place (4 * a) (4 * b) m p = y * (4 * b) + x /\
    pixel_at (4 * a) (4 * b) y x = (m, p)).
  { intros p Hp%elem_of_seqZ. apply pixel_at_place; lia. }
  destruct (scatter_spec (pixel_place (4 * a) (4 * b) m) (pixel12 input)
              (seqZ 0 (2 * (a * b))) out) as (out' & Hs & Hl & Hv & Hf).
  - intros p (y & x & Hy & Hx & -> & _)%Hplace. nia.
  - intros p q (y & x & Hy & Hx & -> & Hat)%Hplace (y' & x' & Hy' & Hx' & -> & Hat')%Hplace E.
    assert (y = y') by nia. subst y'. assert (x = x') by lia. congruence.
  - exists c, out'. rewrite Hconv. split_and!; try done. intros y x Hy Hx.
    pose proof (pixel_place_at a b y x Ha Hb Hy Hx) as Hpl.
    destruct (pixel_at (4 * a) (4 * b) y x) as [m' p] eqn:Eat. destruct Hpl as (Hm' & Hp & Hpl).
    destruct (Z.eqb_spec m' m) as [->|Hne].
    + rewrite <- Hpl. apply Hv, elem_of_seqZ. lia.
    + apply Hf. intros q (y' & x' & Hy' & Hx' & -> & Hat')%Hplace E.
      assert (y = y') by nia. subst y'. assert (x = x') by nia. congruence.
Qed.

(** Running the converters of the modules [ms], each on its input, over the same slot. *)
Definition convert_modules (h w : Z) (inputs : Z -> list Z) (ms : list Z) (out : list Z) :
  outcome (list Z) :=
  foldO (fun out m => let! c := gf_converter_of_module h w m in convert c (inputs m) out) ms out.

Lemma convert_modules_spec a b inputs ms out :
  0 < a -> 0 < b -> 4 * a * (4 * b) < 2 ^ 30 -> 4 * b < 2 ^ 29 ->
  (forall m, m ∈ ms -> 0 <= m < 8 /\ 3 * (a * b) <= zlen (inputs m)) ->
  zlen out = 4 * a * (4 * b) ->
  exists out', convert_modules (4 * a) (4 * b) inputs ms out = Ret out' /\
    zlen out' = zlen out /\
    forall y x, 0 <= y < 4 * a -> 0 <= x < 4 * b ->
      let (m, p) := pixel_at (4 * a) (4 * b) y x in
      out' !! Z.to_nat (y * (4 * b) + x) =
        if bool_decide (m ∈ ms) then Some (pixel12 (inputs m) p)
        else out !! Z.to_nat (y * (4 * b) + x).
Proof.
  intros Ha Hb Hab Hw. induction ms as [|m ms IH] using rev_ind; intros Hms Hout.
  - exists out. split_and!; try done. intros y x _ _. by destruct (pixel_at _ _ y x).
  - destruct IH as (o1 & H1 & Hl1 & Hv1); [set_solver|done|].
    destruct (Hms m) as [Hm Hin]; [set_solver|].
    destruct (convert_module a b m (inputs m) o1) as (c & o2 & Hc & Hcv & Hl2 & Hv2);
      try done; try lia.
    exists o2. unfold convert_modules in *. rewrite foldO_app, H1. cbn [obind foldO].
    rewrite Hc. cbn [obind]. rewrite Hcv. cbn [obind]. split_and!; [done|lia|].
    intros y x Hy Hx. specialize (Hv1 y x Hy Hx). specialize (Hv2 y x Hy Hx).
    destruct (pixel_at _ _ y x) as [m' p]. rewrite Hv2, Hv1.
    destruct (Z.eqb_spec m' m) as [->|Hne].
    + by rewrite bool_decide_eq_true_2 by set_solver.
    + by rewrite (bool_decide_ext (m' ∈ ms) (m' ∈ ms ++ [m])) by set_solver.
Qed.

(** The sizes of the theorems below in blocks. *)
Lemma image_blocks h w : gf_image_size h w ->
  exists a b, h = 4 * a /\ w = 4 * b /\ 0 < a /\ 0 < b /\ h * w = 16 * (a * b).
Proof.
  intros (Hh & Hw & Mh & Mw & _). exists (h / 4), (w / 4).
  pose proof (Z.div_mod h 4 ltac:(lia)). pose proof (Z.div_mod w 4 ltac:(lia)).
  assert (h = 4 * (h / 4)) by lia. assert (w = 4 * (w / 4)) by lia.
  split_and!; try lia; nia.
Qed.

(** The converter of a GigaFRoST module unpacks the 12-bit pixels of its input to
    16-bit values and stores row [r], column [x] of the module at the module's place in the
    image; it touches no other pixel and stays inside its buffers. *)
Lemma gf_convert_correct h w m input out :
  gf_image_size h w -> 0 <= m < 8 -> 3 * (h * w) <= 16 * zlen input -> zlen out = h * w ->
  exists c out', gf_converter_of_module h w m = Ret c /\ convert c input out = Ret out' /\
    zlen out' = h * w /\
    forall y x, 0 <= y < h -> 0 <= x < w ->
      let (m', p) := pixel_at h w y x in
      out' !! Z.to_nat (y * w + x) =
        if m' =? m then Some (pixel12 input p) else out !! Z.to_nat (y * w + x).
Proof.
  intros Hsz Hm Hin Hout. pose proof Hsz as (_ & _ & _ & _ & Hs & Hw29).
  destruct (image_blocks h w Hsz) as (a & b & -> & -> & Ha & Hb & Hab).
  destruct (convert_module a b m input out) as (c & o & ? & ? & ? & ?); try done; try lia.
  exists c, o. split_and!; try done. lia.
Qed.

(** C8: the eight GigaFRoST converters assemble the image: run on one slot in any order,
    they write every pixel of it exactly from the module that owns it, whatever the slot
    held before. *)
Theorem gf_image_assembled h w inputs ms out :
  gf_image_size h w -> ms ≡ₚ seqZ 0 8 ->
  (forall m, 0 <= m < 8 -> 3 * (h * w) <= 16 * zlen (inputs m)) -> zlen out = h * w ->
  exists out', convert_modules h w inputs ms out = Ret out' /\ zlen out' = h * w /\
    forall y x, 0 <= y < h -> 0 <= x < w ->
      let (m, p) := pixel_at h w y x in
      0 <= m < 8 /\ pixel_place h w m p = y * w + x /\
      out' !! Z.to_nat (y * w + x) = Some (pixel12 (inputs m) p).
Proof.
  intros Hsz Hms Hin Hout. pose proof Hsz as (_ & _ & _ & _ & Hs & Hw29).
  destruct (image_blocks h w Hsz) as (a & b & -> & -> & Ha & Hb & Hab).
  destruct (convert_modules_spec a b inputs ms out) as (o & Ho & Hl & Hv); try done; try lia.
  { intros m Hm. rewrite Hms in Hm. apply elem_of_seqZ in Hm. split; [lia|].
    specialize (Hin m ltac:(lia)). lia. }
  exists o. split_and!; [done|lia|]. intros y x Hy Hx. specialize (Hv y x Hy Hx).
  pose proof (pixel_place_at a b y x Ha Hb Hy Hx) as Hp.
  destruct (pixel_at _ _ y x) as [m p]. destruct Hp as (Hm & _ & Hp). split; [done|]. split; [done|].
  rewrite Hv, bool_decide_eq_true_2; [done|]. rewrite Hms. apply elem_of_seqZ. lia.
Qed.

(** ** The service *)

Lemma gf_convert_bytes_spec h w m c frame old :
  gf_image_size h w -> 0 <= m < 8 -> 3 * (h * w) <= 16 * zlen frame -> zlen old = 2 * (h * w) ->
  gf_converter_of_module h w m = Ret c ->
  exists pixels, gf_convert_bytes c frame old = Ret (unwords 2 pixels) /\ zlen pixels = h * w /\
    forall y x, 0 <= y < h -> 0 <= x < w ->
      let (m', p) := pixel_at h w y x in
      pixels !! Z.to_nat (y * w + x) =
        if m' =? m then Some (pixel12 frame p)
        else words 2 (Z.to_nat (h * w)) old !! Z.to_nat (y * w + x).
Proof.
  intros Hsz Hm Hin Ho Hc. pose proof Hsz as (_ & _ & _ & _ & Hs & Hw29).
  destruct (image_blocks h w Hsz) as (a & b & -> & -> & Ha & Hb & Hab).
  assert (Hpos : 0 <= 4 * a * (4 * b)) by nia.
  pose proof (half_length old _ Hpos Ho) as Hn.
  destruct (convert_module a b m frame (words 2 (Z.to_nat (4 * a * (4 * b))) old))
    as (c' & o & Hc' & Hconv & Hl & Hv); try done; try lia.
  { unfold zlen. rewrite length_words. lia. }
  rewrite Hc in Hc'. injection Hc' as <-. exists o. split_and!; [|by rewrite Hl; unfold zlen; rewrite length_words; lia|done].
  unfold gf_convert_bytes. rewrite Hn, Hconv. cbn [obind].
  rewrite drop_ge by (unfold zlen in Ho; lia). by rewrite app_nil_r.
Qed.

(** The converter keeps the promise the loop relies on. *)
Lemma gf_image_converter h w m c n_in :
  gf_image_size h w -> 0 <= m < 8 -> 3 * (h * w) <= 16 * n_in ->
  gf_converter_of_module h w m = Ret c ->
  ImageConverter (gf_convert_bytes c) n_in (2 * (h * w)).
Proof.
  intros Hsz Hm Hin Hc frame old Hf Ho.
  destruct (gf_convert_bytes_spec h w m c frame old) as (o & Hcv & Hl & _); try done; [lia|].
  exists (unwords 2 o). split; [done|]. unfold zlen in *. rewrite length_unwords. lia.
Qed.

(** One iteration of the GigaFRoST converter service, for a frame [x] of module [m]:
    the slot of the frame's image in the image ring afterwards holds, pixel by pixel, the
    module's unpacked pixels at their places and the former pixels elsewhere; every other
    slot, and the module's own ring, are untouched; the metadata is passed on unchanged. *)
Lemma gf_service_step h w m c n_in now now_rate (x : gf.GFFrame) st :
  gf_image_size h w -> 0 <= m < 8 -> 3 * (h * w) <= 16 * n_in ->
  gf_converter_of_module h w m = Ret c ->
  converter_ok n_in (2 * (h * w)) st -> wf_packed x ->
  image_id (common x) <> INVALID_IMAGE_ID ->
  let ring := buffer (sender st) in let id := image_id (common x) in
  exists frame old pixels report st',
    slot_data (buffer (receiver st)) (shm_bytes (mem st) (shm_fd_ (buffer (receiver st)))) id
      = Ret frame /\
    slot_data ring (shm_bytes (mem st) (shm_fd_ ring)) id = Ret old /\
    gf_convert_step c n_in (2 * (h * w)) now now_rate (Some (encode x)) st = Ret (report, st') /\
    converter_ok n_in (2 * (h * w)) st' /\
    sent (sender st') = sent (sender st) ++ [encode x] /\
    shm_bytes (mem st') (shm_fd_ (buffer (receiver st)))
      = shm_bytes (mem st) (shm_fd_ (buffer (receiver st))) /\
    (forall id', slot_data ring (shm_bytes (mem st') (shm_fd_ ring)) id' =
      if decide (id' mod n_slots_ ring = id mod n_slots_ ring) then Ret (unwords 2 pixels)
      else slot_data ring (shm_bytes (mem st) (shm_fd_ ring)) id') /\
    forall y x, 0 <= y < h -> 0 <= x < w ->
      let (m', p) := pixel_at h w y x in
      pixels !! Z.to_nat (y * w + x) =
        if m' =? m then Some (pixel12 frame p)
        else words 2 (Z.to_nat (h * w)) old !! Z.to_nat (y * w + x).
Proof.
  intros Hsz Hm Hin Hc Hok Hx Hid ring id.
  pose proof (gf_image_converter h w m c n_in Hsz Hm Hin Hc) as Hconv.
  destruct (convert_step_frame (gf_convert_bytes c) n_in (2 * (h * w)) now now_rate x st Hok Hx Hid)
    as (frame & old & new & report & st' & Hf & Ho & Hn & Hst & Hok' & Hsent & Hr & Hs).
  pose proof Hok as (Hwr & Hww & Hdr & Hdw & _ & Hmr & Hmw & _).
  destruct (slot_data_len _ _ (image_id (common x)) Hwr Hmr) as (f' & Hf' & Hlf & _).
  destruct (slot_data_len _ _ (image_id (common x)) Hww Hmw) as (o' & Ho' & Hlo & _).
  rewrite Hf in Hf'. injection Hf' as <-. rewrite Ho in Ho'. injection Ho' as <-.
  rewrite Hdr in Hlf. rewrite Hdw in Hlo.
  destruct (gf_convert_bytes_spec h w m c frame old) as (o & Hcv & _ & Hv); try done; [lia|].
  rewrite Hcv in Hn. injection Hn as <-.
  exists frame, old, o, report, st'. split_and!; try done.
Qed.

(** Instances on a 4 x 4 image: each module has one row of two pixels in three bytes. *)
Lemma gf_image_size_4 : gf_image_size 4 4.
Proof. repeat split; vm_compute; reflexivity. Qed.

Lemma gf_convert_correct_witness :
  exists c out', gf_converter_of_module 4 4 5 = Ret c /\
    convert c [171; 205; 239] (replicate 16 0) = Ret out' /\ zlen out' = 4 * 4 /\
    forall y x, 0 <= y < 4 -> 0 <= x < 4 ->
      let (m', p) := pixel_at 4 4 y x in
      out' !! Z.to_nat (y * 4 + x) =
        if m' =? 5 then Some (pixel12 [171; 205; 239] p) else replicate 16 0 !! Z.to_nat (y * 4 + x).
Proof.
  apply (gf_convert_correct 4 4 5 [171; 205; 239] (replicate 16 0)).
  - apply gf_image_size_4.
  - lia.
  - vm_compute. discriminate.
  - reflexivity.
Defined.

Lemma gf_image_assembled_witness :
  exists out', convert_modules 4 4 (fun m => [m; 0; 0]) [7; 6; 5; 4; 3; 2; 1; 0] (replicate 16 0) = Ret out' /\
    zlen out' = 4 * 4 /\
    forall y x, 0 <= y < 4 -> 0 <= x < 4 ->
      let (m, p) := pixel_at 4 4 y x in
      0 <= m < 8 /\ pixel_place 4 4 m p = y * 4 + x /\
      out' !! Z.to_nat (y * 4 + x) = Some (pixel12 [m; 0; 0] p).
Proof.
  apply (gf_image_assembled 4 4 (fun m => [m; 0; 0])).
  - apply gf_image_size_4.
  - change (seqZ 0 8) with [0; 1; 2; 3; 4; 5; 6; 7].
    apply (bool_decide_unpack ([7; 6; 5; 4; 3; 2; 1; 0] ≡ₚ [0; 1; 2; 3; 4; 5; 6; 7])). vm_compute. exact I.
  - intros m Hm. vm_compute. discriminate.
  - reflexivity.
Defined.

(** A service on rings of two slots each. *)
Definition demo_service : converter_state :=
  let rb n ino := {| buffer_name_ := ""; n_slots_ := 2; data_bytes_ := n;
                     buffer_bytes_ := 2097152; shm_fd_ := ino |} in
  let comm r := {| buffer := r; socket_address := ""; socket_bound := false; sent := [] |} in
  {| receiver := comm (rb 3 0); sender := comm (rb 32 1);
     mem := {| shm_names := ∅;
               shm_objects := {[ 0 := replicate (Z.to_nat 2097152) 7; 1 := replicate (Z.to_nat 2097152) 0 ]};
               shm_next := 2 |};
     meta := replicate 64 0; stats := ModuleStats.new "GF" 10 6 0 |}.

Lemma demo_service_ok : converter_ok 3 (2 * (4 * 4)) demo_service.
Proof.
  unfold converter_ok, demo_service, wf_ram. cbn [receiver sender buffer mem meta n_slots_ data_bytes_ buffer_bytes_ shm_fd_].
  split_and!; try (vm_compute; reflexivity || discriminate || lia).
Qed.

Definition demo_gf_frame : gf.GFFrame :=
  {| gf.gf_common := {| image_id := 5; n_missing_packets := 0; module_id := 6 |};
     gf.swapped_rows := 0; gf.link_id := 0; gf.corr_mode := 0; gf.frame_quadrant_id := 0;
     gf.rpf := 0; gf.do_not_store := 0; gf.scan_id := 0; gf.size_x := 2; gf.size_y := 1;
     gf.scan_time := 0; gf.sync_time := 0; gf.frame_timestamp := 0; gf.exposure_time := 0 |}.

Lemma demo_gf_frame_wf : wf_packed demo_gf_frame.
Proof.
  split; [|reflexivity].
  repeat first [apply Forall2_cons_2; [vm_compute; split; discriminate || reflexivity|]
               |apply Forall2_nil_2].
Qed.

Lemma gf_service_step_witness :
  exists c frame old (pixels : list Z) report st',
    gf_converter_of_module 4 4 6 = Ret c /\
    slot_data (buffer (receiver demo_service))
      (shm_bytes (mem demo_service) (shm_fd_ (buffer (receiver demo_service)))) 5 = Ret frame /\
    gf_convert_step c 3 (2 * (4 * 4)) 0 0 (Some (encode demo_gf_frame)) demo_service
      = Ret (report, st') /\
    sent (sender st') = [encode demo_gf_frame] /\
    slot_data (buffer (sender demo_service))
      (shm_bytes (mem demo_service) (shm_fd_ (buffer (sender demo_service)))) 5 = Ret old /\
    forall y x, 0 <= y < 4 -> 0 <= x < 4 ->
      let (m', p) := pixel_at 4 4 y x in
      pixels !! Z.to_nat (y * 4 + x) =
        if m' =? 6 then Some (pixel12 frame p)
        else words 2 (Z.to_nat (4 * 4)) old !! Z.to_nat (y * 4 + x).
Proof.
  destruct (gf_service_step 4 4 6 {| height := 4; width := 4; start_index := 6; row_jump := -8 |}
              3 0 0 demo_gf_frame demo_service) as
    (frame & old & pixels & report & st' & Hf & Ho & Hst & _ & Hsent & _ & _ & Hv).
  - apply gf_image_size_4.
  - lia.
  - lia.
  - vm_compute. reflexivity.
  - apply demo_service_ok.
  - apply demo_gf_frame_wf.
  - vm_compute. discriminate.
  - exists {| height := 4; width := 4; start_index := 6; row_jump := -8 |}, frame, old, pixels, report, st'.
    split; [vm_compute; reflexivity|]. split; [exact Hf|]. split; [exact Hst|].
    split; [exact Hsent|]. split; [exact Ho|exact Hv].
Defined.
