(* ===== verification/ConvertEg.v ===== *)
(** * Eiger converter

    [src/source/std-data-convert/std-data-convert-eg]: [converter.cpp] copies the rows of a
    module, which consists of two chips side by side, to the module's place in the image
    and leaves a gap of two pixels between the chips.  A module whose end lies above its
    start is stored bottom-up. *)

From S2P Require Import Prelude Formats Config RamBuffer Stats Scatter ConvertLoop.

Record EgConverter : Type := {
  input_row_size_per_chip : Z;
  gap_size : Z;
  row_jump : Z;
  start_index : Z
}.

Definition eg_calculate_row_jump (image_width bit_depth : Z) : Z := u64 (image_width * bit_depth) / 8.

Definition eg_calculate_row_jump_direction (config : DetectorConfig) (module_id : Z) : outcome Z :=
  let! start_position := get_module_start_position config module_id in
  let! end_position := get_module_end_position config module_id in
  Ret (if py end_position <? py start_position then -1 else 1).

Definition eg_calculate_start_index (config : DetectorConfig) (module_id : Z) : outcome Z :=
  let! start_position := get_module_start_position config module_id in
  let row_jump := eg_calculate_row_jump (u64 (image_pixel_width config)) (u64 (bit_depth config)) in
  let! x_bits := i32 (px start_position * bit_depth config) in
  Ret (to_i32 (u64 (u64 (u64 (py start_position) * row_jump) + u64 (Z.quot x_bits 8)))).

Definition test_if_module_size_fits_eiger (config : DetectorConfig) (module_id : Z) : outcome unit :=
  let! module_end := get_module_end_position config module_id in
  let! module_start := get_module_start_position config module_id in
  let! bad_x := size_differs (px module_start) (px module_end) (eg.MODULE_X_SIZE + 1) in
  throw_if bad_x runtime_error
    (let! bad_y := size_differs (py module_start) (py module_end) (eg.MODULE_Y_SIZE - 1) in
     throw_if bad_y runtime_error (Ret tt)).

Definition EgConverter_new (config : DetectorConfig) (module_id : Z) : outcome EgConverter :=
  let chip := u32 (eg.MODULE_X_SIZE * u32 (bit_depth config)) / 16 in
  let! gap_bits := i32 (2 * bit_depth config) in
  let! direction := eg_calculate_row_jump_direction config module_id in
  let! jump := i32 (to_i32 (eg_calculate_row_jump (u64 (image_pixel_width config))
                              (u64 (bit_depth config))) * direction) in
  let! start := eg_calculate_start_index config module_id in
  let! _ := test_if_module_is_inside_image config module_id in
  let! _ := test_if_module_size_fits_eiger config module_id in
  Ret {| input_row_size_per_chip := chip; gap_size := u64 (Z.quot gap_bits 8);
         row_jump := jump; start_index := start |}.

(** The body of the loop; [start_index + row * row_jump] is unsigned 32-bit arithmetic. *)
Definition eg_convert_row (c : EgConverter) (input : list Z) (output_buffer : list Z) (row : Z) :
  outcome (list Z) :=
  let chip := input_row_size_per_chip c in
  let output_second_chip_pos := u64 (chip + gap_size c) in
  let input_start := u64 (u64 (row * chip) * 2) in
  let output_start := u32 (start_index c + u32 (row * row_jump c)) in
  let! out1 := memcpy output_buffer output_start input input_start chip in
  memcpy out1 (output_start + output_second_chip_pos) input (input_start + chip) chip.

Definition eg_convert (c : EgConverter) (input output_buffer : list Z) : outcome (list Z) :=
  foldO (eg_convert_row c input) (seqZ 0 eg.MODULE_Y_SIZE) output_buffer.

(** ** main.cpp *)

Definition eg_convert_step (c : EgConverter) (frame_n_bytes converted_bytes : Z) :=
  convert_step (eg_convert c) frame_n_bytes converted_bytes.

Definition eg_convert_main (os : syscalls) (config : DetectorConfig) (source_name : string)
  (module_id now : Z) (s : shm) : outcome (EgConverter * Z * Z * converter_state) :=
  throw_if (bit_depth config <? 8) runtime_error
    (let frame_n_bytes := u32 (eg.MODULE_N_PIXELS * u32 (bit_depth config)) / 8 in
     let! converted_bytes := converted_image_n_bytes config in
     let! st := converter_streams os config source_name frame_n_bytes module_id now s in
     let! c := EgConverter_new config module_id in
     Ret (c, frame_n_bytes, converted_bytes, st)).

(** ** Specification *)

(** A module inside the image: [k] bytes per pixel, 514 x 256 pixels with the gap, the
    image's offsets within an [int]. *)
Record eg_placed (config : DetectorConfig) (id k : Z) (s e : Point) : Prop := {
  placed_module : modules config !! u64 id = Some (s, e);
  placed_depth : bit_depth config = 8 * k /\ 0 < k <= 4;
  placed_x : 0 <= px s /\ px e = px s + 513 /\ px e < image_pixel_width config;
  placed_y : 0 <= py s < image_pixel_height config /\ 0 <= py e < image_pixel_height config /\
             Z.abs (py s - py e) = 255;
  placed_size : image_pixel_width config * image_pixel_height config * k < 2 ^ 31
}.

(** The image row of row [r] of the module. *)
Definition eg_image_row (s e : Point) (r : Z) : Z :=
  if py e <? py s then py s - r else py s + r.

(** The module pixel (row, column) shown at pixel ([y], [x]) of the image, if any. *)
Definition eg_pixel_at (s e : Point) (y x : Z) : option (Z * Z) :=
  let r := if py e <? py s then py s - y else y - py s in
  let c := x - px s in
  if (0 <=? r) && (r <? 256) then
    if (0 <=? c) && (c <? 256) then Some (r, c)
    else if (258 <=? c) && (c <? 514) then Some (r, c - 2) else None
  else None.

(** ** Correctness *)

Section Placed.
Context (config : DetectorConfig) (id k : Z) (s e : Point) (Hp : eg_placed config id k s e).
Notation w := (image_pixel_width config).
Notation h := (image_pixel_height config).

Lemma placed_bounds : 514 <= w /\ 256 <= h /\ w * k < 2 ^ 31 /\ h * k < 2 ^ 31 /\
  (py s * w + px s) * k < 2 ^ 31 /\ w < 2 ^ 31 /\ h < 2 ^ 31.
Proof using All.
  destruct Hp as [_ (Hbd & Hk) (Hx0 & Hx1 & Hx2) (Hy0 & Hy1 & Hy2) Hsz].
  assert (Hw : 514 <= w) by lia. assert (Hh : 256 <= h) by lia.
  assert (w * k <= w * k * h) by (apply Z.le_mul_diag_r; nia).
  assert (h * k <= h * k * w) by (apply Z.le_mul_diag_r; nia).
  assert (py s * w + px s <= w * h) by nia.
  assert ((py s * w + px s) * k <= w * h * k) by (apply Z.mul_le_mono_nonneg_r; lia).
  split_and!; try lia; nia.
Qed.

Lemma start_position : get_module_start_position config id = Ret s.
Proof using All. unfold get_module_start_position, modules_at. by rewrite (placed_module _ _ _ _ _ Hp). Qed.

Lemma end_position : get_module_end_position config id = Ret e.
Proof using All. unfold get_module_end_position, modules_at. by rewrite (placed_module _ _ _ _ _ Hp). Qed.

Lemma inside_image : test_if_module_is_inside_image config id = Ret tt.
Proof using All.
  unfold test_if_module_is_inside_image. rewrite start_position, end_position. cbn [obind].
  destruct Hp as [_ _ (Hx0 & Hx1 & Hx2) (Hy0 & Hy1 & Hy2) _]. unfold throw_if.
  rewrite !(proj2 (Z.ltb_ge _ _)) by lia. done.
Qed.

Lemma fits_eiger : test_if_module_size_fits_eiger config id = Ret tt.
Proof using All.
  unfold test_if_module_size_fits_eiger. rewrite start_position, end_position. cbn [obind].
  pose proof placed_bounds. destruct Hp as [_ _ (Hx0 & Hx1 & Hx2) (Hy0 & Hy1 & Hy2) _].
  unfold eg.MODULE_X_SIZE, eg.MODULE_Y_SIZE.
  rewrite (size_differs_ret (px s)) by (unfold in_i32; lia). cbn [obind throw_if].
  by rewrite (size_differs_ret (py s)) by (unfold in_i32; lia).
Qed.

Lemma row_bytes : eg_calculate_row_jump (u64 w) (u64 (bit_depth config)) = w * k.
Proof using All.
  pose proof placed_bounds. destruct (placed_depth _ _ _ _ _ Hp) as [-> Hk].
  unfold eg_calculate_row_jump. rewrite !(u64_small w), (u64_small (8 * k)) by lia.
  rewrite u64_small by nia. replace (w * (8 * k)) with (w * k * 8) by lia. apply Z.div_mul. lia.
Qed.

Lemma start_bytes : eg_calculate_start_index config id = Ret ((py s * w + px s) * k).
Proof using All.
  pose proof placed_bounds. unfold eg_calculate_start_index. rewrite start_position. cbn [obind].
  rewrite row_bytes. destruct Hp as [_ (Hbd & Hk) (Hx0 & Hx1 & Hx2) (Hy0 & Hy1 & Hy2) Hsz].
  assert (0 <= py s * (w * k)) by nia. assert (px s * k <= w * k) by nia.
  rewrite Hbd, i32_ret by (unfold in_i32; nia). cbn [obind].
  replace (px s * (8 * k)) with (px s * k * 8) by lia. rewrite Z.quot_mul by lia.
  rewrite !(u64_small (py s)), (u64_small (py s * (w * k))), (u64_small (px s * k)) by nia.
  rewrite u64_small by nia. unfold to_i32. rewrite swrap_small by nia. f_equal. ring.
Qed.

Definition eg_direction : Z := if py e <? py s then -1 else 1.

Lemma eg_converter_numbers :
  EgConverter_new config id =
    Ret {| input_row_size_per_chip := 256 * k; gap_size := 2 * k;
           row_jump := w * k * eg_direction; start_index := (py s * w + px s) * k |}.
Proof using All.
  pose proof placed_bounds. destruct (placed_depth _ _ _ _ _ Hp) as [Hbd Hk].
  unfold EgConverter_new, eg_calculate_row_jump_direction.
  rewrite start_position, end_position, row_bytes, Hbd, start_bytes.
  rewrite i32_ret by (unfold in_i32; lia). cbn [obind]. fold eg_direction.
  unfold to_i32. rewrite swrap_small by nia.
  rewrite i32_ret by (unfold in_i32, eg_direction; destruct (py e <? py s); nia). cbn [obind].
  rewrite inside_image, fits_eiger. cbn [obind]. unfold eg.MODULE_X_SIZE.
  rewrite (u32_small (8 * k)), u32_small by lia.
  replace (512 * (8 * k)) with (256 * k * 16) by lia. rewrite Z.div_mul by lia.
  replace (2 * (8 * k)) with (2 * k * 8) by lia. rewrite Z.quot_mul by lia.
  by rewrite u64_small by lia.
Qed.
End Placed.

(** The copy of one chip row; [side] is 0 or 1. *)
Definition eg_chip (w k : Z) (s e : Point) (r side : Z) : block :=
  {| doff := (eg_image_row s e r * w + (px s + 258 * side)) * k;
     soff := (r * 512 + 256 * side) * k; len := 256 * k |}.

Fixpoint eg_blocks (w k : Z) (s e : Point) (rows : list Z) : list block :=
  match rows with
  | [] => []
  | r :: rows' => eg_chip w k s e r 0 :: eg_chip w k s e r 1 :: eg_blocks w k s e rows'
  end.

Lemma elem_of_eg_blocks w k s e rows b :
  b ∈ eg_blocks w k s e rows <->
  exists r side, r ∈ rows /\ (side = 0 \/ side = 1) /\ b = eg_chip w k s e r side.
Proof.
  induction rows as [|r rows IH]; simpl.
  - split; [set_solver|]. intros (? & ? & ?%elem_of_nil & _). done.
  - rewrite !elem_of_cons, IH. split.
    + intros [->|[->|(r' & side & ? & ? & ->)]];
        [exists r, 0|exists r, 1|exists r', side]; rewrite elem_of_cons; tauto.
    + intros (r' & side & [->|Hr]%elem_of_cons & [->| ->] & ->);
        [by left|by right; left|right; right; exists r', 0; tauto|right; right; exists r', 1; tauto].
Qed.

Section Rows.
Context (config : DetectorConfig) (id k : Z) (s e : Point) (Hp : eg_placed config id k s e).
Notation w := (image_pixel_width config).
Notation h := (image_pixel_height config).
Notation c := {| input_row_size_per_chip := 256 * k; gap_size := 2 * k;
                 row_jump := w * k * eg_direction s e; start_index := (py s * w + px s) * k |}.

Lemma eg_image_row_range r : 0 <= r < 256 -> 0 <= eg_image_row s e r < h.
Proof using All.
  intros Hr. destruct (placed_y _ _ _ _ _ Hp). unfold eg_image_row.
  destruct (Z.ltb_spec (py e) (py s)); lia.
Qed.

(** Every copy stays inside the frame and inside its row of the image. *)
Lemma eg_chip_range r side :
  0 <= r < 256 -> side = 0 \/ side = 1 ->
  let b := eg_chip w k s e r side in
  0 <= soff b /\ 0 <= len b /\ soff b + len b <= 131072 * k /\
  0 <= doff b /\ doff b + len b <= w * h * k.
Proof using All.
  intros Hr Hs. pose proof (eg_image_row_range r Hr) as Hy.
  destruct (placed_depth _ _ _ _ _ Hp) as [_ Hk]. destruct (placed_x _ _ _ _ _ Hp) as (Hx0 & Hx1 & Hx2).
  cbn [eg_chip doff soff len].
  assert (0 <= eg_image_row s e r * w) by nia.
  assert (eg_image_row s e r * w + (px s + 258 * side + 256) <= w * h) by (destruct Hs as [-> | ->]; nia).
  split_and!; try nia.
Qed.

Lemma eg_convert_row_blocks input out r :
  0 <= r < 256 ->
  eg_convert_row c input out r = copy_blocks input [eg_chip w k s e r 0; eg_chip w k s e r 1] out.
Proof using All.
  intros Hr. pose proof (placed_bounds _ _ _ _ _ Hp). pose proof (eg_image_row_range r Hr) as Hy.
  destruct Hp as [_ (Hbd & Hk) (Hx0 & Hx1 & Hx2) (Hy0 & Hy1 & Hy2) Hsz].
  unfold eg_convert_row, copy_blocks. cbn [foldO input_row_size_per_chip gap_size row_jump start_index].
  assert (Hstart : u32 ((py s * w + px s) * k + u32 (r * (w * k * eg_direction s e)))
                   = (eg_image_row s e r * w + (px s + 258 * 0)) * k).
  { unfold u32, wrap. rewrite Zplus_mod_idemp_r.
    replace ((py s * w + px s) * k + r * (w * k * eg_direction s e))
      with ((eg_image_row s e r * w + (px s + 258 * 0)) * k)
      by (unfold eg_image_row, eg_direction; destruct (py e <? py s); ring).
    assert (0 <= eg_image_row s e r * w) by nia.
    assert (eg_image_row s e r * w + px s <= w * h) by nia.
    assert ((eg_image_row s e r * w + px s) * k <= w * h * k) by (apply Z.mul_le_mono_nonneg_r; lia).
    apply Z.mod_small. nia. }
  rewrite Hstart, (u64_small (256 * k + 2 * k)), (u64_small (r * (256 * k))), u64_small by nia.
  cbn [eg_chip doff soff len].
  replace (r * (256 * k) * 2) with ((r * 512 + 256 * 0) * k) by ring.
  destruct (memcpy out _ input _ (256 * k)) as [o|?|?]; cbn [obind]; [|done..].
  replace ((eg_image_row s e r * w + (px s + 258 * 0)) * k + (256 * k + 2 * k))
    with ((eg_image_row s e r * w + (px s + 258 * 1)) * k) by ring.
  replace ((r * 512 + 256 * 0) * k + 256 * k) with ((r * 512 + 256 * 1) * k) by ring.
  symmetry. apply obind_Ret_r.
Qed.

Lemma eg_convert_blocks input rows out :
  (forall r, r ∈ rows -> 0 <= r < 256) ->
  foldO (eg_convert_row c input) rows out = copy_blocks input (eg_blocks w k s e rows) out.
Proof using All.
  revert out. induction rows as [|r rows IH]; intros out Hrows; [done|].
  cbn [foldO eg_blocks].
  change (eg_chip w k s e r 0 :: eg_chip w k s e r 1 :: eg_blocks w k s e rows)
    with ([eg_chip w k s e r 0; eg_chip w k s e r 1] ++ eg_blocks w k s e rows).
  rewrite eg_convert_row_blocks by (apply Hrows; set_solver). rewrite copy_blocks_app.
  destruct (copy_blocks input [_; _] out) as [o|?|?]; cbn [obind]; [|done..].
  apply IH. set_solver.
Qed.

(** Which pixel of the image a byte of a chip row belongs to. *)
Lemma eg_chip_byte r side j y x i :
  0 <= r < 256 -> side = 0 \/ side = 1 -> 0 <= j < 256 * k ->
  0 <= x < w -> 0 <= i < k ->
  (eg_image_row s e r * w + (px s + 258 * side)) * k + j = (y * w + x) * k + i ->
  y = eg_image_row s e r /\ 0 <= x - px s - 258 * side < 256 /\
  j = (x - px s - 258 * side) * k + i.
Proof using All.
  intros Hr Hs Hj Hx Hi E. destruct (placed_x _ _ _ _ _ Hp) as (Hx0 & Hx1 & Hx2).
  pose proof (Z.div_mod j k ltac:(lia)) as Hd. pose proof (Z.mod_pos_bound j k ltac:(lia)) as Hm.
  assert (Hq : 0 <= j / k < 256) by (split; [apply Z.div_pos; lia|apply Z.div_lt_upper_bound; lia]).
  destruct (euclid_unique k (eg_image_row s e r * w + (px s + 258 * side) + j / k) (j mod k)
              (y * w + x) i) as [E1 E2]; [lia|lia|lia|].
  destruct (euclid_unique w (eg_image_row s e r) (px s + 258 * side + j / k) y x) as [E3 E4];
    [destruct Hs as [-> | ->]; lia|lia|lia|].
  split; [done|]. split; [lia|]. replace (x - px s - 258 * side) with (j / k) by lia. lia.
Qed.

Lemma eg_image_row_inj r r' : eg_image_row s e r = eg_image_row s e r' -> r = r'.
Proof using Type. unfold eg_image_row. destruct (py e <? py s); lia. Qed.

(** [eg_pixel_at] inverts the placement. *)
Lemma eg_pixel_at_chip y x r cx :
  eg_pixel_at s e y x = Some (r, cx) <->
  0 <= r < 256 /\ exists side, (side = 0 \/ side = 1) /\ y = eg_image_row s e r /\
    0 <= x - px s - 258 * side < 256 /\ cx = 256 * side + (x - px s - 258 * side).
Proof using Type.
  unfold eg_pixel_at, eg_image_row. split.
  - destruct (Z.ltb_spec (py e) (py s)).
    all: destruct (_ && _) eqn:E1; [|done]; apply andb_true_iff in E1 as [?%Z.leb_le ?%Z.ltb_lt].
    all: destruct (_ && _) eqn:E2;
      [apply andb_true_iff in E2 as [?%Z.leb_le ?%Z.ltb_lt]; intros [= <- <-]; split; [lia|];
       exists 0; lia|].
    all: clear E2; destruct (_ && _) eqn:E3; [|done]; apply andb_true_iff in E3 as [?%Z.leb_le ?%Z.ltb_lt];
      intros [= <- <-]; split; [lia|]; exists 1; lia.
  - intros (Hr & side & [-> | ->] & -> & Hx & ->).
    all: destruct (Z.ltb_spec (py e) (py s));
      rewrite (proj2 (Z.leb_le 0 _)), (proj2 (Z.ltb_lt _ 256)) by lia; cbn [andb].
    1,2: rewrite (proj2 (Z.leb_le 0 _)), (proj2 (Z.ltb_lt _ 256)) by lia; cbn [andb]; repeat f_equal; lia.
    all: rewrite (proj2 (Z.ltb_ge (x - px s) 256)), andb_false_r by lia;
      rewrite (proj2 (Z.leb_le 258 _)), (proj2 (Z.ltb_lt _ 514)) by lia; cbn [andb]; repeat f_equal; lia.
Qed.

Lemma eg_convert_spec input out :
  zlen input = 131072 * k -> zlen out = w * h * k ->
  exists out', eg_convert c input out = Ret out' /\ zlen out' = zlen out /\
    forall y x i, 0 <= y < h -> 0 <= x < w -> 0 <= i < k ->
      out' !! Z.to_nat ((y * w + x) * k + i) =
        match eg_pixel_at s e y x with
        | Some (r, cx) => input !! Z.to_nat ((r * 512 + cx) * k + i)
        | None => out !! Z.to_nat ((y * w + x) * k + i)
        end.
Proof using All.
  intros Hin Hout. destruct (placed_depth _ _ _ _ _ Hp) as [_ Hk].
  assert (Hrows : forall r, r ∈ seqZ 0 256 -> 0 <= r < 256) by (intros r ?%elem_of_seqZ; lia).
  unfold eg_convert. change eg.MODULE_Y_SIZE with 256. rewrite eg_convert_blocks by done.
  destruct (copy_blocks_spec input (eg_blocks w k s e (seqZ 0 256)) out) as (out' & Ho & Hl & Hv & Hf).
  - intros b (r & side & Hr%Hrows & Hs & ->)%elem_of_eg_blocks.
    rewrite Hin, Hout. by apply eg_chip_range.
  - intros b b' j j' (r & side & Hr%Hrows & Hs & ->)%elem_of_eg_blocks
      (r' & side' & Hr'%Hrows & Hs' & ->)%elem_of_eg_blocks Hj Hj' E. cbn [eg_chip doff soff len] in *.
    destruct (placed_x _ _ _ _ _ Hp) as (Hx0 & Hx1 & Hx2).
    pose proof (Z.div_mod j' k ltac:(lia)) as Hd. pose proof (Z.mod_pos_bound j' k ltac:(lia)) as Hm.
    assert (Hq : 0 <= j' / k < 256) by (split; [apply Z.div_pos; lia|apply Z.div_lt_upper_bound; lia]).
    destruct (eg_chip_byte r side j (eg_image_row s e r') (px s + 258 * side' + j' / k) (j' mod k))
      as (Ey & Ex & Ej); [done|done|lia|destruct Hs' as [-> | ->]; lia|lia|lia|].
    apply eg_image_row_inj in Ey. subst r'.
    assert (side = side') by (destruct Hs as [-> | ->], Hs' as [-> | ->]; lia). subst side'. lia.
  - exists out'. split_and!; try done. intros y x i Hy Hx Hi.
    destruct (eg_pixel_at s e y x) as [[r cx]|] eqn:E.
    + apply eg_pixel_at_chip in E as (Hr & side & Hs & -> & Hc & ->).
      assert (Hb : eg_chip w k s e r side ∈ eg_blocks w k s e (seqZ 0 256)).
      { apply elem_of_eg_blocks. exists r, side. rewrite elem_of_seqZ. split; [lia|by split]. }
      specialize (Hv _ ((x - px s - 258 * side) * k + i) Hb). cbn [eg_chip doff soff len] in Hv.
      replace ((eg_image_row s e r * w + x) * k + i) with
        ((eg_image_row s e r * w + (px s + 258 * side)) * k + ((x - px s - 258 * side) * k + i)) by ring.
      rewrite Hv by nia. do 2 f_equal. ring.
    + assert (0 <= y * w) by nia. assert (0 <= (y * w + x) * k) by nia.
      apply Hf. intros b (r & side & Hr%Hrows & Hs & ->)%elem_of_eg_blocks Hb.
      cbn [eg_chip doff len] in Hb. rewrite Z2Nat.id in Hb by lia.
      destruct (eg_chip_byte r side ((y * w + x) * k + i - (eg_image_row s e r * w + (px s + 258 * side)) * k)
                  y x i) as (Ey & Ex & Ej); [done|done|lia|lia|lia|lia|].
      assert (Hsome : eg_pixel_at s e y x = Some (r, 256 * side + (x - px s - 258 * side))).
      { apply eg_pixel_at_chip. split; [done|]. exists side. done. }
      congruence.
Qed.
End Rows.

(** C18: for a module of 514 x 256 pixels inside the image the Eiger converter is accepted by
    its constructor and copies the module's frame to its place: both chips, with the gap of
    two pixels between them untouched, rows top-down or bottom-up as the module is
    configured; it writes no other byte of the image and stays inside its buffers. *)
Theorem eg_convert_correct config id k s e input out :
  eg_placed config id k s e ->
  let w := image_pixel_width config in let h := image_pixel_height config in
  zlen input = 131072 * k -> zlen out = w * h * k ->
  exists c out', EgConverter_new config id = Ret c /\ eg_convert c input out = Ret out' /\
    zlen out' = zlen out /\
    forall y x i, 0 <= y < h -> 0 <= x < w -> 0 <= i < k ->
      out' !! Z.to_nat ((y * w + x) * k + i) =
        match eg_pixel_at s e y x with
        | Some (r, cx) => input !! Z.to_nat ((r * 512 + cx) * k + i)
        | None => out !! Z.to_nat ((y * w + x) * k + i)
        end.
Proof.
  intros Hp w h Hin Hout. destruct (eg_convert_spec config id k s e Hp input out Hin Hout) as (o & Ho).
  eexists _, o. split; [by apply (eg_converter_numbers config id k s e)|exact Ho].
Qed.

(** The converter keeps the promise the loop relies on. *)
Lemma eg_image_converter config id k s e c :
  eg_placed config id k s e -> EgConverter_new config id = Ret c ->
  ImageConverter (eg_convert c) (131072 * k) (image_pixel_width config * image_pixel_height config * k).
Proof.
  intros Hp Hc frame old Hf Ho. rewrite (eg_converter_numbers _ _ _ _ _ Hp) in Hc. injection Hc as <-.
  destruct (eg_convert_spec _ _ _ _ _ Hp frame old Hf Ho) as (o & Hcv & Hl & _).
  exists o. split; [done|lia].
Qed.

(** ** The constructor's tests *)

(** The Eiger converter is only built for a module that is configured, whose corners do
    not exceed the image's size, and which is 514 x 256 pixels large. *)
Lemma eg_constructor_checks config id c :
  EgConverter_new config id = Ret c ->
  exists s e, modules config !! u64 id = Some (s, e) /\
    Z.abs (px s - px e) = 513 /\ Z.abs (py s - py e) = 255 /\
    px s <= image_pixel_width config /\ py s <= image_pixel_height config /\
    px e <= image_pixel_width config /\ py e <= image_pixel_height config.
Proof.
  unfold EgConverter_new, eg_calculate_row_jump_direction, eg_calculate_start_index,
    test_if_module_is_inside_image, test_if_module_size_fits_eiger,
    get_module_start_position, get_module_end_position, modules_at.
  intros (g & _ & Hc)%obind_Ret_iff. destruct (modules config !! u64 id) as [[s e]|]; [|done].
  cbn [omap_out obind fst snd] in Hc. apply obind_Ret_iff in Hc as (j & _ & Hc).
  apply obind_Ret_iff in Hc as (st & _ & Hc). unfold throw_if in Hc.
  destruct (_ || _) eqn:E1 in Hc; [done|]. destruct (_ || _) eqn:E2 in Hc; [done|].
  apply orb_false_iff in E1 as [?%Z.ltb_ge ?%Z.ltb_ge]. apply orb_false_iff in E2 as [?%Z.ltb_ge ?%Z.ltb_ge].
  cbn [obind] in Hc. apply obind_Ret_iff in Hc as (u & Hc & _).
  apply obind_Ret_iff in Hc as ([|] & Hx & Hc); [done|].
  apply obind_Ret_iff in Hc as ([|] & Hy & Hc); [done|].
  apply size_differs_false in Hx; [|vm_compute; split; done].
  apply size_differs_false in Hy; [|vm_compute; split; done].
  exists s, e. done.
Qed.

(** A module in the lower right corner of an 8-bit image of the given width, upside down. *)
Definition demo_eg_config (w : Z) : DetectorConfig :=
  {| Config.detector_name := "EG"; detector_type := "eiger"; n_modules := 1; bit_depth := 8;
     image_pixel_height := 256; image_pixel_width := w; start_udp_port := 50000;
     log_level := "info"; stats_collection_period := 10;
     max_number_of_forwarders_spawned := 8; use_all_forwarders := true;
     gpfs_block_size := 16777216; sender_sends_full_images := false;
     module_sync_queue_size := 50; number_of_writers := 0; ram_buffer_gb := 0;
     delay_filter_timeout := 10; switch_user_active := false; ls_configs := ∅;
     modules := {[ 0 := ({| px := 0; py := 255 |}, {| px := 513; py := 0 |}) ]} |}.

(** The corner tests admit a module that ends one column behind the image: its converter
    is built, and its first row is copied beyond the end of the buffer. *)
Lemma eg_edge_module_accepted :
  exists c, EgConverter_new (demo_eg_config 513) 0 = Ret c /\
    forall input out, zlen input = 131072 -> zlen out = 513 * 256 * 1 ->
      eg_convert c input out = Undef out_of_bounds.
Proof.
  eexists. split; [vm_compute; reflexivity|]. intros input out Hin Hout.
  unfold eg_convert. change eg.MODULE_Y_SIZE with (1 + 255). rewrite seqZ_app, foldO_app by lia.
  change (seqZ 0 1) with [0]. cbn [foldO]. unfold eg_convert_row at 1.
  cbn [input_row_size_per_chip gap_size row_jump start_index].
  change (u32 (130815 + u32 (0 * -513))) with 130815. change (u64 (u64 (0 * 256) * 2)) with 0.
  change (u64 (256 + 2)) with 258.
  destruct (memcpy_spec out input {| doff := 130815; soff := 0; len := 256 |}) as (o & Ho & Hl & _);
    cbn [doff soff len] in *; [lia..|].
  rewrite Ho. cbn [obind]. unfold memcpy. rewrite mem_read_ret by lia. cbn [obind].
  unfold mem_write. destruct (in_block _ _ _) eqn:E; [|done]. apply in_block_true in E.
  unfold zlen in *. rewrite length_take, length_drop in E. lia.
Qed.

Lemma demo_eg_placed : eg_placed (demo_eg_config 514) 0 1 {| px := 0; py := 255 |} {| px := 513; py := 0 |}.
Proof. split; vm_compute; repeat split; discriminate || reflexivity. Qed.

Lemma eg_convert_correct_witness :
  exists c out', EgConverter_new (demo_eg_config 514) 0 = Ret c /\
    eg_convert c (replicate (Z.to_nat 131072) 1) (replicate (Z.to_nat 131584) 0) = Ret out' /\
    out' !! Z.to_nat ((255 * 514 + 513) * 1 + 0) = replicate (Z.to_nat 131072) 1 !! Z.to_nat ((0 * 512 + 511) * 1 + 0).
Proof.
  destruct (eg_convert_correct (demo_eg_config 514) 0 1 {| px := 0; py := 255 |} {| px := 513; py := 0 |}
              (replicate (Z.to_nat 131072) 1) (replicate (Z.to_nat 131584) 0)) as (c & o & Hc & Ho & _ & Hv).
  - apply demo_eg_placed.
  - by rewrite zlen_replicate, Z2Nat.id by lia.
  - by rewrite zlen_replicate, Z2Nat.id by lia.
  - exists c, o. split; [exact Hc|]. split; [exact Ho|].
    apply (Hv 255 513 0); cbn [demo_eg_config image_pixel_height image_pixel_width]; lia.
Defined.

Lemma eg_constructor_checks_witness :
  exists s e, modules (demo_eg_config 514) !! 0 = Some (s, e) /\
    Z.abs (px s - px e) = 513 /\ Z.abs (py s - py e) = 255 /\
    px s <= 514 /\ py s <= 256 /\ px e <= 514 /\ py e <= 256.
Proof.
  apply (eg_constructor_checks (demo_eg_config 514) 0
    {| input_row_size_per_chip := 256; gap_size := 2; row_jump := -514; start_index := 131070 |}).
  vm_compute. reflexivity.
Defined.
