(* ===== verification/ConvertJf.v ===== *)
(** * Jungfrau converter

    [src/source/std-data-convert/std-data-convert-jf]: [converter.cpp] copies the rows of a
    module of 1024 x 512 16-bit pixels to its place in the image, or, when gains and
    pedestals are loaded, stores the calibrated value of every pixel as a [float].
    [float] is IEEE binary32, computed by the Standard Library's [SpecFloat] with 24 bits
    of precision and rounding to nearest; in memory it is its 32-bit pattern.  The HDF5 file
    with gains and pedestals is read by the HDF5 library and is an argument here. *)

From Stdlib Require Import SpecFloat.
From S2P Require Import Prelude Formats Config RamBuffer Stats Scatter ConvertLoop.

(** ** float *)

Definition f_prec : Z := 24.
Definition f_emax : Z := 128.
Definition f_sub : spec_float -> spec_float -> spec_float := SFsub f_prec f_emax.
Definition f_mul : spec_float -> spec_float -> spec_float := SFmul f_prec f_emax.

(** Conversion from [int]. *)
Definition f_of_int (z : Z) : spec_float := binary_normalize f_prec f_emax z 0 false.

(** The bit pattern (the quiet NaN for NaN). *)
Definition f_bits (f : spec_float) : Z :=
  let sign (s : bool) := if s then 2 ^ 31 else 0 in
  match f with
  | S754_zero s => sign s
  | S754_infinity s => sign s + 2139095040
  | S754_nan => 2143289344
  | S754_finite s m e =>
      if Z.pos m <? 2 ^ 23 then sign s + Z.pos m
      else sign s + (e + 150) * 2 ^ 23 + (Z.pos m - 2 ^ 23)
  end.

(** ** parameters.hpp *)

Definition N_GAINS : Z := 3.

(** [std::array<std::vector<...>, N_GAINS>]. *)
Notation parameters := (list (list spec_float)) (only parsing).
Notation parameters_pairs := (list (list (spec_float * spec_float))) (only parsing).

(** ** read_gains_and_pedestals.cpp

    [data] is what [H5Dread] stored, already narrowed to [float]. *)

Definition decode_parameters (data : list spec_float) (image_size : Z) : outcome parameters :=
  foldO (fun params i =>
           let! v := mem_read data (i * image_size) image_size in Ret (params ++ [v]))
        (seqZ 0 N_GAINS) [].

Definition read_gains_and_pedestals (gains_data pedestals_data : list spec_float) (image_size : Z) :
  outcome (parameters * parameters) :=
  let! gains := decode_parameters gains_data image_size in
  let! pedestals := decode_parameters pedestals_data image_size in
  Ret (gains, pedestals).

(** ** converter.cpp *)

Record JfConverter : Type := {
  gains_and_pedestals : parameters_pairs;
  row_jump : Z;
  start_index : Z;
  with_gains : bool
}.

Definition jf_calculate_start_index (config : DetectorConfig) (module_id : Z) : outcome Z :=
  let! start_position := get_module_start_position config module_id in
  let! a := i32 (image_pixel_width config * py start_position) in
  let! b := i32 (a + px start_position) in
  Ret (u64 b).

Definition test_if_module_size_fits_jungfrau (config : DetectorConfig) (module_id : Z) :
  outcome unit :=
  let! module_end := get_module_end_position config module_id in
  let! module_start := get_module_start_position config module_id in
  let! bad_x := size_differs (px module_start) (px module_end) (jf.MODULE_X_SIZE - 1) in
  throw_if bad_x runtime_error
    (let! bad_y := size_differs (py module_start) (py module_end) (jf.MODULE_Y_SIZE - 1) in
     throw_if bad_y runtime_error (Ret tt)).

(** The constructor without gains. *)
Definition JfConverter_new (config : DetectorConfig) (module_id : Z) : outcome JfConverter :=
  let! start := jf_calculate_start_index config module_id in
  let! _ := test_if_module_is_inside_image config module_id in
  let! _ := test_if_module_size_fits_jungfrau config module_id in
  Ret {| gains_and_pedestals := [[]; []; []]; row_jump := u64 (image_pixel_width config);
         start_index := start; with_gains := false |}.

(** The vector of gain [i]. *)
Definition gain_of (p : parameters) (i : Z) : list spec_float := default [] (p !! Z.to_nat i).

Definition test_gains_and_pedestals_consistency (g p : parameters) : outcome unit :=
  throw_if (negb (zlen (gain_of g 0) =? zlen (gain_of p 0))) runtime_error (Ret tt).

(** The constructor with gains; [transform] stops at the end of the shorter vector. *)
Definition JfConverter_new_gains (g p : parameters) (config : DetectorConfig) (module_id : Z) :
  outcome JfConverter :=
  let! c := JfConverter_new config module_id in
  let! _ := test_gains_and_pedestals_consistency g p in
  Ret {| gains_and_pedestals := (fun i => zip (gain_of g i) (gain_of p i)) <$> seqZ 0 N_GAINS;
         row_jump := row_jump c; start_index := start_index c; with_gains := true |}.

Definition copy_raw_row (c : JfConverter) (input output_buffer : list Z) (row : Z) : outcome (list Z) :=
  let input_start := u32 (row * jf.MODULE_X_SIZE) in
  let output_start := u64 (start_index c + u64 (row * row_jump c)) in
  memcpy output_buffer output_start input input_start jf.MODULE_X_SIZE.

Definition copy_raw_data (c : JfConverter) (input output_buffer : list Z) : outcome (list Z) :=
  foldO (copy_raw_row c input) (seqZ 0 jf.MODULE_Y_SIZE) output_buffer.

Definition vector_at {A} (l : list A) (i : Z) : outcome A :=
  match l !! Z.to_nat i with Some x => Ret x | None => Undef out_of_bounds end.

(** The body of the inner loop. *)
Definition convert_pixel (c : JfConverter) (input_data : list Z) (i : Z) (output_data : list Z) (j : Z) :
  outcome (list Z) :=
  let index := u32 (u32 (i * jf.MODULE_X_SIZE) + j) in
  let! pixel := vector_at input_data index in
  let gain_group := Z.shiftr pixel 14 mod N_GAINS in
  let! group := vector_at (gains_and_pedestals c) gain_group in
  let! gp := vector_at group index in
  let value := f_mul (f_sub (f_of_int (Z.land pixel 16383)) (snd gp)) (fst gp) in
  mem_write output_data (u64 (u64 (start_index c + u64 (i * row_jump c)) + j)) [f_bits value].

Definition convert_gains (c : JfConverter) (input_data output_data : list Z) : outcome (list Z) :=
  foldO (fun out i => foldO (convert_pixel c input_data i) (seqZ 0 jf.MODULE_X_SIZE) out)
    (seqZ 0 jf.MODULE_Y_SIZE) output_data.

Definition test_data_size_consistency (c : JfConverter) (data : list Z) : outcome unit :=
  throw_if (zlen (default [] (gains_and_pedestals c !! 0%nat)) <? zlen data) invalid_argument (Ret tt).

Definition convert_data (c : JfConverter) (input_data output_data : list Z) : outcome (list Z) :=
  let! _ := test_data_size_consistency c input_data in convert_gains c input_data output_data.

(** The public [convert] on the bytes of the slot: a span of 16-bit cells, or the
    [float] cells it is cast to. *)
Definition jf_convert (c : JfConverter) (input output : list Z) : outcome (list Z) :=
  let n := (length output / 2)%nat in
  if with_gains c then
    let nf := (n / 4 * 2)%nat in
    let! o := convert_data c input (words 4 nf output) in Ret (unwords 4 o ++ drop (4 * nf) output)
  else
    let! o := copy_raw_data c input (words 2 n output) in Ret (unwords 2 o ++ drop (2 * n) output).

(** ** main.cpp *)

Definition create_converter (filename : string) (gains_data pedestals_data : list spec_float)
  (config : DetectorConfig) (module_id : Z) : outcome JfConverter :=
  let empty := bool_decide (filename = ""%string) in
  throw_if (empty && is_type config "jungfrau-converted") runtime_error
    (if empty then JfConverter_new config module_id
     else
       let! size := i32 (image_pixel_height config * image_pixel_width config) in
       let! '(gains, pedestals) := read_gains_and_pedestals gains_data pedestals_data (u64 size) in
       JfConverter_new_gains gains pedestals config module_id).

(** The call of [convert] in the loop: the frame as a span of [MODULE_N_PIXELS] pixels. *)
Definition jf_convert_frame (c : JfConverter) (image slot : list Z) : outcome (list Z) :=
  let! bytes := mem_read image 0 (2 * jf.MODULE_N_PIXELS) in
  jf_convert c (words 2 (Z.to_nat jf.MODULE_N_PIXELS) bytes) slot.

Definition jf_convert_step (c : JfConverter) (frame_n_bytes converted_bytes : Z) :=
  convert_step (jf_convert_frame c) frame_n_bytes converted_bytes.

Definition jf_convert_main (os : syscalls) (config : DetectorConfig) (source_name filename : string)
  (gains_data pedestals_data : list spec_float) (module_id now : Z) (s : shm) :
  outcome (JfConverter * Z * Z * converter_state) :=
  let! c := create_converter filename gains_data pedestals_data config module_id in
  let frame_n_bytes := u32 (jf.MODULE_N_PIXELS * u32 (bit_depth config)) / 8 in
  let! converted_bytes := converted_image_n_bytes config in
  let! st := converter_streams os config source_name frame_n_bytes module_id now s in
  Ret (c, frame_n_bytes, converted_bytes, st).

(** ** Specification *)

(** A module inside the image, start corner above and left of its end corner. *)
Record jf_placed (config : DetectorConfig) (id : Z) (s e : Point) : Prop := {
  placed_module : modules config !! u64 id = Some (s, e);
  placed_x : 0 <= px s /\ px e = px s + 1023 /\ px e < image_pixel_width config;
  placed_y : 0 <= py s /\ py e = py s + 511 /\ py e < image_pixel_height config;
  placed_size : image_pixel_width config * image_pixel_height config < 2 ^ 31
}.

(** The number of the module pixel shown at pixel ([y], [x]) of the image, if any. *)
Definition jf_pixel_at (s : Point) (y x : Z) : option Z :=
  if (py s <=? y) && (y <? py s + 512) && (px s <=? x) && (x <? px s + 1024)
  then Some ((y - py s) * 1024 + (x - px s)) else None.

(** Where pixel [p] of the module goes. *)
Definition jf_place (s : Point) (w p : Z) : Z := (py s + p / 1024) * w + (px s + p mod 1024).

(** Gains and pedestals side by side, for the three gain stages. *)
Definition gain_table (g p : parameters) : parameters_pairs :=
  (fun i => zip (gain_of g i) (gain_of p i)) <$> [0; 1; 2].

(** The calibrated value of a raw pixel: its two top bits select one of the gains, its 14
    lower bits are the reading. *)
Definition jf_calibrated (gp : parameters_pairs) (p pixel : Z) : Z :=
  let (gain, pedestal) := default (S754_nan, S754_nan)
    (group ← gp !! Z.to_nat (Z.shiftr pixel 14 mod 3); group !! Z.to_nat p) in
  f_bits (f_mul (f_sub (f_of_int (Z.land pixel 16383)) pedestal) gain).

(** ** Correctness *)

Section Placed.
Context (config : DetectorConfig) (id : Z) (s e : Point) (Hp : jf_placed config id s e).
Notation w := (image_pixel_width config).
Notation h := (image_pixel_height config).

Lemma jf_placed_bounds : 1024 <= w < 2 ^ 31 /\ 512 <= h < 2 ^ 31 /\ 0 <= py s * w /\
  (py s + 512) * w <= w * h /\ px s + 1024 <= w.
Proof using All. destruct Hp as [_ (Hx0 & Hx1 & Hx2) (Hy0 & Hy1 & Hy2) Hsz]. split_and!; nia. Qed.

Lemma jf_converter_numbers :
  JfConverter_new config id =
    Ret {| gains_and_pedestals := [[]; []; []]; row_jump := w; start_index := py s * w + px s;
           with_gains := false |}.
Proof using All.
  pose proof jf_placed_bounds as (Hw & Hh & Hy & Hin & Hxw).
  destruct Hp as [Hm (Hx0 & Hx1 & Hx2) (Hy0 & Hy1 & Hy2) Hsz].
  assert (Hs : get_module_start_position config id = Ret s)
    by (unfold get_module_start_position, modules_at; by rewrite Hm).
  assert (He : get_module_end_position config id = Ret e)
    by (unfold get_module_end_position, modules_at; by rewrite Hm).
  unfold JfConverter_new, jf_calculate_start_index, test_if_module_is_inside_image,
    test_if_module_size_fits_jungfrau. rewrite Hs, He. cbn [obind].
  rewrite i32_ret by (unfold in_i32; nia). cbn [obind].
  rewrite i32_ret by (unfold in_i32; nia). cbn [obind]. unfold throw_if at 1 2.
  rewrite !(proj2 (Z.ltb_ge _ _)) by lia. cbn [orb obind].
  change (jf.MODULE_X_SIZE - 1) with 1023. change (jf.MODULE_Y_SIZE - 1) with 511.
  rewrite (size_differs_ret (px s)) by (unfold in_i32; lia). cbn [obind throw_if].
  rewrite (size_differs_ret (py s)) by (unfold in_i32; lia). cbn [obind throw_if].
  rewrite !u64_small by nia. do 2 f_equal. lia.
Qed.

Lemma jf_place_range p : 0 <= p < 524288 -> 0 <= jf_place s w p < w * h.
Proof using All.
  intros Hr. pose proof jf_placed_bounds as (Hw & Hh & Hy & Hin & Hxw).
  destruct (placed_x _ _ _ _ Hp) as (Hx0 & _).
  assert (0 <= p / 1024 < 512) by (split; [apply Z.div_pos; lia|apply Z.div_lt_upper_bound; lia]).
  pose proof (Z.mod_pos_bound p 1024 ltac:(lia)). unfold jf_place. nia.
Qed.

(** [jf_pixel_at] inverts [jf_place]. *)
Lemma jf_pixel_at_place y x p :
  0 <= x < w ->
  jf_pixel_at s y x = Some p <-> 0 <= p < 524288 /\ jf_place s w p = y * w + x.
Proof using All.
  intros Hx. pose proof jf_placed_bounds as (Hw & Hh & Hy & Hin & Hxw).
  destruct (placed_x _ _ _ _ Hp) as (Hx0 & _). unfold jf_pixel_at, jf_place. split.
  - destruct (_ && _) eqn:E; [|done].
    apply andb_true_iff in E as [[[?%Z.leb_le ?%Z.ltb_lt]%andb_true_iff ?%Z.leb_le]%andb_true_iff ?%Z.ltb_lt].
    intros [= <-]. split; [lia|].
    rewrite Z.div_add_l, Z.div_small, (Z.add_comm (_ * 1024)), Z.mod_add, Z.mod_small by lia. ring.
  - intros [Hr E].
    assert (0 <= p / 1024 < 512) by (split; [apply Z.div_pos; lia|apply Z.div_lt_upper_bound; lia]).
    pose proof (Z.mod_pos_bound p 1024 ltac:(lia)). pose proof (Z.div_mod p 1024 ltac:(lia)).
    apply euclid_unique in E as [<- <-]; [|lia|done].
    rewrite !(proj2 (Z.leb_le _ _)), !(proj2 (Z.ltb_lt _ _)) by lia. cbn [andb]. f_equal. lia.
Qed.

Lemma jf_place_inj p q :
  0 <= p < 524288 -> 0 <= q < 524288 -> jf_place s w p = jf_place s w q -> p = q.
Proof using All.
  intros Hr Hq E. pose proof jf_placed_bounds as (Hw & Hh & Hy & Hin & Hxw).
  destruct (placed_x _ _ _ _ Hp) as (Hx0 & _).
  pose proof (Z.mod_pos_bound p 1024 ltac:(lia)). pose proof (Z.mod_pos_bound q 1024 ltac:(lia)).
  unfold jf_place in E. apply euclid_unique in E as [E1 E2]; [|lia|lia].
  pose proof (Z.div_mod p 1024 ltac:(lia)). pose proof (Z.div_mod q 1024 ltac:(lia)). lia.
Qed.

(** A store of every module pixel at its place, seen pixel by pixel. *)
Lemma jf_scatter_spec (val : Z -> Z) out :
  zlen out = w * h ->
  exists out', scatter (jf_place s w) val (seqZ 0 524288) out = Ret out' /\ zlen out' = zlen out /\
    forall y x, 0 <= y < h -> 0 <= x < w ->
      out' !! Z.to_nat (y * w + x) =
        match jf_pixel_at s y x with
        | Some p => Some (val p)
        | None => out !! Z.to_nat (y * w + x)
        end.
Proof using All.
  intros Hout. assert (Hps : forall p, p ∈ seqZ 0 524288 <-> 0 <= p < 524288)
    by (intros p; rewrite elem_of_seqZ; lia).
  destruct (scatter_spec (jf_place s w) val (seqZ 0 524288) out) as (o & Ho & Hl & Hv & Hf).
  - intros p Hin%Hps. rewrite Hout. by apply jf_place_range.
  - intros p q Hin%Hps Hq%Hps. by apply jf_place_inj.
  - exists o. split_and!; try done. intros y x Hy Hx. destruct (jf_pixel_at s y x) as [p|] eqn:E.
    + apply jf_pixel_at_place in E as [Hr <-]; [|done]. by apply Hv, Hps.
    + apply Hf. intros p Hin%Hps E2. rewrite Z2Nat.id in E2 by nia.
      assert (jf_pixel_at s y x = Some p) by (by apply jf_pixel_at_place). congruence.
Qed.

(** The raw copy. *)
Definition jf_row (r : Z) : block := {| doff := (py s + r) * w + px s; soff := r * 1024; len := 1024 |}.

Lemma copy_raw_blocks c input rows out :
  row_jump c = w -> start_index c = py s * w + px s -> (forall r, r ∈ rows -> 0 <= r < 512) ->
  foldO (copy_raw_row c input) rows out = copy_blocks input (jf_row <$> rows) out.
Proof using All.
  intros Hj Hst. pose proof jf_placed_bounds as (Hw & Hh & Hy & Hin & Hxw).
  destruct Hp as [_ (Hx0 & _) (Hy0 & _) Hsz].
  revert out. induction rows as [|r rows IH]; intros out Hr; [done|].
  assert (Hr0 : 0 <= r < 512) by (apply Hr; set_solver).
  unfold copy_blocks in *. cbn [fmap list_fmap foldO jf_row doff soff len].
  unfold copy_raw_row at 1. rewrite Hj, Hst. unfold jf.MODULE_X_SIZE.
  rewrite (u64_small (r * w)), u64_small, u32_small by nia.
  replace (py s * w + px s + r * w) with ((py s + r) * w + px s) by ring.
  destruct (memcpy out _ input _ 1024) as [o|?|?]; cbn [obind]; [|done..].
  apply IH. set_solver.
Qed.

Lemma copy_raw_spec c input out :
  row_jump c = w -> start_index c = py s * w + px s ->
  zlen input = 524288 -> zlen out = w * h ->
  exists out', copy_raw_data c input out = Ret out' /\ zlen out' = zlen out /\
    forall y x, 0 <= y < h -> 0 <= x < w ->
      out' !! Z.to_nat (y * w + x) =
        match jf_pixel_at s y x with
        | Some p => input !! Z.to_nat p
        | None => out !! Z.to_nat (y * w + x)
        end.
Proof using All.
  intros Hj Hst Hin Hout. pose proof jf_placed_bounds as (Hw & Hh & Hy & Hb & Hxw).
  destruct (placed_x _ _ _ _ Hp) as (Hx0 & _). destruct (placed_y _ _ _ _ Hp) as (Hy0 & _).
  assert (Hrows : forall b, b ∈ jf_row <$> seqZ 0 512 <-> exists r, b = jf_row r /\ 0 <= r < 512).
  { intros b. rewrite list_elem_of_fmap. split; intros (r & -> & Hr); exists r;
      rewrite elem_of_seqZ in *; split; done || lia. }
  unfold copy_raw_data. change jf.MODULE_Y_SIZE with 512.
  rewrite copy_raw_blocks by (done || (intros r ?%elem_of_seqZ; lia)).
  destruct (copy_blocks_spec input (jf_row <$> seqZ 0 512) out) as (o & Ho & Hl & Hv & Hf).
  - intros b (r & -> & Hr)%Hrows. cbn [jf_row doff soff len]. nia.
  - intros b b' j j' (r & -> & Hr)%Hrows (r' & -> & Hr')%Hrows. cbn [jf_row doff soff len].
    intros Hjj Hjj' E. destruct (euclid_unique w (py s + r) (px s + j) (py s + r') (px s + j')); lia.
  - exists o. split_and!; try done. intros y x Hy' Hx. destruct (jf_pixel_at s y x) as [p|] eqn:E.
    + apply jf_pixel_at_place in E as [Hr E]; [|done].
      pose proof (Z.mod_pos_bound p 1024 ltac:(lia)). pose proof (Z.div_mod p 1024 ltac:(lia)).
      assert (Hrow : jf_row (p / 1024) ∈ jf_row <$> seqZ 0 512).
      { apply Hrows. exists (p / 1024). split; [done|].
        split; [apply Z.div_pos; lia|apply Z.div_lt_upper_bound; lia]. }
      specialize (Hv _ (p mod 1024) Hrow). cbn [jf_row doff soff len] in Hv.
      unfold jf_place in E. rewrite <- E, Z.add_assoc, Hv by lia. do 2 f_equal. lia.
    + apply Hf. intros b (r & -> & Hr)%Hrows Hi. cbn [jf_row doff len] in Hi.
      rewrite Z2Nat.id in Hi by nia.
      assert (E2 : y = py s + r /\ 0 <= x - px s < 1024).
      { destruct (euclid_unique w y x (py s + r) (y * w + x - (py s + r) * w)); lia. }
      destruct E2 as [-> Hx2]. unfold jf_pixel_at in E.
      rewrite !(proj2 (Z.leb_le _ _)), !(proj2 (Z.ltb_lt _ _)) in E by lia. done.
Qed.

(** The pair of gain and pedestal of a pixel. *)
Lemma gain_lookup (gp : parameters_pairs) g p :
  length gp = 3%nat -> Forall (fun v => 524288 <= zlen v) gp -> 0 <= g < 3 -> 0 <= p < 524288 ->
  exists group x, vector_at gp g = Ret group /\ gp !! Z.to_nat g = Some group /\
    vector_at group p = Ret x /\ group !! Z.to_nat p = Some x.
Proof using Type.
  intros H3 Hg Hgr Hr. destruct (lookup_lt_is_Some_2 gp (Z.to_nat g)) as [group Eg]; [lia|].
  pose proof (Forall_lookup_1 _ _ _ _ Hg Eg) as Hgl. simpl in Hgl. unfold zlen in Hgl.
  destruct (lookup_lt_is_Some_2 group (Z.to_nat p)) as [x Ex]; [lia|].
  exists group, x. unfold vector_at. by rewrite Eg, Ex.
Qed.

(** The calibrated image. *)
Lemma convert_gains_spec c input out :
  row_jump c = w -> start_index c = py s * w + px s ->
  length (gains_and_pedestals c) = 3%nat ->
  Forall (fun g => 524288 <= zlen g) (gains_and_pedestals c) ->
  zlen input = 524288 -> zlen out = w * h ->
  exists out', convert_gains c input out = Ret out' /\ zlen out' = zlen out /\
    forall y x, 0 <= y < h -> 0 <= x < w ->
      out' !! Z.to_nat (y * w + x) =
        match jf_pixel_at s y x with
        | Some p => jf_calibrated (gains_and_pedestals c) p <$> input !! Z.to_nat p
        | None => out !! Z.to_nat (y * w + x)
        end.
Proof using All.
  intros Hj Hst Hg3 Hg Hin Hout. pose proof jf_placed_bounds as (Hw & Hh & Hy & Hb & Hxw).
  destruct Hp as [_ (Hx0 & _) (Hy0 & _) Hsz]. unfold convert_gains.
  set (pixel := fun p => default 0 (input !! Z.to_nat p)).
  assert (Hpix : forall p, 0 <= p < 524288 -> input !! Z.to_nat p = Some (pixel p)).
  { intros p Hr. unfold pixel. destruct (input !! Z.to_nat p) eqn:E; [done|].
    apply lookup_ge_None in E. unfold zlen in Hin. lia. }
  destruct (jf_scatter_spec (fun p => jf_calibrated (gains_and_pedestals c) p (pixel p)) out Hout)
    as (o & Ho & Hl & Hv).
  exists o. split; [|split; [done|]].
  - rewrite <- Ho. change (seqZ 0 524288) with (seqZ 0 (Z.of_nat 512 * Z.of_nat 1024)).
    change jf.MODULE_X_SIZE with (Z.of_nat 1024). change jf.MODULE_Y_SIZE with (Z.of_nat 512).
    apply scatter_nested. intros i j out' Hi Hjj _. change (Z.of_nat 1024) with 1024 in *.
    change (Z.of_nat 512) with 512 in *. unfold convert_pixel, jf.MODULE_X_SIZE.
    rewrite (u32_small (i * 1024)), u32_small by lia.
    unfold vector_at at 1. rewrite Hpix by lia. cbn [obind].
    change N_GAINS with 3. set (g := Z.shiftr (pixel (i * 1024 + j)) 14 mod 3).
    destruct (gain_lookup _ g (i * 1024 + j) Hg3 Hg) as (group & [gain ped] & Eg & Eg' & Ep & Ep');
      [apply Z.mod_pos_bound; lia|lia|].
    rewrite Eg. cbn [obind]. rewrite Ep. cbn [obind fst snd].
    unfold jf_calibrated. fold g. rewrite Eg'. cbn [mbind option_bind]. rewrite Ep'.
    change (default (S754_nan, S754_nan) (Some (gain, ped))) with (gain, ped). cbv beta iota.
    rewrite Hj, Hst, (u64_small (i * w)), (u64_small (_ + i * w)), u64_small by nia.
    f_equal. unfold jf_place.
    rewrite Z.div_add_l, Z.div_small, (Z.add_comm (i * 1024)), Z.mod_add, Z.mod_small by lia. ring.
  - intros y x Hy' Hx. rewrite Hv by done. destruct (jf_pixel_at s y x) as [p|] eqn:E; [|done].
    apply jf_pixel_at_place in E as [Hr _]; [|done]. by rewrite Hpix.
Qed.
End Placed.

(** ** The public operation *)

Lemma even_half n : 0 <= n -> (Z.to_nat (2 * (2 * n)) / 4 * 2)%nat = Z.to_nat (2 * n).
Proof.
  intros Hn. replace (Z.to_nat (2 * (2 * n))) with (Z.to_nat n * 4)%nat by lia.
  rewrite Nat.div_mul by done. lia.
Qed.

Lemma length_gain_of g i : Forall (fun v => 524288 <= zlen v) g -> length g = 3%nat -> 0 <= i < 3 ->
  524288 <= zlen (gain_of g i).
Proof.
  intros Hg H3 Hi. unfold gain_of. destruct (lookup_lt_is_Some_2 g (Z.to_nat i)) as [v Ev]; [lia|].
  rewrite Ev. exact (Forall_lookup_1 _ _ _ _ Hg Ev).
Qed.

Lemma jf_raw_spec config id s e input slot :
  jf_placed config id s e ->
  let w := image_pixel_width config in let h := image_pixel_height config in
  zlen input = jf.MODULE_N_PIXELS -> zlen slot = 2 * (w * h) ->
  exists c pixels, JfConverter_new config id = Ret c /\
    jf_convert c input slot = Ret (unwords 2 pixels) /\ zlen pixels = w * h /\
    forall y x, 0 <= y < h -> 0 <= x < w ->
      pixels !! Z.to_nat (y * w + x) =
        match jf_pixel_at s y x with
        | Some p => input !! Z.to_nat p
        | None => words 2 (Z.to_nat (w * h)) slot !! Z.to_nat (y * w + x)
        end.
Proof.
  intros Hp w h Hin Hslot. pose proof (jf_placed_bounds config id s e Hp) as (Hw & Hh & _).
  assert (Hpos : 0 <= w * h) by (unfold w, h; nia).
  eexists. rewrite (jf_converter_numbers config id s e Hp).
  edestruct (copy_raw_spec config id s e Hp) as (o & Ho & Hl & Hv);
    [| | |by instantiate (1 := words 2 (Z.to_nat (w * h)) slot); unfold zlen; rewrite length_words; fold w h; lia|].
  4: { exists o. split; [reflexivity|]. unfold jf_convert. cbn [with_gains].
       rewrite (half_length slot (w * h)) by done. rewrite Ho. cbn [obind].
       rewrite drop_ge by (unfold zlen in Hslot; lia). rewrite app_nil_r.
       split_and!; [done| |exact Hv]. rewrite Hl. unfold zlen. rewrite length_words. lia. }
  all: done.
Qed.

(** Without gains, the Jungfrau converter copies the 1024 x 512 16-bit pixels of a module
    inside the image to the module's place, writes no other pixel and stays inside its
    buffers. *)
Lemma jf_raw_convert_correct config id s e input slot :
  jf_placed config id s e ->
  let w := image_pixel_width config in let h := image_pixel_height config in
  zlen input = jf.MODULE_N_PIXELS -> zlen slot = 2 * (w * h) ->
  exists c pixels, JfConverter_new config id = Ret c /\
    jf_convert c input slot = Ret (unwords 2 pixels) /\ zlen pixels = w * h /\
    forall y x, 0 <= y < h -> 0 <= x < w ->
      pixels !! Z.to_nat (y * w + x) =
        match jf_pixel_at s y x with
        | Some p => input !! Z.to_nat p
        | None => words 2 (Z.to_nat (w * h)) slot !! Z.to_nat (y * w + x)
        end.
Proof. apply jf_raw_spec. Qed.

(** The converter keeps the promise the loop relies on. *)
Lemma jf_image_converter config id s e c :
  jf_placed config id s e -> JfConverter_new config id = Ret c ->
  ImageConverter (jf_convert_frame c) (2 * jf.MODULE_N_PIXELS)
    (2 * (image_pixel_width config * image_pixel_height config)).
Proof.
  intros Hp Hc frame old Hf Ho. unfold jf_convert_frame. rewrite mem_read_full by done. cbn [obind].
  destruct (jf_raw_spec config id s e (words 2 (Z.to_nat jf.MODULE_N_PIXELS) frame) old Hp)
    as (c' & o & Hc' & Hcv & Hl & _); [unfold zlen; by rewrite length_words, Z2Nat.id|done|].
  rewrite Hc in Hc'. injection Hc' as <-. exists (unwords 2 o). split; [done|].
  unfold zlen in *. rewrite length_unwords. lia.
Qed.

(** C19: with gains, every module pixel of the image becomes the calibrated value
    (reading - pedestal) * gain as a [float], with gain and pedestal of the gain stage in the
    pixel's two top bits; no other value is written, and no vector is read beyond its end. *)
Theorem jf_gain_convert_correct config id s e g p input slot :
  jf_placed config id s e ->
  let w := image_pixel_width config in let h := image_pixel_height config in
  length g = 3%nat -> length p = 3%nat ->
  Forall (fun v => jf.MODULE_N_PIXELS <= zlen v) g -> Forall (fun v => jf.MODULE_N_PIXELS <= zlen v) p ->
  zlen (gain_of g 0) = zlen (gain_of p 0) ->
  zlen input = jf.MODULE_N_PIXELS -> (w * h) mod 2 = 0 -> zlen slot = 4 * (w * h) ->
  exists c values, JfConverter_new_gains g p config id = Ret c /\
    jf_convert c input slot = Ret (unwords 4 values) /\ zlen values = w * h /\
    forall y x, 0 <= y < h -> 0 <= x < w ->
      values !! Z.to_nat (y * w + x) =
        match jf_pixel_at s y x with
        | Some q => jf_calibrated (gain_table g p) q <$> input !! Z.to_nat q
        | None => words 4 (Z.to_nat (w * h)) slot !! Z.to_nat (y * w + x)
        end.
Proof.
  intros Hp w h Hg3 Hp3 Hg Hpd Heq Hin Heven Hslot.
  change jf.MODULE_N_PIXELS with 524288 in *.
  pose proof (jf_placed_bounds config id s e Hp) as (Hw & Hh & _).
  assert (Hpos : 0 <= w * h) by (unfold w, h; nia).
  set (gp := gain_table g p).
  set (c := {| gains_and_pedestals := gp; row_jump := w; start_index := py s * w + px s;
               with_gains := true |}).
  assert (Hc : JfConverter_new_gains g p config id = Ret c).
  { unfold JfConverter_new_gains. rewrite (jf_converter_numbers config id s e Hp). cbn [obind].
    unfold test_gains_and_pedestals_consistency. by rewrite Heq, Z.eqb_refl. }
  assert (Hz : forall i, 0 <= i < 3 -> 524288 <= zlen (zip (gain_of g i) (gain_of p i))).
  { intros i Hi. pose proof (length_gain_of g i Hg Hg3 Hi). pose proof (length_gain_of p i Hpd Hp3 Hi).
    unfold zlen in *. rewrite length_zip_with. lia. }
  assert (Hgp : Forall (fun v => 524288 <= zlen v) gp).
  { unfold gp, gain_table. cbn [fmap list_fmap].
    repeat (apply Forall_cons_2; [apply Hz; lia|]). apply Forall_nil_2. }
  destruct (convert_gains_spec config id s e Hp c input (words 4 (Z.to_nat (w * h)) slot))
    as (o & Ho & Hl & Hv); try done.
  { unfold zlen. rewrite length_words. fold w h. lia. }
  exists c, o. split; [done|]. split_and!; [|rewrite Hl; unfold zlen; rewrite length_words; lia|exact Hv].
  assert (Hnf : (length slot / 2 / 4 * 2)%nat = Z.to_nat (w * h)).
  { rewrite (half_length slot (2 * (w * h))) by lia.
    pose proof (Z.div_mod (w * h) 2 ltac:(lia)) as Hd. rewrite Heven, Z.add_0_r in Hd. rewrite Hd.
    apply even_half. apply Z.div_pos; lia. }
  unfold jf_convert. change (with_gains c) with true. cbv iota. rewrite Hnf. unfold convert_data, test_data_size_consistency.
  assert (E0 : default [] (gp !! 0%nat) = zip (gain_of g 0) (gain_of p 0)) by done.
  change (gains_and_pedestals c) with gp. rewrite E0, Hin. unfold throw_if.
  rewrite (proj2 (Z.ltb_ge _ _)) by (apply Hz; lia). cbn [obind]. rewrite Ho. cbn [obind].
  rewrite drop_ge by (unfold zlen in Hslot; lia). by rewrite app_nil_r.
Qed.

(** Two modules side by side; the witnesses place the right one. *)
Definition demo_jf_config : DetectorConfig :=
  {| Config.detector_name := "JF"; detector_type := "jungfrau-raw"; n_modules := 2; bit_depth := 16;
     image_pixel_height := 512; image_pixel_width := 2048; start_udp_port := 50000;
     log_level := "info"; stats_collection_period := 10;
     max_number_of_forwarders_spawned := 8; use_all_forwarders := true;
     gpfs_block_size := 16777216; sender_sends_full_images := false;
     module_sync_queue_size := 50; number_of_writers := 0; ram_buffer_gb := 0;
     delay_filter_timeout := 10; switch_user_active := false; ls_configs := ∅;
     modules := {[ 0 := ({| px := 0; py := 0 |}, {| px := 1023; py := 511 |});
                   1 := ({| px := 1024; py := 0 |}, {| px := 2047; py := 511 |}) ]} |}.

Lemma demo_jf_placed :
  jf_placed demo_jf_config 1 {| px := 1024; py := 0 |} {| px := 2047; py := 511 |}.
Proof. split; vm_compute; repeat split; discriminate || reflexivity. Qed.

Lemma jf_raw_convert_correct_witness :
  exists c (pixels : list Z), JfConverter_new demo_jf_config 1 = Ret c /\
    jf_convert c (replicate (Z.to_nat 524288) 9) (replicate (Z.to_nat 2097152) 0)
      = Ret (unwords 2 pixels) /\
    pixels !! Z.to_nat (3 * 2048 + 1029) = replicate (Z.to_nat 524288) 9 !! Z.to_nat 3077.
Proof.
  destruct (jf_raw_convert_correct demo_jf_config 1 {| px := 1024; py := 0 |} {| px := 2047; py := 511 |}
              (replicate (Z.to_nat 524288) 9) (replicate (Z.to_nat 2097152) 0))
    as (c & o & Hc & Ho & _ & Hv).
  - apply demo_jf_placed.
  - by rewrite zlen_replicate, Z2Nat.id by lia.
  - by rewrite zlen_replicate, Z2Nat.id by lia.
  - exists c, o. split; [exact Hc|]. split; [exact Ho|].
    apply (Hv 3 1029); cbn [demo_jf_config image_pixel_height image_pixel_width]; lia.
Defined.

Lemma jf_gain_convert_correct_witness :
  let v x := replicate (Z.to_nat 524288) (f_of_int x) in
  exists c (values : list Z), JfConverter_new_gains [v 2; v 3; v 4] [v 1; v 1; v 1] demo_jf_config 1 = Ret c /\
    jf_convert c (replicate (Z.to_nat 524288) 16393) (replicate (Z.to_nat 4194304) 0)
      = Ret (unwords 4 values) /\
    values !! Z.to_nat (3 * 2048 + 1029) = Some (f_bits (f_of_int 24)).
Proof.
  intros v.
  assert (Hlen : forall x, zlen (v x) = 524288)
    by (intros x; unfold v; by rewrite zlen_replicate, Z2Nat.id by lia).
  destruct (jf_gain_convert_correct demo_jf_config 1 {| px := 1024; py := 0 |} {| px := 2047; py := 511 |}
              [v 2; v 3; v 4] [v 1; v 1; v 1]
              (replicate (Z.to_nat 524288) 16393) (replicate (Z.to_nat 4194304) 0))
    as (c & o & Hc & Ho & _ & Hv).
  - apply demo_jf_placed.
  - reflexivity.
  - reflexivity.
  - repeat (apply Forall_cons_2; [rewrite Hlen; vm_compute; discriminate|]). apply Forall_nil_2.
  - repeat (apply Forall_cons_2; [rewrite Hlen; vm_compute; discriminate|]). apply Forall_nil_2.
  - change (gain_of [v 2; v 3; v 4] 0) with (v 2). change (gain_of [v 1; v 1; v 1] 0) with (v 1).
    by rewrite !Hlen.
  - by rewrite zlen_replicate, Z2Nat.id by lia.
  - reflexivity.
  - by rewrite zlen_replicate, Z2Nat.id by lia.
  - exists c, o. split; [exact Hc|]. split; [exact Ho|].
    specialize (Hv 3 1029). cbn [demo_jf_config image_pixel_height image_pixel_width] in Hv.
    rewrite Hv by lia. change (jf_pixel_at _ 3 1029) with (Some 3077). cbv iota.
    rewrite lookup_replicate_2 by lia. cbn [fmap option_fmap option_map]. reflexivity.
Defined.
